(** * Hubbub: the tokeniser and the foreign-content insertion mode

    A shallow embedding of [src/tokeniser/tokeniser.c] and of
    [src/treebuilder/in_foreign_content.c].  Every handler of the tokeniser
    is a function on an explicit tokeniser value; the calls made to the
    client's callbacks are recorded in a trace.  The input stream, the
    entity search and the element stack are collaborators whose code lives
    elsewhere; they are modelled from their documented contracts. *)

From Stdlib Require Import ZArith Lia Bool Ascii String.
From stdpp Require Import base option list.

Local Open Scope Z_scope.

(** ** Outcomes of a C call *)

(** A call either returns, or ends the process through [abort()], or does
    something the C standard leaves undefined (a call through a null
    function pointer, an array access out of bounds).  [Timeout] is not a
    behaviour of the program: it says that the budget of a model loop ran
    out. *)
Inductive result (A : Type) : Type :=
| Ok (a : A)
| Abort
| Undefined
| Timeout.
Arguments Ok {A} a.
Arguments Abort {A}.
Arguments Undefined {A}.
Arguments Timeout {A}.

#[export] Instance result_ret : MRet result := fun A a => Ok a.
#[export] Instance result_bind : MBind result := fun A B f m =>
  match m with
  | Ok a => f a
  | Abort => Abort
  | Undefined => Undefined
  | Timeout => Timeout
  end.

Definition of_option {A : Type} (o : option A) : result A :=
  match o with Some a => Ok a | None => Undefined end.

(** ** Machine integers and character constants *)

Definition u32 (x : Z) : Z := x mod 2 ^ 32.

(** The code of an ASCII character, as in a C character constant. *)
Definition chr (a : ascii) : Z := Z.of_N (N_of_ascii a).

Definition bytes_of_string (s : string) : list Z :=
  map chr (list_ascii_of_string s).

(** [c & ~0x20] on a 32-bit value. *)
Definition clear_0x20 (c : Z) : Z := Z.land c 0xFFFFFFDF.

(** The white space test that the handlers spell out:
    [c == '\t' || c == '\n' || c == '\v' || c == '\f' || c == ' ']. *)
Definition is_space (c : Z) : bool :=
  (c =? 9) || (c =? 10) || (c =? 11) || (c =? 12) || (c =? 32).

Definition is_upper (c : Z) : bool := (chr "A" <=? c) && (c <=? chr "Z").
Definition is_lower (c : Z) : bool := (chr "a" <=? c) && (c <=? chr "z").
Definition is_digit (c : Z) : bool := (chr "0" <=? c) && (c <=? chr "9").

(** ** Error codes *)

(** Modelled from the spec: [hubbub_error] is declared in a header that is
    not part of the sources at hand; these are the codes the sources name. *)
Inductive hubbub_error : Set :=
| HUBBUB_OK
| HUBBUB_NOMEM
| HUBBUB_BADPARM
| HUBBUB_INVALID
| HUBBUB_NEEDDATA.

#[export] Instance hubbub_error_eq_dec : EqDecision hubbub_error.
Proof. solve_decision. Defined.

(** ** Byte references *)

(** [hubbub_string]: an offset into the input buffer and a byte length. *)
Record hubbub_string : Set := mk_string {
  data_off : Z;
  len : Z
}.

(** ** The input stream *)

(** Modelled from the spec: UTF-8 encoding of one codepoint, as
    [replace_range] and [push_back] write it into the buffer. *)
Definition utf8_encode (c : Z) : list Z :=
  if c <? 0x80 then [c]
  else if c <? 0x800 then
    [Z.lor 0xC0 (Z.shiftr c 6); Z.lor 0x80 (Z.land c 0x3F)]
  else if c <? 0x10000 then
    [Z.lor 0xE0 (Z.shiftr c 12);
     Z.lor 0x80 (Z.land (Z.shiftr c 6) 0x3F);
     Z.lor 0x80 (Z.land c 0x3F)]
  else
    [Z.lor 0xF0 (Z.land (Z.shiftr c 18) 0x07);
     Z.lor 0x80 (Z.land (Z.shiftr c 12) 0x3F);
     Z.lor 0x80 (Z.land (Z.shiftr c 6) 0x3F);
     Z.lor 0x80 (Z.land c 0x3F)].

(** A continuation byte of a UTF-8 sequence. *)
Definition is_continuation (b : Z) : bool := (0x80 <=? b) && (b <? 0xC0).

(** Modelled from the spec: decoding of the codepoint that starts a byte
    sequence, with its byte length.  [None] when no complete codepoint is
    there.  A byte that does not start a well-formed sequence in shortest
    form reads as U+FFFD. *)
Definition utf8_decode (bs : list Z) : option (Z * nat) :=
  match bs with
  | [] => None
  | b0 :: tl =>
    if (0 <=? b0) && (b0 <? 0x80) then Some (b0, 1%nat)
    else if (0xC2 <=? b0) && (b0 <? 0xE0) then
      match tl with
      | b1 :: _ =>
        let c := Z.lor (Z.shiftl (Z.land b0 0x1F) 6) (Z.land b1 0x3F) in
        if is_continuation b1 && (0x80 <=? c) then Some (c, 2%nat)
        else Some (0xFFFD, 1%nat)
      | _ => None
      end
    else if (0xE0 <=? b0) && (b0 <? 0xF0) then
      match tl with
      | b1 :: b2 :: _ =>
        let c := Z.lor (Z.shiftl (Z.land b0 0x0F) 12)
                   (Z.lor (Z.shiftl (Z.land b1 0x3F) 6) (Z.land b2 0x3F)) in
        if is_continuation b1 && is_continuation b2 && (0x800 <=? c)
        then Some (c, 3%nat)
        else Some (0xFFFD, 1%nat)
      | _ => None
      end
    else if (0xF0 <=? b0) && (b0 <? 0xF8) then
      match tl with
      | b1 :: b2 :: b3 :: _ =>
        let c := Z.lor (Z.shiftl (Z.land b0 0x07) 18)
                   (Z.lor (Z.shiftl (Z.land b1 0x3F) 12)
                     (Z.lor (Z.shiftl (Z.land b2 0x3F) 6)
                            (Z.land b3 0x3F))) in
        if is_continuation b1 && is_continuation b2 && is_continuation b3
           && (0x10000 <=? c)
        then Some (c, 4%nat)
        else Some (0xFFFD, 1%nat)
      | _ => None
      end
    else Some (0xFFFD, 1%nat)
  end.

(** Modelled from the spec: the input stream is a buffer of UTF-8 bytes
    with a cursor; [had_eof] tells whether the end of the buffer is the
    definitive end of the document or only the end of the data supplied so
    far. *)
Record hubbub_inputstream : Set := mk_stream {
  buffer : list Z;
  cursor : nat;
  had_eof : bool
}.

(** Modelled from the spec: the two sentinels of [peek], distinct from
    every codepoint. *)
Definition HUBBUB_INPUTSTREAM_EOF : Z := 0xFFFFFFFF.
Definition HUBBUB_INPUTSTREAM_OOD : Z := 0xFFFFFFFE.

Definition stream_current (s : hubbub_inputstream) : option (Z * nat) :=
  utf8_decode (drop (cursor s) (buffer s)).

(** Modelled from the spec: [peek() -> codepoint | EOF | OOD]. *)
Definition hubbub_inputstream_peek (s : hubbub_inputstream) : Z :=
  match stream_current s with
  | Some (c, _) => c
  | None => if had_eof s then HUBBUB_INPUTSTREAM_EOF
            else HUBBUB_INPUTSTREAM_OOD
  end.

(** Modelled from the spec: [cur_pos() -> (offset, byte length of the
    peeked codepoint)]. *)
Definition hubbub_inputstream_cur_pos (s : hubbub_inputstream) : Z * Z :=
  (Z.of_nat (cursor s),
   match stream_current s with
   | Some (_, n) => Z.of_nat n
   | None => 0
   end).

(** Modelled from the spec: [advance()] moves the cursor past the last
    peeked codepoint. *)
Definition hubbub_inputstream_advance (s : hubbub_inputstream)
  : hubbub_inputstream :=
  match stream_current s with
  | Some (_, n) => mk_stream (buffer s) (cursor s + n)%nat (had_eof s)
  | None => s
  end.

Definition map_at (f : Z -> Z) (i : nat) (l : list Z) : list Z :=
  match l !! i with
  | Some b => <[i := f b]> l
  | None => l
  end.

(** Modelled from the spec: [lowercase()] and [uppercase()] mutate the
    byte at the cursor. *)
Definition hubbub_inputstream_lowercase (s : hubbub_inputstream)
  : hubbub_inputstream :=
  mk_stream (map_at (fun b => if is_upper b then b + 32 else b)
               (cursor s) (buffer s))
            (cursor s) (had_eof s).

Definition hubbub_inputstream_uppercase (s : hubbub_inputstream)
  : hubbub_inputstream :=
  mk_stream (map_at (fun b => if is_lower b then b - 32 else b)
               (cursor s) (buffer s))
            (cursor s) (had_eof s).

(** Modelled from the spec: [push_back(codepoint)] prepends a synthetic
    codepoint to what is left of the stream.  The buffer is a list and
    has no address: the move of the buffer that the stream may make when
    it grows, and the call of the buffer-moved handler that follows it,
    are not modelled. *)
Definition hubbub_inputstream_push_back (s : hubbub_inputstream) (c : Z)
  : hubbub_inputstream :=
  mk_stream (take (cursor s) (buffer s) ++ utf8_encode c
               ++ drop (cursor s) (buffer s))
            (cursor s) (had_eof s).

(** Modelled from the spec: [rewind(n_bytes)] moves the cursor backwards;
    moving before the start of the buffer is refused. *)
Definition hubbub_inputstream_rewind (s : hubbub_inputstream) (n : Z)
  : hubbub_error * hubbub_inputstream :=
  if (0 <=? n) && (n <=? Z.of_nat (cursor s)) then
    (HUBBUB_OK, mk_stream (buffer s) (cursor s - Z.to_nat n)%nat (had_eof s))
  else (HUBBUB_INVALID, s).

(** The bytes of a range of the buffer. *)
Definition range_bytes (buf : list Z) (off n : Z) : list Z :=
  take (Z.to_nat n) (drop (Z.to_nat off) buf).

Definition ascii_fold (b : Z) : Z := if is_upper b then b + 32 else b.

(** Modelled from the spec: [compare_range_ci], [compare_range_cs] and
    [compare_range_ascii] return 0 when the ranges match (the first one up
    to ASCII case) and a non-zero value otherwise. *)
Definition hubbub_inputstream_compare_range_ci (s : hubbub_inputstream)
    (r1 r2 n : Z) : Z :=
  if decide (map ascii_fold (range_bytes (buffer s) r1 n)
             = map ascii_fold (range_bytes (buffer s) r2 n))
  then 0 else 1.

Definition hubbub_inputstream_compare_range_cs (s : hubbub_inputstream)
    (r1 r2 n : Z) : Z :=
  if decide (range_bytes (buffer s) r1 n = range_bytes (buffer s) r2 n)
  then 0 else 1.

Definition hubbub_inputstream_compare_range_ascii (s : hubbub_inputstream)
    (off n : Z) (data : list Z) (dlen : Z) : Z :=
  if negb (n =? dlen) then 1
  else if decide (range_bytes (buffer s) off n = take (Z.to_nat dlen) data)
  then 0 else 1.

(** Modelled from the spec: [replace_range(off, len, codepoint)] replaces a
    byte range in place with the UTF-8 encoding of one codepoint.  As for
    [push_back], a move of the buffer and the call of the buffer-moved
    handler are not modelled. *)
Definition hubbub_inputstream_replace_range (s : hubbub_inputstream)
    (off n : Z) (c : Z) : hubbub_error * hubbub_inputstream :=
  (HUBBUB_OK,
   mk_stream (take (Z.to_nat off) (buffer s) ++ utf8_encode c
                ++ drop (Z.to_nat off + Z.to_nat n) (buffer s))
             (cursor s) (had_eof s)).

(** ** Tokens *)

(** Modelled from the spec: the token types, content models, namespaces
    and token structures are declared in headers that are not part of the
    sources at hand; the fields are the ones the sources read and write. *)
Inductive hubbub_token_type : Set :=
| HUBBUB_TOKEN_DOCTYPE
| HUBBUB_TOKEN_START_TAG
| HUBBUB_TOKEN_END_TAG
| HUBBUB_TOKEN_COMMENT
| HUBBUB_TOKEN_CHARACTER
| HUBBUB_TOKEN_EOF.

#[export] Instance hubbub_token_type_eq_dec : EqDecision hubbub_token_type.
Proof. solve_decision. Defined.

Inductive hubbub_content_model : Set :=
| HUBBUB_CONTENT_MODEL_PCDATA
| HUBBUB_CONTENT_MODEL_RCDATA
| HUBBUB_CONTENT_MODEL_CDATA
| HUBBUB_CONTENT_MODEL_PLAINTEXT.

#[export] Instance hubbub_content_model_eq_dec
  : EqDecision hubbub_content_model.
Proof. solve_decision. Defined.

Inductive hubbub_ns : Set :=
| HUBBUB_NS_HTML
| HUBBUB_NS_MATHML
| HUBBUB_NS_SVG
| HUBBUB_NS_XLINK
| HUBBUB_NS_XML
| HUBBUB_NS_XMLNS.

#[export] Instance hubbub_ns_eq_dec : EqDecision hubbub_ns.
Proof. solve_decision. Defined.

Record hubbub_attribute : Set := mk_attribute {
  attr_name : hubbub_string;
  attr_value : hubbub_string
}.

(** [attributes] is the array the C field points to; [n_attributes] says
    how many of its slots are in use. *)
Record hubbub_tag : Set := mk_tag {
  tag_ns : hubbub_ns;
  tag_name : hubbub_string;
  n_attributes : Z;
  attributes : list hubbub_attribute;
  self_closing : bool
}.

Record hubbub_doctype : Set := mk_doctype {
  doctype_name : hubbub_string;
  public_id : option hubbub_string;
  system_id : option hubbub_string;
  force_quirks : bool;
  correct : bool
}.

(** The union [data] of a token. *)
Inductive hubbub_token_data : Set :=
| data_doctype (d : hubbub_doctype)
| data_tag (t : hubbub_tag)
| data_comment (s : hubbub_string)
| data_character (s : hubbub_string)
| data_none.

Record hubbub_token : Set := mk_token {
  token_type : hubbub_token_type;
  token_data : hubbub_token_data
}.

(** ** Tokeniser state *)

Inductive hubbub_tokeniser_state : Set :=
| HUBBUB_TOKENISER_STATE_DATA
| HUBBUB_TOKENISER_STATE_ENTITY_DATA
| HUBBUB_TOKENISER_STATE_TAG_OPEN
| HUBBUB_TOKENISER_STATE_CLOSE_TAG_OPEN
| HUBBUB_TOKENISER_STATE_CLOSE_TAG_MATCH
| HUBBUB_TOKENISER_STATE_TAG_NAME
| HUBBUB_TOKENISER_STATE_BEFORE_ATTRIBUTE_NAME
| HUBBUB_TOKENISER_STATE_ATTRIBUTE_NAME
| HUBBUB_TOKENISER_STATE_AFTER_ATTRIBUTE_NAME
| HUBBUB_TOKENISER_STATE_BEFORE_ATTRIBUTE_VALUE
| HUBBUB_TOKENISER_STATE_ATTRIBUTE_VALUE_DQ
| HUBBUB_TOKENISER_STATE_ATTRIBUTE_VALUE_SQ
| HUBBUB_TOKENISER_STATE_ATTRIBUTE_VALUE_UQ
| HUBBUB_TOKENISER_STATE_ENTITY_IN_ATTRIBUTE_VALUE
| HUBBUB_TOKENISER_STATE_BOGUS_COMMENT
| HUBBUB_TOKENISER_STATE_MARKUP_DECLARATION_OPEN
| HUBBUB_TOKENISER_STATE_COMMENT_START
| HUBBUB_TOKENISER_STATE_COMMENT
| HUBBUB_TOKENISER_STATE_COMMENT_DASH
| HUBBUB_TOKENISER_STATE_COMMENT_END
| HUBBUB_TOKENISER_STATE_MATCH_DOCTYPE
| HUBBUB_TOKENISER_STATE_DOCTYPE
| HUBBUB_TOKENISER_STATE_BEFORE_DOCTYPE_NAME
| HUBBUB_TOKENISER_STATE_DOCTYPE_NAME
| HUBBUB_TOKENISER_STATE_AFTER_DOCTYPE_NAME
| HUBBUB_TOKENISER_STATE_BOGUS_DOCTYPE
| HUBBUB_TOKENISER_STATE_NUMBERED_ENTITY
| HUBBUB_TOKENISER_STATE_NAMED_ENTITY.

#[export] Instance hubbub_tokeniser_state_eq_dec
  : EqDecision hubbub_tokeniser_state.
Proof. solve_decision. Defined.

(** The [match_entity] member of the context.  [search_context] is the
    cursor of the named-entity search ([void *context] in C), [None] for
    the null pointer. *)
Record match_entity_context : Set := mk_match_entity {
  str : hubbub_string;
  base : Z;
  codepoint : Z;
  had_data : bool;
  return_state : hubbub_tokeniser_state;
  complete : bool;
  done_setup : bool;
  search_context : option (list Z);
  prev_len : Z
}.

Record hubbub_tokeniser_context : Set := mk_context {
  current_tag_type : hubbub_token_type;
  current_tag : hubbub_tag;
  current_comment : hubbub_string;
  current_doctype : hubbub_doctype;
  current_chars : hubbub_string;
  prev_state : hubbub_tokeniser_state;
  close_tag_match_tag : hubbub_string;
  match_doctype_count : Z;
  match_entity : match_entity_context
}.

(** A call made to one of the client's callbacks.  A function pointer is a
    number, [None] being the null pointer; the client data pointers are
    opaque numbers.  A token call records the token as the handler receives
    it and the bytes of the input buffer at that moment, which is what its
    spans refer to. *)
Inductive callback_call : Set :=
| token_call (handler : nat) (token : hubbub_token) (pw : Z) (buf : list Z)
| buffer_call (handler : nat) (buffer_ptr : option Z) (buffer_len : Z)
    (pw : Z).

(** [struct hubbub_tokeniser].  The input stream it points to is owned by
    no one else while the tokeniser runs and is kept by value.  The
    allocator is not modelled: growing the attribute array always
    succeeds.  [calls] is the trace of the callback calls made so far. *)
Record hubbub_tokeniser : Set := mk_tokeniser {
  state : hubbub_tokeniser_state;
  content_model : hubbub_content_model;
  input : hubbub_inputstream;
  input_buffer : option Z;
  input_buffer_len : Z;
  context : hubbub_tokeniser_context;
  token_handler : option nat;
  token_pw : Z;
  buffer_handler : option nat;
  buffer_pw : Z;
  error_handler : option nat;
  error_pw : Z;
  calls : list callback_call
}.

(** *** Field updates *)

Definition set_state (v : hubbub_tokeniser_state) (t : hubbub_tokeniser) :=
  mk_tokeniser v (content_model t) (input t) (input_buffer t)
    (input_buffer_len t) (context t) (token_handler t) (token_pw t)
    (buffer_handler t) (buffer_pw t) (error_handler t) (error_pw t)
    (calls t).

Definition set_content_model (v : hubbub_content_model)
    (t : hubbub_tokeniser) :=
  mk_tokeniser (state t) v (input t) (input_buffer t)
    (input_buffer_len t) (context t) (token_handler t) (token_pw t)
    (buffer_handler t) (buffer_pw t) (error_handler t) (error_pw t)
    (calls t).

Definition set_input (v : hubbub_inputstream) (t : hubbub_tokeniser) :=
  mk_tokeniser (state t) (content_model t) v (input_buffer t)
    (input_buffer_len t) (context t) (token_handler t) (token_pw t)
    (buffer_handler t) (buffer_pw t) (error_handler t) (error_pw t)
    (calls t).

Definition set_input_buffer (p : option Z) (n : Z) (t : hubbub_tokeniser) :=
  mk_tokeniser (state t) (content_model t) (input t) p n
    (context t) (token_handler t) (token_pw t)
    (buffer_handler t) (buffer_pw t) (error_handler t) (error_pw t)
    (calls t).

Definition set_context (v : hubbub_tokeniser_context)
    (t : hubbub_tokeniser) :=
  mk_tokeniser (state t) (content_model t) (input t) (input_buffer t)
    (input_buffer_len t) v (token_handler t) (token_pw t)
    (buffer_handler t) (buffer_pw t) (error_handler t) (error_pw t)
    (calls t).

Definition set_token_handler (h : option nat) (pw : Z)
    (t : hubbub_tokeniser) :=
  mk_tokeniser (state t) (content_model t) (input t) (input_buffer t)
    (input_buffer_len t) (context t) h pw
    (buffer_handler t) (buffer_pw t) (error_handler t) (error_pw t)
    (calls t).

Definition set_buffer_handler (h : option nat) (pw : Z)
    (t : hubbub_tokeniser) :=
  mk_tokeniser (state t) (content_model t) (input t) (input_buffer t)
    (input_buffer_len t) (context t) (token_handler t) (token_pw t)
    h pw (error_handler t) (error_pw t) (calls t).

Definition set_error_handler (h : option nat) (pw : Z)
    (t : hubbub_tokeniser) :=
  mk_tokeniser (state t) (content_model t) (input t) (input_buffer t)
    (input_buffer_len t) (context t) (token_handler t) (token_pw t)
    (buffer_handler t) (buffer_pw t) h pw (calls t).

Definition add_call (c : callback_call) (t : hubbub_tokeniser) :=
  mk_tokeniser (state t) (content_model t) (input t) (input_buffer t)
    (input_buffer_len t) (context t) (token_handler t) (token_pw t)
    (buffer_handler t) (buffer_pw t) (error_handler t) (error_pw t)
    (calls t ++ [c]).

Definition set_current_tag_type (v : hubbub_token_type)
    (t : hubbub_tokeniser) :=
  let c := context t in
  set_context (mk_context v (current_tag c) (current_comment c)
    (current_doctype c) (current_chars c) (prev_state c)
    (close_tag_match_tag c) (match_doctype_count c) (match_entity c)) t.

Definition set_current_tag (v : hubbub_tag) (t : hubbub_tokeniser) :=
  let c := context t in
  set_context (mk_context (current_tag_type c) v (current_comment c)
    (current_doctype c) (current_chars c) (prev_state c)
    (close_tag_match_tag c) (match_doctype_count c) (match_entity c)) t.

Definition set_current_comment (v : hubbub_string) (t : hubbub_tokeniser) :=
  let c := context t in
  set_context (mk_context (current_tag_type c) (current_tag c) v
    (current_doctype c) (current_chars c) (prev_state c)
    (close_tag_match_tag c) (match_doctype_count c) (match_entity c)) t.

Definition set_current_doctype (v : hubbub_doctype) (t : hubbub_tokeniser) :=
  let c := context t in
  set_context (mk_context (current_tag_type c) (current_tag c)
    (current_comment c) v (current_chars c) (prev_state c)
    (close_tag_match_tag c) (match_doctype_count c) (match_entity c)) t.

Definition set_current_chars (v : hubbub_string) (t : hubbub_tokeniser) :=
  let c := context t in
  set_context (mk_context (current_tag_type c) (current_tag c)
    (current_comment c) (current_doctype c) v (prev_state c)
    (close_tag_match_tag c) (match_doctype_count c) (match_entity c)) t.

Definition set_prev_state (v : hubbub_tokeniser_state)
    (t : hubbub_tokeniser) :=
  let c := context t in
  set_context (mk_context (current_tag_type c) (current_tag c)
    (current_comment c) (current_doctype c) (current_chars c) v
    (close_tag_match_tag c) (match_doctype_count c) (match_entity c)) t.

Definition set_close_tag_match_tag (v : hubbub_string)
    (t : hubbub_tokeniser) :=
  let c := context t in
  set_context (mk_context (current_tag_type c) (current_tag c)
    (current_comment c) (current_doctype c) (current_chars c) (prev_state c)
    v (match_doctype_count c) (match_entity c)) t.

Definition set_match_doctype_count (v : Z) (t : hubbub_tokeniser) :=
  let c := context t in
  set_context (mk_context (current_tag_type c) (current_tag c)
    (current_comment c) (current_doctype c) (current_chars c) (prev_state c)
    (close_tag_match_tag c) v (match_entity c)) t.

Definition set_match_entity (v : match_entity_context)
    (t : hubbub_tokeniser) :=
  let c := context t in
  set_context (mk_context (current_tag_type c) (current_tag c)
    (current_comment c) (current_doctype c) (current_chars c) (prev_state c)
    (close_tag_match_tag c) (match_doctype_count c) v) t.

(** Updates of the members of [match_entity]. *)
Definition me_set_str (v : hubbub_string) (m : match_entity_context) :=
  mk_match_entity v (base m) (codepoint m) (had_data m) (return_state m)
    (complete m) (done_setup m) (search_context m) (prev_len m).
Definition me_set_base (v : Z) (m : match_entity_context) :=
  mk_match_entity (str m) v (codepoint m) (had_data m) (return_state m)
    (complete m) (done_setup m) (search_context m) (prev_len m).
Definition me_set_codepoint (v : Z) (m : match_entity_context) :=
  mk_match_entity (str m) (base m) v (had_data m) (return_state m)
    (complete m) (done_setup m) (search_context m) (prev_len m).
Definition me_set_had_data (v : bool) (m : match_entity_context) :=
  mk_match_entity (str m) (base m) (codepoint m) v (return_state m)
    (complete m) (done_setup m) (search_context m) (prev_len m).
Definition me_set_complete (v : bool) (m : match_entity_context) :=
  mk_match_entity (str m) (base m) (codepoint m) (had_data m)
    (return_state m) v (done_setup m) (search_context m) (prev_len m).
Definition me_set_done_setup (v : bool) (m : match_entity_context) :=
  mk_match_entity (str m) (base m) (codepoint m) (had_data m)
    (return_state m) (complete m) v (search_context m) (prev_len m).
Definition me_set_search_context (v : option (list Z))
    (m : match_entity_context) :=
  mk_match_entity (str m) (base m) (codepoint m) (had_data m)
    (return_state m) (complete m) (done_setup m) v (prev_len m).
Definition me_set_prev_len (v : Z) (m : match_entity_context) :=
  mk_match_entity (str m) (base m) (codepoint m) (had_data m)
    (return_state m) (complete m) (done_setup m) (search_context m) v.

(** [s.len += n] *)
Definition add_len (n : Z) (s : hubbub_string) : hubbub_string :=
  mk_string (data_off s) (len s + n).

(** Shorthands for the calls on [tokeniser->input]. *)
Definition peek (t : hubbub_tokeniser) : Z :=
  hubbub_inputstream_peek (input t).
Definition cur_pos (t : hubbub_tokeniser) : Z * Z :=
  hubbub_inputstream_cur_pos (input t).
Definition advance (t : hubbub_tokeniser) : hubbub_tokeniser :=
  set_input (hubbub_inputstream_advance (input t)) t.
Definition lowercase (t : hubbub_tokeniser) : hubbub_tokeniser :=
  set_input (hubbub_inputstream_lowercase (input t)) t.
Definition uppercase (t : hubbub_tokeniser) : hubbub_tokeniser :=
  set_input (hubbub_inputstream_uppercase (input t)) t.
Definition push_back (c : Z) (t : hubbub_tokeniser) : hubbub_tokeniser :=
  set_input (hubbub_inputstream_push_back (input t) c) t.

(** ** Emitting tokens *)

(** [memmove(&attrs[k], &attrs[k+1], move * sizeof(hubbub_attribute))]:
    [move] slots slide down by one; the slots after them keep their old
    content.  A move that stays inside the array is what C does; one
    that runs past its end is cut short here, where C reads and writes
    memory behind the array. *)
Definition memmove_attrs (attrs : list hubbub_attribute) (k move : nat)
  : list hubbub_attribute :=
  take k attrs ++ take move (drop (S k) attrs) ++ drop (k + move) attrs.

(** The inner [for (j = 0; j < n_attributes; j++)] loop of the duplicate
    scan, for a fixed [i].  Every round increments [j] and [n_attributes]
    never grows, so a budget of initial [n_attributes + 1] rounds is
    enough.  [move] counts slots here; in C it counts bytes, the count
    of slots times the size of a slot, wrapped to 32 bits. *)
Fixpoint discard_duplicates_inner (fuel : nat) (inp : hubbub_inputstream)
    (i j n_attributes : Z) (attrs : list hubbub_attribute)
  : result (Z * list hubbub_attribute) :=
  match fuel with
  | O => Timeout
  | S fuel' =>
    if j <? n_attributes then
      if j =? i then
        discard_duplicates_inner fuel' inp i (j + 1) n_attributes attrs
      else
        ai ← of_option (attrs !! Z.to_nat i);
        aj ← of_option (attrs !! Z.to_nat j);
        if negb (len (attr_name ai) =? len (attr_name aj))
           || negb (hubbub_inputstream_compare_range_cs inp
                      (data_off (attr_name ai)) (data_off (attr_name aj))
                      (len (attr_name ai)) =? 0)
        then
          (* Attributes don't match *)
          discard_duplicates_inner fuel' inp i (j + 1) n_attributes attrs
        else
          let k := if i <? j then j else i in
          (* Calculate amount to move *)
          let move := u32 (n_attributes - 1 - k) in
          let attrs' :=
            if 0 <? move
            then memmove_attrs attrs (Z.to_nat k) (Z.to_nat move)
            else attrs in
          (* And reduce the number of attributes *)
          discard_duplicates_inner fuel' inp i (j + 1)
            (u32 (n_attributes - 1)) attrs'
    else Ok (n_attributes, attrs)
  end.

(** The outer [for (i = 0; i < n_attributes; i++)] loop. *)
Fixpoint discard_duplicates (fuel : nat) (inp : hubbub_inputstream)
    (i n_attributes : Z) (attrs : list hubbub_attribute)
  : result (Z * list hubbub_attribute) :=
  match fuel with
  | O => Timeout
  | S fuel' =>
    if i <? n_attributes then
      '(n', attrs') ← discard_duplicates_inner (S (Z.to_nat n_attributes))
                        inp i 0 n_attributes attrs;
      discard_duplicates fuel' inp (i + 1) n' attrs'
    else Ok (n_attributes, attrs)
  end.

(** [hubbub_tokeniser_emit_token].  Both arguments are pointers and may be
    null.  The function returns nothing; what it leaves behind is the
    tokeniser (with one more call in its trace when the handler ran) and
    the token, whose attribute count and attribute array it edits in
    place.  The call of the handler is recorded and nothing more: what
    the handler does to the tokeniser in turn, such as setting the
    content model, is a step of the client and is written as one where a
    scenario needs it. *)
Definition hubbub_tokeniser_emit_token (tokeniser : option hubbub_tokeniser)
    (token : option hubbub_token)
  : result (option hubbub_tokeniser * option hubbub_token) :=
  match tokeniser, token with
  | Some t, Some tok =>
    match token_handler t with
    | None =>
      (* Nothing to do if there's no registered handler *)
      Ok (tokeniser, token)
    | Some handler =>
      tok' ←
        (if bool_decide (token_type tok = HUBBUB_TOKEN_START_TAG)
            || bool_decide (token_type tok = HUBBUB_TOKEN_END_TAG)
         then
           match token_data tok with
           | data_tag tag =>
             (* Discard duplicate attributes *)
             '(n, attrs) ← discard_duplicates
                             (S (Z.to_nat (n_attributes tag))) (input t)
                             0 (n_attributes tag) (attributes tag);
             Ok (mk_token (token_type tok)
                   (data_tag (mk_tag (tag_ns tag) (tag_name tag) n attrs
                                (self_closing tag))))
           | _ => Undefined
           end
         else Ok tok);
      (* Finally, emit token *)
      Ok (Some (add_call (token_call handler tok' (token_pw t)
                            (buffer (input t))) t),
          Some tok')
    end
  | _, _ => Ok (tokeniser, token)
  end.

(** The call [hubbub_tokeniser_emit_token(tokeniser, &token)] as the
    handlers make it, on the tokeniser at hand and a local token. *)
Definition emit (token : hubbub_token) (t : hubbub_tokeniser)
  : result (hubbub_tokeniser * hubbub_token) :=
  r ← hubbub_tokeniser_emit_token (Some t) (Some token);
  match r with
  | (Some t', Some token') => Ok (t', token')
  | _ => Undefined
  end.

Definition emit_character (s : hubbub_string) (t : hubbub_tokeniser)
  : result hubbub_tokeniser :=
  r ← emit (mk_token HUBBUB_TOKEN_CHARACTER (data_character s)) t;
  Ok r.1.

Definition emit_comment (s : hubbub_string) (t : hubbub_tokeniser)
  : result hubbub_tokeniser :=
  r ← emit (mk_token HUBBUB_TOKEN_COMMENT (data_comment s)) t;
  Ok r.1.

Definition emit_doctype (d : hubbub_doctype) (t : hubbub_tokeniser)
  : result hubbub_tokeniser :=
  r ← emit (mk_token HUBBUB_TOKEN_DOCTYPE (data_doctype d)) t;
  Ok r.1.

(** The block "Emit current tag".  The token is a copy of the current tag,
    so its [attributes] pointer is the context's: the slots that the scan
    for duplicates moves are the context's slots, while the reduced count
    stays in the token. *)
Definition emit_current_tag (t : hubbub_tokeniser)
  : result hubbub_tokeniser :=
  let token := mk_token (current_tag_type (context t))
                 (data_tag (current_tag (context t))) in
  '(t', token') ← emit token t;
  match token_data token' with
  | data_tag tag' =>
    let ctag := current_tag (context t') in
    Ok (set_current_tag
          (mk_tag (tag_ns ctag) (tag_name ctag) (n_attributes ctag)
             (attributes tag') (self_closing ctag)) t')
  | _ => Ok t'
  end.

(** ** Creation and configuration *)

Definition zero_string : hubbub_string := mk_string 0 0.

(** [memset(&tok->context, 0, sizeof(hubbub_tokeniser_context))]: every
    enumeration reads as its first member. *)
Definition zero_context : hubbub_tokeniser_context :=
  mk_context HUBBUB_TOKEN_DOCTYPE
    (mk_tag HUBBUB_NS_HTML zero_string 0 [] false)
    zero_string
    (mk_doctype zero_string None None false false)
    zero_string
    HUBBUB_TOKENISER_STATE_DATA
    zero_string
    0
    (mk_match_entity zero_string 0 0 false HUBBUB_TOKENISER_STATE_DATA
       false false None 0).

(** [hubbub_tokeniser_create], for a non-null input stream and allocator
    and when neither the allocation nor the registration of the move
    handler fails. *)
Definition hubbub_tokeniser_create (inp : hubbub_inputstream)
  : hubbub_tokeniser :=
  mk_tokeniser HUBBUB_TOKENISER_STATE_DATA HUBBUB_CONTENT_MODEL_PCDATA
    inp None 0 zero_context None 0 None 0 None 0 [].

(** Modelled from the spec: the option types of [hubbub_tokeniser_setopt]
    are an enumeration of a header that is not part of the sources at hand.
    [HUBBUB_TOKENISER_OPT_OTHER] stands for any other integer that a C
    caller passes in its place. *)
Inductive hubbub_tokeniser_opttype : Set :=
| HUBBUB_TOKENISER_TOKEN_HANDLER
| HUBBUB_TOKENISER_BUFFER_HANDLER
| HUBBUB_TOKENISER_ERROR_HANDLER
| HUBBUB_TOKENISER_CONTENT_MODEL
| HUBBUB_TOKENISER_OPT_OTHER (n : Z).

(** Modelled from the spec: the members of the union
    [hubbub_tokeniser_optparams], each kept as a field of its own. *)
Record hubbub_tokeniser_optparams : Set := mk_optparams {
  params_token_handler : option nat * Z;
  params_buffer_handler : option nat * Z;
  params_error_handler : option nat * Z;
  params_content_model : hubbub_content_model
}.

(** [hubbub_tokeniser_setopt] *)
Definition hubbub_tokeniser_setopt (tokeniser : option hubbub_tokeniser)
    (type : hubbub_tokeniser_opttype)
    (params : option hubbub_tokeniser_optparams)
  : result (hubbub_error * option hubbub_tokeniser) :=
  match tokeniser, params with
  | Some t, Some p =>
    t' ←
      match type with
      | HUBBUB_TOKENISER_TOKEN_HANDLER =>
        Ok (set_token_handler (params_token_handler p).1
              (params_token_handler p).2 t)
      | HUBBUB_TOKENISER_BUFFER_HANDLER =>
        let t := set_buffer_handler (params_buffer_handler p).1
                   (params_buffer_handler p).2 t in
        match buffer_handler t with
        | Some h =>
          Ok (add_call (buffer_call h (input_buffer t)
                          (input_buffer_len t) (buffer_pw t)) t)
        | None => Undefined
        end
      | HUBBUB_TOKENISER_ERROR_HANDLER =>
        Ok (set_error_handler (params_error_handler p).1
              (params_error_handler p).2 t)
      | HUBBUB_TOKENISER_CONTENT_MODEL =>
        Ok (set_content_model (params_content_model p) t)
      | HUBBUB_TOKENISER_OPT_OTHER _ => Ok t
      end;
    Ok (HUBBUB_OK, Some t')
  | _, _ => Ok (HUBBUB_BADPARM, tokeniser)
  end.

(** [hubbub_tokeniser_buffer_moved_handler] *)
Definition hubbub_tokeniser_buffer_moved_handler (buffer_ptr : option Z)
    (n : Z) (tok : hubbub_tokeniser) : hubbub_tokeniser :=
  let tok := set_input_buffer buffer_ptr n tok in
  match buffer_handler tok with
  | Some h => add_call (buffer_call h buffer_ptr n (buffer_pw tok)) tok
  | None => tok
  end.

(** ** The state handlers *)

Definition is_sentinel (c : Z) : bool :=
  (c =? HUBBUB_INPUTSTREAM_EOF) || (c =? HUBBUB_INPUTSTREAM_OOD).

(** Number of bytes between the cursor and the end of the buffer.  A loop
    that advances the cursor in every round runs for at most that many
    rounds before [peek] returns a sentinel. *)
Definition remaining (t : hubbub_tokeniser) : nat :=
  (length (buffer (input t)) - cursor (input t))%nat.

(** How a [while] loop inside a handler ends: the handler returned from
    inside the loop, or the loop was left with the last value of [c]. *)
Inductive loop_exit : Set :=
| Returned (t : hubbub_tokeniser) (cont : bool)
| Left (t : hubbub_tokeniser) (c : Z).

(** [hubbub_inputstream_rewind] where the handler calls [abort()] on
    failure. *)
Definition rewind_or_abort (n : Z) (t : hubbub_tokeniser)
  : result hubbub_tokeniser :=
  let r := hubbub_inputstream_rewind (input t) n in
  if bool_decide (r.1 = HUBBUB_OK) then Ok (set_input r.2 t) else Abort.

(** [hubbub_inputstream_rewind] where the handler ignores the returned
    code. *)
Definition rewind_unchecked (n : Z) (t : hubbub_tokeniser)
  : hubbub_tokeniser :=
  set_input (hubbub_inputstream_rewind (input t) n).2 t.

Section Tokeniser.

(** The table of named entities: the bytes of each name and its
    codepoint.  The table itself is data of a file that is not part of the
    sources at hand. *)
Variable entities : list (list Z * Z).

(** Modelled from the spec: the named-entity search is a trie with a
    stepwise interface, [next(byte) -> {match, continue, dead}].  The
    context is the path walked so far, null at the root.  A step answers
    [HUBBUB_OK] with the codepoint when the path is an entity name,
    [HUBBUB_NEEDDATA] when it is a proper prefix of one, [HUBBUB_INVALID]
    when no name starts with it. *)
Definition hubbub_entities_search_step (c : Z) (context : option (list Z))
  : hubbub_error * Z * option (list Z) :=
  let path := default [] context ++ [c] in
  match list_find (fun e => e.1 = path) entities with
  | Some (_, e) => (HUBBUB_OK, e.2, Some path)
  | None =>
    if bool_decide (Exists (fun e => path `prefix_of` e.1) entities)
    then (HUBBUB_NEEDDATA, 0, Some path)
    else (HUBBUB_INVALID, 0, context)
  end.

(** The [while] loop of [hubbub_tokeniser_handle_data], with the last
    value of [c]. *)
Fixpoint handle_data_loop (fuel : nat) (t : hubbub_tokeniser)
  : result (hubbub_tokeniser * Z) :=
  match fuel with
  | O => Timeout
  | S fuel' =>
    let c := peek t in
    if is_sentinel c then Ok (t, c)
    else if (c =? chr "&")
         && (bool_decide (content_model t = HUBBUB_CONTENT_MODEL_PCDATA)
             || bool_decide (content_model t = HUBBUB_CONTENT_MODEL_RCDATA))
    then
      (* Don't eat the '&'; it'll be handled by entity consumption *)
      Ok (set_state HUBBUB_TOKENISER_STATE_ENTITY_DATA t, c)
    else if (c =? chr "<")
         && negb (bool_decide
                    (content_model t = HUBBUB_CONTENT_MODEL_PLAINTEXT))
    then
      t ← (if 0 <? len (current_chars (context t))
           then (* Emit any pending characters *)
                emit_character (current_chars (context t)) t
           else Ok t);
      (* Buffer '<' *)
      let t := set_current_chars
                 (mk_string (cur_pos t).1 (cur_pos t).2) t in
      let t := set_state HUBBUB_TOKENISER_STATE_TAG_OPEN t in
      Ok (advance t, c)
    else
      (* Accumulate characters into buffer *)
      let pos := (cur_pos t).1 in
      let t := if len (current_chars (context t)) =? 0
               then set_current_chars
                      (mk_string pos (len (current_chars (context t)))) t
               else t in
      let t := set_current_chars (add_len 1 (current_chars (context t))) t in
      handle_data_loop fuel' (advance t)
  end.

Definition hubbub_tokeniser_handle_data (tokeniser : hubbub_tokeniser)
  : result (hubbub_tokeniser * bool) :=
  (* Clear current characters *)
  let t := set_current_chars zero_string tokeniser in
  '(t, c) ← handle_data_loop (S (remaining t)) t;
  '(t, token_data) ←
    (if negb (bool_decide (state t = HUBBUB_TOKENISER_STATE_TAG_OPEN))
        && (0 <? len (current_chars (context t)))
     then
       (* Emit any pending characters *)
       '(t, token) ← emit (mk_token HUBBUB_TOKEN_CHARACTER
                            (data_character (current_chars (context t)))) t;
       Ok (set_current_chars zero_string t, token_data token)
     else Ok (t, data_none));
  t ← (if c =? HUBBUB_INPUTSTREAM_EOF
       then r ← emit (mk_token HUBBUB_TOKEN_EOF token_data) t; Ok r.1
       else Ok t);
  Ok (t, negb (c =? HUBBUB_INPUTSTREAM_EOF)
         && negb (c =? HUBBUB_INPUTSTREAM_OOD)).

Definition hubbub_tokeniser_consume_entity (tokeniser : hubbub_tokeniser)
  : result (hubbub_tokeniser * bool) :=
  let t :=
    if negb (done_setup (match_entity (context tokeniser))) then
      let pos := (cur_pos tokeniser).1 in
      let l := (cur_pos tokeniser).2 in
      advance
        (set_match_entity
           (mk_match_entity (mk_string pos l) 0 0 false (state tokeniser)
              false true None l) tokeniser)
    else tokeniser in
  let c := peek t in
  if c =? HUBBUB_INPUTSTREAM_OOD then Ok (t, false)
  else if c =? chr "#" then
    let l := (cur_pos t).2 in
    let me := match_entity (context t) in
    let t := set_match_entity (me_set_str (add_len l (str me)) me) t in
    let t := set_state HUBBUB_TOKENISER_STATE_NUMBERED_ENTITY t in
    Ok (advance t, true)
  else
    Ok (set_state HUBBUB_TOKENISER_STATE_NAMED_ENTITY t, true).

Definition hubbub_tokeniser_handle_entity_data
    (tokeniser : hubbub_tokeniser) : result (hubbub_tokeniser * bool) :=
  if negb (complete (match_entity (context tokeniser))) then
    hubbub_tokeniser_consume_entity tokeniser
  else
    let c := peek tokeniser in
    if (c =? HUBBUB_INPUTSTREAM_OOD) || (c =? HUBBUB_INPUTSTREAM_EOF) then
      (* Should never happen *)
      Abort
    else
      (* Emit character *)
      t ← emit_character
            (mk_string (cur_pos tokeniser).1 (cur_pos tokeniser).2)
            tokeniser;
      (* Reset for next time *)
      let me := match_entity (context t) in
      let t := set_match_entity (me_set_complete false me) t in
      let t := set_state HUBBUB_TOKENISER_STATE_DATA t in
      Ok (advance t, true).

(** The assignments that start a tag token at the cursor. *)
Definition start_tag_token (type : hubbub_token_type)
    (t : hubbub_tokeniser) : hubbub_tokeniser :=
  let t := set_current_tag_type type t in
  let ctag := current_tag (context t) in
  let t := set_current_tag
             (mk_tag (tag_ns ctag) (mk_string (cur_pos t).1 (cur_pos t).2)
                0 (attributes ctag) (self_closing ctag)) t in
  let t := set_state HUBBUB_TOKENISER_STATE_TAG_NAME t in
  advance t.

Definition hubbub_tokeniser_handle_tag_open (tokeniser : hubbub_tokeniser)
  : result (hubbub_tokeniser * bool) :=
  let t := tokeniser in
  let c := peek t in
  if c =? HUBBUB_INPUTSTREAM_OOD then Ok (t, false)
  else if bool_decide (content_model t = HUBBUB_CONTENT_MODEL_RCDATA)
       || bool_decide (content_model t = HUBBUB_CONTENT_MODEL_CDATA)
  then
    if c =? chr "/" then
      let l := (cur_pos t).2 in
      let t := set_current_chars (add_len l (current_chars (context t))) t in
      let t := set_state HUBBUB_TOKENISER_STATE_CLOSE_TAG_OPEN t in
      Ok (advance t, true)
    else
      (* Emit '<' *)
      t ← emit_character (current_chars (context t)) t;
      Ok (set_state HUBBUB_TOKENISER_STATE_DATA t, true)
  else if bool_decide (content_model t = HUBBUB_CONTENT_MODEL_PCDATA) then
    if c =? chr "!" then
      let l := (cur_pos t).2 in
      let t := set_current_chars (add_len l (current_chars (context t))) t in
      let t := set_state HUBBUB_TOKENISER_STATE_MARKUP_DECLARATION_OPEN t in
      Ok (advance t, true)
    else if c =? chr "/" then
      let l := (cur_pos t).2 in
      let t := set_current_chars (add_len l (current_chars (context t))) t in
      let t := set_state HUBBUB_TOKENISER_STATE_CLOSE_TAG_OPEN t in
      Ok (advance t, true)
    else if is_upper c then
      Ok (start_tag_token HUBBUB_TOKEN_START_TAG (lowercase t), true)
    else if is_lower c then
      Ok (start_tag_token HUBBUB_TOKEN_START_TAG t, true)
    else if c =? chr ">" then
      let l := (cur_pos t).2 in
      let t := set_current_chars (add_len l (current_chars (context t))) t in
      (* Emit "<>" *)
      t ← emit_character (current_chars (context t)) t;
      let t := set_state HUBBUB_TOKENISER_STATE_DATA t in
      Ok (advance t, true)
    else if c =? chr "?" then
      let pos := (cur_pos t).1 in
      let l := (cur_pos t).2 in
      let t := set_current_chars (add_len l (current_chars (context t))) t in
      let t := set_current_comment (mk_string pos l) t in
      let t := set_state HUBBUB_TOKENISER_STATE_BOGUS_COMMENT t in
      Ok (advance t, true)
    else
      (* Emit '<' *)
      t ← emit_character (current_chars (context t)) t;
      Ok (set_state HUBBUB_TOKENISER_STATE_DATA t, true)
  else Ok (t, true).

Definition hubbub_tokeniser_handle_close_tag_open
    (tokeniser : hubbub_tokeniser) : result (hubbub_tokeniser * bool) :=
  let t := tokeniser in
  if bool_decide (content_model t = HUBBUB_CONTENT_MODEL_RCDATA)
     || bool_decide (content_model t = HUBBUB_CONTENT_MODEL_CDATA)
  then
    let ctm := close_tag_match_tag (context t) in
    let t := set_close_tag_match_tag (mk_string (data_off ctm) 0) t in
    Ok (set_state HUBBUB_TOKENISER_STATE_CLOSE_TAG_MATCH t, true)
  else if bool_decide (content_model t = HUBBUB_CONTENT_MODEL_PCDATA) then
    let c := peek t in
    if is_upper c then
      Ok (start_tag_token HUBBUB_TOKEN_END_TAG (lowercase t), true)
    else if is_lower c then
      Ok (start_tag_token HUBBUB_TOKEN_END_TAG t, true)
    else if c =? chr ">" then
      Ok (advance (set_state HUBBUB_TOKENISER_STATE_DATA t), true)
    else if c =? HUBBUB_INPUTSTREAM_EOF then
      (* Emit "</" *)
      t ← emit_character (current_chars (context t)) t;
      Ok (set_state HUBBUB_TOKENISER_STATE_DATA t, true)
    else if negb (c =? HUBBUB_INPUTSTREAM_OOD) then
      let t := set_current_comment
                 (mk_string (cur_pos t).1 (cur_pos t).2) t in
      let t := set_state HUBBUB_TOKENISER_STATE_BOGUS_COMMENT t in
      Ok (advance t, true)
    else
      (* Out of data *)
      Ok (t, false)
  else Ok (t, true).

(** [compare_range_ci] of the current tag's name against the pending
    close tag. *)
Definition close_tag_compare (t : hubbub_tokeniser) : Z :=
  hubbub_inputstream_compare_range_ci (input t)
    (data_off (tag_name (current_tag (context t))))
    (data_off (close_tag_match_tag (context t)))
    (len (tag_name (current_tag (context t)))).

(** The [while] loop of [hubbub_tokeniser_handle_close_tag_match]. *)
Fixpoint close_tag_match_loop (fuel : nat) (c : Z) (t : hubbub_tokeniser)
  : result loop_exit :=
  match fuel with
  | O => Timeout
  | S fuel' =>
    if len (close_tag_match_tag (context t))
       <? len (tag_name (current_tag (context t))) then
      let c := peek t in
      if is_sentinel c then Ok (Left t c)
      else
        (* Match last open tag *)
        let off := (cur_pos t).1 in
        let l := (cur_pos t).2 in
        let ctm := close_tag_match_tag (context t) in
        let t := if len ctm =? 0
                 then set_close_tag_match_tag (mk_string off l) t
                 else set_close_tag_match_tag (add_len l ctm) t in
        let t := advance t in
        let ctm := close_tag_match_tag (context t) in
        let name := tag_name (current_tag (context t)) in
        if (len name <? len ctm)
           || ((len ctm =? len name) && negb (close_tag_compare t =? 0))
        then
          (* Rewind input stream to start of tag name *)
          t ← rewind_or_abort (len ctm) t;
          (* Emit "</" *)
          t ← emit_character (current_chars (context t)) t;
          Ok (Returned (set_state HUBBUB_TOKENISER_STATE_DATA t) true)
        else if (len ctm =? len name) && (close_tag_compare t =? 0) then
          (* Matched => stop searching *)
          Ok (Left t c)
        else close_tag_match_loop fuel' c t
    else Ok (Left t c)
  end.

Definition hubbub_tokeniser_handle_close_tag_match
    (tokeniser : hubbub_tokeniser) : result (hubbub_tokeniser * bool) :=
  r ← close_tag_match_loop (S (remaining tokeniser)) 0 tokeniser;
  match r with
  | Returned t cont => Ok (t, cont)
  | Left t c =>
    if c =? HUBBUB_INPUTSTREAM_OOD then
      (* Need more data *)
      Ok (t, false)
    else if c =? HUBBUB_INPUTSTREAM_EOF then
      (* Ran out of data - parse error *)
      (* Rewind input stream to start of tag name *)
      t ← rewind_or_abort (len (close_tag_match_tag (context t))) t;
      (* Emit "</" *)
      t ← emit_character (current_chars (context t)) t;
      Ok (set_state HUBBUB_TOKENISER_STATE_DATA t, true)
    else
      (* Match following char *)
      let c := peek t in
      if c =? HUBBUB_INPUTSTREAM_OOD then
        (* Need more data *)
        Ok (t, false)
      else
        (* Rewind input stream to start of tag name *)
        t ← rewind_or_abort (len (close_tag_match_tag (context t))) t;
        (* Check that following char was valid *)
        if negb (c =? 9) && negb (c =? 10) && negb (c =? 11)
           && negb (c =? 12) && negb (c =? chr " ") && negb (c =? chr ">")
           && negb (c =? chr "/") && negb (c =? chr "<")
           && negb (c =? HUBBUB_INPUTSTREAM_EOF)
        then
          (* Emit "</" *)
          t ← emit_character (current_chars (context t)) t;
          Ok (set_state HUBBUB_TOKENISER_STATE_DATA t, true)
        else
          (* Switch the content model back to PCDATA *)
          let t := set_content_model HUBBUB_CONTENT_MODEL_PCDATA t in
          (* Finally, transition back to close tag open state *)
          Ok (set_state HUBBUB_TOKENISER_STATE_CLOSE_TAG_OPEN t, true)
  end.

(** The block "Emit current tag", the switch to the data state and, when
    [adv] is set, the advance that follows it. *)
Definition emit_tag_to_data (adv : bool) (t : hubbub_tokeniser)
  : result (hubbub_tokeniser * bool) :=
  t ← emit_current_tag t;
  let t := set_state HUBBUB_TOKENISER_STATE_DATA t in
  Ok (if adv then advance t else t, true).

(** [ctag->name.len += len] and the advance. *)
Definition extend_tag_name (t : hubbub_tokeniser) : hubbub_tokeniser :=
  let l := (cur_pos t).2 in
  let ctag := current_tag (context t) in
  advance
    (set_current_tag
       (mk_tag (tag_ns ctag) (add_len l (tag_name ctag)) (n_attributes ctag)
          (attributes ctag) (self_closing ctag)) t).

Definition hubbub_tokeniser_handle_tag_name (tokeniser : hubbub_tokeniser)
  : result (hubbub_tokeniser * bool) :=
  let t := tokeniser in
  let c := peek t in
  if c =? HUBBUB_INPUTSTREAM_OOD then Ok (t, false)
  else if is_space c then
    Ok (advance
          (set_state HUBBUB_TOKENISER_STATE_BEFORE_ATTRIBUTE_NAME t), true)
  else if c =? chr ">" then emit_tag_to_data true t
  else if is_upper c then Ok (extend_tag_name (lowercase t), true)
  else if (c =? chr "<") || (c =? HUBBUB_INPUTSTREAM_EOF) then
    emit_tag_to_data false t
  else if c =? chr "/" then
    Ok (advance
          (set_state HUBBUB_TOKENISER_STATE_BEFORE_ATTRIBUTE_NAME t), true)
  else Ok (extend_tag_name t, true).

(** The block that grows the attribute array by one slot, fills the slot
    with a name at the cursor and an empty value, and moves to the
    attribute name state.  The allocator never fails here. *)
Definition new_attribute (t : hubbub_tokeniser) : hubbub_tokeniser :=
  let pos := (cur_pos t).1 in
  let l := (cur_pos t).2 in
  let ctag := current_tag (context t) in
  let n := n_attributes ctag in
  let a := mk_attribute (mk_string pos l) (mk_string 0 0) in
  let attr := <[Z.to_nat n := a]>
                (resize (Z.to_nat (n + 1)) a (attributes ctag)) in
  let t := set_current_tag
             (mk_tag (tag_ns ctag) (tag_name ctag) (u32 (n + 1)) attr
                (self_closing ctag)) t in
  let t := set_state HUBBUB_TOKENISER_STATE_ATTRIBUTE_NAME t in
  advance t.

(** An assignment to [ctag->attributes[ctag->n_attributes - 1]]. *)
Definition update_last_attribute
    (f : hubbub_attribute -> hubbub_attribute) (t : hubbub_tokeniser)
  : result hubbub_tokeniser :=
  let ctag := current_tag (context t) in
  let i := Z.to_nat (u32 (n_attributes ctag - 1)) in
  a ← of_option (attributes ctag !! i);
  Ok (set_current_tag
        (mk_tag (tag_ns ctag) (tag_name ctag) (n_attributes ctag)
           (<[i := f a]> (attributes ctag)) (self_closing ctag)) t).

Definition hubbub_tokeniser_handle_before_attribute_name
    (tokeniser : hubbub_tokeniser) : result (hubbub_tokeniser * bool) :=
  let t := tokeniser in
  let c := peek t in
  if c =? HUBBUB_INPUTSTREAM_OOD then Ok (t, false)
  else if is_space c then Ok (advance t, true)
  else if c =? chr ">" then emit_tag_to_data true t
  else if is_upper c then Ok (new_attribute (lowercase t), true)
  else if c =? chr "/" then Ok (advance t, true)
  else if (c =? chr "<") || (c =? HUBBUB_INPUTSTREAM_EOF) then
    emit_tag_to_data false t
  else Ok (new_attribute t, true).

(** [attributes[n_attributes - 1].name.len += len] and the advance. *)
Definition extend_attribute_name (t : hubbub_tokeniser)
  : result (hubbub_tokeniser * bool) :=
  let l := (cur_pos t).2 in
  t ← update_last_attribute
        (fun a => mk_attribute (add_len l (attr_name a)) (attr_value a)) t;
  Ok (advance t, true).

Definition hubbub_tokeniser_handle_attribute_name
    (tokeniser : hubbub_tokeniser) : result (hubbub_tokeniser * bool) :=
  let t := tokeniser in
  let c := peek t in
  if c =? HUBBUB_INPUTSTREAM_OOD then Ok (t, false)
  else if is_space c then
    Ok (advance
          (set_state HUBBUB_TOKENISER_STATE_AFTER_ATTRIBUTE_NAME t), true)
  else if c =? chr "=" then
    Ok (advance
          (set_state HUBBUB_TOKENISER_STATE_BEFORE_ATTRIBUTE_VALUE t), true)
  else if c =? chr ">" then emit_tag_to_data true t
  else if is_upper c then extend_attribute_name (lowercase t)
  else if c =? chr "/" then
    Ok (advance
          (set_state HUBBUB_TOKENISER_STATE_BEFORE_ATTRIBUTE_NAME t), true)
  else if (c =? chr "<") || (c =? HUBBUB_INPUTSTREAM_EOF) then
    emit_tag_to_data false t
  else extend_attribute_name t.

Definition hubbub_tokeniser_handle_after_attribute_name
    (tokeniser : hubbub_tokeniser) : result (hubbub_tokeniser * bool) :=
  let t := tokeniser in
  let c := peek t in
  if c =? HUBBUB_INPUTSTREAM_OOD then Ok (t, false)
  else if is_space c then Ok (advance t, true)
  else if c =? chr "=" then
    Ok (advance
          (set_state HUBBUB_TOKENISER_STATE_BEFORE_ATTRIBUTE_VALUE t), true)
  else if c =? chr ">" then emit_tag_to_data true t
  else if is_upper c then Ok (new_attribute (lowercase t), true)
  else if c =? chr "/" then
    Ok (advance
          (set_state HUBBUB_TOKENISER_STATE_BEFORE_ATTRIBUTE_NAME t), true)
  else if (c =? chr "<") || (c =? HUBBUB_INPUTSTREAM_EOF) then
    emit_tag_to_data false t
  else Ok (new_attribute (lowercase t), true).

Definition hubbub_tokeniser_handle_before_attribute_value
    (tokeniser : hubbub_tokeniser) : result (hubbub_tokeniser * bool) :=
  let t := tokeniser in
  let c := peek t in
  if c =? HUBBUB_INPUTSTREAM_OOD then Ok (t, false)
  else if is_space c then Ok (advance t, true)
  else if c =? 34 then
    Ok (advance
          (set_state HUBBUB_TOKENISER_STATE_ATTRIBUTE_VALUE_DQ t), true)
  else if c =? chr "&" then
    Ok (set_state HUBBUB_TOKENISER_STATE_ATTRIBUTE_VALUE_UQ t, true)
  else if c =? chr "'" then
    Ok (advance
          (set_state HUBBUB_TOKENISER_STATE_ATTRIBUTE_VALUE_SQ t), true)
  else if c =? chr ">" then emit_tag_to_data true t
  else if (c =? chr "<") || (c =? HUBBUB_INPUTSTREAM_EOF) then
    emit_tag_to_data false t
  else
    let pos := (cur_pos t).1 in
    let l := (cur_pos t).2 in
    t ← update_last_attribute
          (fun a => mk_attribute (attr_name a) (mk_string pos l)) t;
    let t := set_state HUBBUB_TOKENISER_STATE_ATTRIBUTE_VALUE_UQ t in
    Ok (advance t, true).

(** The block that appends the codepoint at the cursor to the value of the
    last attribute. *)
Definition extend_attribute_value (t : hubbub_tokeniser)
  : result hubbub_tokeniser :=
  let pos := (cur_pos t).1 in
  let l := (cur_pos t).2 in
  update_last_attribute
    (fun a =>
       let v := attr_value a in
       mk_attribute (attr_name a)
         (add_len l (if len v =? 0 then mk_string pos (len v) else v))) t.

(** The two branches that the three attribute value states share. *)
Definition enter_entity_in_attribute_value (t : hubbub_tokeniser)
  : result (hubbub_tokeniser * bool) :=
  let t := set_prev_state (state t) t in
  (* Don't eat the '&'; entity consumption handles this *)
  Ok (set_state HUBBUB_TOKENISER_STATE_ENTITY_IN_ATTRIBUTE_VALUE t, true).

Definition hubbub_tokeniser_handle_attribute_value_dq
    (tokeniser : hubbub_tokeniser) : result (hubbub_tokeniser * bool) :=
  let t := tokeniser in
  let c := peek t in
  if c =? HUBBUB_INPUTSTREAM_OOD then Ok (t, false)
  else if c =? 34 then
    Ok (advance
          (set_state HUBBUB_TOKENISER_STATE_BEFORE_ATTRIBUTE_NAME t), true)
  else if c =? chr "&" then enter_entity_in_attribute_value t
  else if c =? HUBBUB_INPUTSTREAM_EOF then emit_tag_to_data false t
  else t ← extend_attribute_value t; Ok (advance t, true).

Definition hubbub_tokeniser_handle_attribute_value_sq
    (tokeniser : hubbub_tokeniser) : result (hubbub_tokeniser * bool) :=
  let t := tokeniser in
  let c := peek t in
  if c =? HUBBUB_INPUTSTREAM_OOD then Ok (t, false)
  else if c =? chr "'" then
    Ok (advance
          (set_state HUBBUB_TOKENISER_STATE_BEFORE_ATTRIBUTE_NAME t), true)
  else if c =? chr "&" then enter_entity_in_attribute_value t
  else if c =? HUBBUB_INPUTSTREAM_EOF then emit_tag_to_data false t
  else t ← extend_attribute_value t; Ok (advance t, true).

Definition hubbub_tokeniser_handle_attribute_value_uq
    (tokeniser : hubbub_tokeniser) : result (hubbub_tokeniser * bool) :=
  let t := tokeniser in
  let c := peek t in
  if c =? HUBBUB_INPUTSTREAM_OOD then Ok (t, false)
  else if is_space c then
    Ok (advance
          (set_state HUBBUB_TOKENISER_STATE_BEFORE_ATTRIBUTE_NAME t), true)
  else if c =? chr "&" then enter_entity_in_attribute_value t
  else if c =? chr ">" then emit_tag_to_data true t
  else if (c =? chr "<") || (c =? HUBBUB_INPUTSTREAM_EOF) then
    emit_tag_to_data false t
  else t ← extend_attribute_value t; Ok (advance t, true).

Definition hubbub_tokeniser_handle_entity_in_attribute_value
    (tokeniser : hubbub_tokeniser) : result (hubbub_tokeniser * bool) :=
  if negb (complete (match_entity (context tokeniser))) then
    hubbub_tokeniser_consume_entity tokeniser
  else
    let c := peek tokeniser in
    if (c =? HUBBUB_INPUTSTREAM_OOD) || (c =? HUBBUB_INPUTSTREAM_EOF) then
      (* Should never happen *)
      Abort
    else
      t ← extend_attribute_value tokeniser;
      (* Reset for next time *)
      let me := match_entity (context t) in
      let t := set_match_entity (me_set_complete false me) t in
      (* And back to the previous state *)
      let t := set_state (prev_state (context t)) t in
      Ok (advance t, true).

(** [if (current_comment.len == 0) current_comment.data_off = pos;
     current_comment.len += len;] *)
Definition extend_comment (t : hubbub_tokeniser) : hubbub_tokeniser :=
  let pos := (cur_pos t).1 in
  let l := (cur_pos t).2 in
  let cc := current_comment (context t) in
  set_current_comment
    (add_len l (if len cc =? 0 then mk_string pos (len cc) else cc)) t.

(** The [while] loop of [hubbub_tokeniser_handle_bogus_comment]. *)
Fixpoint bogus_comment_loop (fuel : nat) (t : hubbub_tokeniser)
  : result (hubbub_tokeniser * Z) :=
  match fuel with
  | O => Timeout
  | S fuel' =>
    let c := peek t in
    if is_sentinel c then Ok (t, c)
    else if c =? chr ">" then Ok (advance t, c)
    else bogus_comment_loop fuel' (advance (extend_comment t))
  end.

Definition hubbub_tokeniser_handle_bogus_comment
    (tokeniser : hubbub_tokeniser) : result (hubbub_tokeniser * bool) :=
  '(t, c) ← bogus_comment_loop (S (remaining tokeniser)) tokeniser;
  if c =? HUBBUB_INPUTSTREAM_OOD then Ok (t, false)
  else
    (* Emit comment *)
    t ← emit_comment (current_comment (context t)) t;
    Ok (set_state HUBBUB_TOKENISER_STATE_DATA t, true).

Definition hubbub_tokeniser_handle_markup_declaration_open
    (tokeniser : hubbub_tokeniser) : result (hubbub_tokeniser * bool) :=
  let t := tokeniser in
  let c := peek t in
  if c =? HUBBUB_INPUTSTREAM_OOD then Ok (t, false)
  else if c =? chr "-" then
    Ok (advance (set_state HUBBUB_TOKENISER_STATE_COMMENT_START t), true)
  else if clear_0x20 c =? chr "D" then
    let t := uppercase t in
    let t := set_match_doctype_count 1 t in
    let t := set_state HUBBUB_TOKENISER_STATE_MATCH_DOCTYPE t in
    Ok (advance t, true)
  else
    let t := set_current_comment zero_string t in
    Ok (set_state HUBBUB_TOKENISER_STATE_BOGUS_COMMENT t, true).

Definition hubbub_tokeniser_handle_comment_start
    (tokeniser : hubbub_tokeniser) : result (hubbub_tokeniser * bool) :=
  let t := tokeniser in
  let c := peek t in
  if c =? HUBBUB_INPUTSTREAM_OOD then Ok (t, false)
  else
    let t := set_current_comment zero_string t in
    if c =? chr "-" then
      Ok (advance (set_state HUBBUB_TOKENISER_STATE_COMMENT t), true)
    else
      let t := push_back (chr "-") t in
      Ok (set_state HUBBUB_TOKENISER_STATE_BOGUS_COMMENT t, true).

(** The block "Emit comment" and the switch to the data state. *)
Definition emit_comment_to_data (adv : bool) (t : hubbub_tokeniser)
  : result (hubbub_tokeniser * bool) :=
  t ← emit_comment (current_comment (context t)) t;
  let t := set_state HUBBUB_TOKENISER_STATE_DATA t in
  Ok (if adv then advance t else t, true).

Definition hubbub_tokeniser_handle_comment (tokeniser : hubbub_tokeniser)
  : result (hubbub_tokeniser * bool) :=
  let t := tokeniser in
  let c := peek t in
  if c =? HUBBUB_INPUTSTREAM_OOD then Ok (t, false)
  else if c =? chr "-" then
    Ok (advance (set_state HUBBUB_TOKENISER_STATE_COMMENT_DASH t), true)
  else if c =? HUBBUB_INPUTSTREAM_EOF then emit_comment_to_data false t
  else Ok (advance (extend_comment t), true).

(** The last branch of the comment dash and comment end states: the
    comment grows up to and including the codepoint at the cursor. *)
Definition comment_resume (t : hubbub_tokeniser) : hubbub_tokeniser :=
  let pos := (cur_pos t).1 in
  let l := (cur_pos t).2 in
  let cc := current_comment (context t) in
  let t :=
    if len cc =? 0 then set_current_comment (mk_string pos l) t
    else
      (* Need to do this to get length of '-' *)
      set_current_comment (mk_string (data_off cc) (l + (pos - data_off cc)))
        t in
  let t := set_state HUBBUB_TOKENISER_STATE_COMMENT t in
  advance t.

Definition hubbub_tokeniser_handle_comment_dash
    (tokeniser : hubbub_tokeniser) : result (hubbub_tokeniser * bool) :=
  let t := tokeniser in
  let c := peek t in
  if c =? HUBBUB_INPUTSTREAM_OOD then Ok (t, false)
  else if c =? chr "-" then
    Ok (advance (set_state HUBBUB_TOKENISER_STATE_COMMENT_END t), true)
  else if c =? HUBBUB_INPUTSTREAM_EOF then emit_comment_to_data false t
  else Ok (comment_resume t, true).

Definition hubbub_tokeniser_handle_comment_end
    (tokeniser : hubbub_tokeniser) : result (hubbub_tokeniser * bool) :=
  let t := tokeniser in
  let c := peek t in
  if c =? HUBBUB_INPUTSTREAM_OOD then Ok (t, false)
  else if c =? chr ">" then emit_comment_to_data true t
  else if c =? chr "-" then
    let pos := (cur_pos t).1 in
    let l := (cur_pos t).2 in
    let cc := current_comment (context t) in
    let t :=
      if len cc =? 0 then set_current_comment (mk_string pos l) t
      else
        (* Need to do this to get length of '-' *)
        set_current_comment (mk_string (data_off cc) (pos - data_off cc)) t in
    let t := set_state HUBBUB_TOKENISER_STATE_COMMENT_END t in
    Ok (advance t, true)
  else if c =? HUBBUB_INPUTSTREAM_EOF then emit_comment_to_data false t
  else Ok (comment_resume t, true).

(** What the fall-through [switch] of the match doctype state pushes back
    for a given count, in the order of the calls. *)
Definition match_doctype_push_back_letters (count : Z) : list Z :=
  if count =? 6 then
    [chr "P"; chr "Y"; chr "T"; chr "C"; chr "O"; chr "D"]
  else if count =? 5 then [chr "Y"; chr "T"; chr "C"; chr "O"; chr "D"]
  else if count =? 4 then [chr "T"; chr "C"; chr "O"; chr "D"]
  else if count =? 3 then [chr "C"; chr "O"; chr "D"]
  else if count =? 2 then [chr "O"; chr "D"]
  else if count =? 1 then [chr "D"]
  else [].

Definition push_back_all (cs : list Z) (t : hubbub_tokeniser)
  : hubbub_tokeniser :=
  foldl (fun t c => push_back c t) t cs.

(** The branch of the match doctype state for a letter that matches
    before the last one. *)
Definition match_doctype_next (t : hubbub_tokeniser) : hubbub_tokeniser :=
  let t := uppercase t in
  let t := set_match_doctype_count
             (u32 (match_doctype_count (context t) + 1)) t in
  advance t.

Definition hubbub_tokeniser_handle_match_doctype
    (tokeniser : hubbub_tokeniser) : result (hubbub_tokeniser * bool) :=
  let t := tokeniser in
  let c := peek t in
  let count := match_doctype_count (context t) in
  if c =? HUBBUB_INPUTSTREAM_OOD then Ok (t, false)
  else if (count =? 1) && (clear_0x20 c =? chr "O") then
    Ok (match_doctype_next t, true)
  else if (count =? 2) && (clear_0x20 c =? chr "C") then
    Ok (match_doctype_next t, true)
  else if (count =? 3) && (clear_0x20 c =? chr "T") then
    Ok (match_doctype_next t, true)
  else if (count =? 4) && (clear_0x20 c =? chr "Y") then
    Ok (match_doctype_next t, true)
  else if (count =? 5) && (clear_0x20 c =? chr "P") then
    Ok (match_doctype_next t, true)
  else if (count =? 6) && (clear_0x20 c =? chr "E") then
    let t := uppercase t in
    let t := set_state HUBBUB_TOKENISER_STATE_DOCTYPE t in
    Ok (advance t, true)
  else
    let t := push_back_all (match_doctype_push_back_letters count) t in
    let t := set_current_comment zero_string t in
    Ok (set_state HUBBUB_TOKENISER_STATE_BOGUS_COMMENT t, true).

Definition hubbub_tokeniser_handle_doctype (tokeniser : hubbub_tokeniser)
  : result (hubbub_tokeniser * bool) :=
  let t := tokeniser in
  let c := peek t in
  if c =? HUBBUB_INPUTSTREAM_OOD then Ok (t, false)
  else
    let t := if is_space c then advance t else t in
    Ok (set_state HUBBUB_TOKENISER_STATE_BEFORE_DOCTYPE_NAME t, true).

(** The block "Emit doctype" as the states that do not test the name have
    it: the token is a copy of the current doctype. *)
Definition emit_doctype_to_data (adv : bool) (t : hubbub_tokeniser)
  : result (hubbub_tokeniser * bool) :=
  t ← emit_doctype (current_doctype (context t)) t;
  let t := set_state HUBBUB_TOKENISER_STATE_DATA t in
  Ok (if adv then advance t else t, true).

(** The block "Emit doctype" of the doctype name and after doctype name
    states on '>': the flag of the token says whether the name is
    [HTML]. *)
Definition emit_doctype_checked (t : hubbub_tokeniser)
  : result (hubbub_tokeniser * bool) :=
  let d := current_doctype (context t) in
  let d := mk_doctype (doctype_name d) (public_id d) (system_id d)
             (force_quirks d)
             (hubbub_inputstream_compare_range_ascii (input t)
                (data_off (doctype_name d)) (len (doctype_name d))
                (bytes_of_string "HTML") 4 =? 0) in
  t ← emit_doctype d t;
  let t := set_state HUBBUB_TOKENISER_STATE_DATA t in
  Ok (advance t, true).

Definition set_doctype_name (s : hubbub_string) (d : hubbub_doctype)
  : hubbub_doctype :=
  mk_doctype s (public_id d) (system_id d) (force_quirks d) (correct d).

Definition set_doctype_correct (b : bool) (d : hubbub_doctype)
  : hubbub_doctype :=
  mk_doctype (doctype_name d) (public_id d) (system_id d) (force_quirks d) b.

(** The assignments that start a doctype name at the cursor. *)
Definition start_doctype_name (t : hubbub_tokeniser) : hubbub_tokeniser :=
  let pos := (cur_pos t).1 in
  let l := (cur_pos t).2 in
  let t := set_current_doctype
             (set_doctype_correct false
                (set_doctype_name (mk_string pos l)
                   (current_doctype (context t)))) t in
  let t := set_state HUBBUB_TOKENISER_STATE_DOCTYPE_NAME t in
  advance t.

Definition hubbub_tokeniser_handle_before_doctype_name
    (tokeniser : hubbub_tokeniser) : result (hubbub_tokeniser * bool) :=
  let t := tokeniser in
  let c := peek t in
  if c =? HUBBUB_INPUTSTREAM_OOD then Ok (t, false)
  else if is_space c then Ok (advance t, true)
  else if is_lower c then Ok (start_doctype_name (uppercase t), true)
  else if c =? chr ">" then emit_doctype_to_data true t
  else if c =? HUBBUB_INPUTSTREAM_EOF then emit_doctype_to_data false t
  else Ok (start_doctype_name t, true).

(** [cdoc->name.len += len] and the advance. *)
Definition extend_doctype_name (t : hubbub_tokeniser) : hubbub_tokeniser :=
  let l := (cur_pos t).2 in
  let d := current_doctype (context t) in
  advance
    (set_current_doctype (set_doctype_name (add_len l (doctype_name d)) d) t).

Definition hubbub_tokeniser_handle_doctype_name
    (tokeniser : hubbub_tokeniser) : result (hubbub_tokeniser * bool) :=
  let t := tokeniser in
  let c := peek t in
  if c =? HUBBUB_INPUTSTREAM_OOD then Ok (t, false)
  else if is_space c then
    Ok (advance
          (set_state HUBBUB_TOKENISER_STATE_AFTER_DOCTYPE_NAME t), true)
  else if c =? chr ">" then emit_doctype_checked t
  else if is_lower c then Ok (extend_doctype_name (uppercase t), true)
  else if c =? HUBBUB_INPUTSTREAM_EOF then emit_doctype_to_data false t
  else Ok (extend_doctype_name t, true).

Definition hubbub_tokeniser_handle_after_doctype_name
    (tokeniser : hubbub_tokeniser) : result (hubbub_tokeniser * bool) :=
  let t := tokeniser in
  let c := peek t in
  if c =? HUBBUB_INPUTSTREAM_OOD then Ok (t, false)
  else if is_space c then Ok (advance t, true)
  else if c =? chr ">" then emit_doctype_checked t
  else if c =? HUBBUB_INPUTSTREAM_EOF then emit_doctype_to_data false t
  else
    let t := set_current_doctype
               (set_doctype_correct false (current_doctype (context t))) t in
    let t := set_state HUBBUB_TOKENISER_STATE_BOGUS_DOCTYPE t in
    Ok (advance t, true).

Definition hubbub_tokeniser_handle_bogus_doctype
    (tokeniser : hubbub_tokeniser) : result (hubbub_tokeniser * bool) :=
  let t := tokeniser in
  let c := peek t in
  if c =? HUBBUB_INPUTSTREAM_OOD then Ok (t, false)
  else if c =? chr ">" then emit_doctype_to_data true t
  else if c =? HUBBUB_INPUTSTREAM_EOF then emit_doctype_to_data false t
  else Ok (advance t, true).

(** Table of mappings between Windows-1252 codepoints 128-159 and UCS4 *)
Definition cp1252Table : list Z :=
  [0x20AC; 0xFFFD; 0x201A; 0x0192; 0x201E; 0x2026; 0x2020; 0x2021;
   0x02C6; 0x2030; 0x0160; 0x2039; 0x0152; 0xFFFD; 0x017D; 0xFFFD;
   0xFFFD; 0x2018; 0x2019; 0x201C; 0x201D; 0x2022; 0x2013; 0x2014;
   0x02DC; 0x2122; 0x0161; 0x203A; 0x0153; 0xFFFD; 0x017E; 0x0178].

(** [ctx->match_entity.str.len += len] for the codepoint at the cursor. *)
Definition entity_str_extend (t : hubbub_tokeniser)
    (me : match_entity_context) : match_entity_context :=
  me_set_str (add_len (cur_pos t).2 (str me)) me.

(** The [while] loop of [hubbub_tokeniser_handle_numbered_entity].  The
    codepoint is a [uint32_t]: its arithmetic wraps. *)
Fixpoint numbered_entity_loop (fuel : nat) (t : hubbub_tokeniser)
  : result (hubbub_tokeniser * Z) :=
  match fuel with
  | O => Timeout
  | S fuel' =>
    let c := peek t in
    let me := match_entity (context t) in
    if is_sentinel c then Ok (t, c)
    else if (base me =? 10) && is_digit c then
      let me := me_set_had_data true me in
      let me := me_set_codepoint
                  (u32 (codepoint me * 10 + (c - chr "0"))) me in
      let me := entity_str_extend t me in
      numbered_entity_loop fuel' (advance (set_match_entity me t))
    else if (base me =? 16)
         && (is_digit c
             || ((chr "A" <=? clear_0x20 c) && (clear_0x20 c <=? chr "F")))
    then
      let me := me_set_had_data true me in
      let me := me_set_codepoint (u32 (codepoint me * 16)) me in
      let me :=
        if is_digit c
        then me_set_codepoint (u32 (codepoint me + (c - chr "0"))) me
        else me_set_codepoint
               (u32 (codepoint me + (clear_0x20 c - chr "A" + 10))) me in
      let me := entity_str_extend t me in
      numbered_entity_loop fuel' (advance (set_match_entity me t))
    else Ok (t, c)
  end.

(** The final codepoint of a numbered entity. *)
Definition numbered_entity_codepoint (cp : Z) : Z :=
  if (0x80 <=? cp) && (cp <=? 0x9F) then
    nth (Z.to_nat (cp - 0x80)) cp1252Table 0
  else if (cp =? 0) || (0x10FFFF <? cp) then 0xFFFD
  else cp.

(** The end of both entity handlers: "Reset for next time", "Flag
    completion" and the return to the state that asked for the entity. *)
Definition entity_done (t : hubbub_tokeniser) : hubbub_tokeniser :=
  let me := match_entity (context t) in
  let t := set_match_entity
             (me_set_complete true (me_set_done_setup false me)) t in
  set_state (return_state (match_entity (context t))) t.

Definition hubbub_tokeniser_handle_numbered_entity
    (tokeniser : hubbub_tokeniser) : result (hubbub_tokeniser * bool) :=
  let t := tokeniser in
  let c := peek t in
  if c =? HUBBUB_INPUTSTREAM_OOD then Ok (t, false)
  else
    let me := match_entity (context t) in
    let t :=
      if base me =? 0 then
        if clear_0x20 c =? chr "X" then
          advance
            (set_match_entity (entity_str_extend t (me_set_base 16 me)) t)
        else set_match_entity (me_set_base 10 me) t
      else t in
    '(t, c) ← numbered_entity_loop (S (remaining t)) t;
    if c =? HUBBUB_INPUTSTREAM_OOD then Ok (t, false)
    else
      (* Eat trailing semicolon, if any *)
      let t :=
        if c =? chr ";" then
          advance
            (set_match_entity
               (entity_str_extend t (match_entity (context t))) t)
        else t in
      (* Rewind the inputstream to start of matched sequence *)
      let t := rewind_unchecked (len (str (match_entity (context t)))) t in
      let t :=
        if had_data (match_entity (context t)) then
          (* Had data, so calculate final codepoint *)
          let me := match_entity (context t) in
          let me := me_set_codepoint
                      (numbered_entity_codepoint (codepoint me)) me in
          let t := set_match_entity me t in
          (* And replace the matched range with it *)
          set_input
            (hubbub_inputstream_replace_range (input t)
               (data_off (str me)) (len (str me)) (codepoint me)).2 t
        else t in
      Ok (entity_done t, true).

(** The [while] loop of [hubbub_tokeniser_handle_named_entity]. *)
Fixpoint named_entity_loop (fuel : nat) (t : hubbub_tokeniser)
  : result (hubbub_tokeniser * Z) :=
  match fuel with
  | O => Timeout
  | S fuel' =>
    let c := peek t in
    let me := match_entity (context t) in
    if is_sentinel c then Ok (t, c)
    else if 0x7F <? c then
      (* Entity names are ASCII only *)
      Ok (t, c)
    else
      let r := hubbub_entities_search_step (Z.land c 0xFF)
                 (search_context me) in
      let error := r.1.1 in
      let cp := r.1.2 in
      let me := me_set_search_context r.2 me in
      if bool_decide (error = HUBBUB_OK) then
        (* Had a match - store it for later *)
        let me := me_set_codepoint cp me in
        let me := entity_str_extend t me in
        (* And cache length, for replacement *)
        let me := me_set_prev_len (len (str me)) me in
        named_entity_loop fuel' (advance (set_match_entity me t))
      else if bool_decide (error = HUBBUB_INVALID) then
        (* No further matches - use last found *)
        Ok (set_match_entity me t, c)
      else
        let me := entity_str_extend t me in
        named_entity_loop fuel' (advance (set_match_entity me t))
  end.

Definition hubbub_tokeniser_handle_named_entity
    (tokeniser : hubbub_tokeniser) : result (hubbub_tokeniser * bool) :=
  '(t, c) ← named_entity_loop (S (remaining tokeniser)) tokeniser;
  if c =? HUBBUB_INPUTSTREAM_OOD then Ok (t, false)
  else
    let me := match_entity (context t) in
    (* Eat trailing semicolon, if any *)
    let me :=
      if negb (codepoint me =? 0) && (c =? chr ";")
         && (prev_len me =? len (str me))
      then me_set_prev_len (prev_len me + (cur_pos t).2) me
      else me in
    let t := set_match_entity me t in
    (* Rewind the inputstream to start of processed sequence *)
    let t := rewind_unchecked (len (str me)) t in
    (* Now, replace range, if we found a named entity *)
    let t :=
      if negb (codepoint me =? 0) then
        set_input
          (hubbub_inputstream_replace_range (input t)
             (data_off (str me)) (prev_len me) (codepoint me)).2 t
      else t in
    Ok (entity_done t, true).

(** ** The main loop *)

(** The body of the [switch] in [hubbub_tokeniser_run]: one call of the
    handler of the current state. *)
Definition hubbub_tokeniser_step (tokeniser : hubbub_tokeniser)
  : result (hubbub_tokeniser * bool) :=
  match state tokeniser with
  | HUBBUB_TOKENISER_STATE_DATA =>
    hubbub_tokeniser_handle_data tokeniser
  | HUBBUB_TOKENISER_STATE_ENTITY_DATA =>
    hubbub_tokeniser_handle_entity_data tokeniser
  | HUBBUB_TOKENISER_STATE_TAG_OPEN =>
    hubbub_tokeniser_handle_tag_open tokeniser
  | HUBBUB_TOKENISER_STATE_CLOSE_TAG_OPEN =>
    hubbub_tokeniser_handle_close_tag_open tokeniser
  | HUBBUB_TOKENISER_STATE_CLOSE_TAG_MATCH =>
    hubbub_tokeniser_handle_close_tag_match tokeniser
  | HUBBUB_TOKENISER_STATE_TAG_NAME =>
    hubbub_tokeniser_handle_tag_name tokeniser
  | HUBBUB_TOKENISER_STATE_BEFORE_ATTRIBUTE_NAME =>
    hubbub_tokeniser_handle_before_attribute_name tokeniser
  | HUBBUB_TOKENISER_STATE_ATTRIBUTE_NAME =>
    hubbub_tokeniser_handle_attribute_name tokeniser
  | HUBBUB_TOKENISER_STATE_AFTER_ATTRIBUTE_NAME =>
    hubbub_tokeniser_handle_after_attribute_name tokeniser
  | HUBBUB_TOKENISER_STATE_BEFORE_ATTRIBUTE_VALUE =>
    hubbub_tokeniser_handle_before_attribute_value tokeniser
  | HUBBUB_TOKENISER_STATE_ATTRIBUTE_VALUE_DQ =>
    hubbub_tokeniser_handle_attribute_value_dq tokeniser
  | HUBBUB_TOKENISER_STATE_ATTRIBUTE_VALUE_SQ =>
    hubbub_tokeniser_handle_attribute_value_sq tokeniser
  | HUBBUB_TOKENISER_STATE_ATTRIBUTE_VALUE_UQ =>
    hubbub_tokeniser_handle_attribute_value_uq tokeniser
  | HUBBUB_TOKENISER_STATE_ENTITY_IN_ATTRIBUTE_VALUE =>
    hubbub_tokeniser_handle_entity_in_attribute_value tokeniser
  | HUBBUB_TOKENISER_STATE_BOGUS_COMMENT =>
    hubbub_tokeniser_handle_bogus_comment tokeniser
  | HUBBUB_TOKENISER_STATE_MARKUP_DECLARATION_OPEN =>
    hubbub_tokeniser_handle_markup_declaration_open tokeniser
  | HUBBUB_TOKENISER_STATE_COMMENT_START =>
    hubbub_tokeniser_handle_comment_start tokeniser
  | HUBBUB_TOKENISER_STATE_COMMENT =>
    hubbub_tokeniser_handle_comment tokeniser
  | HUBBUB_TOKENISER_STATE_COMMENT_DASH =>
    hubbub_tokeniser_handle_comment_dash tokeniser
  | HUBBUB_TOKENISER_STATE_COMMENT_END =>
    hubbub_tokeniser_handle_comment_end tokeniser
  | HUBBUB_TOKENISER_STATE_MATCH_DOCTYPE =>
    hubbub_tokeniser_handle_match_doctype tokeniser
  | HUBBUB_TOKENISER_STATE_DOCTYPE =>
    hubbub_tokeniser_handle_doctype tokeniser
  | HUBBUB_TOKENISER_STATE_BEFORE_DOCTYPE_NAME =>
    hubbub_tokeniser_handle_before_doctype_name tokeniser
  | HUBBUB_TOKENISER_STATE_DOCTYPE_NAME =>
    hubbub_tokeniser_handle_doctype_name tokeniser
  | HUBBUB_TOKENISER_STATE_AFTER_DOCTYPE_NAME =>
    hubbub_tokeniser_handle_after_doctype_name tokeniser
  | HUBBUB_TOKENISER_STATE_BOGUS_DOCTYPE =>
    hubbub_tokeniser_handle_bogus_doctype tokeniser
  | HUBBUB_TOKENISER_STATE_NUMBERED_ENTITY =>
    hubbub_tokeniser_handle_numbered_entity tokeniser
  | HUBBUB_TOKENISER_STATE_NAMED_ENTITY =>
    hubbub_tokeniser_handle_named_entity tokeniser
  end.

(** [while (cont) { switch ... }], for at most [fuel] rounds. *)
Fixpoint run_loop (fuel : nat) (tokeniser : hubbub_tokeniser)
  : result hubbub_tokeniser :=
  match fuel with
  | O => Timeout
  | S fuel' =>
    '(t, cont) ← hubbub_tokeniser_step tokeniser;
    if cont : bool then run_loop fuel' t else Ok t
  end.

(** [hubbub_tokeniser_run] *)
Definition hubbub_tokeniser_run (fuel : nat)
    (tokeniser : option hubbub_tokeniser)
  : result (hubbub_error * option hubbub_tokeniser) :=
  match tokeniser with
  | None => Ok (HUBBUB_BADPARM, None)
  | Some t => t' ← run_loop fuel t; Ok (HUBBUB_OK, Some t')
  end.

End Tokeniser.

(** ** The tree builder: "in foreign content" *)

(** Modelled from the spec: the element types are an enumeration of a
    header that is not part of the sources at hand; these are the types
    that the two insertion modes at hand name.  They live in a module of
    their own because several of them are single letters. *)
Module Element.
Inductive element_type : Set :=
| B | BIG | BLOCKQUOTE | BODY | BR | CENTER | CODE | DD | DIV | DL | DT
| EM | EMBED | FONT | H1 | H2 | H3 | H4 | H5 | H6 | HEAD | HR | I | IMG
| LI | LISTING | MENU | META | NOBR | OL | P | PRE | RUBY | S | SMALL
| SPAN | STRONG | STRIKE | SUB | SUP | TABLE | TT | U | UL | VAR
| CAPTION | COL | COLGROUP | HTML | TBODY | TD | TFOOT | TH | THEAD | TR
| MI | MO | MN | MS | MTEXT | MGLYPH | MALIGNMARK | MATH | SVG
| UNKNOWN.
End Element.

Module Treebuilder.

#[export] Instance element_type_eq_dec : EqDecision Element.element_type.
Proof. solve_decision. Defined.

(** Modelled from the spec: the insertion modes. *)
Inductive insertion_mode : Set :=
| INITIAL | BEFORE_HTML | BEFORE_HEAD | IN_HEAD | IN_HEAD_NOSCRIPT
| AFTER_HEAD | IN_BODY | IN_CDATA_RCDATA | IN_TABLE | IN_CAPTION
| IN_COLUMN_GROUP | IN_TABLE_BODY | IN_ROW | IN_CELL | IN_SELECT
| IN_SELECT_IN_TABLE | AFTER_BODY | IN_FRAMESET | AFTER_FRAMESET
| AFTER_AFTER_BODY | AFTER_AFTER_FRAMESET | IN_FOREIGN_CONTENT.

#[export] Instance insertion_mode_eq_dec : EqDecision insertion_mode.
Proof. solve_decision. Defined.

(** Modelled from the spec: an entry of the element stack is
    [(namespace, element_type, node_handle)]. *)
Record element_context : Set := mk_element {
  ns : hubbub_ns;
  type : Element.element_type;
  node : Z
}.

(** Modelled from the spec: the part of the tree builder that the mode
    reads and writes.  [unref_calls] is the trace of the calls to the tree
    handler's [unref_node], with the node of each. *)
Record hubbub_treebuilder : Set := mk_treebuilder {
  mode : insertion_mode;
  second_mode : insertion_mode;
  element_stack : list element_context;
  current_node : Z;
  unref_calls : list Z
}.

Definition set_mode (m : insertion_mode) (tb : hubbub_treebuilder) :=
  mk_treebuilder m (second_mode tb) (element_stack tb) (current_node tb)
    (unref_calls tb).

Definition unref_node (n : Z) (tb : hubbub_treebuilder) :=
  mk_treebuilder (mode tb) (second_mode tb) (element_stack tb)
    (current_node tb) (unref_calls tb ++ [n]).

(** [stack[treebuilder->context.current_node]] *)
Definition stack_top (tb : hubbub_treebuilder) : result element_context :=
  of_option (element_stack tb !! Z.to_nat (current_node tb)).

(** Modelled from the spec: [element_stack_pop] hands out the entry at
    [current_node] and moves [current_node] down by one; the bottom entry
    stays, since [current_node] is always a valid index. *)
Definition element_stack_pop (tb : hubbub_treebuilder)
  : result (hubbub_treebuilder * element_context) :=
  e ← stack_top tb;
  if 0 <? current_node tb then
    Ok (mk_treebuilder (mode tb) (second_mode tb) (element_stack tb)
          (current_node tb - 1) (unref_calls tb), e)
  else Abort.

(** [foreign_break_out]: the [while] loop pops one entry per round, so
    [current_node + 1] rounds are enough. *)
Fixpoint foreign_break_out_loop (fuel : nat) (tb : hubbub_treebuilder)
  : result hubbub_treebuilder :=
  match fuel with
  | O => Timeout
  | S fuel' =>
    e ← stack_top tb;
    if negb (bool_decide (ns e = HUBBUB_NS_HTML)) then
      '(tb, e') ← element_stack_pop tb;
      foreign_break_out_loop fuel' (unref_node (node e') tb)
    else Ok tb
  end.

Definition foreign_break_out (treebuilder : hubbub_treebuilder)
  : result hubbub_treebuilder :=
  tb ← foreign_break_out_loop (S (Z.to_nat (current_node treebuilder)))
         treebuilder;
  Ok (set_mode (second_mode tb) tb).

Section Mode.

(** Functions of the tree builder that live in files that are not part of
    the sources at hand. *)
Variable element_type_from_name : hubbub_string -> Element.element_type.
Variable is_scoping_element : Element.element_type -> bool.
Variable hubbub_treebuilder_token_handler
  : hubbub_token -> hubbub_treebuilder -> result hubbub_treebuilder.
Variable append_text
  : hubbub_treebuilder -> hubbub_string -> result hubbub_treebuilder.
Variable process_comment_append
  : hubbub_treebuilder -> hubbub_token -> Z -> result hubbub_treebuilder.
Variable adjust_foreign_attributes : hubbub_tag -> hubbub_tag.
Variable insert_element
  : hubbub_treebuilder -> hubbub_tag -> result hubbub_treebuilder.
Variable insert_element_no_push
  : hubbub_treebuilder -> hubbub_tag -> result hubbub_treebuilder.

(** [element_in_scope_in_non_html_ns]: the [for] loop walks down from
    [current_node] and never visits the bottom entry. *)
Fixpoint scope_scan (fuel : nat) (stack : list element_context) (n : Z)
  : result bool :=
  match fuel with
  | O => Timeout
  | S fuel' =>
    if 0 <? n then
      e ← of_option (stack !! Z.to_nat n);
      if bool_decide (type e = Element.TABLE) || is_scoping_element (type e)
      then Ok false
      else if negb (bool_decide (ns e = HUBBUB_NS_HTML)) then Ok true
      else scope_scan fuel' stack (n - 1)
    else Ok false
  end.

Definition element_in_scope_in_non_html_ns (tb : hubbub_treebuilder)
  : result bool :=
  scope_scan (S (Z.to_nat (current_node tb))) (element_stack tb)
    (current_node tb).

(** [process_as_in_secondary] *)
Definition process_as_in_secondary (treebuilder : hubbub_treebuilder)
    (token : hubbub_token) : result hubbub_treebuilder :=
  let tb := set_mode (second_mode treebuilder) treebuilder in
  tb ← hubbub_treebuilder_token_handler token tb;
  let tb := if bool_decide (mode tb = second_mode tb)
            then set_mode IN_FOREIGN_CONTENT tb else tb in
  if bool_decide (mode tb = IN_FOREIGN_CONTENT) then
    in_scope ← element_in_scope_in_non_html_ns tb;
    if negb in_scope then Ok (set_mode (second_mode tb) tb) else Ok tb
  else Ok tb.

(** The list of start tags that break out of foreign content. *)
Definition breaks_out (type : Element.element_type) : bool :=
  bool_decide (type ∈
    [Element.B; Element.BIG; Element.BLOCKQUOTE; Element.BODY; Element.BR;
     Element.CENTER; Element.CODE; Element.DD; Element.DIV; Element.DL;
     Element.DT; Element.EM; Element.EMBED; Element.FONT; Element.H1;
     Element.H2; Element.H3; Element.H4; Element.H5; Element.H6;
     Element.HEAD; Element.HR; Element.I; Element.IMG; Element.LI;
     Element.LISTING; Element.MENU; Element.META; Element.NOBR; Element.OL;
     Element.P; Element.PRE; Element.RUBY; Element.S; Element.SMALL;
     Element.SPAN; Element.STRONG; Element.STRIKE; Element.SUB; Element.SUP;
     Element.TABLE; Element.TT; Element.U; Element.UL; Element.VAR]).

(** [handle_in_foreign_content]: the tree builder it leaves and the value
    it returns, "true to reprocess the token, false otherwise". *)
Definition handle_in_foreign_content (treebuilder : hubbub_treebuilder)
    (token : hubbub_token) : result (hubbub_treebuilder * bool) :=
  let reprocess := false in
  tb ←
    match token_type token with
    | HUBBUB_TOKEN_CHARACTER =>
      match token_data token with
      | data_character s => append_text treebuilder s
      | _ => Undefined
      end
    | HUBBUB_TOKEN_COMMENT =>
      e ← stack_top treebuilder;
      process_comment_append treebuilder token (node e)
    | HUBBUB_TOKEN_DOCTYPE => Ok treebuilder
    | HUBBUB_TOKEN_START_TAG =>
      match token_data token with
      | data_tag tag0 =>
        e ← stack_top treebuilder;
        let cur_node_ns := ns e in
        let cur_node := type e in
        let type := element_type_from_name (tag_name tag0) in
        if bool_decide (cur_node_ns = HUBBUB_NS_HTML)
           || (bool_decide (cur_node_ns = HUBBUB_NS_MATHML)
               && (negb (bool_decide (type = Element.MGLYPH))
                   && negb (bool_decide (type = Element.MALIGNMARK)))
               && bool_decide (cur_node ∈
                    [Element.MI; Element.MO; Element.MN; Element.MS;
                     Element.MTEXT]))
        then process_as_in_secondary treebuilder token
        else if breaks_out type then foreign_break_out treebuilder
        else
          let tag := adjust_foreign_attributes tag0 in
          (* Set to the right namespace and insert *)
          let tag := mk_tag cur_node_ns (tag_name tag) (n_attributes tag)
                       (attributes tag) (self_closing tag) in
          if self_closing tag0
          then insert_element_no_push treebuilder tag
          else insert_element treebuilder tag
      | _ => Undefined
      end
    | HUBBUB_TOKEN_END_TAG => process_as_in_secondary treebuilder token
    | HUBBUB_TOKEN_EOF => foreign_break_out treebuilder
    end;
  Ok (tb, reprocess).

End Mode.

End Treebuilder.

(** ** Reading the trace *)

(** The bytes a span refers to in a buffer. *)
Definition span_bytes (buf : list Z) (s : hubbub_string) : list Z :=
  range_bytes buf (data_off s) (len s).

(** A token as its handler sees it: every span resolved against the
    buffer of the moment of the call, and the attribute array cut to the
    attribute count. *)
Inductive token_view : Set :=
| Doctype (name : list Z) (is_correct : bool)
| StartTag (name : list Z) (attrs : list (list Z * list Z))
| EndTag (name : list Z) (attrs : list (list Z * list Z))
| Comment (text : list Z)
| Character (text : list Z)
| EndOfFile
| Malformed.

Definition attribute_views (buf : list Z) (tag : hubbub_tag)
  : list (list Z * list Z) :=
  map (fun a => (span_bytes buf (attr_name a), span_bytes buf (attr_value a)))
      (take (Z.to_nat (n_attributes tag)) (attributes tag)).

Definition view_token (token : hubbub_token) (buf : list Z) : token_view :=
  match token_type token, token_data token with
  | HUBBUB_TOKEN_DOCTYPE, data_doctype d =>
    Doctype (span_bytes buf (doctype_name d)) (correct d)
  | HUBBUB_TOKEN_START_TAG, data_tag tag =>
    StartTag (span_bytes buf (tag_name tag)) (attribute_views buf tag)
  | HUBBUB_TOKEN_END_TAG, data_tag tag =>
    EndTag (span_bytes buf (tag_name tag)) (attribute_views buf tag)
  | HUBBUB_TOKEN_COMMENT, data_comment s => Comment (span_bytes buf s)
  | HUBBUB_TOKEN_CHARACTER, data_character s => Character (span_bytes buf s)
  | HUBBUB_TOKEN_EOF, _ => EndOfFile
  | _, _ => Malformed
  end.

Definition view_call (c : callback_call) : option token_view :=
  match c with
  | token_call _ token _ buf => Some (view_token token buf)
  | buffer_call _ _ _ _ => None
  end.

(** The tokens handed to the token handler so far. *)
Definition emitted (t : hubbub_tokeniser) : list token_view :=
  omap view_call (calls t).

(** The character data of a token sequence: the texts of its character
    tokens, in order. *)
Definition character_data (l : list token_view) : list Z :=
  concat (map (fun v => match v with Character s => s | _ => [] end) l).

(** ** Scenarios *)

(** A tokeniser on a document given in one piece, with a token handler
    registered.  [eof] says whether the document ends with the piece. *)
Definition tokeniser_on (s : string) (eof : bool) : hubbub_tokeniser :=
  set_token_handler (Some 1%nat) 0
    (hubbub_tokeniser_create (mk_stream (bytes_of_string s) 0 eof)).

(** The client supplies more bytes, or the end of the document. *)
Definition supply (s : string) (eof : bool) (t : hubbub_tokeniser)
  : hubbub_tokeniser :=
  set_input (mk_stream (buffer (input t) ++ bytes_of_string s)
               (cursor (input t)) eof) t.

(** A small entity table for the scenarios. *)
Definition sample_entities : list (list Z * Z) :=
  [(bytes_of_string "amp", 0x26); (bytes_of_string "lt", 0x3C);
   (bytes_of_string "gt", 0x3E); (bytes_of_string "not", 0xAC);
   (bytes_of_string "notin", 0x2209)].

(** The tokens of a run, when the run returns. *)
Definition tokens_of_run (fuel : nat) (t : hubbub_tokeniser)
  : result (list token_view) :=
  t' ← run_loop sample_entities fuel t; Ok (emitted t').

(** The scenario of a script element: the start tag is tokenised, the
    client sets the content model to CDATA, and the rest of the document
    arrives. *)
Definition script_scenario (rest : string) : result hubbub_tokeniser :=
  t ← run_loop sample_entities 100 (tokeniser_on "<script>" false);
  r ← hubbub_tokeniser_setopt (Some t) HUBBUB_TOKENISER_CONTENT_MODEL
        (Some (mk_optparams (None, 0) (None, 0) (None, 0)
                 HUBBUB_CONTENT_MODEL_CDATA));
  t ← of_option r.2;
  run_loop sample_entities 100 (supply rest true t).

(** The scenario of the foreign content mode: an [svg] element with an
    unknown child is open inside [body], and a start tag arrives whose
    name is that of [table]. *)
Definition svg_treebuilder : Treebuilder.hubbub_treebuilder :=
  Treebuilder.mk_treebuilder Treebuilder.IN_FOREIGN_CONTENT
    Treebuilder.IN_BODY
    [Treebuilder.mk_element HUBBUB_NS_HTML Element.HTML 1;
     Treebuilder.mk_element HUBBUB_NS_HTML Element.BODY 2;
     Treebuilder.mk_element HUBBUB_NS_SVG Element.SVG 3;
     Treebuilder.mk_element HUBBUB_NS_SVG Element.UNKNOWN 4]
    3 [].

Definition table_start_tag : hubbub_token :=
  mk_token HUBBUB_TOKEN_START_TAG
    (data_tag (mk_tag HUBBUB_NS_HTML (mk_string 1 5) 0 [] false)).

Definition svg_scenario
  : result (Treebuilder.hubbub_treebuilder * bool) :=
  Treebuilder.handle_in_foreign_content
    (fun _ => Element.TABLE) (fun _ => false)
    (fun _ tb => Ok tb) (fun tb _ => Ok tb) (fun tb _ _ => Ok tb)
    (fun tag => tag) (fun tb _ => Ok tb) (fun tb _ => Ok tb)
    svg_treebuilder table_start_tag.

(** ** Named entities as the spec sees them *)

Section EntityTable.

Variable entities : list (list Z * Z).

(** The codepoint of a name of the table; of two entries with one name
    the search answers with the first. *)
Definition entity_lookup (name : list Z) : option Z :=
  (fun r => r.2.2) <$> list_find (fun e => e.1 = name) entities.

(** "After each step, if the partial match is a valid entity name, record
    the current length and codepoint as the last good match": the last
    good match after [k] steps along [rest]. *)
Fixpoint last_good (rest : list Z) (k : nat) : option (nat * Z) :=
  match k with
  | O => None
  | S k' =>
    match entity_lookup (take k rest) with
    | Some cp => Some (k, cp)
    | None => last_good rest k'
    end
  end.

(** What the tokeniser relies on in the table: no entity stands for
    U+0000, and names are made of ASCII bytes other than the semicolon. *)
Definition wf_entities : Prop :=
  Forall (fun e => e.2 <> 0
                   /\ Forall (fun b => 0 <= b < 0x80 /\ b <> chr ";") e.1)
         entities.

(** The states that the loop of the named entity state goes through.  The
    tokeniser [t0] enters the state with the entity's [&] at offset [o],
    [l] bytes long, and the cursor behind it. *)
Variable t0 : hubbub_tokeniser.
Variables o l : nat.

(** The bytes from the cursor on. *)
Definition entity_rest : list Z := drop (o + l) (buffer (input t0)).

(** [match_entity] after [k] steps of the search. *)
Definition me_at (k : nat) : match_entity_context :=
  let me0 := match_entity (context t0) in
  mk_match_entity (mk_string (Z.of_nat o) (Z.of_nat (l + k)))
    (base me0)
    (match last_good entity_rest k with Some (_, cp) => cp | None => 0 end)
    (had_data me0) (return_state me0) (complete me0) (done_setup me0)
    (match k with O => None | _ => Some (take k entity_rest) end)
    (match last_good entity_rest k with
     | Some (j, _) => Z.of_nat (l + j)
     | None => Z.of_nat l
     end).

(** The tokeniser after [k] steps of the search. *)
Definition state_at (k : nat) : hubbub_tokeniser :=
  set_input (mk_stream (buffer (input t0)) (o + l + k) (had_eof (input t0)))
    (set_match_entity (me_at k) t0).

(** Every step so far found the path in the trie. *)
Definition alive (k : nat) : Prop :=
  forall i, (i < k)%nat ->
    Exists (fun e => take (S i) entity_rest `prefix_of` e.1) entities.

End EntityTable.

Arguments entity_rest : simpl never.

(** The tokeniser of the scenario [&ampx] at the moment it enters the
    named entity state: the [&] is consumed and recorded. *)
Definition amp_tokeniser : hubbub_tokeniser :=
  let t := tokeniser_on "&ampx" true in
  set_state HUBBUB_TOKENISER_STATE_NAMED_ENTITY
    (advance
       (set_match_entity
          (mk_match_entity (mk_string 0 1) 0 0 false
             HUBBUB_TOKENISER_STATE_ENTITY_DATA false true None 1) t)).

(** The scenario of a document that arrives in two pieces: [first] is
    all the data at hand when the tokeniser first runs, [rest] and the
    end of the document come after it. *)
Definition amp_resumed_scenario (first rest : string)
  : result hubbub_tokeniser :=
  t ← run_loop sample_entities 100 (tokeniser_on first false);
  run_loop sample_entities 100 (supply rest true t).

(** ** The match doctype state as the spec sees it *)

Definition doctype_word : list Z := bytes_of_string "DOCTYPE".

(** The tokeniser of the scenario [<!DOCTYPR html>] at the moment it
    meets the [R]: six letters have matched. *)
Definition doctypr_tokeniser : hubbub_tokeniser :=
  let t := tokeniser_on "<!DOCTYPR html>" false in
  set_input (mk_stream (buffer (input t)) 8 false)
    (set_match_doctype_count 6
       (set_state HUBBUB_TOKENISER_STATE_MATCH_DOCTYPE t)).

(** The tokeniser of the scenario [<!doctype html>] at the moment it
    meets the [o]: one letter has matched and stands in upper case. *)
Definition doctype_lower_tokeniser : hubbub_tokeniser :=
  let t := tokeniser_on "<!Doctype html>" false in
  set_input (mk_stream (buffer (input t)) 3 false)
    (set_match_doctype_count 1
       (set_state HUBBUB_TOKENISER_STATE_MATCH_DOCTYPE t)).

(** ** The close tag match state as the spec sees it *)

(** The call that [emit_character] adds to the trace. *)
Definition character_call (s : hubbub_string) (t : hubbub_tokeniser)
  : list callback_call :=
  match token_handler t with
  | Some h =>
    [token_call h (mk_token HUBBUB_TOKEN_CHARACTER (data_character s))
       (token_pw t) (buffer (input t))]
  | None => []
  end.

Definition add_calls (cs : list callback_call) (t : hubbub_tokeniser) :=
  mk_tokeniser (state t) (content_model t) (input t) (input_buffer t)
    (input_buffer_len t) (context t) (token_handler t) (token_pw t)
    (buffer_handler t) (buffer_pw t) (error_handler t) (error_pw t)
    (calls t ++ cs).

(** The codepoints that may follow the name of a close tag. *)
Definition close_tag_terminator (c : Z) : Prop :=
  c ∈ [9; 10; 11; 12; chr " "; chr ">"; chr "/"; chr "<";
       HUBBUB_INPUTSTREAM_EOF].

Section CloseTag.
Variable t0 : hubbub_tokeniser.

(** The tokeniser after the loop of the close tag match state has
    consumed [m] bytes. *)
Definition close_tag_state (m : nat) : hubbub_tokeniser :=
  set_input
    (mk_stream (buffer (input t0)) (cursor (input t0) + m)
       (had_eof (input t0)))
    (set_close_tag_match_tag
       (mk_string
          (match m with
           | O => data_off (close_tag_match_tag (context t0))
           | _ => Z.of_nat (cursor (input t0))
           end)
          (Z.of_nat m)) t0).

(** The tokeniser after the match has failed with [m] bytes consumed:
    the stream is where it was, the pending characters have been emitted
    and the state is the data state. *)
Definition close_tag_failed (m : nat) : hubbub_tokeniser :=
  set_state HUBBUB_TOKENISER_STATE_DATA
    (add_calls (character_call (current_chars (context t0)) t0)
       (set_input (input t0) (close_tag_state m))).

(** The candidate: the bytes at the cursor, as many as the name of the
    current tag has. *)
Definition close_tag_candidate : list Z :=
  range_bytes (buffer (input t0)) (Z.of_nat (cursor (input t0)))
    (len (tag_name (current_tag (context t0)))).

Definition close_tag_name : list Z :=
  span_bytes (buffer (input t0)) (tag_name (current_tag (context t0))).

(** The codepoint behind the candidate. *)
Definition close_tag_next : Z :=
  hubbub_inputstream_peek
    (mk_stream (buffer (input t0))
       (cursor (input t0)
        + Z.to_nat (len (tag_name (current_tag (context t0)))))
       (had_eof (input t0))).

(** The tokeniser after the match has succeeded. *)
Definition close_tag_matched : hubbub_tokeniser :=
  set_state HUBBUB_TOKENISER_STATE_CLOSE_TAG_OPEN
    (set_content_model HUBBUB_CONTENT_MODEL_PCDATA
       (set_input (input t0)
          (close_tag_state
             (Z.to_nat (len (tag_name (current_tag (context t0)))))))).
End CloseTag.

(** What the spec asks of the close tag match state when the candidate
    is made of ASCII bytes.  When the data at hand ends inside the
    candidate, the match fails at the end of the document and waits for
    more data otherwise.  With the whole candidate at hand, the match
    fails when the candidate is not the name up to ASCII case, waits
    when there is no data behind the candidate yet, succeeds when a
    terminator follows it and fails when anything else does. *)
Definition close_tag_outcome (t0 : hubbub_tokeniser)
  : hubbub_tokeniser * bool :=
  let n := Z.to_nat (len (tag_name (current_tag (context t0)))) in
  let cand := close_tag_candidate t0 in
  if (length cand <? n)%nat then
    if had_eof (input t0)
    then (close_tag_failed t0 (length cand), true)
    else (close_tag_state t0 (length cand), false)
  else if negb (bool_decide (map ascii_fold (close_tag_name t0)
                             = map ascii_fold cand))
  then (close_tag_failed t0 n, true)
  else if close_tag_next t0 =? HUBBUB_INPUTSTREAM_OOD
  then (close_tag_state t0 n, false)
  else if bool_decide (close_tag_terminator (close_tag_next t0))
  then (close_tag_matched t0, true)
  else (close_tag_failed t0 n, true).

(** The scenario of a close tag that arrives in two pieces: [</scr] is
    all the data at hand when the tokeniser first runs, [rest] and the
    end of the document come after it. *)
Definition script_resumed_scenario (rest : string)
  : result hubbub_tokeniser :=
  t ← run_loop sample_entities 100 (tokeniser_on "<script>" false);
  r ← hubbub_tokeniser_setopt (Some t) HUBBUB_TOKENISER_CONTENT_MODEL
        (Some (mk_optparams (None, 0) (None, 0) (None, 0)
                 HUBBUB_CONTENT_MODEL_CDATA));
  t ← of_option r.2;
  t ← run_loop sample_entities 100 (supply "</scr" false t);
  run_loop sample_entities 100 (supply rest true t).

(** The tokeniser of the scenario [</scriptx>] at the moment it enters
    the close tag match state: the content model is CDATA, the current
    tag is [script], the characters [</] are pending. *)
Definition script_close_tokeniser : hubbub_tokeniser :=
  let t := tokeniser_on "<script></scriptx>" true in
  set_input (mk_stream (buffer (input t)) 10 true)
    (set_current_chars (mk_string 8 2)
       (set_current_tag
          (mk_tag HUBBUB_NS_HTML (mk_string 1 6) 0 [] false)
          (set_content_model HUBBUB_CONTENT_MODEL_CDATA
             (set_state HUBBUB_TOKENISER_STATE_CLOSE_TAG_MATCH t)))).

(** ** Sample arguments *)

(** A tokeniser and a parameter block to try the entry points on. *)
Definition plain_tokeniser : hubbub_tokeniser :=
  hubbub_tokeniser_create (mk_stream (bytes_of_string "<p>") 0 true).

Definition plain_params : hubbub_tokeniser_optparams :=
  mk_optparams (Some 1%nat, 0) (Some 2%nat, 0) (Some 3%nat, 0)
    HUBBUB_CONTENT_MODEL_CDATA.

(** A start tag with a duplicated attribute, which the scan for
    duplicates would edit. *)
Definition duplicated_tag_token : hubbub_token :=
  mk_token HUBBUB_TOKEN_START_TAG
    (data_tag (mk_tag HUBBUB_NS_HTML (mk_string 1 1) 2
       [mk_attribute (mk_string 1 1) (mk_string 0 0);
        mk_attribute (mk_string 1 1) (mk_string 0 0)] false)).

(** The tokeniser at the moment the entity of [&amp;] has been matched
    and replaced: matching is complete and the cursor is on the [&] that
    replaced it. *)
Definition after_entity_tokeniser : hubbub_tokeniser :=
  let t := tokeniser_on "&" true in
  set_state HUBBUB_TOKENISER_STATE_ENTITY_DATA
    (set_match_entity
       (me_set_complete true (match_entity (context t))) t).

(** The slot [ctag->attributes[ctag->n_attributes - 1]], when the array
    has it. *)
Definition last_attribute (t : hubbub_tokeniser)
  : option hubbub_attribute :=
  let ctag := current_tag (context t) in
  attributes ctag !! Z.to_nat (u32 (n_attributes ctag - 1)).

(** The same moment in the value of an attribute: the tag under
    construction has one attribute. *)
Definition after_attribute_entity_tokeniser : hubbub_tokeniser :=
  set_current_tag
    (mk_tag HUBBUB_NS_HTML (mk_string 0 0) 1
       [mk_attribute (mk_string 0 0) (mk_string 0 0)] false)
    (set_state HUBBUB_TOKENISER_STATE_ENTITY_IN_ATTRIBUTE_VALUE
       after_entity_tokeniser).

(** ** The doctype flag *)

(** A doctype token is flagged correct only if its name reads [HTML] in
    the buffer it was emitted with. *)
Definition doctype_call_sound (c : callback_call) : Prop :=
  forall name,
    view_call c = Some (Doctype name true) -> name = bytes_of_string "HTML".

(** The invariant of the tokeniser behind it: the flag of the doctype
    under construction is never set. *)
Definition doctype_inv (t : hubbub_tokeniser) : Prop :=
  correct (current_doctype (context t)) = false
  /\ Forall doctype_call_sound (calls t).

(** The tokens of a trace are sound when only doctypes named [HTML] are
    flagged correct. *)
Definition doctype_tokens_sound (l : list token_view) : Prop :=
  forall name, Doctype name true ∈ l -> name = bytes_of_string "HTML".

(** The name of the doctype under construction, as the buffer has it. *)
Definition current_doctype_name (t : hubbub_tokeniser) : list Z :=
  span_bytes (buffer (input t)) (doctype_name (current_doctype (context t))).

Definition doctype_name_is_html (t : hubbub_tokeniser) : Prop :=
  len (doctype_name (current_doctype (context t))) = 4
  /\ current_doctype_name t = bytes_of_string "HTML".

(** The places where a doctype token leaves the tokeniser: the two that
    compare the name with [HTML], and the others. *)
Definition doctype_checked_point (t : hubbub_tokeniser) : Prop :=
  (state t = HUBBUB_TOKENISER_STATE_DOCTYPE_NAME
   \/ state t = HUBBUB_TOKENISER_STATE_AFTER_DOCTYPE_NAME)
  /\ peek t = chr ">".

Definition doctype_unchecked_point (t : hubbub_tokeniser) : Prop :=
  (state t = HUBBUB_TOKENISER_STATE_BEFORE_DOCTYPE_NAME
   /\ (peek t = chr ">" \/ peek t = HUBBUB_INPUTSTREAM_EOF))
  \/ ((state t = HUBBUB_TOKENISER_STATE_DOCTYPE_NAME
       \/ state t = HUBBUB_TOKENISER_STATE_AFTER_DOCTYPE_NAME)
      /\ peek t = HUBBUB_INPUTSTREAM_EOF)
  \/ (state t = HUBBUB_TOKENISER_STATE_BOGUS_DOCTYPE
      /\ (peek t = chr ">" \/ peek t = HUBBUB_INPUTSTREAM_EOF)).

(** A document whose end arrives in a second piece: the tokeniser after
    the run on the first piece, with the second one supplied. *)
Definition doctype_scenario (s rest : string) : hubbub_tokeniser :=
  match run_loop sample_entities 100 (tokeniser_on s false) with
  | Ok t => supply rest true t
  | _ => tokeniser_on rest true
  end.

(** What it is for a handler to keep the invariant. *)
Definition keeps (f : hubbub_tokeniser -> result (hubbub_tokeniser * bool))
  : Prop :=
  forall t t' c, doctype_inv t -> f t = Ok (t', c) -> doctype_inv t'.

(** A function of the tokeniser returns when the budget of its loops is
    never what stops it. *)
Definition returns {A} (f : hubbub_tokeniser -> result A) : Prop :=
  forall t, f t <> Timeout.

(** ** Runs on sample documents *)

(** The tokeniser after a run on [s], with more input to come. *)
Definition paused_on (s : string) : hubbub_tokeniser :=
  match run_loop sample_entities 100 (tokeniser_on s false) with
  | Ok t => t
  | _ => tokeniser_on s false
  end.

(** The tokeniser after a run on the whole document [s]. *)
Definition run_on (s : string) : hubbub_tokeniser :=
  match run_loop sample_entities 100 (tokeniser_on s true) with
  | Ok t => t
  | _ => tokeniser_on s true
  end.

(** ** The scan for duplicate attributes *)

(** The test of the duplicate scan: two attributes have the same name when
    the names are as long as each other and [compare_range_cs] finds the
    same bytes. *)
Definition same_name (inp : hubbub_inputstream) (a b : hubbub_attribute)
  : bool :=
  (len (attr_name a) =? len (attr_name b))
  && (hubbub_inputstream_compare_range_cs inp (data_off (attr_name a))
        (data_off (attr_name b)) (len (attr_name a)) =? 0).

(** The names of the first [n] attributes are pairwise different. *)
Definition distinct_names (inp : hubbub_inputstream) (n : Z)
    (attrs : list hubbub_attribute) : Prop :=
  forall i j ai aj,
    (i < Z.to_nat n)%nat -> (j < Z.to_nat n)%nat -> i <> j ->
    attrs !! i = Some ai -> attrs !! j = Some aj ->
    same_name inp ai aj = false.

(** A start tag with the attributes [a] and [b] of the document [ab]. *)
Definition two_names_token : hubbub_token :=
  mk_token HUBBUB_TOKEN_START_TAG
    (data_tag (mk_tag HUBBUB_NS_HTML (mk_string 0 1) 2
       [mk_attribute (mk_string 0 1) (mk_string 0 0);
        mk_attribute (mk_string 1 1) (mk_string 0 0)] false)).

(** The calls of [memmove] that the inner loop of the duplicate scan
    makes: the slot it moves to and the number of slots,
    [n_attributes - 1 - ((i < j) ? j : i)] in 32 bits, that it multiplies
    by the size of a slot. *)
Fixpoint discard_duplicates_inner_moves (fuel : nat)
    (inp : hubbub_inputstream) (i j n_attributes : Z)
    (attrs : list hubbub_attribute) : list (Z * Z) :=
  match fuel with
  | O => []
  | S fuel' =>
    if j <? n_attributes then
      if j =? i then
        discard_duplicates_inner_moves fuel' inp i (j + 1) n_attributes attrs
      else
        match attrs !! Z.to_nat i, attrs !! Z.to_nat j with
        | Some ai, Some aj =>
          if negb (len (attr_name ai) =? len (attr_name aj))
             || negb (hubbub_inputstream_compare_range_cs inp
                        (data_off (attr_name ai)) (data_off (attr_name aj))
                        (len (attr_name ai)) =? 0)
          then
            discard_duplicates_inner_moves fuel' inp i (j + 1) n_attributes
              attrs
          else
            let k := if i <? j then j else i in
            let move := u32 (n_attributes - 1 - k) in
            let attrs' :=
              if 0 <? move
              then memmove_attrs attrs (Z.to_nat k) (Z.to_nat move)
              else attrs in
            (if 0 <? move then [(k, move)] else [])
            ++ discard_duplicates_inner_moves fuel' inp i (j + 1)
                 (u32 (n_attributes - 1)) attrs'
        | _, _ => []
        end
    else []
  end.

(** The calls of [memmove] of the whole scan. *)
Fixpoint discard_duplicates_moves (fuel : nat) (inp : hubbub_inputstream)
    (i n_attributes : Z) (attrs : list hubbub_attribute) : list (Z * Z) :=
  match fuel with
  | O => []
  | S fuel' =>
    if i <? n_attributes then
      discard_duplicates_inner_moves (S (Z.to_nat n_attributes)) inp i 0
        n_attributes attrs
      ++ match discard_duplicates_inner (S (Z.to_nat n_attributes)) inp i 0
                 n_attributes attrs with
         | Ok (n', attrs') =>
           discard_duplicates_moves fuel' inp (i + 1) n' attrs'
         | _ => []
         end
    else []
  end.

(** A call [memmove(&attrs[k], &attrs[k+1], move * sizeof)] stays inside
    an array of [size] slots. *)
Definition move_in_bounds (size : nat) (m : Z * Z) : Prop :=
  0 <= m.1 /\ m.1 + 1 + m.2 <= Z.of_nat size.

(** The third argument of [memmove]: the number of slots times
    [sizeof(hubbub_attribute)], as the 32-bit [move] holds it. *)
Definition move_bytes (sizeof_attribute : Z) (m : Z * Z) : Z :=
  u32 (m.2 * sizeof_attribute).

(** The tokeniser in the middle of a tag with nine attributes of the
    same name. *)
Definition nine_names : hubbub_tokeniser :=
  paused_on "<p a a a a a a a a a".

(** What the scan keeps of an array [orig] of [count] attributes, in an
    array [attrs] of which [n] slots are in use: the first slot, a
    selection of the attributes, and every name. *)
Definition scan_keeps (inp : hubbub_inputstream)
    (orig : list hubbub_attribute) (count : Z)
    (attrs : list hubbub_attribute) (n : Z) : Prop :=
  0 <= n <= count
  /\ (1 <= count -> 1 <= n)
  /\ length attrs = length orig
  /\ attrs !! 0%nat = orig !! 0%nat
  /\ (forall a,
        a ∈ take (Z.to_nat n) attrs -> a ∈ take (Z.to_nat count) orig)
  /\ (forall a, a ∈ take (Z.to_nat count) orig ->
        exists b, b ∈ take (Z.to_nat n) attrs /\ same_name inp a b = true).

(** ** Properties that the handlers keep *)

(** A function of the tokeniser keeps a property when its result has it
    whenever its argument has. *)
Definition invariant {A} (Inv : hubbub_tokeniser -> Prop)
    (f : hubbub_tokeniser -> result (hubbub_tokeniser * A)) : Prop :=
  forall t t' c, Inv t -> f t = Ok (t', c) -> Inv t'.

(** The tokeniser that a run leaves when the stream is out of data: the
    data state has cleared the pending characters, nothing else has
    changed. *)
Definition paused (t : hubbub_tokeniser) : hubbub_tokeniser :=
  if bool_decide (state t = HUBBUB_TOKENISER_STATE_DATA)
  then set_current_chars zero_string t else t.

(** The tokeniser that has handed over the start tag of [<script>], with
    the content model set to CDATA by the client and [</script ] supplied
    as the next data, and the tokeniser that a run leaves from there. *)
Definition script_close_supplied : hubbub_tokeniser :=
  supply "</script " false
    (set_content_model HUBBUB_CONTENT_MODEL_CDATA (paused_on "<script>")).

Definition script_close_paused : hubbub_tokeniser :=
  match run_loop sample_entities 100 script_close_supplied with
  | Ok t => t
  | _ => script_close_supplied
  end.

(** The client sets the content model to PLAINTEXT while the tokeniser
    waits for the name of a close tag. *)
Definition plaintext_after_close_tag_open : hubbub_tokeniser :=
  supply "x" true
    (set_content_model HUBBUB_CONTENT_MODEL_PLAINTEXT (paused_on "</")).

(** ** The last attribute *)

(** The states whose handlers assign to
    [ctag->attributes[ctag->n_attributes - 1]], or lead to one that does
    without making a new attribute. *)
Definition attribute_state (s : hubbub_tokeniser_state) : bool :=
  match s with
  | HUBBUB_TOKENISER_STATE_ATTRIBUTE_NAME
  | HUBBUB_TOKENISER_STATE_AFTER_ATTRIBUTE_NAME
  | HUBBUB_TOKENISER_STATE_BEFORE_ATTRIBUTE_VALUE
  | HUBBUB_TOKENISER_STATE_ATTRIBUTE_VALUE_DQ
  | HUBBUB_TOKENISER_STATE_ATTRIBUTE_VALUE_SQ
  | HUBBUB_TOKENISER_STATE_ATTRIBUTE_VALUE_UQ => true
  | _ => false
  end.

Definition attribute_value_state (s : hubbub_tokeniser_state) : bool :=
  match s with
  | HUBBUB_TOKENISER_STATE_ATTRIBUTE_VALUE_DQ
  | HUBBUB_TOKENISER_STATE_ATTRIBUTE_VALUE_SQ
  | HUBBUB_TOKENISER_STATE_ATTRIBUTE_VALUE_UQ => true
  | _ => false
  end.

(** What the tokeniser keeps true between two calls of a handler, as far
    as attributes and entities go.  The attribute count is a 32-bit
    number.  Where a handler is about to write to the last attribute,
    the array has that slot.  An entity in an attribute value goes back
    to an attribute value state, and the entity states go back to the
    state that asked for the entity. *)
Definition tokeniser_wf (t : hubbub_tokeniser) : Prop :=
  let ctx := context t in
  let me := match_entity ctx in
  0 <= n_attributes (current_tag ctx) < 2 ^ 32
  /\ (done_setup me = true -> complete me = false)
  /\ match state t with
     | HUBBUB_TOKENISER_STATE_ENTITY_DATA =>
       done_setup me = true ->
       return_state me = HUBBUB_TOKENISER_STATE_ENTITY_DATA
     | HUBBUB_TOKENISER_STATE_ENTITY_IN_ATTRIBUTE_VALUE =>
       is_Some (last_attribute t)
       /\ attribute_value_state (prev_state ctx) = true
       /\ (done_setup me = true ->
           return_state me
           = HUBBUB_TOKENISER_STATE_ENTITY_IN_ATTRIBUTE_VALUE)
     | HUBBUB_TOKENISER_STATE_NUMBERED_ENTITY
     | HUBBUB_TOKENISER_STATE_NAMED_ENTITY =>
       return_state me = HUBBUB_TOKENISER_STATE_ENTITY_DATA
       \/ (return_state me
           = HUBBUB_TOKENISER_STATE_ENTITY_IN_ATTRIBUTE_VALUE
           /\ is_Some (last_attribute t)
           /\ attribute_value_state (prev_state ctx) = true)
     | s =>
       done_setup me = false
       /\ (attribute_state s = true -> is_Some (last_attribute t))
     end.

(** The part of the context that [tokeniser_wf] reads. *)
Definition wf_view (t : hubbub_tokeniser) :=
  (current_tag (context t), prev_state (context t),
   done_setup (match_entity (context t)),
   complete (match_entity (context t)),
   return_state (match_entity (context t))).

(** What the loops inside the handlers change of the state and of the
    part of the context that [tokeniser_wf] reads. *)
Definition loop_frame (t t' : hubbub_tokeniser) : Prop :=
  wf_view t' = wf_view t
  /\ (state t' = state t
      \/ state t' = HUBBUB_TOKENISER_STATE_DATA
      \/ state t' = HUBBUB_TOKENISER_STATE_ENTITY_DATA
      \/ state t' = HUBBUB_TOKENISER_STATE_TAG_OPEN).

(** The same for the loops that leave the state alone. *)
Definition kept (t t' : hubbub_tokeniser) : Prop :=
  state t' = state t /\ wf_view t' = wf_view t.

(** The states in which the slot of the last attribute is there. *)
Definition has_last_attribute (s : hubbub_tokeniser_state) : bool :=
  attribute_state s
  || bool_decide (s = HUBBUB_TOKENISER_STATE_ENTITY_IN_ATTRIBUTE_VALUE).

(** ** Text in the data state *)

(** [k] calls of [hubbub_inputstream_advance]. *)
Fixpoint advance_by (k : nat) (s : hubbub_inputstream)
  : hubbub_inputstream :=
  match k with
  | O => s
  | S k' => advance_by k' (hubbub_inputstream_advance s)
  end.

(** The values of [c] that the loop of the data state accumulates: not a
    sentinel, not an ampersand where entities are read, not a [<] where
    tags are read. *)
Definition data_text (cm : hubbub_content_model) (c : Z) : bool :=
  negb (is_sentinel c)
  && negb ((c =? chr "&")
           && (bool_decide (cm = HUBBUB_CONTENT_MODEL_PCDATA)
               || bool_decide (cm = HUBBUB_CONTENT_MODEL_RCDATA)))
  && negb ((c =? chr "<")
           && negb (bool_decide (cm = HUBBUB_CONTENT_MODEL_PLAINTEXT))).

(** The stream starts with [k] code points of text, and ends after them. *)
Definition text_then_end (cm : hubbub_content_model) (k : nat)
    (s : hubbub_inputstream) : Prop :=
  (forall i, (i < k)%nat ->
     data_text cm (hubbub_inputstream_peek (advance_by i s)) = true)
  /\ is_sentinel (hubbub_inputstream_peek (advance_by k s)) = true.

(** The pending characters after [k] rounds of accumulation. *)
Definition accumulated (cc : hubbub_string) (pos : Z) (k : nat)
  : hubbub_string :=
  match k with
  | O => cc
  | S _ => mk_string (if len cc =? 0 then pos else data_off cc)
             (len cc + Z.of_nat k)
  end.

(** The text [hé], three bytes, then the end of the data at hand. *)
Definition accented_text : hubbub_tokeniser :=
  set_token_handler (Some 1%nat) 0
    (hubbub_tokeniser_create (mk_stream [104; 0xC3; 0xA9] 0 false)).

(** ** The stack of open elements *)

(** The nodes of the stack entries from [hi] down to [lo + 1], in the
    order in which they are popped. *)
Definition nodes_down (stack : list Treebuilder.element_context)
    (hi lo : Z) : list Z :=
  Treebuilder.node
    <$> reverse (take (Z.to_nat (hi - lo)) (drop (S (Z.to_nat lo)) stack)).

(** Entry [k] is the topmost entry of the stack in the HTML namespace. *)
Definition topmost_html (tb : Treebuilder.hubbub_treebuilder) (k : Z)
  : Prop :=
  0 <= k <= Treebuilder.current_node tb
  /\ (exists e, Treebuilder.element_stack tb !! Z.to_nat k = Some e
                /\ Treebuilder.ns e = HUBBUB_NS_HTML)
  /\ forall j, k < j <= Treebuilder.current_node tb ->
       exists e, Treebuilder.element_stack tb !! Z.to_nat j = Some e
                 /\ Treebuilder.ns e <> HUBBUB_NS_HTML.

#[local] Existing Instance Treebuilder.element_type_eq_dec.

(** The entries at which the search for a foreign element in scope stops:
    a table or a scoping element. *)
Definition scope_barrier (is_scoping_element : Element.element_type -> bool)
    (e : Treebuilder.element_context) : bool :=
  bool_decide (Treebuilder.type e = Element.TABLE)
  || is_scoping_element (Treebuilder.type e).

(** Entry [k], above the bottom of the stack, is outside the HTML
    namespace, and neither it nor an entry between it and entry [n] is a
    barrier. *)
Definition foreign_in_scope (is_scoping_element : Element.element_type -> bool)
    (stack : list Treebuilder.element_context) (n k : Z) : Prop :=
  1 <= k <= n
  /\ (exists e, stack !! Z.to_nat k = Some e
                /\ Treebuilder.ns e <> HUBBUB_NS_HTML)
  /\ forall j e, k <= j <= n -> stack !! Z.to_nat j = Some e ->
       scope_barrier is_scoping_element e = false.

(** ** The tree builder: "in caption" *)

Section InCaption.

(** Functions of the tree builder that live in files that are not part of
    the sources at hand.  [handle_in_body] stands for the call whose
    returned flag the mode drops. *)
Variable element_type_from_name : hubbub_string -> Element.element_type.

Variable handle_in_body
  : Treebuilder.hubbub_treebuilder -> hubbub_token
    -> result Treebuilder.hubbub_treebuilder.

Variable close_implied_end_tags
  : Treebuilder.hubbub_treebuilder -> Element.element_type
    -> result Treebuilder.hubbub_treebuilder.

Variable clear_active_formatting_list_to_marker
  : Treebuilder.hubbub_treebuilder -> result Treebuilder.hubbub_treebuilder.

(** [while (otype != CAPTION)]: one entry is popped per round, so
    [current_node + 1] rounds are enough. *)
Fixpoint caption_pop_loop (fuel : nat) (otype : Element.element_type)
    (tb : Treebuilder.hubbub_treebuilder)
  : result Treebuilder.hubbub_treebuilder :=
  match fuel with
  | O => Timeout
  | S fuel' =>
    if negb (bool_decide (otype = Element.CAPTION)) then
      '(tb, e) ← Treebuilder.element_stack_pop tb;
      caption_pop_loop fuel' (Treebuilder.type e)
        (Treebuilder.unref_node (Treebuilder.node e) tb)
    else Ok tb
  end.

(** The [switch] of [handle_in_caption]: the tree builder it leaves and
    the flag [handled]. *)
Definition in_caption_switch (treebuilder : Treebuilder.hubbub_treebuilder)
    (token : hubbub_token)
  : result (Treebuilder.hubbub_treebuilder * bool) :=
  match token_type token with
  | HUBBUB_TOKEN_START_TAG =>
    match token_data token with
    | data_tag tag =>
      let type := element_type_from_name (tag_name tag) in
      if bool_decide (type ∈
           [Element.CAPTION; Element.COL; Element.COLGROUP; Element.TBODY;
            Element.TD; Element.TFOOT; Element.TH; Element.THEAD;
            Element.TR])
      then Ok (treebuilder, true)
      else
        (* Process as if "in body" *)
        tb ← handle_in_body treebuilder token; Ok (tb, false)
    | _ => Undefined
    end
  | HUBBUB_TOKEN_END_TAG =>
    match token_data token with
    | data_tag tag =>
      let type := element_type_from_name (tag_name tag) in
      if bool_decide (type = Element.CAPTION)
         || bool_decide (type = Element.TABLE)
      then Ok (treebuilder, true)
      else if bool_decide (type ∈
                [Element.BODY; Element.COL; Element.COLGROUP; Element.HTML;
                 Element.TBODY; Element.TD; Element.TFOOT; Element.TH;
                 Element.THEAD; Element.TR])
      then Ok (treebuilder, false)
      else
        (* Process as if "in body" *)
        tb ← handle_in_body treebuilder token; Ok (tb, false)
    | _ => Undefined
    end
  | HUBBUB_TOKEN_CHARACTER
  | HUBBUB_TOKEN_COMMENT
  | HUBBUB_TOKEN_DOCTYPE
  | HUBBUB_TOKEN_EOF =>
    (* Process as if "in body" *)
    tb ← handle_in_body treebuilder token; Ok (tb, false)
  end.

(** [handle_in_caption]: the tree builder it leaves and the value it
    returns, "true to reprocess the token, false otherwise". *)
Definition handle_in_caption (treebuilder : Treebuilder.hubbub_treebuilder)
    (token : hubbub_token)
  : result (Treebuilder.hubbub_treebuilder * bool) :=
  let reprocess := false in
  '(tb, handled) ← in_caption_switch treebuilder token;
  tb ←
    (if handled || reprocess then
       tb ← close_implied_end_tags tb Element.UNKNOWN;
       tb ← caption_pop_loop (S (Z.to_nat (Treebuilder.current_node tb)))
              Element.UNKNOWN tb;
       tb ← clear_active_formatting_list_to_marker tb;
       Ok (Treebuilder.set_mode Treebuilder.IN_TABLE tb)
     else Ok tb);
  Ok (tb, reprocess).

End InCaption.

(** Entry [k], above the bottom of the stack, is the topmost caption. *)
Definition topmost_caption (tb : Treebuilder.hubbub_treebuilder) (k : Z)
  : Prop :=
  1 <= k <= Treebuilder.current_node tb
  /\ (exists e, Treebuilder.element_stack tb !! Z.to_nat k = Some e
                /\ Treebuilder.type e = Element.CAPTION)
  /\ forall j, k < j <= Treebuilder.current_node tb ->
       exists e, Treebuilder.element_stack tb !! Z.to_nat j = Some e
                 /\ Treebuilder.type e <> Element.CAPTION.

(** The tree builder after the entries from the current node down to
    entry [k] have been popped and their nodes released. *)
Definition popped_through (tb : Treebuilder.hubbub_treebuilder) (k : Z)
  : Treebuilder.hubbub_treebuilder :=
  Treebuilder.mk_treebuilder (Treebuilder.mode tb)
    (Treebuilder.second_mode tb) (Treebuilder.element_stack tb) (k - 1)
    (Treebuilder.unref_calls tb
     ++ nodes_down (Treebuilder.element_stack tb)
          (Treebuilder.current_node tb) (k - 1)).

(** The tokens for which the mode closes the caption. *)
Definition closes_caption
    (element_type_from_name : hubbub_string -> Element.element_type)
    (token : hubbub_token) : bool :=
  match token_type token, token_data token with
  | HUBBUB_TOKEN_START_TAG, data_tag tag =>
    bool_decide (element_type_from_name (tag_name tag) ∈
      [Element.CAPTION; Element.COL; Element.COLGROUP; Element.TBODY;
       Element.TD; Element.TFOOT; Element.TH; Element.THEAD; Element.TR])
  | HUBBUB_TOKEN_END_TAG, data_tag tag =>
    bool_decide (element_type_from_name (tag_name tag) ∈
      [Element.CAPTION; Element.TABLE])
  | _, _ => false
  end.

(** A caption with a bold element open in it, in a table in the body. *)
Definition caption_treebuilder : Treebuilder.hubbub_treebuilder :=
  Treebuilder.mk_treebuilder Treebuilder.IN_CAPTION Treebuilder.IN_BODY
    [Treebuilder.mk_element HUBBUB_NS_HTML Element.HTML 1;
     Treebuilder.mk_element HUBBUB_NS_HTML Element.BODY 2;
     Treebuilder.mk_element HUBBUB_NS_HTML Element.TABLE 3;
     Treebuilder.mk_element HUBBUB_NS_HTML Element.CAPTION 4;
     Treebuilder.mk_element HUBBUB_NS_HTML Element.B 5]
    4 [].

(** A start tag, which the sample naming below reads as [td]. *)
Definition td_start_tag : hubbub_token :=
  mk_token HUBBUB_TOKEN_START_TAG
    (data_tag (mk_tag HUBBUB_NS_HTML (mk_string 1 2) 0 [] false)).

(** ** Bogus comments and tag names *)

(** The values of [c] that the loop of the bogus comment state adds to
    the comment. *)
Definition comment_text (c : Z) : bool :=
  negb (is_sentinel c) && negb (c =? chr ">").

(** The comment after [k] rounds of the loop, which took the stream from
    [pos] to [pos']. *)
Definition extended (cc : hubbub_string) (pos pos' : Z) (k : nat)
  : hubbub_string :=
  match k with
  | O => cc
  | S _ => mk_string (if len cc =? 0 then pos else data_off cc)
             (len cc + (pos' - pos))
  end.

(** The closing [>] is consumed, the end of the document is not. *)
Definition past_gt (c : Z) (s : hubbub_inputstream) : hubbub_inputstream :=
  if c =? chr ">" then hubbub_inputstream_advance s else s.

(** The bogus comment state in front of the bytes of [é!>], with the
    comment still empty. *)
Definition accented_comment : hubbub_tokeniser :=
  set_state HUBBUB_TOKENISER_STATE_BOGUS_COMMENT
    (set_token_handler (Some 1%nat) 0
       (hubbub_tokeniser_create
          (mk_stream [60; 63; 0xC3; 0xA9; 33; 62] 2 true))).

(** An ASCII letter. *)
Definition is_letter (c : Z) : bool := is_upper c || is_lower c.

(** The document [<name>]. *)
Definition start_tag_document (name : list Z) : list Z :=
  chr "<" :: name ++ [chr ">"].

(** The tokeniser [t] with the stream at [cur] in [buf] and [extra] more
    bytes in the name of the current tag. *)
Definition named (t : hubbub_tokeniser) (buf : list Z) (cur : nat)
    (extra : Z) : hubbub_tokeniser :=
  let ctag := current_tag (context t) in
  set_input (mk_stream buf cur (had_eof (input t)))
    (set_current_tag
       (mk_tag (tag_ns ctag) (add_len extra (tag_name ctag))
          (n_attributes ctag) (attributes ctag) (self_closing ctag)) t).

(** * Properties *)

(** ** Bad parameters *)

(** C8, as stated, fails: with an option type that is none of the four
    that the [switch] knows, [hubbub_tokeniser_setopt] leaves the tokeniser
    as it is but reports [HUBBUB_OK], not the bad-parameter code. *)
Lemma setopt_unrecognised_option_reports_ok :
  hubbub_tokeniser_setopt (Some plain_tokeniser)
    (HUBBUB_TOKENISER_OPT_OTHER 99) (Some plain_params)
  = Ok (HUBBUB_OK, Some plain_tokeniser)
  /\ hubbub_tokeniser_setopt (Some plain_tokeniser)
       (HUBBUB_TOKENISER_OPT_OTHER 99) (Some plain_params)
     <> Ok (HUBBUB_BADPARM, Some plain_tokeniser).
Proof. split; [reflexivity | discriminate]. Qed.

(** C8, amended: [hubbub_tokeniser_run] on a null tokeniser and
    [hubbub_tokeniser_setopt] on a null tokeniser or on null parameters
    return [HUBBUB_BADPARM] and change nothing; [hubbub_tokeniser_setopt]
    with an option type that it does not know changes nothing either and
    returns [HUBBUB_OK]. *)
Theorem bad_parameters :
  (forall entities fuel,
     hubbub_tokeniser_run entities fuel None = Ok (HUBBUB_BADPARM, None))
  /\ (forall type params,
        hubbub_tokeniser_setopt None type params
        = Ok (HUBBUB_BADPARM, None))
  /\ (forall tokeniser type,
        hubbub_tokeniser_setopt tokeniser type None
        = Ok (HUBBUB_BADPARM, tokeniser))
  /\ (forall t n params,
        hubbub_tokeniser_setopt (Some t) (HUBBUB_TOKENISER_OPT_OTHER n)
          (Some params)
        = Ok (HUBBUB_OK, Some t)).
Proof.
  split; [reflexivity|]. split; [reflexivity|]. split.
  - intros [t|] type; reflexivity.
  - reflexivity.
Qed.

(** ** Emitting without a handler *)

(** C10: when the tokeniser or the token is null, or no token handler is
    registered, [hubbub_tokeniser_emit_token] returns at once: the
    tokeniser, its trace of callback calls included, and the token, its
    attributes included, are what they were. *)
Theorem emit_token_without_handler
    (tokeniser : option hubbub_tokeniser) (token : option hubbub_token) :
  tokeniser = None \/ token = None
  \/ (exists t, tokeniser = Some t /\ token_handler t = None) ->
  hubbub_tokeniser_emit_token tokeniser token = Ok (tokeniser, token).
Proof.
  intros [-> | [-> | (t & -> & Hnone)]].
  - reflexivity.
  - destruct tokeniser; reflexivity.
  - destruct token as [tok|]; [|reflexivity].
    unfold hubbub_tokeniser_emit_token. rewrite Hnone. reflexivity.
Qed.

Lemma emit_token_without_handler_witness :
  token_handler plain_tokeniser = None
  /\ hubbub_tokeniser_emit_token (Some plain_tokeniser)
       (Some duplicated_tag_token)
     = Ok (Some plain_tokeniser, Some duplicated_tag_token).
Proof.
  split; [reflexivity|].
  apply (emit_token_without_handler (Some plain_tokeniser)
           (Some duplicated_tag_token)).
  right; right. exists plain_tokeniser. split; reflexivity.
Defined.

(** ** The abort branches of the entity states *)

(** Emitting a character token never ends the process. *)
Lemma emit_character_returns (s : hubbub_string) (t : hubbub_tokeniser) :
  exists t', emit_character s t = Ok t'.
Proof.
  unfold emit_character, emit, hubbub_tokeniser_emit_token.
  destruct (token_handler t); simpl; eauto.
Qed.

Lemma update_last_attribute_not_abort f t :
  update_last_attribute f t <> Abort.
Proof.
  unfold update_last_attribute.
  destruct (attributes _ !! _); simpl; discriminate.
Qed.

Lemma consume_entity_not_abort t :
  hubbub_tokeniser_consume_entity t <> Abort.
Proof.
  unfold hubbub_tokeniser_consume_entity.
  repeat case_match; discriminate.
Qed.

Lemma consume_entity_returns t :
  exists r, hubbub_tokeniser_consume_entity t = Ok r.
Proof. unfold hubbub_tokeniser_consume_entity. repeat case_match; eauto. Qed.

(** C9: if, whenever entity matching has completed, the stream's [peek]
    returns a codepoint and neither OOD nor EOF, then the entity data
    state and the entity in attribute value state do not reach
    [abort()]: the entity data state returns, and so does the entity in
    attribute value state when the tag under construction has the
    attribute that it extends. *)
Theorem entity_states_never_abort (t : hubbub_tokeniser) :
  (complete (match_entity (context t)) = true ->
   peek t <> HUBBUB_INPUTSTREAM_OOD /\ peek t <> HUBBUB_INPUTSTREAM_EOF) ->
  (exists r, hubbub_tokeniser_handle_entity_data t = Ok r)
  /\ hubbub_tokeniser_handle_entity_in_attribute_value t <> Abort
  /\ (is_Some (last_attribute t) ->
      exists r, hubbub_tokeniser_handle_entity_in_attribute_value t = Ok r).
Proof.
  intros Hpeek.
  unfold hubbub_tokeniser_handle_entity_data,
    hubbub_tokeniser_handle_entity_in_attribute_value.
  destruct (complete (match_entity (context t))) eqn:Hc; cbn [negb].
  - destruct (Hpeek eq_refl) as [Hood Heof].
    apply Z.eqb_neq in Hood, Heof. rewrite Hood, Heof. cbn [orb].
    split; [|split].
    + destruct (emit_character_returns
                  (mk_string (cur_pos t).1 (cur_pos t).2) t) as [t' ->].
      cbn. eauto.
    + unfold extend_attribute_value.
      destruct (update_last_attribute _ t) eqn:Hu; try discriminate.
      exfalso. eapply update_last_attribute_not_abort. exact Hu.
    + intros [a Ha]. unfold extend_attribute_value, update_last_attribute.
      unfold last_attribute in Ha. cbv zeta in Ha. rewrite Ha. cbn. eauto.
  - split; [apply consume_entity_returns|].
    split; [apply consume_entity_not_abort|].
    intros _. apply consume_entity_returns.
Qed.

Lemma entity_states_never_abort_witness :
  complete (match_entity (context after_attribute_entity_tokeniser)) = true
  /\ peek after_attribute_entity_tokeniser = chr "&"
  /\ (exists r,
        hubbub_tokeniser_handle_entity_data
          after_attribute_entity_tokeniser = Ok r)
  /\ hubbub_tokeniser_handle_entity_in_attribute_value
       after_attribute_entity_tokeniser <> Abort
  /\ (exists r,
        hubbub_tokeniser_handle_entity_in_attribute_value
          after_attribute_entity_tokeniser = Ok r).
Proof.
  split; [reflexivity|]. split; [reflexivity|].
  destruct (entity_states_never_abort after_attribute_entity_tokeniser)
    as (H1 & H2 & H3).
  { intros _. split; vm_compute; discriminate. }
  split; [exact H1|]. split; [exact H2|]. apply H3. vm_compute. eauto.
Defined.

(** The guard cannot be dropped: with matching flagged complete and the
    stream at a sentinel, both handlers reach [abort()]. *)
Lemma entity_states_abort_on_sentinel t :
  complete (match_entity (context t)) = true ->
  peek t = HUBBUB_INPUTSTREAM_OOD \/ peek t = HUBBUB_INPUTSTREAM_EOF ->
  hubbub_tokeniser_handle_entity_data t = Abort
  /\ hubbub_tokeniser_handle_entity_in_attribute_value t = Abort.
Proof.
  intros Hc Hp.
  unfold hubbub_tokeniser_handle_entity_data,
    hubbub_tokeniser_handle_entity_in_attribute_value.
  rewrite Hc. cbn [negb].
  by destruct Hp as [-> | ->].
Qed.

(** ** Breaking out of foreign content *)

(** C2, the code at the scenario of an open [svg] element and a [table]
    start tag: the handler pops the two SVG entries, releasing their
    nodes, and switches to the secondary mode, but it returns [false]:
    the token is not reprocessed in that mode. *)
Theorem foreign_break_out_does_not_reprocess :
  exists tb,
    svg_scenario = Ok (tb, false)
    /\ Treebuilder.mode tb = Treebuilder.IN_BODY
    /\ Treebuilder.current_node tb = 1
    /\ Treebuilder.unref_calls tb = [4; 3]
    /\ (Treebuilder.ns <$> Treebuilder.element_stack tb !! 1%nat)
       = Some HUBBUB_NS_HTML.
Proof. eexists. repeat split. Qed.

(** Whatever the token and the tree builder, [handle_in_foreign_content]
    never asks for the token to be reprocessed. *)
Lemma handle_in_foreign_content_returns_false
    etfn ise tth at_ pca afa ie ienp tb token tb' reprocess :
  Treebuilder.handle_in_foreign_content etfn ise tth at_ pca afa ie ienp
    tb token = Ok (tb', reprocess) ->
  reprocess = false.
Proof.
  unfold Treebuilder.handle_in_foreign_content.
  match goal with |- (mbind _ ?m) = _ -> _ => destruct m end;
    simpl; intros H; inversion H; reflexivity.
Qed.

(** ** Duplicate attributes *)

(** The scenario of the spec: of two attributes of one name the first is
    kept. *)
Lemma duplicate_attribute_dropped :
  tokens_of_run 100 (tokeniser_on "<p a=1 a=2>" true)
  = Ok [StartTag (bytes_of_string "p")
          [(bytes_of_string "a", bytes_of_string "1")];
        EndOfFile].
Proof. vm_compute. reflexivity. Qed.

(** C6, the code at a tag with five attributes of one name: the scan
    skips a slot after every removal, and the token reaches the handler
    with two attributes named [a]. *)
Theorem duplicate_attributes_survive :
  tokens_of_run 100 (tokeniser_on "<p a=1 a=2 a=3 a=4 a=5>" true)
  = Ok [StartTag (bytes_of_string "p")
          [(bytes_of_string "a", bytes_of_string "1");
           (bytes_of_string "a", bytes_of_string "5")];
        EndOfFile].
Proof. vm_compute. reflexivity. Qed.

(** ** Numbered entities *)

(** The final codepoint of a numbered entity, case by case. *)
Lemma numbered_entity_codepoint_cases (cp : Z) :
  (0x80 <= cp <= 0x9F ->
   numbered_entity_codepoint cp = nth (Z.to_nat (cp - 0x80)) cp1252Table 0)
  /\ (cp = 0 \/ 0x10FFFF < cp -> numbered_entity_codepoint cp = 0xFFFD)
  /\ (0 < cp < 0x80 \/ 0x9F < cp <= 0x10FFFF ->
      numbered_entity_codepoint cp = cp).
Proof.
  unfold numbered_entity_codepoint. repeat split; intros H.
  - replace ((0x80 <=? cp) && (cp <=? 0x9F)) with true by lia. reflexivity.
  - replace ((0x80 <=? cp) && (cp <=? 0x9F)) with false by lia.
    replace ((cp =? 0) || (0x10FFFF <? cp)) with true by lia. reflexivity.
  - replace ((0x80 <=? cp) && (cp <=? 0x9F)) with false by lia.
    replace ((cp =? 0) || (0x10FFFF <? cp)) with false by lia. reflexivity.
Qed.

(** The scenario of the spec: [&#128;] is one character, U+20AC. *)
Lemma numbered_entity_cp1252 :
  tokens_of_run 100 (tokeniser_on "&#128;" true)
  = Ok [Character (utf8_encode 0x20AC); EndOfFile]
  /\ utf8_decode (utf8_encode 0x20AC) = Some (0x20AC, 3%nat).
Proof. split; vm_compute; reflexivity. Qed.

(** C5, the code at [&#4294967361;]: the decimal value is 2^32 + 65,
    far above 0x10FFFF, but the 32-bit accumulator wraps to 65 before the
    range test and the entity is replaced by the letter A, not by
    U+FFFD. *)
Theorem numbered_entity_overflow :
  tokens_of_run 100 (tokeniser_on "&#4294967361;" true)
  = Ok [Character (bytes_of_string "A"); EndOfFile]
  /\ 4294967361 > 0x10FFFF
  /\ utf8_encode 0xFFFD <> bytes_of_string "A".
Proof. split; [vm_compute; reflexivity|]. split; [lia|discriminate]. Qed.

(** ** The input stream *)

Lemma utf8_decode_length bs c n :
  utf8_decode bs = Some (c, n) -> (1 <= n <= length bs)%nat.
Proof.
  unfold utf8_decode. intros H.
  repeat case_match; simplify_eq; simpl; lia.
Qed.

Lemma utf8_decode_ascii bs c n :
  utf8_decode bs = Some (c, n) -> c < 0x80 ->
  n = 1%nat /\ 0 <= c /\ exists tl, bs = c :: tl.
Proof.
  unfold utf8_decode. intros H Hc.
  repeat case_match; simplify_eq; try lia;
    (split; [reflexivity|]); (split; [lia|eauto]).
Qed.

Lemma utf8_decode_ascii_byte b tl :
  0 <= b < 0x80 -> utf8_decode (b :: tl) = Some (b, 1%nat).
Proof.
  intros H. unfold utf8_decode.
  replace ((0 <=? b) && (b <? 0x80)) with true by lia. reflexivity.
Qed.

Lemma utf8_decode_non_ascii b tl c n :
  ~ (0 <= b < 0x80) -> utf8_decode (b :: tl) = Some (c, n) -> 0x80 <= c.
Proof.
  intros Hb H. destruct (Z.lt_ge_cases c 0x80) as [Hlt|]; [|assumption].
  destruct (utf8_decode_ascii _ _ _ H Hlt) as (_ & ? & tl' & Heq).
  simplify_eq. lia.
Qed.

(** A decoded codepoint is below U+200000: it is never one of the two
    values that stand for the end of the data. *)
Lemma lor_below k x y :
  0 <= x < 2 ^ k -> 0 <= y < 2 ^ k -> 0 <= Z.lor x y < 2 ^ k.
Proof.
  intros Hx Hy.
  assert (Hn : 0 <= Z.lor x y) by (apply Z.lor_nonneg; lia).
  split; [done|].
  destruct (Z.eq_dec (Z.lor x y) 0) as [->|Hne]; [lia|].
  destruct (Z_lt_le_dec k 1) as [Hk|Hk].
  { assert (2 ^ k <= 1).
    { destruct (Z_lt_le_dec k 0); [rewrite Z.pow_neg_r by lia; lia|].
      replace k with 0 by lia. reflexivity. }
    assert (x = 0) as -> by lia. assert (y = 0) as -> by lia. done. }
  apply Z.log2_lt_pow2; [lia|]. rewrite Z.log2_lor by lia.
  apply Z.max_lub_lt.
  - destruct (Z.eq_dec x 0) as [->|]; [cbn; lia|]. apply Z.log2_lt_pow2; lia.
  - destruct (Z.eq_dec y 0) as [->|]; [cbn; lia|]. apply Z.log2_lt_pow2; lia.
Qed.

Lemma land_ones_below b k : 0 <= k -> 0 <= Z.land b (Z.ones k) < 2 ^ k.
Proof.
  intros Hk. rewrite Z.land_ones by done. apply Z.mod_pos_bound. lia.
Qed.

Lemma utf8_decode_bound bs c n :
  utf8_decode bs = Some (c, n) -> 0 <= c < 0x200000.
Proof.
  assert (H3 : forall b, 0 <= Z.land b 0x07 < 2 ^ 3)
    by (intros b; apply (land_ones_below b 3); lia).
  assert (H4 : forall b, 0 <= Z.land b 0x0F < 2 ^ 4)
    by (intros b; apply (land_ones_below b 4); lia).
  assert (H5 : forall b, 0 <= Z.land b 0x1F < 2 ^ 5)
    by (intros b; apply (land_ones_below b 5); lia).
  assert (H6 : forall b, 0 <= Z.land b 0x3F < 2 ^ 6)
    by (intros b; apply (land_ones_below b 6); lia).
  assert (Hs : forall x k j, 0 <= j -> 0 <= k -> 0 <= x < 2 ^ k ->
                 0 <= Z.shiftl x j < 2 ^ (k + j)).
  { intros x k j Hj Hk Hx. rewrite Z.shiftl_mul_pow2 by done.
    rewrite Z.pow_add_r by done. nia. }
  assert (Hw : forall x k k', 0 <= k <= k' -> 0 <= x < 2 ^ k -> 0 <= x < 2 ^ k').
  { intros x k k' Hk Hx. split; [lia|].
    eapply Z.lt_le_trans; [apply Hx|]. apply Z.pow_le_mono_r; lia. }
  unfold utf8_decode. destruct bs as [|b0 tl]; [done|].
  repeat case_match; intros [= <- <-]; try lia.
  - apply (Hw _ 11 21); [lia|]. apply lor_below.
    + apply (Hs _ 5 6); [lia|lia|apply H5].
    + apply (Hw _ 6 11); [lia|apply H6].
  - apply (Hw _ 16 21); [lia|]. apply lor_below.
    + apply (Hs _ 4 12); [lia|lia|apply H4].
    + apply (Hw _ 12 16); [lia|]. apply lor_below.
      * apply (Hs _ 6 6); [lia|lia|apply H6].
      * apply (Hw _ 6 12); [lia|apply H6].
  - apply (Hw _ 21 21); [lia|]. apply lor_below.
    + apply (Hs _ 3 18); [lia|lia|apply H3].
    + apply (Hw _ 18 21); [lia|]. apply lor_below.
      * apply (Hs _ 6 12); [lia|lia|apply H6].
      * apply (Hw _ 12 18); [lia|]. apply lor_below.
        -- apply (Hs _ 6 6); [lia|lia|apply H6].
        -- apply (Hw _ 6 12); [lia|apply H6].
Qed.

Lemma peek_ood s :
  hubbub_inputstream_peek s = HUBBUB_INPUTSTREAM_OOD <->
  stream_current s = None /\ had_eof s = false.
Proof.
  unfold hubbub_inputstream_peek.
  destruct (stream_current s) as [[c n]|] eqn:Hc.
  - unfold stream_current in Hc. apply utf8_decode_bound in Hc.
    unfold HUBBUB_INPUTSTREAM_OOD. split; [lia|]. by intros [? _].
  - destruct (had_eof s); split; try done. by intros [_ ?].
Qed.

(** ** Named entities *)

Lemma named_entity_finish entities (tokeniser t : hubbub_tokeniser) (c : Z) :
  named_entity_loop entities (S (remaining tokeniser)) tokeniser = Ok (t, c) ->
  c <> HUBBUB_INPUTSTREAM_OOD ->
  let me := match_entity (context t) in
  let semi := negb (codepoint me =? 0) && (c =? chr ";")
              && (prev_len me =? len (str me)) in
  let pl := if semi then prev_len me + (cur_pos t).2 else prev_len me in
  0 <= len (str me) <= Z.of_nat (cursor (input t)) ->
  exists t',
    hubbub_tokeniser_handle_named_entity entities tokeniser = Ok (t', true)
    /\ cursor (input t')
       = (cursor (input t) - Z.to_nat (len (str me)))%nat
    /\ state t' = return_state me
    /\ complete (match_entity (context t')) = true
    /\ done_setup (match_entity (context t')) = false
    /\ calls t' = calls t
    /\ buffer (input t')
       = if codepoint me =? 0 then buffer (input t)
         else take (Z.to_nat (data_off (str me))) (buffer (input t))
              ++ utf8_encode (codepoint me)
              ++ drop (Z.to_nat (data_off (str me)) + Z.to_nat pl)
                   (buffer (input t)).
Proof.
  intros Hloop Hood me semi pl Hrew.
  unfold hubbub_tokeniser_handle_named_entity. rewrite Hloop.
  cbn [mbind result_bind].
  apply Z.eqb_neq in Hood. rewrite Hood.
  eexists. split; [reflexivity|].
  unfold entity_done, rewind_unchecked, hubbub_inputstream_rewind.
  fold me. fold semi.
  assert (Hr : (0 <=? len (str me))
               && (len (str me) <=? Z.of_nat (cursor (input t))) = true)
    by (apply andb_true_intro; split; apply Z.leb_le; lia).
  subst pl. destruct semi; destruct (codepoint me =? 0) eqn:Hcp;
    cbn; rewrite ?Hcp; cbn; rewrite Hr; cbn; rewrite ?Hcp; cbn; repeat split.
Qed.

Section NamedEntity.

Context (entities : list (list Z * Z)) (Hwf : wf_entities entities).
Context (t0 : hubbub_tokeniser) (o l : nat).
Let rest := entity_rest t0 o l.
Let st := state_at entities t0 o l.

Let alive := alive entities t0 o l.

Lemma current_ascii k b :
  rest !! k = Some b -> 0 <= b < 0x80 ->
  stream_current (input (st k)) = Some (b, 1%nat).
Proof.
  intros Hb Hr. unfold stream_current. cbn.
  rewrite <- drop_drop. change (drop (o + l) (buffer (input t0))) with rest.
  rewrite (drop_S _ _ _ Hb). by apply utf8_decode_ascii_byte.
Qed.

Lemma current_other k :
  (rest !! k = None \/ exists b, rest !! k = Some b /\ ~ (0 <= b < 0x80)) ->
  is_sentinel (peek (st k)) = true \/ 0x7F < peek (st k).
Proof.
  intros H. unfold peek, hubbub_inputstream_peek, stream_current. cbn.
  rewrite <- drop_drop. change (drop (o + l) (buffer (input t0))) with rest.
  destruct H as [H | (b & H & Hb)].
  - rewrite (drop_ge rest k); [|by apply lookup_ge_None].
    cbn. destruct (had_eof _); left; reflexivity.
  - rewrite (drop_S _ _ _ H).
    destruct (utf8_decode _) as [[c n]|] eqn:Hd.
    + right. apply utf8_decode_non_ascii in Hd; [lia|done].
    + destruct (had_eof _); left; reflexivity.
Qed.

Lemma last_good_spec k :
  match last_good entities rest k with
  | Some (j, cp) =>
    (1 <= j <= k)%nat /\ entity_lookup entities (take j rest) = Some cp
    /\ forall m, (j < m <= k)%nat -> entity_lookup entities (take m rest) = None
  | None =>
    forall m, (1 <= m <= k)%nat ->
      entity_lookup entities (take m rest) = None
  end.
Proof.
  induction k as [|k IH]; [intros m; lia|].
  cbn [last_good].
  destruct (entity_lookup entities (take (S k) rest)) as [cp|] eqn:Hl.
  - split; [lia|]. split; [done|]. intros m; lia.
  - destruct (last_good entities rest k) as [[j cp]|].
    + destruct IH as (? & ? & IH). split; [lia|]. split; [done|].
      intros m Hm. destruct (decide (m = S k)) as [->|]; [done|]. apply IH; lia.
    + intros m Hm. destruct (decide (m = S k)) as [->|]; [done|]. apply IH; lia.
Qed.


Lemma land_byte b : 0 <= b < 0x80 -> Z.land b 0xFF = b.
Proof.
  intros H. change 0xFF with (Z.ones 8). rewrite Z.land_ones by lia.
  apply Z.mod_small. lia.
Qed.

Lemma path_extend k b :
  rest !! k = Some b -> 0 <= b < 0x80 ->
  default [] (search_context (match_entity (context (st k)))) ++ [Z.land b 0xFF]
  = take (S k) rest.
Proof.
  intros Hb Hr. rewrite land_byte by done.
  rewrite (take_S_r _ _ _ Hb). cbn. destruct k; reflexivity.
Qed.

Lemma peek_ascii k b :
  rest !! k = Some b -> 0 <= b < 0x80 -> peek (st k) = b.
Proof.
  intros Hb Hr. unfold peek, hubbub_inputstream_peek.
  by rewrite (current_ascii _ _ Hb Hr).
Qed.

Lemma cur_len_ascii k b :
  rest !! k = Some b -> 0 <= b < 0x80 -> (cur_pos (st k)).2 = 1.
Proof.
  intros Hb Hr. unfold cur_pos, hubbub_inputstream_cur_pos.
  by rewrite (current_ascii _ _ Hb Hr).
Qed.

Lemma advance_ascii k b t :
  rest !! k = Some b -> 0 <= b < 0x80 -> input t = input (st k) ->
  advance t
  = set_input
      (mk_stream (buffer (input t0)) (o + l + S k) (had_eof (input t0))) t.
Proof.
  intros Hb Hr Hi. unfold advance, hubbub_inputstream_advance.
  rewrite Hi, (current_ascii _ _ Hb Hr). cbn. do 2 f_equal. lia.
Qed.

Lemma collapse s me k :
  set_input s (set_match_entity me (st k))
  = set_input s (set_match_entity me t0).
Proof. reflexivity. Qed.

Lemma not_sentinel_ascii b : 0 <= b < 0x80 -> is_sentinel b = false.
Proof.
  intros H.
  unfold is_sentinel, HUBBUB_INPUTSTREAM_EOF, HUBBUB_INPUTSTREAM_OOD. lia.
Qed.

Lemma lookup_of_find name i e :
  list_find (fun e => e.1 = name) entities = Some (i, e) ->
  entity_lookup entities name = Some e.2.
Proof. intros H. unfold entity_lookup. by rewrite H. Qed.

Lemma lookup_of_find_none name :
  list_find (fun e => e.1 = name) entities = None ->
  entity_lookup entities name = None.
Proof. intros H. unfold entity_lookup. by rewrite H. Qed.

Lemma me_at_S k :
  me_at entities t0 o l (S k) =
  let me0 := match_entity (context t0) in
  match entity_lookup entities (take (S k) rest) with
  | Some cp =>
    mk_match_entity (mk_string (Z.of_nat o) (Z.of_nat (l + S k)))
      (base me0) cp (had_data me0) (return_state me0) (complete me0)
      (done_setup me0) (Some (take (S k) rest)) (Z.of_nat (l + S k))
  | None =>
    mk_match_entity (mk_string (Z.of_nat o) (Z.of_nat (l + S k)))
      (base me0) (codepoint (me_at entities t0 o l k)) (had_data me0)
      (return_state me0) (complete me0)
      (done_setup me0) (Some (take (S k) rest))
      (prev_len (me_at entities t0 o l k))
  end.
Proof.
  unfold me_at. cbn [last_good]. fold rest.
  destruct (entity_lookup entities (take (S k) rest)); reflexivity.
Qed.

Lemma loop_step_continue fuel k b :
  rest !! k = Some b -> 0 <= b < 0x80 ->
  Exists (fun e => take (S k) rest `prefix_of` e.1) entities ->
  named_entity_loop entities (S fuel) (st k)
  = named_entity_loop entities fuel (st (S k)).
Proof.
  intros Hb Hr Hex.
  cbn [named_entity_loop].
  rewrite (peek_ascii _ _ Hb Hr), (not_sentinel_ascii _ Hr).
  replace (0x7F <? b) with false by lia.
  unfold hubbub_entities_search_step.
  rewrite (path_extend _ _ Hb Hr).
  unfold entity_str_extend. rewrite (cur_len_ascii _ _ Hb Hr).
  destruct (list_find _ entities) as [[i e]|] eqn:Hf.
  - cbn [fst snd]. rewrite bool_decide_eq_true_2 by done.
    erewrite advance_ascii by (try done; reflexivity).
    f_equal. rewrite collapse. unfold st, state_at.
    do 2 f_equal. rewrite me_at_S, (lookup_of_find _ _ _ Hf).
    unfold me_at, me_set_prev_len, me_set_str, me_set_codepoint,
      me_set_search_context, add_len. cbn. repeat f_equal; lia.
  - rewrite (bool_decide_eq_true_2 _ Hex). cbn [fst snd].
    rewrite bool_decide_eq_false_2 by done.
    rewrite bool_decide_eq_false_2 by done.
    erewrite advance_ascii by (try done; reflexivity).
    f_equal. rewrite collapse. unfold st, state_at.
    do 2 f_equal. rewrite me_at_S, (lookup_of_find_none _ Hf).
    unfold me_at, me_set_prev_len, me_set_str, me_set_codepoint,
      me_set_search_context, add_len. cbn. repeat f_equal; lia.
Qed.

Lemma loop_step_invalid fuel k b :
  rest !! k = Some b -> 0 <= b < 0x80 ->
  ~ Exists (fun e => take (S k) rest `prefix_of` e.1) entities ->
  named_entity_loop entities (S fuel) (st k) = Ok (st k, b).
Proof.
  intros Hb Hr Hex.
  cbn [named_entity_loop].
  rewrite (peek_ascii _ _ Hb Hr), (not_sentinel_ascii _ Hr).
  replace (0x7F <? b) with false by lia.
  unfold hubbub_entities_search_step.
  rewrite (path_extend _ _ Hb Hr).
  destruct (list_find _ entities) as [[i e]|] eqn:Hf.
  - exfalso. apply Hex. apply list_find_Some in Hf as (Hi & He & _).
    apply Exists_exists. exists e. split; [by eapply list_elem_of_lookup_2|].
    by rewrite He.
  - rewrite (bool_decide_eq_false_2 _ Hex). cbn [fst snd].
    rewrite bool_decide_eq_false_2 by done.
    rewrite bool_decide_eq_true_2 by done.
    reflexivity.
Qed.

Lemma loop_step_other fuel k :
  is_sentinel (peek (st k)) = true \/ 0x7F < peek (st k) ->
  named_entity_loop entities (S fuel) (st k) = Ok (st k, peek (st k)).
Proof.
  intros H. cbn [named_entity_loop].
  destruct (is_sentinel (peek (st k))) eqn:Hs; [reflexivity|].
  destruct H as [H|H]; [done|].
  replace (0x7F <? peek (st k)) with true by lia. reflexivity.
Qed.


Lemma named_entity_loop_spec fuel : forall k,
  (length rest < fuel + k)%nat -> (k <= length rest)%nat -> alive k ->
  exists k' c, (k <= k' <= length rest)%nat /\ alive k' /\
    named_entity_loop entities fuel (st k) = Ok (st k', c) /\
    ( (c = peek (st k') /\ (is_sentinel c = true \/ 0x7F < c)
        /\ (rest !! k' = None
            \/ exists b, rest !! k' = Some b /\ ~ (0 <= b < 0x80)))
    \/ (rest !! k' = Some c /\ 0 <= c < 0x80
        /\ ~ Exists (fun e => take (S k') rest `prefix_of` e.1) entities)).
Proof.
  induction fuel as [|fuel IH]; intros k Hfuel Hk Halive; [lia|].
  destruct (rest !! k) as [b|] eqn:Hb.
  - destruct (decide (0 <= b < 0x80)) as [Hr|Hr].
    + destruct (decide (Exists (fun e => take (S k) rest `prefix_of` e.1)
                          entities))
        as [Hex|Hex].
      * apply lookup_lt_Some in Hb as Hlt.
        destruct (IH (S k)) as (k' & c & Hk' & Hal & Hloop & Hexit);
          [lia|lia| |].
        { intros i Hi. destruct (decide (i = k)) as [->|]; [done|].
          apply Halive. lia. }
        exists k', c. split; [lia|]. split; [done|]. split; [|done].
        by rewrite (loop_step_continue _ _ _ Hb Hr Hex).
      * exists k, b. split; [lia|]. split; [done|].
        split; [by apply loop_step_invalid|]. right. done.
    + assert (Ho : is_sentinel (peek (st k)) = true \/ 0x7F < peek (st k)).
      { apply current_other. right. eauto. }
      exists k, (peek (st k)). split; [lia|]. split; [done|].
      split; [by apply loop_step_other|]. left. eauto 10.
  - assert (Ho : is_sentinel (peek (st k)) = true \/ 0x7F < peek (st k)).
    { apply current_other. by left. }
    exists k, (peek (st k)). split; [lia|]. split; [done|].
    split; [by apply loop_step_other|]. left. eauto 10.
Qed.

Hypothesis Hcur : cursor (input t0) = (o + l)%nat.
Hypothesis Hstr :
  str (match_entity (context t0)) = mk_string (Z.of_nat o) (Z.of_nat l).
Hypothesis Hcp : codepoint (match_entity (context t0)) = 0.
Hypothesis Hctx : search_context (match_entity (context t0)) = None.
Hypothesis Hpl : prev_len (match_entity (context t0)) = Z.of_nat l.

Lemma state_at_0 : st 0 = t0.
Proof.
  unfold st, state_at, me_at. 
  destruct t0 as [? ? [] ? ? [? ? ? ? ? ? ? ? []] ? ? ? ? ? ? ?].
  cbn in *. subst. 
  unfold set_input, set_match_entity, set_context. cbn.
  rewrite !Nat.add_0_r. reflexivity.
Qed.


Lemma remaining_rest : remaining t0 = length rest.
Proof.
  unfold remaining, rest, entity_rest. rewrite length_drop, Hcur. reflexivity.
Qed.

Lemma lookup_Some_elem name cp :
  entity_lookup entities name = Some cp ->
  exists e, e ∈ entities /\ e.1 = name /\ e.2 = cp.
Proof.
  unfold entity_lookup. intros H.
  destruct (list_find _ entities) as [[i e]|] eqn:Hf; [|discriminate].
  injection H as <-. apply list_find_Some in Hf as (Hi & He & _).
  exists e. split; [by eapply list_elem_of_lookup_2|done].
Qed.

Lemma entity_wf e :
  e ∈ entities ->
  e.2 <> 0 /\ Forall (fun b => 0 <= b < 0x80 /\ b <> chr ";") e.1.
Proof.
  intros He. unfold wf_entities in Hwf. rewrite Forall_forall in Hwf.
  by apply Hwf.
Qed.

Lemma no_longer_match k c :
  (c = peek (st k) /\ (is_sentinel c = true \/ 0x7F < c)
     /\ (rest !! k = None \/ exists b, rest !! k = Some b /\ ~ (0 <= b < 0x80)))
  \/ (rest !! k = Some c /\ 0 <= c < 0x80
      /\ ~ Exists (fun e => take (S k) rest `prefix_of` e.1) entities) ->
  forall m, (k < m <= length rest)%nat ->
  entity_lookup entities (take m rest) = None.
Proof.
  intros Hexit m Hm.
  destruct (entity_lookup entities (take m rest)) as [cp|] eqn:Hl; [|done].
  exfalso. apply lookup_Some_elem in Hl as (e & He & Hname & _).
  destruct Hexit as [(_ & _ & [Hnone | (b & Hb & Hr)]) | (Hc & _ & Hex)].
  - apply lookup_ge_None in Hnone. lia.
  - apply entity_wf in He as [_ Hascii]. rewrite Hname in Hascii.
    rewrite Forall_forall in Hascii. apply Hr, Hascii.
    apply list_elem_of_lookup. exists k. rewrite lookup_take_lt by lia. done.
  - apply Hex. apply Exists_exists. exists e. split; [done|].
    rewrite Hname.
    replace (take (S k) rest) with (take (S k) (take m rest))
      by (rewrite take_take; f_equal; lia).
    apply prefix_take.
Qed.

Lemma semicolon_position k j cp c :
  alive k -> (j <= k)%nat ->
  entity_lookup entities (take j rest) = Some cp ->
  (c = peek (st k) /\ (is_sentinel c = true \/ 0x7F < c)
     /\ (rest !! k = None \/ exists b, rest !! k = Some b /\ ~ (0 <= b < 0x80)))
  \/ (rest !! k = Some c /\ 0 <= c < 0x80
      /\ ~ Exists (fun e => take (S k) rest `prefix_of` e.1) entities) ->
  (c =? chr ";") && (Z.of_nat (l + j) =? Z.of_nat (l + k))
  = bool_decide (rest !! j = Some (chr ";")).
Proof.
  intros Hal Hj Hl Hexit.
  destruct (decide (j = k)) as [->|Hne].
  - rewrite Z.eqb_refl, andb_true_r.
    destruct Hexit as [(_ & Hc & Hk) | (Hc & _ & _)].
    + rewrite bool_decide_eq_false_2.
      * apply Z.eqb_neq. intros ->. destruct Hc as [Hc|Hc]; [discriminate|].
        change (chr ";") with 59 in Hc. lia.
      * intros Hs. destruct Hk as [Hk | (b & Hb & Hr)]; [congruence|].
        rewrite Hs in Hb. injection Hb as <-. apply Hr.
        change (chr ";") with 59. lia.
    + destruct (Z.eqb_spec c (chr ";")) as [->|Hcne].
      * by rewrite bool_decide_eq_true_2.
      * rewrite bool_decide_eq_false_2; [done|]. congruence.
  - replace (Z.of_nat (l + j) =? Z.of_nat (l + k)) with false
      by (symmetry; apply Z.eqb_neq; lia).
    rewrite andb_false_r. symmetry. apply bool_decide_eq_false_2. intros Hs.
    assert (Hjk : (j < k)%nat) by lia.
    pose proof (Hal j Hjk) as Hex.
    apply Exists_exists in Hex as (e & He & Hpre).
    apply entity_wf in He as [_ Hascii]. rewrite Forall_forall in Hascii.
    destruct (Hascii (chr ";")) as [_ Hsemi]; [|done].
    destruct Hpre as [tl ->]. apply elem_of_app. left.
    apply list_elem_of_lookup. exists j. rewrite lookup_take_lt by lia. done.
Qed.

Lemma alive_ascii k i :
  alive k -> (k <= length rest)%nat -> (i < k)%nat ->
  exists b, rest !! i = Some b /\ 0 <= b < 0x80.
Proof.
  intros Hal Hk Hi.
  destruct (lookup_lt_is_Some_2 rest i) as [b Hb]; [lia|].
  exists b. split; [done|].
  pose proof (Hal i Hi) as Hex.
  apply Exists_exists in Hex as (e & He & Hpre).
  apply entity_wf in He as [_ Hascii]. rewrite Forall_forall in Hascii.
  destruct (Hascii b) as [? _]; [|done].
  destruct Hpre as [tl ->]. apply elem_of_app. left.
  apply list_elem_of_lookup. exists i. rewrite lookup_take_lt by lia. done.
Qed.

Lemma st_stream k :
  stream_current (input (st k)) = utf8_decode (drop k rest).
Proof. unfold stream_current. cbn. by rewrite <- drop_drop. Qed.

(** The loop ends out of data exactly when the end of the document has
    not been seen and the search, still alive, comes to a place where the
    data at hand holds no whole character. *)
Lemma waits_iff k c :
  (k <= length rest)%nat -> alive k ->
  (c = peek (st k) /\ (is_sentinel c = true \/ 0x7F < c)
     /\ (rest !! k = None \/ exists b, rest !! k = Some b /\ ~ (0 <= b < 0x80)))
  \/ (rest !! k = Some c /\ 0 <= c < 0x80
      /\ ~ Exists (fun e => take (S k) rest `prefix_of` e.1) entities) ->
  c = HUBBUB_INPUTSTREAM_OOD
  <-> had_eof (input t0) = false
      /\ exists k2, (k2 <= length rest)%nat /\ alive k2
                    /\ utf8_decode (drop k2 rest) = None.
Proof.
  intros Hk Hal Hexit. split.
  - intros ->.
    destruct Hexit as [(Hc & _ & _) | (_ & Hr & _)];
      [|unfold HUBBUB_INPUTSTREAM_OOD in Hr; lia].
    symmetry in Hc. apply peek_ood in Hc as [Hnone Heof].
    rewrite st_stream in Hnone. split; [exact Heof|]. by exists k.
  - intros [Heof (k2 & Hk2 & Hal2 & Hnone)].
    assert (Hlt : (k2 < k)%nat -> False).
    { intros Hlt. destruct (alive_ascii k k2 Hal Hk Hlt) as (b & Hb & Hr).
      rewrite (drop_S _ _ _ Hb), utf8_decode_ascii_byte in Hnone by done.
      discriminate. }
    assert (Hgt : (k < k2)%nat ->
                  (exists b, rest !! k = Some b /\ 0 <= b < 0x80)
                  /\ Exists (fun e => take (S k) rest `prefix_of` e.1)
                       entities).
    { intros Hgt. split; [by apply (alive_ascii k2)|by apply Hal2]. }
    destruct (Nat.lt_trichotomy k2 k) as [?|[->|Hkk]]; [done| |].
    + destruct Hexit as [(-> & _ & _) | (Hc & Hr & _)].
      * apply peek_ood. by rewrite st_stream.
      * rewrite (drop_S _ _ _ Hc), utf8_decode_ascii_byte in Hnone by done.
        discriminate.
    + exfalso. destruct (Hgt Hkk) as [(b & Hb & Hr) Hex].
      destruct Hexit as [(_ & _ & [Hn | (b' & Hb' & Hr')]) | (_ & _ & Hno)];
        [congruence| |done].
      rewrite Hb in Hb'. injection Hb' as <-. done.
Qed.

Lemma named_entity_result :
  exists t' cont,
    hubbub_tokeniser_handle_named_entity entities t0 = Ok (t', cont)
    /\ (cont = true ->
  cursor (input t') = o
  /\ state t' = return_state (match_entity (context t0))
  /\ complete (match_entity (context t')) = true
  /\ done_setup (match_entity (context t')) = false
  /\ calls t' = calls t0
  /\ (((forall m, (1 <= m <= length rest)%nat ->
          entity_lookup entities (take m rest) = None)
       /\ buffer (input t') = buffer (input t0))
      \/ exists j cp,
           (1 <= j <= length rest)%nat
           /\ entity_lookup entities (take j rest) = Some cp
           /\ (forall m, (j < m <= length rest)%nat ->
                 entity_lookup entities (take m rest) = None)
           /\ buffer (input t')
              = take o (buffer (input t0)) ++ utf8_encode cp
                ++ drop (o + (l + j
                         + (if bool_decide (rest !! j = Some (chr ";"))
                            then 1 else 0)))
                     (buffer (input t0))))
    /\ (cont = false
        <-> had_eof (input t0) = false
            /\ exists k, (k <= length rest)%nat /\ alive k
                         /\ utf8_decode (drop k rest) = None)
    /\ (cont = false ->
        input t'
        = mk_stream (buffer (input t0)) (cursor (input t'))
            (had_eof (input t0))
        /\ state t' = state t0 /\ calls t' = calls t0).
Proof.
  destruct (named_entity_loop_spec (S (remaining t0)) 0)
    as (k & c & Hk & Hal & Hloop & Hexit).
  { rewrite remaining_rest. lia. } { lia. } { intros i; lia. }
  rewrite state_at_0 in Hloop.
  destruct (Z.eq_dec c HUBBUB_INPUTSTREAM_OOD) as [Hood|Hood].
  { exists (st k), false. split; [|split; [discriminate|split]].
    - unfold hubbub_tokeniser_handle_named_entity. rewrite Hloop.
      cbn [mbind result_bind]. apply Z.eqb_eq in Hood. by rewrite Hood.
    - split; [intros _|done]. apply (waits_iff k c); [lia|done..].
    - intros _. done. }
  destruct (named_entity_finish entities t0 (st k) c Hloop Hood)
    as (t' & Hh & Hcur' & Hst & Hcompl & Hds & Hcalls & Hbuf).
  { cbn. lia. }
  exists t', true. split; [done|].
  split; [intros _|split; [split; [discriminate|]|discriminate]].
  2:{ intros Hwait. exfalso. apply Hood, (waits_iff k c); [lia|done..]. }
  pose proof (last_good_spec k) as Hlg.
  pose proof (no_longer_match k c Hexit) as Hlonger.
  change (match_entity (context (st k))) with (me_at entities t0 o l k) in *.
  change (input (st k))
    with (mk_stream (buffer (input t0)) (o + l + k) (had_eof (input t0))) in *.
  change (calls (st k)) with (calls t0) in *.
  unfold me_at in Hcur', Hst, Hbuf.
  cbn [str codepoint prev_len len data_off return_state cursor buffer]
    in Hcur', Hst, Hbuf.
  split; [lia|]. split; [done|]. split; [done|]. split; [done|].
  split; [done|].
  change (entity_rest t0 o l) with rest in Hbuf.
  destruct (last_good entities rest k) as [[j cp]|] eqn:Hlast.
  - right. destruct Hlg as (Hj & Hlook & Hbetween).
    exists j, cp. split; [lia|]. split; [done|]. split.
    { intros m Hm.
      destruct (decide (m <= k)%nat); [apply Hbetween|apply Hlonger]; lia. }
    assert (Hcpne : cp <> 0).
    { apply lookup_Some_elem in Hlook as (e & He & _ & <-).
      by apply entity_wf in He as [? _]. }
    apply Z.eqb_neq in Hcpne. rewrite Hcpne in Hbuf. cbn [negb andb] in Hbuf.
    rewrite (semicolon_position k j cp c Hal) in Hbuf by (done || lia).
    rewrite Hbuf. rewrite Nat2Z.id. do 3 f_equal.
    case_bool_decide as Hsemi.
    + assert (j = k) as ->.
      { destruct (decide (j = k)); [done|]. exfalso.
        pose proof (semicolon_position k j cp c Hal ltac:(lia) Hlook Hexit)
          as Hs.
        rewrite bool_decide_eq_true_2 in Hs by done.
        apply andb_true_iff in Hs as [_ Hs]. apply Z.eqb_eq in Hs. lia. }
      rewrite (cur_len_ascii k (chr ";")); [lia|done|].
      change (chr ";") with 59. lia.
    + lia.
  - left. split.
    { intros m Hm.
      destruct (decide (m <= k)%nat); [apply Hlg|apply Hlonger]; lia. }
    by rewrite Hbuf.
Qed.

End NamedEntity.

Lemma sample_entities_wf : wf_entities sample_entities.
Proof.
  unfold wf_entities. apply (bool_decide_unpack _). vm_compute. exact I.
Qed.



(** ** Matching DOCTYPE *)

Lemma push_back_all_fields cs : forall t,
  input (push_back_all cs t) = foldl hubbub_inputstream_push_back (input t) cs
  /\ state (push_back_all cs t) = state t
  /\ context (push_back_all cs t) = context t
  /\ content_model (push_back_all cs t) = content_model t
  /\ calls (push_back_all cs t) = calls t.
Proof.
  induction cs as [|c cs IH]; intros t; [done|].
  change (push_back_all (c :: cs) t) with (push_back_all cs (push_back c t)).
  destruct (IH (push_back c t)) as (-> & -> & -> & -> & ->). done.
Qed.

Lemma push_back_stream s c :
  (cursor s <= length (buffer s))%nat ->
  let s' := hubbub_inputstream_push_back s c in
  cursor s' = cursor s
  /\ had_eof s' = had_eof s
  /\ take (cursor s) (buffer s') = take (cursor s) (buffer s)
  /\ drop (cursor s) (buffer s') = utf8_encode c ++ drop (cursor s) (buffer s).
Proof.
  intros Hc. cbn. split; [done|]. split; [done|].
  assert (Hl : length (take (cursor s) (buffer s)) = cursor s)
    by (rewrite length_take; lia).
  split.
  - rewrite take_app_le by lia. rewrite take_take. f_equal. lia.
  - rewrite drop_app_ge by lia. rewrite Hl, Nat.sub_diag. done.
Qed.

Lemma push_back_word w : forall s,
  (cursor s <= length (buffer s))%nat ->
  Forall (fun b => b < 0x80) w ->
  let s' := foldl hubbub_inputstream_push_back s (rev w) in
  cursor s' = cursor s
  /\ had_eof s' = had_eof s
  /\ take (cursor s) (buffer s') = take (cursor s) (buffer s)
  /\ drop (cursor s) (buffer s') = w ++ drop (cursor s) (buffer s).
Proof.
  induction w as [|a w IH]; intros s Hc Hw; [done|].
  apply Forall_cons in Hw as [Ha Hw].
  cbn [rev]. rewrite foldl_app. cbn [foldl].
  destruct (IH s Hc Hw) as (Hcur & Heof & Htake & Hdrop).
  set (s1 := foldl hubbub_inputstream_push_back s (rev w)) in *.
  assert (Hc1 : (cursor s1 <= length (buffer s1))%nat).
  { rewrite Hcur. apply (f_equal length) in Htake.
    rewrite !length_take in Htake. lia. }
  destruct (push_back_stream s1 a Hc1) as (Hcur' & Heof' & Htake' & Hdrop').
  cbn zeta. rewrite Hcur in *. 
  split; [done|]. split; [congruence|]. split; [congruence|].
  rewrite Hdrop', Hdrop. unfold utf8_encode.
  replace (a <? 0x80) with true by lia. done.
Qed.

Lemma push_back_letters k :
  (1 <= k <= 6)%nat ->
  match_doctype_push_back_letters (Z.of_nat k) = rev (take k doctype_word).
Proof.
  intros Hk.
  do 7 (destruct k as [|k]; [try lia; reflexivity|]). lia.
Qed.

(** Clearing bit 5 of a 32-bit value loses that bit only. *)
Lemma clear_0x20_cases c :
  0 <= c < 2 ^ 32 -> c = clear_0x20 c \/ c = Z.lor (clear_0x20 c) 32.
Proof.
  intros Hc. unfold clear_0x20.
  assert (Hbit : Z.land c 32 = if Z.testbit c 5 then 32 else 0).
  { apply Z.bits_inj'. intros n Hn. rewrite Z.land_spec.
    destruct (Z.eq_dec n 5) as [->|Hne].
    - change (Z.testbit 32 5) with true. rewrite andb_true_r.
      by destruct (Z.testbit c 5).
    - replace (Z.testbit 32 n) with false
        by (symmetry; change 32 with (2 ^ 5); apply Z.pow2_bits_false; lia).
      rewrite andb_false_r.
      destruct (Z.testbit c 5); [|by rewrite Z.bits_0].
      symmetry. change 32 with (2 ^ 5). apply Z.pow2_bits_false. lia. }
  assert (Hsplit : c = Z.lor (Z.land c 0xFFFFFFDF) (Z.land c 32)).
  { rewrite <- Z.land_lor_distr_r.
    change (Z.lor 0xFFFFFFDF 32) with (Z.ones 32).
    rewrite Z.land_ones by lia. symmetry. apply Z.mod_small. lia. }
  rewrite Hbit in Hsplit. destruct (Z.testbit c 5); [by right|].
  left. by rewrite Z.lor_0_r in Hsplit.
Qed.

Lemma uppercase_advance_letter s c L :
  buffer s !! cursor s = Some c ->
  (if is_lower c then c - 32 else c) = L -> 0 <= L < 0x80 ->
  hubbub_inputstream_advance (hubbub_inputstream_uppercase s)
  = mk_stream (<[cursor s := L]> (buffer s)) (S (cursor s)) (had_eof s).
Proof.
  intros Hb HL Hr.
  unfold hubbub_inputstream_uppercase, map_at. rewrite Hb, HL.
  unfold hubbub_inputstream_advance, stream_current. cbn.
  rewrite drop_insert_ge by lia. rewrite Nat.sub_diag.
  rewrite (drop_S _ _ _ Hb). cbn [insert list_insert].
  rewrite utf8_decode_ascii_byte by done. f_equal. lia.
Qed.

(** A codepoint that is a letter of [DOCTYPE] once bit 5 is cleared is
    that letter in one of its two cases, and it is the byte at the
    cursor; the handler leaves the upper-case letter in its place and
    moves past it. *)
Lemma match_doctype_letter t k :
  (1 <= k <= 6)%nat ->
  clear_0x20 (peek t) = nth k doctype_word 0 ->
  let t' := advance
              (if decide (k = 6%nat)
               then set_state HUBBUB_TOKENISER_STATE_DOCTYPE (uppercase t)
               else set_match_doctype_count (Z.of_nat (S k)) (uppercase t)) in
  buffer (input t) !! cursor (input t) = Some (peek t)
  /\ (peek t = nth k doctype_word 0 \/ peek t = nth k doctype_word 0 + 32)
  /\ buffer (input t')
     = <[cursor (input t) := nth k doctype_word 0]> (buffer (input t))
  /\ cursor (input t') = S (cursor (input t))
  /\ state t' = (if decide (k = 6%nat) then HUBBUB_TOKENISER_STATE_DOCTYPE
                 else state t)
  /\ match_doctype_count (context t')
     = (if decide (k = 6%nat) then match_doctype_count (context t)
        else Z.of_nat (S k))
  /\ calls t' = calls t.
Proof.
  intros Hk Hm t'.
  assert (Hletter : 0x40 < nth k doctype_word 0 < 0x5B
                    /\ Z.lor (nth k doctype_word 0) 32
                       = nth k doctype_word 0 + 32).
  { do 7 (destruct k as [|k]; [try lia; vm_compute; done|]). lia. }
  destruct Hletter as [HL Hlor].
  assert (Hcur : exists c,
             stream_current (input t) = Some (c, 1%nat)
             /\ peek t = c
             /\ buffer (input t) !! cursor (input t) = Some c
             /\ (c = nth k doctype_word 0 \/ c = nth k doctype_word 0 + 32)).
  { unfold peek, hubbub_inputstream_peek in *.
    destruct (stream_current (input t)) as [[c n]|] eqn:Hsc.
    - unfold stream_current in Hsc.
      pose proof (utf8_decode_bound _ _ _ Hsc) as Hb.
      assert (Hc : c = nth k doctype_word 0 \/ c = nth k doctype_word 0 + 32).
      { destruct (clear_0x20_cases c) as [Hc|Hc]; [lia| |];
          rewrite Hm in Hc; [by left|right; by rewrite <- Hlor]. }
      destruct (utf8_decode_ascii _ _ _ Hsc) as (-> & _ & tl & Htl); [lia|].
      exists c. split; [done|]. split; [done|]. split; [|done].
      rewrite <- (Nat.add_0_r (cursor (input t))), <- lookup_drop, Htl.
      reflexivity.
    - exfalso. revert Hm HL. destruct (had_eof (input t)).
      + change (clear_0x20 HUBBUB_INPUTSTREAM_EOF) with 0xFFFFFFDF. lia.
      + change (clear_0x20 HUBBUB_INPUTSTREAM_OOD) with 0xFFFFFFDE. lia. }
  destruct Hcur as (c & Hsc & Hpeek & Hbyte & Hc).
  rewrite Hpeek. split; [done|]. split; [done|].
  assert (Hadv : hubbub_inputstream_advance
                   (hubbub_inputstream_uppercase (input t))
                 = mk_stream
                     (<[cursor (input t) := nth k doctype_word 0]>
                        (buffer (input t)))
                     (S (cursor (input t))) (had_eof (input t))).
  { apply (uppercase_advance_letter _ c); [done| |lia].
    unfold is_lower. destruct Hc as [->| ->].
    - replace ((chr "a" <=? nth k doctype_word 0)
               && (nth k doctype_word 0 <=? chr "z")) with false; [done|].
      symmetry. apply andb_false_iff. left. apply Z.leb_gt.
      change (chr "a") with 97. lia.
    - replace ((chr "a" <=? nth k doctype_word 0 + 32)
               && (nth k doctype_word 0 + 32 <=? chr "z")) with true; [lia|].
      symmetry. apply andb_true_intro.
      change (chr "a") with 97. change (chr "z") with 122.
      split; [apply Z.leb_le|apply Z.leb_le]; lia. }
  subst t'. unfold advance.
  destruct (decide (k = 6%nat)) as [->|Hne];
    change (input (set_state _ (uppercase t)))
      with (hubbub_inputstream_uppercase (input t)) || idtac;
    change (input (set_match_doctype_count _ (uppercase t)))
      with (hubbub_inputstream_uppercase (input t)) || idtac;
    rewrite Hadv; repeat split.
Qed.

Lemma match_doctype_general t k :
     (1 <= k <= 6)%nat ->
     match_doctype_count (context t) = Z.of_nat k ->
     peek t <> HUBBUB_INPUTSTREAM_OOD ->
     (cursor (input t) <= length (buffer (input t)))%nat ->
     (clear_0x20 (peek t) = nth k doctype_word 0 ->
      hubbub_tokeniser_handle_match_doctype t
      = Ok (advance
              (if decide (k = 6%nat)
               then set_state HUBBUB_TOKENISER_STATE_DOCTYPE (uppercase t)
               else set_match_doctype_count (Z.of_nat (S k)) (uppercase t)),
            true))
     /\ (clear_0x20 (peek t) <> nth k doctype_word 0 ->
         exists t',
           hubbub_tokeniser_handle_match_doctype t = Ok (t', true)
           /\ state t' = HUBBUB_TOKENISER_STATE_BOGUS_COMMENT
           /\ current_comment (context t') = zero_string
           /\ calls t' = calls t
           /\ input t'
              = foldl hubbub_inputstream_push_back (input t)
                  (rev (take k doctype_word))
           /\ cursor (input t') = cursor (input t)
           /\ take (cursor (input t)) (buffer (input t'))
              = take (cursor (input t)) (buffer (input t))
           /\ drop (cursor (input t)) (buffer (input t'))
              = take k doctype_word
                ++ drop (cursor (input t)) (buffer (input t))).
Proof.
  intros Hk Hcount Hood Hcur.
  apply Z.eqb_neq in Hood.
  unfold hubbub_tokeniser_handle_match_doctype. rewrite Hood, Hcount.
  split.
  - intros Hm. rewrite Hm. unfold match_doctype_next.
    change (context (uppercase t)) with (context t). rewrite Hcount.
    do 7 (destruct k as [|k]; [try lia; reflexivity|]). lia.
  - intros Hm.
    assert (Hbranch :
      forall (A : Type) (x y : A) (j : nat) (c : ascii),
        nth j doctype_word 0 = chr c ->
        (if (Z.of_nat k =? Z.of_nat j) && (clear_0x20 (peek t) =? chr c)
         then x else y) = y).
    { intros A x y j c Hj.
      destruct (Z.eqb_spec (Z.of_nat k) (Z.of_nat j)) as [He|]; [|done].
      apply Nat2Z.inj in He. subst j. rewrite Hj in Hm.
      apply Z.eqb_neq in Hm. by rewrite Hm. }
    change 1 with (Z.of_nat 1). change 2 with (Z.of_nat 2).
    change 3 with (Z.of_nat 3). change 4 with (Z.of_nat 4).
    change 5 with (Z.of_nat 5). change 6 with (Z.of_nat 6).
    rewrite !Hbranch by reflexivity.
    eexists. split; [reflexivity|].
    rewrite push_back_letters by done.
    cbn [state context current_comment calls input set_state
         set_current_comment set_context].
    destruct (push_back_all_fields (rev (take k doctype_word)) t)
      as (Hi & Hs & Hctx & Hcm & Hcalls).
    split; [done|]. split; [done|]. split; [done|]. split; [done|].
    rewrite Hi.
    destruct (push_back_word (take k doctype_word) (input t) Hcur)
      as (H1 & _ & H3 & H4).
    { do 7 (destruct k as [|k];
            [try lia; vm_compute; repeat constructor|]).
      lia. }
    done.
Qed.

(** C7: while the letters of [DOCTYPE] after [<!] match, the handler
    calls the stream's [uppercase] on each of them and moves on: the
    codepoint read is the letter in one of its two cases and is the byte
    at the cursor, the buffer afterwards holds the upper-case letter in
    that place and is otherwise as it was, and the cursor stands one
    byte further.  On the first codepoint that does not match, after [k]
    letters have matched, the handler pushes exactly those [k] letters
    back, the last one first, so that the stream reads them again before
    the codepoint, and enters the bogus comment state with an empty
    comment.  Input [<!DOCTYPR html>] produces the one token
    [Comment("DOCTYPR html")], followed by the end of file token when
    the document ends there.  After a run on [<!doctype html>] the
    buffer reads [<!DOCTYPE HTML>] (the doctype name is upper-cased by
    the states that follow), and after a run on [<!doctypr html>] it
    reads [<!DOCTYPDOCTYPr html>]: the letters upper-cased in place,
    then the letters pushed back. *)
Theorem match_doctype_push_back :
  (forall t k,
     (1 <= k <= 6)%nat ->
     match_doctype_count (context t) = Z.of_nat k ->
     peek t <> HUBBUB_INPUTSTREAM_OOD ->
     (cursor (input t) <= length (buffer (input t)))%nat ->
     (clear_0x20 (peek t) = nth k doctype_word 0 ->
      hubbub_tokeniser_handle_match_doctype t
      = Ok (advance
              (if decide (k = 6%nat)
               then set_state HUBBUB_TOKENISER_STATE_DOCTYPE (uppercase t)
               else set_match_doctype_count (Z.of_nat (S k)) (uppercase t)),
            true)
      /\ exists t',
           hubbub_tokeniser_handle_match_doctype t = Ok (t', true)
           /\ buffer (input t) !! cursor (input t) = Some (peek t)
           /\ (peek t = nth k doctype_word 0
               \/ peek t = nth k doctype_word 0 + 32)
           /\ buffer (input t')
              = <[cursor (input t) := nth k doctype_word 0]>
                  (buffer (input t))
           /\ cursor (input t') = S (cursor (input t))
           /\ state t'
              = (if decide (k = 6%nat) then HUBBUB_TOKENISER_STATE_DOCTYPE
                 else state t)
           /\ match_doctype_count (context t')
              = (if decide (k = 6%nat) then Z.of_nat k else Z.of_nat (S k))
           /\ calls t' = calls t)
     /\ (clear_0x20 (peek t) <> nth k doctype_word 0 ->
         exists t',
           hubbub_tokeniser_handle_match_doctype t = Ok (t', true)
           /\ state t' = HUBBUB_TOKENISER_STATE_BOGUS_COMMENT
           /\ current_comment (context t') = zero_string
           /\ calls t' = calls t
           /\ input t'
              = foldl hubbub_inputstream_push_back (input t)
                  (rev (take k doctype_word))
           /\ cursor (input t') = cursor (input t)
           /\ take (cursor (input t)) (buffer (input t'))
              = take (cursor (input t)) (buffer (input t))
           /\ drop (cursor (input t)) (buffer (input t'))
              = take k doctype_word
                ++ drop (cursor (input t)) (buffer (input t))))
  /\ tokens_of_run 100 (tokeniser_on "<!DOCTYPR html>" false)
     = Ok [Comment (bytes_of_string "DOCTYPR html")]
  /\ tokens_of_run 100 (tokeniser_on "<!DOCTYPR html>" true)
     = Ok [Comment (bytes_of_string "DOCTYPR html"); EndOfFile]
  /\ tokens_of_run 100 (tokeniser_on "<!doctypr html>" true)
     = Ok [Comment (bytes_of_string "DOCTYPr html"); EndOfFile]
  /\ (exists t,
        run_loop sample_entities 100 (tokeniser_on "<!doctype html>" true)
        = Ok t
        /\ buffer (input t) = bytes_of_string "<!DOCTYPE HTML>")
  /\ (exists t,
        run_loop sample_entities 100 (tokeniser_on "<!doctypr html>" true)
        = Ok t
        /\ buffer (input t) = bytes_of_string "<!DOCTYPDOCTYPr html>").
Proof.
  split.
  - intros t k Hk Hcount Hood Hcur.
    destruct (match_doctype_general t k Hk Hcount Hood Hcur) as [Hyes Hno].
    split; [|exact Hno].
    intros Hm. specialize (Hyes Hm). split; [exact Hyes|].
    eexists. split; [exact Hyes|].
    destruct (match_doctype_letter t k Hk Hm)
      as (Hbyte & Hcase & Hbuf & Hc & Hst & Hcnt & Hcalls).
    split; [exact Hbyte|]. split; [exact Hcase|]. split; [exact Hbuf|].
    split; [exact Hc|]. split; [exact Hst|]. split; [|exact Hcalls].
    rewrite Hcnt, Hcount. reflexivity.
  - split_and!; try (vm_compute; reflexivity);
      (eexists; split; vm_compute; reflexivity).
Qed.

Lemma match_doctype_push_back_witness :
  (exists t',
     hubbub_tokeniser_handle_match_doctype doctype_lower_tokeniser
     = Ok (t', true)
     /\ peek doctype_lower_tokeniser = chr "o"
     /\ buffer (input t') = bytes_of_string "<!DOctype html>"
     /\ cursor (input t') = 4%nat
     /\ state t' = HUBBUB_TOKENISER_STATE_MATCH_DOCTYPE
     /\ match_doctype_count (context t') = 2)
  /\ exists t',
       hubbub_tokeniser_handle_match_doctype doctypr_tokeniser = Ok (t', true)
       /\ state t' = HUBBUB_TOKENISER_STATE_BOGUS_COMMENT
       /\ current_comment (context t') = zero_string
       /\ calls t' = calls doctypr_tokeniser
       /\ input t'
          = foldl hubbub_inputstream_push_back (input doctypr_tokeniser)
              (rev (take 6 doctype_word))
       /\ cursor (input t') = cursor (input doctypr_tokeniser)
       /\ take (cursor (input doctypr_tokeniser)) (buffer (input t'))
          = take (cursor (input doctypr_tokeniser))
              (buffer (input doctypr_tokeniser))
       /\ drop (cursor (input doctypr_tokeniser)) (buffer (input t'))
          = take 6 doctype_word
            ++ drop (cursor (input doctypr_tokeniser))
                 (buffer (input doctypr_tokeniser)).
Proof.
  split.
  - destruct (proj1 (proj1 match_doctype_push_back doctype_lower_tokeniser
                       1%nat ltac:(lia) eq_refl
                       ltac:(vm_compute; discriminate)
                       ltac:(vm_compute; lia))
                eq_refl)
      as (_ & t' & Heq & _ & _ & Hbuf & Hcur & Hst & Hcnt & _).
    exists t'. split; [exact Heq|]. split; [reflexivity|].
    split; [exact Hbuf|]. split; [exact Hcur|]. split; [exact Hst|].
    exact Hcnt.
  - apply (proj2 (proj1 match_doctype_push_back doctypr_tokeniser 6%nat
                    ltac:(lia) eq_refl
                    ltac:(vm_compute; discriminate)
                    ltac:(vm_compute; lia))).
    vm_compute. discriminate.
Defined.

(** ** Matching a close tag in CDATA and RCDATA *)

Lemma emit_character_eq s t :
  emit_character s t = Ok (add_calls (character_call s t) t).
Proof.
  unfold emit_character, emit, hubbub_tokeniser_emit_token, character_call,
    add_calls.
  destruct t as [? ? ? ? ? ? [h|] ? ? ? ? ? ?]; cbn; [reflexivity|].
  by rewrite app_nil_r.
Qed.

Section CloseTagMatch.
Variable t0 : hubbub_tokeniser.
Variable n : nat.
Hypothesis Hname : len (tag_name (current_tag (context t0))) = Z.of_nat n.
Hypothesis Hfresh : len (close_tag_match_tag (context t0)) = 0.

Let c0 := cursor (input t0).
Let buf := buffer (input t0).
Let st := close_tag_state t0.

Lemma close_tag_state_0 : st 0 = t0.
Proof.
  unfold st, close_tag_state.
  destruct t0 as [? ? [] ? ? [? ? ? ? ? ? [] ? ?] ? ? ? ? ? ? ?].
  cbn in *. subst. unfold set_input, set_close_tag_match_tag, set_context. cbn.
  rewrite Nat.add_0_r. reflexivity.
Qed.

Lemma st_current m c w :
  stream_current (input (st m)) = Some (c, w) ->
  peek (st m) = c /\ (cur_pos (st m)).1 = Z.of_nat (c0 + m)
  /\ (cur_pos (st m)).2 = Z.of_nat w
  /\ (1 <= w)%nat /\ (c0 + m + w <= length buf)%nat
  /\ advance (st m)
     = set_input (mk_stream buf (c0 + m + w) (had_eof (input t0))) (st m).
Proof.
  intros Hc. unfold peek, cur_pos, advance, hubbub_inputstream_peek,
    hubbub_inputstream_cur_pos, hubbub_inputstream_advance.
  rewrite Hc. repeat split.
  - unfold stream_current in Hc. apply utf8_decode_length in Hc. lia.
  - unfold stream_current in Hc. apply utf8_decode_length in Hc.
    cbn in Hc. rewrite length_drop in Hc. fold buf c0 in Hc. lia.
Qed.

Lemma st_none m :
  stream_current (input (st m)) = None -> is_sentinel (peek (st m)) = true.
Proof.
  intros Hc. unfold peek, hubbub_inputstream_peek. rewrite Hc.
  destruct (had_eof _); reflexivity.
Qed.


Lemma stream_eta : mk_stream buf c0 (had_eof (input t0)) = input t0.
Proof. unfold buf, c0. by destruct (input t0). Qed.

Let cmp :=
  hubbub_inputstream_compare_range_ci (input t0)
    (data_off (tag_name (current_tag (context t0)))) (Z.of_nat c0)
    (Z.of_nat n).

Lemma st_compare m : (0 < m)%nat -> close_tag_compare (st m) = cmp.
Proof.
  intros Hm. unfold close_tag_compare, hubbub_inputstream_compare_range_ci.
  destruct m; [lia|]. cbn. rewrite Hname. reflexivity.
Qed.

Lemma st_eq s s' x x' :
  s = s' -> x = x' ->
  set_input s (set_close_tag_match_tag x t0)
  = set_input s' (set_close_tag_match_tag x' t0).
Proof. by intros -> ->. Qed.

Lemma st_collapse s x m :
  set_input s (set_close_tag_match_tag x (st m))
  = set_input s (set_close_tag_match_tag x t0).
Proof. reflexivity. Qed.

Lemma st_step m c w :
  stream_current (input (st m)) = Some (c, w) ->
  advance
    (if Z.of_nat m =? 0
     then set_close_tag_match_tag
            (mk_string (cur_pos (st m)).1 (cur_pos (st m)).2) (st m)
     else set_close_tag_match_tag
            (add_len (cur_pos (st m)).2 (close_tag_match_tag (context (st m))))
            (st m))
  = st (m + w).
Proof.
  intros Hc. destruct (st_current m c w Hc) as (_ & Hpos & Hlen & Hw & _ & _).
  rewrite Hpos, Hlen.
  unfold advance, hubbub_inputstream_advance.
  destruct m as [|m].
  - replace (Z.of_nat 0 =? 0) with true by reflexivity.
    change (input (set_close_tag_match_tag _ (st 0))) with (input (st 0)).
    rewrite Hc, st_collapse. unfold st, close_tag_state.
    apply st_eq; cbn; [f_equal; lia|].
    destruct w as [|w]; [lia|]. f_equal. lia.
  - replace (Z.of_nat (S m) =? 0) with false.
    2:{ symmetry. apply Z.eqb_neq. lia. }
    change (input (set_close_tag_match_tag _ (st (S m))))
      with (input (st (S m))).
    rewrite Hc, st_collapse. unfold st, close_tag_state.
    apply st_eq; cbn; [f_equal; lia|].
    unfold add_len. cbn. f_equal. lia.
Qed.

Lemma st_rewind m :
  rewind_or_abort (len (close_tag_match_tag (context (st m)))) (st m)
  = Ok (set_input (input t0) (st m)).
Proof.
  unfold rewind_or_abort, hubbub_inputstream_rewind.
  replace (len (close_tag_match_tag (context (st m)))) with (Z.of_nat m)
    by reflexivity.
  replace ((0 <=? Z.of_nat m)
           && (Z.of_nat m <=? Z.of_nat (cursor (input (st m)))))
    with true.
  2:{ symmetry. apply andb_true_intro. split; apply Z.leb_le; cbn; lia. }
  cbn [fst snd]. rewrite bool_decide_eq_true_2 by done.
  f_equal. f_equal. rewrite <- stream_eta. cbn. f_equal. unfold c0. lia.
Qed.

Lemma st_fail_loop m :
  (t ← rewind_or_abort (Z.of_nat m) (st m);
   t ← emit_character (current_chars (context t)) t;
   Ok (Returned (set_state HUBBUB_TOKENISER_STATE_DATA t) true))
  = Ok (Returned (close_tag_failed t0 m) true).
Proof.
  change (Z.of_nat m) with (len (close_tag_match_tag (context (st m)))).
  rewrite st_rewind. cbn [mbind result_bind].
  rewrite emit_character_eq. reflexivity.
Qed.

Lemma st_fail m :
  (t ← rewind_or_abort (len (close_tag_match_tag (context (st m)))) (st m);
   t ← emit_character (current_chars (context t)) t;
   Ok (set_state HUBBUB_TOKENISER_STATE_DATA t, true))
  = Ok (close_tag_failed t0 m, true).
Proof.
  rewrite st_rewind. cbn [mbind result_bind].
  rewrite emit_character_eq. reflexivity.
Qed.

Lemma st_lens m :
  len (close_tag_match_tag (context (st m))) = Z.of_nat m
  /\ len (tag_name (current_tag (context (st m)))) = Z.of_nat n.
Proof. split; [reflexivity|exact Hname]. Qed.

Lemma loop_spec fuel : forall m c_in,
  (m < n)%nat -> (c0 + m <= length buf)%nat ->
  (length buf < fuel + (c0 + m))%nat ->
  exists exit,
    close_tag_match_loop fuel c_in (st m) = Ok exit
    /\ ((exists m', exit = Left (st m') (peek (st m')) /\ (m <= m' < n)%nat
                    /\ is_sentinel (peek (st m')) = true)
        \/ (exists c, exit = Left (st n) c /\ is_sentinel c = false
                      /\ cmp = 0)
        \/ (exists m1 c w,
              exit = Returned (close_tag_failed t0 (m1 + w)) true
              /\ (m <= m1 < n)%nat
              /\ stream_current (input (st m1)) = Some (c, w)
              /\ ((n < m1 + w)%nat \/ ((m1 + w)%nat = n /\ cmp <> 0)))).
Proof.
  induction fuel as [|fuel IH]; intros m c_in Hm Hle Hfuel; [lia|].
  cbn [close_tag_match_loop].
  destruct (st_lens m) as [Hl1 Hl2]. rewrite Hl1, Hl2.
  replace (Z.of_nat m <? Z.of_nat n) with true
    by (symmetry; apply Z.ltb_lt; lia).
  destruct (is_sentinel (peek (st m))) eqn:Hs.
  { eexists. split; [reflexivity|]. left. exists m.
    split; [done|]. split; [lia|done]. }
  destruct (stream_current (input (st m))) as [[c w]|] eqn:Hc.
  2:{ rewrite st_none in Hs by done. discriminate. }
  destruct (st_current m c w Hc) as (Hpeek & _ & _ & Hw & Hle' & _).
  rewrite (st_step m c w Hc).
  destruct (st_lens (m + w)) as [Hl1' Hl2']. rewrite Hl1', Hl2'.
  rewrite st_compare by lia. rewrite st_fail_loop.
  destruct (Nat.lt_trichotomy (m + w) n) as [Hlt | [Heq | Hgt]].
  - replace (Z.of_nat n <? Z.of_nat (m + w)) with false
      by (symmetry; apply Z.ltb_ge; lia).
    replace (Z.of_nat (m + w) =? Z.of_nat n) with false
      by (symmetry; apply Z.eqb_neq; lia).
    cbn [orb andb].
    destruct (IH (m + w)%nat (peek (st m))) as (exit & Hloop & Hres);
      [lia|lia|lia|].
    exists exit. split; [done|].
    destruct Hres as [(m' & ? & ? & ?) | [? | (m1 & c1 & w1 & ? & ? & ?)]].
    + left. exists m'. split; [done|]. split; [lia|done].
    + right. by left.
    + right. right. exists m1, c1, w1. split; [done|]. split; [lia|done].
  - replace (Z.of_nat n <? Z.of_nat (m + w)) with false
      by (symmetry; apply Z.ltb_ge; lia).
    replace (Z.of_nat (m + w) =? Z.of_nat n) with true
      by (symmetry; apply Z.eqb_eq; lia).
    cbn [orb andb].
    destruct (Z.eqb_spec cmp 0) as [Hcmp|Hcmp]; cbn [negb].
    + eexists. split; [rewrite Heq; reflexivity|]. right. left.
      exists (peek (st m)). done.
    + eexists. split; [reflexivity|]. right. right.
      exists m, c, w. split; [done|]. split; [lia|]. split; [done|]. by right.
  - replace (Z.of_nat n <? Z.of_nat (m + w)) with true
      by (symmetry; apply Z.ltb_lt; lia).
    cbn [orb].
    eexists. split; [reflexivity|]. right. right.
    exists m, c, w. split; [done|]. split; [lia|]. split; [done|]. by left.
Qed.


Lemma sentinel_cases c :
  (is_sentinel c = true ->
   c = HUBBUB_INPUTSTREAM_EOF \/ c = HUBBUB_INPUTSTREAM_OOD)
  /\ (is_sentinel c = false ->
      (c =? HUBBUB_INPUTSTREAM_EOF) = false
      /\ (c =? HUBBUB_INPUTSTREAM_OOD) = false).
Proof. unfold is_sentinel. split; intros H; lia. Qed.

Lemma terminator_test c :
  negb (c =? 9) && negb (c =? 10) && negb (c =? 11)
  && negb (c =? 12) && negb (c =? chr " ") && negb (c =? chr ">")
  && negb (c =? chr "/") && negb (c =? chr "<")
  && negb (c =? HUBBUB_INPUTSTREAM_EOF)
  = negb (bool_decide (close_tag_terminator c)).
Proof.
  unfold close_tag_terminator.
  destruct (bool_decide_reflect
              (c ∈ [9; 10; 11; 12; chr " "; chr ">"; chr "/"; chr "<";
                    HUBBUB_INPUTSTREAM_EOF])) as [Hin|Hnot]; cbn [negb].
  - rewrite !elem_of_cons, elem_of_nil in Hin.
    destruct Hin as [->|[->|[->|[->|[->|[->|[->|[->|[->|[]]]]]]]]]];
      reflexivity.
  - rewrite !elem_of_cons, elem_of_nil in Hnot.
    repeat (apply andb_true_intro; split);
      apply negb_true_iff, Z.eqb_neq; intros ->; apply Hnot; tauto.
Qed.

Let eof := had_eof (input t0).
Let cand := close_tag_candidate t0.
Let good := length cand = n /\ Forall (fun b => 0 <= b < 0x80) cand.
Let ci_equal := map ascii_fold (close_tag_name t0) = map ascii_fold cand.
Let next := close_tag_next t0.

Lemma cmp_ci_equal : cmp = 0 <-> ci_equal.
Proof.
  unfold cmp, ci_equal, cand, close_tag_name, close_tag_candidate, span_bytes,
    hubbub_inputstream_compare_range_ci.
  rewrite Hname. fold buf c0. case_decide; split; (done || lia).
Qed.

Lemma next_peek : next = peek (st n).
Proof.
  unfold next, close_tag_next, peek. rewrite Hname, Nat2Z.id. reflexivity.
Qed.

Lemma good_current m :
  good -> (m < n)%nat ->
  exists b, stream_current (input (st m)) = Some (b, 1%nat) /\ 0 <= b < 0x80.
Proof.
  intros [Hlen Hascii] Hm.
  destruct (lookup_lt_is_Some_2 cand m) as [b Hb]; [lia|].
  exists b. rewrite Forall_forall in Hascii.
  assert (Hr : 0 <= b < 0x80)
    by (apply Hascii; by eapply list_elem_of_lookup_2).
  split; [|done].
  unfold cand, close_tag_candidate, range_bytes in Hb.
  rewrite Nat2Z.id in Hb. apply lookup_take_Some in Hb as [Hb _].
  rewrite lookup_drop in Hb.
  unfold stream_current. cbn.
  rewrite (drop_S _ _ _ Hb). by apply utf8_decode_ascii_byte.
Qed.


Hypothesis Hcursor : (c0 <= length buf)%nat.

Lemma after_name c :
  is_sentinel c = false -> (n = 0%nat \/ cmp = 0) ->
  exists t' cont,
    (match Left (st n) c with
     | Returned t cont => Ok (t, cont)
     | Left t c =>
       if c =? HUBBUB_INPUTSTREAM_OOD then Ok (t, false)
       else if c =? HUBBUB_INPUTSTREAM_EOF then
         t ← rewind_or_abort (len (close_tag_match_tag (context t))) t;
         t ← emit_character (current_chars (context t)) t;
         Ok (set_state HUBBUB_TOKENISER_STATE_DATA t, true)
       else
         let c := peek t in
         if c =? HUBBUB_INPUTSTREAM_OOD then Ok (t, false)
         else
           t ← rewind_or_abort (len (close_tag_match_tag (context t))) t;
           if negb (c =? 9) && negb (c =? 10) && negb (c =? 11)
              && negb (c =? 12) && negb (c =? chr " ") && negb (c =? chr ">")
              && negb (c =? chr "/") && negb (c =? chr "<")
              && negb (c =? HUBBUB_INPUTSTREAM_EOF)
           then
             t ← emit_character (current_chars (context t)) t;
             Ok (set_state HUBBUB_TOKENISER_STATE_DATA t, true)
           else
             let t := set_content_model HUBBUB_CONTENT_MODEL_PCDATA t in
             Ok (set_state HUBBUB_TOKENISER_STATE_CLOSE_TAG_OPEN t, true)
     end) = Ok (t', cont)
    /\ ((cont = true /\ t' = close_tag_matched t0
         /\ close_tag_terminator next)
        \/ (cont = true /\ t' = close_tag_failed t0 n
            /\ ~ close_tag_terminator next)
        \/ (cont = false /\ t' = st n /\ ~ close_tag_terminator next
            /\ peek (st n) = HUBBUB_INPUTSTREAM_OOD)).
Proof.
  intros Hs Hcmp. apply sentinel_cases in Hs as [-> ->].
  cbn zeta. rewrite next_peek.
  destruct (Z.eqb_spec (peek (st n)) HUBBUB_INPUTSTREAM_OOD) as [Hood|Hood].
  { exists (st n), false. split; [done|]. right. right.
    split; [done|]. split; [done|]. split; [|done]. rewrite Hood.
    apply (bool_decide_eq_false_1 (close_tag_terminator _)).
    vm_compute. reflexivity. }
  rewrite st_rewind. cbn [mbind result_bind].
  rewrite terminator_test.
  case_bool_decide as Hterm; cbn [negb].
  - eexists _, true. split; [reflexivity|]. left.
    split; [done|]. split; [|done].
    unfold close_tag_matched. rewrite Hname, Nat2Z.id. reflexivity.
  - rewrite emit_character_eq. eexists _, true. split; [reflexivity|].
    right. left. done.
Qed.

Lemma close_tag_match_result :
  exists t' cont,
    hubbub_tokeniser_handle_close_tag_match t0 = Ok (t', cont)
    /\ ((cont = true /\ t' = close_tag_matched t0
         /\ ci_equal /\ close_tag_terminator next)
        \/ (cont = true /\ (exists m, t' = close_tag_failed t0 m)
            /\ (good -> ci_equal -> close_tag_terminator next -> False))
        \/ (cont = false
            /\ (exists m, t' = st m /\ (m <= n)%nat
                          /\ peek (st m) = HUBBUB_INPUTSTREAM_OOD)
            /\ (good -> close_tag_terminator next -> False))).
Proof.
  unfold hubbub_tokeniser_handle_close_tag_match.
  destruct (decide (n = 0%nat)) as [Hn0|Hn0].
  - (* an empty name: the loop does not run *)
    assert (Hloop : close_tag_match_loop (S (remaining t0)) 0 t0
                    = Ok (Left (st n) 0)).
    { cbn [close_tag_match_loop]. rewrite Hfresh, Hname, Hn0.
      cbn. by rewrite close_tag_state_0. }
    rewrite Hloop. cbn [mbind result_bind].
    destruct (after_name 0) as (t' & cont & Heq & Hres); [done|by left|].
    exists t', cont. split; [exact Heq|].
    destruct Hres as [(-> & -> & Ht)
                     | [(-> & -> & Ht) | (-> & -> & Ht & Hood)]].
    + left. split; [done|]. split; [done|]. split; [|done].
      unfold ci_equal, cand, close_tag_name, close_tag_candidate, span_bytes,
        range_bytes. rewrite Hname, Hn0. reflexivity.
    + right. left. split; [done|]. split; [eauto|]. intros _ _ ?. done.
    + right. right. split; [done|]. split; [eauto|]. intros _ ?. done.
  - destruct (loop_spec (S (remaining t0)) 0 0) as (exit & Hloop & Hres).
    { lia. } { lia. } { unfold remaining. fold buf c0. lia. }
    rewrite close_tag_state_0 in Hloop. rewrite Hloop. cbn [mbind result_bind].
    destruct Hres as [(m' & -> & Hm' & Hs)
                     | [(c & -> & Hs & Hcmp)
                       | (m1 & c & w & -> & Hm1 & Hc & Hwhy)]].
    + (* the stream ran out inside the name *)
      assert (Hbad : good -> False).
      { intros Hg. destruct (good_current m' Hg) as (b & Hb & Hr); [lia|].
        unfold peek, hubbub_inputstream_peek in Hs. rewrite Hb in Hs.
        rewrite not_sentinel_ascii in Hs by done. discriminate. }
      apply sentinel_cases in Hs as [Hs|Hs]; rewrite Hs.
      * cbn [Z.eqb].
        change (HUBBUB_INPUTSTREAM_EOF =? HUBBUB_INPUTSTREAM_OOD) with false.
        change (HUBBUB_INPUTSTREAM_EOF =? HUBBUB_INPUTSTREAM_EOF) with true.
        cbn iota. rewrite st_fail. eexists _, true. split; [reflexivity|].
        right. left. split; [done|]. split; [eauto|]. tauto.
      * change (HUBBUB_INPUTSTREAM_OOD =? HUBBUB_INPUTSTREAM_OOD) with true.
        cbn iota. eexists _, false. split; [reflexivity|].
        right. right. split; [done|].
        split; [exists m'; split; [done|]; split; [lia|done]|]. tauto.
    + (* the name matched *)
      destruct (after_name c) as (t' & cont & Heq & Hres); [done|by right|].
      exists t', cont. split; [exact Heq|].
      destruct Hres as [(-> & -> & Ht)
                       | [(-> & -> & Ht) | (-> & -> & Ht & Hood)]].
      * left. split; [done|]. split; [done|]. split; [|done].
        by apply cmp_ci_equal.
      * right. left. split; [done|]. split; [eauto|]. tauto.
      * right. right. split; [done|]. split; [eauto|]. tauto.
    + (* the name did not match *)
      eexists _, true. split; [reflexivity|]. right. left.
      split; [done|]. split; [eauto|]. intros Hg Hci _.
      destruct Hwhy as [Hover | [_ Hcmp]].
      * destruct (good_current m1 Hg) as (b & Hb & _); [lia|].
        rewrite Hb in Hc. injection Hc as _ <-. lia.
      * by apply Hcmp, cmp_ci_equal.
Qed.

(** *** An ASCII candidate *)

Let avail := length cand.

Lemma avail_min : avail = (n `min` (length buf - c0))%nat.
Proof.
  unfold avail, cand, close_tag_candidate, range_bytes.
  rewrite Hname, !Nat2Z.id, length_take, length_drop. reflexivity.
Qed.

Lemma avail_le : (avail <= n)%nat /\ (avail <= length buf - c0)%nat.
Proof. rewrite avail_min. lia. Qed.

Lemma ascii_current m :
  Forall (fun b => 0 <= b < 0x80) cand -> (m < avail)%nat ->
  exists b, stream_current (input (st m)) = Some (b, 1%nat) /\ 0 <= b < 0x80.
Proof.
  intros Hascii Hm.
  destruct (lookup_lt_is_Some_2 cand m) as [b Hb]; [done|].
  exists b. rewrite Forall_forall in Hascii.
  assert (Hr : 0 <= b < 0x80)
    by (apply Hascii; by eapply list_elem_of_lookup_2).
  split; [|done].
  unfold cand, close_tag_candidate, range_bytes in Hb.
  rewrite Nat2Z.id in Hb. apply lookup_take_Some in Hb as [Hb _].
  rewrite lookup_drop in Hb.
  unfold stream_current. cbn.
  rewrite (drop_S _ _ _ Hb). by apply utf8_decode_ascii_byte.
Qed.

Lemma cut_peek :
  (avail < n)%nat ->
  peek (st avail)
  = if eof then HUBBUB_INPUTSTREAM_EOF else HUBBUB_INPUTSTREAM_OOD.
Proof.
  intros Hcut.
  assert (Ha : avail = (length buf - c0)%nat)
    by (rewrite avail_min in *; lia).
  unfold peek, hubbub_inputstream_peek, stream_current. cbn.
  fold buf c0. rewrite drop_ge by lia. reflexivity.
Qed.

Lemma loop_exact (Hascii : Forall (fun b => 0 <= b < 0x80) cand) :
  forall d fuel m c_in,
    (m < n)%nat -> (m <= avail)%nat -> (avail - m)%nat = d ->
    (d < fuel)%nat ->
    ((avail < n)%nat ->
     close_tag_match_loop fuel c_in (st m)
     = Ok (Left (st avail) (peek (st avail))))
    /\ (avail = n -> cmp = 0 ->
        exists c, close_tag_match_loop fuel c_in (st m) = Ok (Left (st n) c)
                  /\ is_sentinel c = false)
    /\ (avail = n -> cmp <> 0 ->
        close_tag_match_loop fuel c_in (st m)
        = Ok (Returned (close_tag_failed t0 n) true)).
Proof.
  induction d as [|d IH]; intros fuel m c_in Hm Hma Hd Hfuel;
    (destruct fuel as [|fuel]; [lia|]); cbn [close_tag_match_loop];
    destruct (st_lens m) as [Hl1 Hl2]; rewrite Hl1, Hl2;
    replace (Z.of_nat m <? Z.of_nat n) with true
      by (symmetry; apply Z.ltb_lt; lia).
  - assert (m = avail) as -> by lia.
    split; [|split; intros; lia].
    intros Hcut. rewrite (cut_peek Hcut).
    by destruct eof.
  - destruct (ascii_current m Hascii) as (b & Hc & Hr); [lia|].
    destruct (st_current m b 1%nat Hc) as (Hpeek & _).
    rewrite Hpeek, (not_sentinel_ascii b Hr).
    rewrite <- Hpeek. rewrite (st_step m b 1%nat Hc).
    destruct (st_lens (m + 1)) as [Hl1' Hl2']. rewrite Hl1', Hl2'.
    rewrite st_compare by lia. rewrite st_fail_loop.
    destruct (decide (m + 1 = n)%nat) as [Heq|Hne].
    + replace (Z.of_nat n <? Z.of_nat (m + 1)) with false
        by (symmetry; apply Z.ltb_ge; lia).
      replace (Z.of_nat (m + 1) =? Z.of_nat n) with true
        by (symmetry; apply Z.eqb_eq; lia).
      cbn [orb andb]. split; [lia|]. split.
      * intros _ Hcmp. rewrite Hcmp. cbn [Z.eqb negb]. rewrite Heq.
        exists (peek (st m)). split; [done|].
        rewrite Hpeek. by apply not_sentinel_ascii.
      * intros _ Hcmp. apply Z.eqb_neq in Hcmp. rewrite Hcmp. cbn [negb].
        by rewrite Heq.
    + pose proof avail_le as [Han _].
      replace (Z.of_nat n <? Z.of_nat (m + 1)) with false
        by (symmetry; apply Z.ltb_ge; lia).
      replace (Z.of_nat (m + 1) =? Z.of_nat n) with false
        by (symmetry; apply Z.eqb_neq; lia).
      cbn [orb andb]. apply IH; lia.
Qed.

Lemma after_name_exact c :
  is_sentinel c = false ->
  (match Left (st n) c with
   | Returned t cont => Ok (t, cont)
   | Left t c =>
     if c =? HUBBUB_INPUTSTREAM_OOD then Ok (t, false)
     else if c =? HUBBUB_INPUTSTREAM_EOF then
       t ← rewind_or_abort (len (close_tag_match_tag (context t))) t;
       t ← emit_character (current_chars (context t)) t;
       Ok (set_state HUBBUB_TOKENISER_STATE_DATA t, true)
     else
       let c := peek t in
       if c =? HUBBUB_INPUTSTREAM_OOD then Ok (t, false)
       else
         t ← rewind_or_abort (len (close_tag_match_tag (context t))) t;
         if negb (c =? 9) && negb (c =? 10) && negb (c =? 11)
            && negb (c =? 12) && negb (c =? chr " ") && negb (c =? chr ">")
            && negb (c =? chr "/") && negb (c =? chr "<")
            && negb (c =? HUBBUB_INPUTSTREAM_EOF)
         then
           t ← emit_character (current_chars (context t)) t;
           Ok (set_state HUBBUB_TOKENISER_STATE_DATA t, true)
         else
           let t := set_content_model HUBBUB_CONTENT_MODEL_PCDATA t in
           Ok (set_state HUBBUB_TOKENISER_STATE_CLOSE_TAG_OPEN t, true)
   end)
  = Ok (if next =? HUBBUB_INPUTSTREAM_OOD then (st n, false)
        else if bool_decide (close_tag_terminator next)
             then (close_tag_matched t0, true)
             else (close_tag_failed t0 n, true)).
Proof.
  intros Hs. apply sentinel_cases in Hs as [-> ->].
  cbn zeta. rewrite next_peek.
  destruct (peek (st n) =? HUBBUB_INPUTSTREAM_OOD); [done|].
  rewrite st_rewind. cbn [mbind result_bind].
  rewrite terminator_test.
  case_bool_decide as Hterm; cbn [negb].
  - unfold close_tag_matched. rewrite Hname, Nat2Z.id. reflexivity.
  - by rewrite emit_character_eq.
Qed.

(** The handler on a call that has consumed [m] bytes of an ASCII
    candidate: [m] is 0 on the first call, and more when the handler
    had to wait for data. *)
Lemma close_tag_match_exact m :
  Forall (fun b => 0 <= b < 0x80) cand -> (m <= avail)%nat ->
  (m = n -> ci_equal) ->
  hubbub_tokeniser_handle_close_tag_match (st m)
  = Ok (close_tag_outcome t0).
Proof.
  intros Hascii Hma Hmn.
  pose proof avail_le as [Han Hab].
  unfold hubbub_tokeniser_handle_close_tag_match, close_tag_outcome.
  cbv zeta. rewrite Hname, Nat2Z.id.
  fold cand avail next. fold eof.
  change (map ascii_fold (close_tag_name t0) = map ascii_fold cand)
    with ci_equal.
  destruct (decide (m = n)) as [->|Hne].
  - (* the call resumes behind the candidate *)
    assert (Hloop : forall fuel,
              close_tag_match_loop (S fuel) 0 (st n) = Ok (Left (st n) 0)).
    { intros fuel. cbn [close_tag_match_loop].
      destruct (st_lens n) as [Hl1 Hl2]. rewrite Hl1, Hl2.
      by rewrite Z.ltb_irrefl. }
    rewrite Hloop. cbn [mbind result_bind].
    rewrite after_name_exact by done.
    replace (avail <? n)%nat with false
      by (symmetry; apply Nat.ltb_ge; lia).
    rewrite (bool_decide_eq_true_2 ci_equal) by auto. reflexivity.
  - destruct (loop_exact Hascii (avail - m) (S (remaining (st m))) m 0)
      as (Hcut & Hmatch & Hdiff); [lia|lia|lia| |].
    { unfold remaining. cbn. fold buf c0. lia. }
    destruct (decide (avail = n)) as [Hfull|Hpart].
    + replace (avail <? n)%nat with false
        by (symmetry; apply Nat.ltb_ge; lia).
      destruct (Z.eq_dec cmp 0) as [Hcmp|Hcmp].
      * destruct (Hmatch Hfull Hcmp) as (c & -> & Hs).
        cbn [mbind result_bind]. rewrite after_name_exact by done.
        rewrite (bool_decide_eq_true_2 ci_equal)
          by (by apply cmp_ci_equal).
        reflexivity.
      * rewrite (Hdiff Hfull Hcmp). cbn [mbind result_bind].
        rewrite (bool_decide_eq_false_2 ci_equal)
          by (intros Hci; by apply Hcmp, cmp_ci_equal).
        reflexivity.
    + assert (Hlt : (avail < n)%nat) by lia.
      rewrite (Hcut Hlt). cbn [mbind result_bind].
      replace (avail <? n)%nat with true
        by (symmetry; apply Nat.ltb_lt; lia).
      rewrite (cut_peek Hlt). destruct eof.
      * change (HUBBUB_INPUTSTREAM_EOF =? HUBBUB_INPUTSTREAM_OOD)
          with false.
        change (HUBBUB_INPUTSTREAM_EOF =? HUBBUB_INPUTSTREAM_EOF)
          with true.
        cbv iota. by rewrite st_fail.
      * by change (HUBBUB_INPUTSTREAM_OOD =? HUBBUB_INPUTSTREAM_OOD)
          with true.
Qed.

End CloseTagMatch.

(** C3: in the close tag match state, entered with nothing matched yet,
    the handler ends in one of three ways.  It succeeds only if the
    candidate, the bytes at the cursor as long as the name of the last
    open tag, equals that name up to ASCII case and the codepoint behind
    it is a tab, LF, VT, FF, space, [>], [/], [<] or EOF; then the content
    model is PCDATA, the state is close tag open, and the stream is back
    where the candidate starts.  It fails otherwise: the stream is back
    where the candidate starts, the pending characters are emitted as a
    character token, the state is the data state and the content model is
    unchanged; it does not fail when the candidate is ASCII, equals the
    name and is followed by one of those codepoints.  Or it asks for more
    data, and does so only when the stream is out of data where it
    stopped, at most as many bytes into the candidate as the name has;
    it then changes neither the content model nor the trace.

    For a candidate of ASCII bytes the outcome is [close_tag_outcome],
    on the first call and on a call resumed after [m] bytes of the
    candidate: a candidate that the data at hand cuts short fails at the
    end of the document and waits otherwise; a whole candidate that is
    not the name fails; one that is the name waits when nothing follows
    it yet, succeeds before a terminator and fails before anything
    else.

    With content model CDATA and an open [script], [</scriptx>] yields
    the character data [</scriptx>] and the content model stays CDATA,
    also when the close tag arrives in two pieces. *)
Theorem close_tag_match_outcomes :
  (forall t0 n,
     len (tag_name (current_tag (context t0))) = Z.of_nat n ->
     len (close_tag_match_tag (context t0)) = 0 ->
     (cursor (input t0) <= length (buffer (input t0)))%nat ->
     let good := length (close_tag_candidate t0) = n
                 /\ Forall (fun b => 0 <= b < 0x80) (close_tag_candidate t0) in
     let ci_equal := map ascii_fold (close_tag_name t0)
                     = map ascii_fold (close_tag_candidate t0) in
     let terminated := close_tag_terminator (close_tag_next t0) in
     exists t' cont,
       hubbub_tokeniser_handle_close_tag_match t0 = Ok (t', cont)
       /\ ((cont = true /\ ci_equal /\ terminated
            /\ content_model t' = HUBBUB_CONTENT_MODEL_PCDATA
            /\ state t' = HUBBUB_TOKENISER_STATE_CLOSE_TAG_OPEN
            /\ input t' = input t0
            /\ calls t' = calls t0)
           \/ (cont = true
               /\ (good -> ci_equal -> terminated -> False)
               /\ content_model t' = content_model t0
               /\ state t' = HUBBUB_TOKENISER_STATE_DATA
               /\ input t' = input t0
               /\ calls t'
                  = calls t0
                    ++ character_call (current_chars (context t0)) t0)
           \/ (cont = false
               /\ (good -> terminated -> False)
               /\ content_model t' = content_model t0
               /\ state t' = state t0
               /\ buffer (input t') = buffer (input t0)
               /\ calls t' = calls t0
               /\ (exists m, t' = close_tag_state t0 m /\ (m <= n)%nat)
               /\ had_eof (input t0) = false
               /\ peek t' = HUBBUB_INPUTSTREAM_OOD)))
  /\ (forall t0 n m,
        len (tag_name (current_tag (context t0))) = Z.of_nat n ->
        len (close_tag_match_tag (context t0)) = 0 ->
        (cursor (input t0) <= length (buffer (input t0)))%nat ->
        Forall (fun b => 0 <= b < 0x80) (close_tag_candidate t0) ->
        (m <= length (close_tag_candidate t0))%nat ->
        (m = n -> map ascii_fold (close_tag_name t0)
                  = map ascii_fold (close_tag_candidate t0)) ->
        close_tag_state t0 0 = t0
        /\ hubbub_tokeniser_handle_close_tag_match (close_tag_state t0 m)
           = Ok (close_tag_outcome t0))
  /\ (exists t,
        script_scenario "</scriptx>" = Ok t
        /\ emitted t
           = [StartTag (bytes_of_string "script") [];
              Character (bytes_of_string "</");
              Character (bytes_of_string "scriptx>"); EndOfFile]
        /\ character_data (emitted t) = bytes_of_string "</scriptx>"
        /\ content_model t = HUBBUB_CONTENT_MODEL_CDATA)
  /\ (exists t,
        script_scenario "</SCRIPT>" = Ok t
        /\ emitted t
           = [StartTag (bytes_of_string "script") [];
              EndTag (bytes_of_string "script") []; EndOfFile]
        /\ content_model t = HUBBUB_CONTENT_MODEL_PCDATA)
  /\ (exists t,
        script_resumed_scenario "iptx>" = Ok t
        /\ emitted t
           = [StartTag (bytes_of_string "script") [];
              Character (bytes_of_string "</");
              Character (bytes_of_string "scriptx>"); EndOfFile]
        /\ character_data (emitted t) = bytes_of_string "</scriptx>"
        /\ content_model t = HUBBUB_CONTENT_MODEL_CDATA)
  /\ (exists t,
        script_resumed_scenario "ipt>" = Ok t
        /\ emitted t
           = [StartTag (bytes_of_string "script") [];
              EndTag (bytes_of_string "script") []; EndOfFile]
        /\ content_model t = HUBBUB_CONTENT_MODEL_PCDATA).
Proof.
  split; [|split; [|split_and!; eexists; (split; [vm_compute; reflexivity|]);
                    repeat split; vm_compute; reflexivity]].
  - intros t0 n Hname Hfresh Hcursor good ci_equal terminated.
    destruct (close_tag_match_result t0 n Hname Hfresh Hcursor)
      as (t' & cont & Heq & Hres).
    exists t', cont. split; [exact Heq|].
    destruct Hres as [(-> & -> & Hci & Hterm)
                     | [(-> & (m & ->) & Hwhy)
                       | (-> & (m & -> & Hm & Hood) & Hwhy)]].
    + left. repeat split; done.
    + right. left. repeat split; done.
    + right. right. split_and!; try done; [by exists m|].
      by apply peek_ood in Hood as [_ Heof].
  - intros t0 n m Hname Hfresh Hcursor Hascii Hm Hci. split.
    + by eapply close_tag_state_0.
    + by apply (close_tag_match_exact t0 n).
Qed.

Lemma close_tag_match_outcomes_witness :
  let t0 := script_close_tokeniser in
  close_tag_candidate t0 = bytes_of_string "script"
  /\ close_tag_name t0 = bytes_of_string "script"
  /\ close_tag_next t0 = chr "x"
  /\ hubbub_tokeniser_handle_close_tag_match t0
     = Ok (close_tag_failed t0 6, true)
  /\ content_model (close_tag_failed t0 6) = HUBBUB_CONTENT_MODEL_CDATA
  /\ state (close_tag_failed t0 6) = HUBBUB_TOKENISER_STATE_DATA
  /\ input (close_tag_failed t0 6) = input t0.
Proof.
  do 3 (split; [vm_compute; reflexivity|]).
  split; [|split_and!; vm_compute; reflexivity].
  exact (proj2 (proj1 (proj2 close_tag_match_outcomes)
                  script_close_tokeniser 6%nat 0%nat
                  eq_refl eq_refl
                  ltac:(vm_compute; lia)
                  ltac:(vm_compute; repeat constructor; done)
                  ltac:(vm_compute; lia)
                  ltac:(vm_compute; done))).
Defined.

(** ** The handlers return *)

(** The budget that the model gives to the loops of the handlers is
    enough: no call of a handler ends for want of it. *)
Lemma advance_remaining t t' :
  input t' = input t -> is_sentinel (peek t) = false ->
  (remaining (advance t') < remaining t)%nat.
Proof.
  unfold remaining, advance, peek, hubbub_inputstream_peek,
    hubbub_inputstream_advance. cbn. intros ->.
  destruct (stream_current (input t)) as [[c n]|] eqn:Hc.
  - intros _. apply utf8_decode_length in Hc. rewrite length_drop in Hc.
    cbn. lia.
  - destruct (had_eof (input t)); discriminate.
Qed.

Lemma inner_returns inp i : forall fuel j n attrs,
  0 <= j -> (Z.to_nat (n - j) < fuel)%nat ->
  discard_duplicates_inner fuel inp i j n attrs <> Timeout
  /\ forall n' attrs',
       discard_duplicates_inner fuel inp i j n attrs = Ok (n', attrs') ->
       n' <= n.
Proof.
  induction fuel as [|fuel IH]; intros j n attrs Hj Hf; [exfalso; lia|].
  cbn [discard_duplicates_inner].
  destruct (j <? n) eqn:Hjn.
  2:{ split; [discriminate|]. intros n' attrs' H. injection H as <- <-. lia. }
  apply Z.ltb_lt in Hjn.
  destruct (j =? i).
  { apply IH; lia. }
  destruct (attrs !! Z.to_nat i) as [ai|]; cbn; [|split; discriminate].
  destruct (attrs !! Z.to_nat j) as [aj|]; cbn; [|split; discriminate].
  destruct (_ || _).
  { apply IH; lia. }
  assert (Hu : u32 (n - 1) <= n - 1).
  { unfold u32. apply Z.mod_le; lia. }
  assert (Hu0 : 0 <= u32 (n - 1)).
  { unfold u32. pose proof (Z.mod_pos_bound (n - 1) (2 ^ 32)). lia. }
  match goal with |- context [discard_duplicates_inner fuel inp i (j + 1)
                                (u32 (n - 1)) ?a] =>
    destruct (IH (j + 1) (u32 (n - 1)) a) as [H1 H2]; [lia|lia|]
  end.
  split; [exact H1|]. intros n' attrs' H. apply H2 in H. lia.
Qed.

Lemma discard_duplicates_returns inp : forall fuel i n attrs,
  (Z.to_nat (n - i) < fuel)%nat ->
  discard_duplicates fuel inp i n attrs <> Timeout.
Proof.
  induction fuel as [|fuel IH]; intros i n attrs Hf; [exfalso; lia|].
  cbn [discard_duplicates].
  destruct (i <? n) eqn:Hin; [|discriminate].
  apply Z.ltb_lt in Hin.
  destruct (inner_returns inp i (S (Z.to_nat n)) 0 n attrs) as [H1 H2];
    [lia|lia|].
  destruct (discard_duplicates_inner _ _ _ _ _ _) as [[n' attrs']| | |];
    cbn; try discriminate; [|done].
  specialize (H2 n' attrs' eq_refl). apply IH. lia.
Qed.

Lemma emit_returns token t : emit token t <> Timeout.
Proof.
  unfold emit, hubbub_tokeniser_emit_token.
  destruct (token_handler t); [|discriminate].
  destruct (_ || _); [|discriminate].
  destruct (token_data token) as [d|tag|s|s|]; try discriminate.
  pose proof (discard_duplicates_returns (input t)
                (S (Z.to_nat (n_attributes tag))) 0 (n_attributes tag)
                (attributes tag)) as H.
  destruct (discard_duplicates _ _ _ _ _) as [[n' attrs']| | |];
    cbn; try discriminate.
  exfalso. apply H; [|reflexivity]. lia.
Qed.

Lemma bind_returns {A B} (m : result A) (k : A -> result B) :
  m <> Timeout -> (forall x, m = Ok x -> k x <> Timeout) ->
  m ≫= k <> Timeout.
Proof. destruct m; cbn; intros H1 H2; try done. by apply H2. Qed.

Lemma emit_character_no_timeout s : returns (emit_character s).
Proof.
  intros t. unfold emit_character. apply bind_returns; [|done].
  apply emit_returns.
Qed.
Lemma emit_comment_no_timeout s : returns (emit_comment s).
Proof.
  intros t. unfold emit_comment. apply bind_returns; [|done].
  apply emit_returns.
Qed.
Lemma emit_doctype_no_timeout d : returns (emit_doctype d).
Proof.
  intros t. unfold emit_doctype. apply bind_returns; [|done].
  apply emit_returns.
Qed.
Lemma emit_current_tag_no_timeout : returns emit_current_tag.
Proof.
  intros t. unfold emit_current_tag. apply bind_returns.
  - apply emit_returns.
  - intros [t1 tok1] _. destruct (token_data tok1); discriminate.
Qed.
Lemma update_last_attribute_no_timeout f :
  returns (update_last_attribute f).
Proof.
  intros t. unfold update_last_attribute.
  destruct (attributes _ !! _); discriminate.
Qed.
Lemma rewind_or_abort_no_timeout n : returns (rewind_or_abort n).
Proof. intros t. unfold rewind_or_abort. case_bool_decide; discriminate. Qed.

Ltac returns_leaf :=
  first
    [ apply emit_returns
    | apply emit_character_no_timeout
    | apply emit_comment_no_timeout
    | apply emit_doctype_no_timeout
    | apply emit_current_tag_no_timeout
    | apply update_last_attribute_no_timeout
    | apply rewind_or_abort_no_timeout ].

Ltac returns_with tac :=
  repeat lazymatch goal with
  | |- Ok _ <> Timeout => discriminate
  | |- Abort <> Timeout => discriminate
  | |- Undefined <> Timeout => discriminate
  | |- (if ?b then _ else _) <> Timeout => destruct b
  | |- _ ≫= _ <> Timeout => apply bind_returns; [|intros ? _]
  | |- match ?m with _ => _ end <> Timeout => destruct m
  end;
  try returns_leaf; try tac.

Ltac returns_by f := intros t; unfold f; returns_with idtac.

Lemma emit_tag_to_data_no_timeout adv : returns (emit_tag_to_data adv).
Proof. returns_by emit_tag_to_data. Qed.
Lemma emit_comment_to_data_no_timeout adv :
  returns (emit_comment_to_data adv).
Proof. returns_by emit_comment_to_data. Qed.
Lemma emit_doctype_to_data_no_timeout adv :
  returns (emit_doctype_to_data adv).
Proof. returns_by emit_doctype_to_data. Qed.
Lemma emit_doctype_checked_no_timeout : returns emit_doctype_checked.
Proof. returns_by emit_doctype_checked. Qed.
Lemma extend_attribute_name_no_timeout : returns extend_attribute_name.
Proof. returns_by extend_attribute_name. Qed.
Lemma extend_attribute_value_no_timeout : returns extend_attribute_value.
Proof.
  intros t. unfold extend_attribute_value.
  apply update_last_attribute_no_timeout.
Qed.
Lemma enter_entity_in_attribute_value_no_timeout :
  returns enter_entity_in_attribute_value.
Proof. returns_by enter_entity_in_attribute_value. Qed.
Lemma consume_entity_no_timeout : returns hubbub_tokeniser_consume_entity.
Proof. returns_by hubbub_tokeniser_consume_entity. Qed.

Ltac returns_block :=
  first
    [ apply emit_tag_to_data_no_timeout
    | apply emit_comment_to_data_no_timeout
    | apply emit_doctype_to_data_no_timeout
    | apply emit_doctype_checked_no_timeout
    | apply extend_attribute_name_no_timeout
    | apply extend_attribute_value_no_timeout
    | apply enter_entity_in_attribute_value_no_timeout
    | apply consume_entity_no_timeout ].

Ltac handler_returns f := intros t; unfold f; returns_with returns_block.

Lemma entity_data_no_timeout : returns hubbub_tokeniser_handle_entity_data.
Proof. handler_returns hubbub_tokeniser_handle_entity_data. Qed.
Lemma tag_open_no_timeout : returns hubbub_tokeniser_handle_tag_open.
Proof. handler_returns hubbub_tokeniser_handle_tag_open. Qed.
Lemma close_tag_open_no_timeout :
  returns hubbub_tokeniser_handle_close_tag_open.
Proof. handler_returns hubbub_tokeniser_handle_close_tag_open. Qed.
Lemma tag_name_no_timeout : returns hubbub_tokeniser_handle_tag_name.
Proof. handler_returns hubbub_tokeniser_handle_tag_name. Qed.
Lemma before_attribute_name_no_timeout :
  returns hubbub_tokeniser_handle_before_attribute_name.
Proof. handler_returns hubbub_tokeniser_handle_before_attribute_name. Qed.
Lemma attribute_name_no_timeout :
  returns hubbub_tokeniser_handle_attribute_name.
Proof. handler_returns hubbub_tokeniser_handle_attribute_name. Qed.
Lemma after_attribute_name_no_timeout :
  returns hubbub_tokeniser_handle_after_attribute_name.
Proof. handler_returns hubbub_tokeniser_handle_after_attribute_name. Qed.
Lemma before_attribute_value_no_timeout :
  returns hubbub_tokeniser_handle_before_attribute_value.
Proof. handler_returns hubbub_tokeniser_handle_before_attribute_value. Qed.
Lemma attribute_value_dq_no_timeout :
  returns hubbub_tokeniser_handle_attribute_value_dq.
Proof. handler_returns hubbub_tokeniser_handle_attribute_value_dq. Qed.
Lemma attribute_value_sq_no_timeout :
  returns hubbub_tokeniser_handle_attribute_value_sq.
Proof. handler_returns hubbub_tokeniser_handle_attribute_value_sq. Qed.
Lemma attribute_value_uq_no_timeout :
  returns hubbub_tokeniser_handle_attribute_value_uq.
Proof. handler_returns hubbub_tokeniser_handle_attribute_value_uq. Qed.
Lemma entity_in_attribute_value_no_timeout :
  returns hubbub_tokeniser_handle_entity_in_attribute_value.
Proof.
  handler_returns hubbub_tokeniser_handle_entity_in_attribute_value.
Qed.
Lemma markup_declaration_open_no_timeout :
  returns hubbub_tokeniser_handle_markup_declaration_open.
Proof.
  handler_returns hubbub_tokeniser_handle_markup_declaration_open.
Qed.
Lemma comment_start_no_timeout :
  returns hubbub_tokeniser_handle_comment_start.
Proof. handler_returns hubbub_tokeniser_handle_comment_start. Qed.
Lemma comment_no_timeout : returns hubbub_tokeniser_handle_comment.
Proof. handler_returns hubbub_tokeniser_handle_comment. Qed.
Lemma comment_dash_no_timeout :
  returns hubbub_tokeniser_handle_comment_dash.
Proof.
  intros t. unfold hubbub_tokeniser_handle_comment_dash, comment_resume.
  returns_with returns_block.
Qed.
Lemma comment_end_no_timeout : returns hubbub_tokeniser_handle_comment_end.
Proof.
  intros t. unfold hubbub_tokeniser_handle_comment_end, comment_resume.
  returns_with returns_block.
Qed.
Lemma match_doctype_no_timeout :
  returns hubbub_tokeniser_handle_match_doctype.
Proof. handler_returns hubbub_tokeniser_handle_match_doctype. Qed.
Lemma doctype_no_timeout : returns hubbub_tokeniser_handle_doctype.
Proof. handler_returns hubbub_tokeniser_handle_doctype. Qed.
Lemma before_doctype_name_no_timeout :
  returns hubbub_tokeniser_handle_before_doctype_name.
Proof. handler_returns hubbub_tokeniser_handle_before_doctype_name. Qed.
Lemma doctype_name_no_timeout :
  returns hubbub_tokeniser_handle_doctype_name.
Proof. handler_returns hubbub_tokeniser_handle_doctype_name. Qed.
Lemma after_doctype_name_no_timeout :
  returns hubbub_tokeniser_handle_after_doctype_name.
Proof. handler_returns hubbub_tokeniser_handle_after_doctype_name. Qed.
Lemma bogus_doctype_no_timeout :
  returns hubbub_tokeniser_handle_bogus_doctype.
Proof. handler_returns hubbub_tokeniser_handle_bogus_doctype. Qed.

(** The loops: every round that goes on has advanced the cursor over a
    codepoint, so the rounds are fewer than the bytes that remain. *)
Ltac next_round IH Hf Hs :=
  apply IH;
  match goal with
  | |- (remaining (advance ?x) < _)%nat =>
    let H := fresh in
    assert (H : (remaining (advance x) < remaining _)%nat)
      by (apply advance_remaining; [|exact Hs];
          repeat (match goal with
                  | |- context [if ?b then _ else _] => destruct b
                  end); reflexivity);
    lia
  end.

Lemma handle_data_loop_no_timeout : forall fuel t,
  (remaining t < fuel)%nat -> handle_data_loop fuel t <> Timeout.
Proof.
  induction fuel as [|fuel IH]; intros t Hf; [exfalso; lia|].
  cbn [handle_data_loop].
  destruct (is_sentinel (peek t)) eqn:Hs; [discriminate|].
  returns_with ltac:(next_round IH Hf Hs).
Qed.

Lemma handle_data_no_timeout : returns hubbub_tokeniser_handle_data.
Proof.
  intros t. unfold hubbub_tokeniser_handle_data.
  apply bind_returns.
  { apply handle_data_loop_no_timeout. unfold remaining. cbn. lia. }
  intros [t1 c1] _. returns_with idtac.
  all: destruct x; returns_with idtac.
Qed.

Lemma bogus_comment_loop_no_timeout : forall fuel t,
  (remaining t < fuel)%nat -> bogus_comment_loop fuel t <> Timeout.
Proof.
  induction fuel as [|fuel IH]; intros t Hf; [exfalso; lia|].
  cbn [bogus_comment_loop].
  destruct (is_sentinel (peek t)) eqn:Hs; [discriminate|].
  returns_with ltac:(next_round IH Hf Hs).
Qed.

Lemma bogus_comment_no_timeout :
  returns hubbub_tokeniser_handle_bogus_comment.
Proof.
  intros t. unfold hubbub_tokeniser_handle_bogus_comment.
  apply bind_returns.
  { apply bogus_comment_loop_no_timeout. lia. }
  intros [t1 c1] _. returns_with idtac.
Qed.

Lemma numbered_entity_loop_no_timeout : forall fuel t,
  (remaining t < fuel)%nat -> numbered_entity_loop fuel t <> Timeout.
Proof.
  induction fuel as [|fuel IH]; intros t Hf; [exfalso; lia|].
  cbn [numbered_entity_loop].
  destruct (is_sentinel (peek t)) eqn:Hs; [discriminate|].
  returns_with ltac:(next_round IH Hf Hs).
Qed.

Lemma numbered_entity_no_timeout :
  returns hubbub_tokeniser_handle_numbered_entity.
Proof.
  intros t. unfold hubbub_tokeniser_handle_numbered_entity.
  destruct (peek t =? HUBBUB_INPUTSTREAM_OOD); [discriminate|].
  apply bind_returns.
  { apply numbered_entity_loop_no_timeout. lia. }
  intros [t1 c1] _. returns_with idtac.
Qed.

Section NamedEntityReturns.
Variable entities : list (list Z * Z).

Lemma named_entity_loop_no_timeout : forall fuel t,
  (remaining t < fuel)%nat -> named_entity_loop entities fuel t <> Timeout.
Proof.
  induction fuel as [|fuel IH]; intros t Hf; [exfalso; lia|].
  cbn [named_entity_loop].
  destruct (is_sentinel (peek t)) eqn:Hs; [discriminate|].
  returns_with ltac:(next_round IH Hf Hs).
Qed.

Lemma named_entity_no_timeout :
  returns (hubbub_tokeniser_handle_named_entity entities).
Proof.
  intros t. unfold hubbub_tokeniser_handle_named_entity.
  apply bind_returns.
  { apply named_entity_loop_no_timeout. lia. }
  intros [t1 c1] _. returns_with idtac.
Qed.

Lemma close_tag_match_loop_no_timeout : forall fuel c t,
  (remaining t < fuel)%nat -> close_tag_match_loop fuel c t <> Timeout.
Proof.
  induction fuel as [|fuel IH]; intros c t Hf; [exfalso; lia|].
  cbn [close_tag_match_loop].
  destruct (len _ <? len _); [|discriminate].
  destruct (is_sentinel (peek t)) eqn:Hs; [discriminate|].
  returns_with ltac:(next_round IH Hf Hs).
Qed.

Lemma close_tag_match_no_timeout :
  returns hubbub_tokeniser_handle_close_tag_match.
Proof.
  intros t. unfold hubbub_tokeniser_handle_close_tag_match.
  apply bind_returns.
  { apply close_tag_match_loop_no_timeout. lia. }
  intros r _. returns_with idtac.
Qed.

Lemma step_no_timeout : returns (hubbub_tokeniser_step entities).
Proof.
  intros t. unfold hubbub_tokeniser_step.
  destruct (state t);
    first
      [ apply handle_data_no_timeout
      | apply entity_data_no_timeout
      | apply tag_open_no_timeout
      | apply close_tag_open_no_timeout
      | apply close_tag_match_no_timeout
      | apply tag_name_no_timeout
      | apply before_attribute_name_no_timeout
      | apply attribute_name_no_timeout
      | apply after_attribute_name_no_timeout
      | apply before_attribute_value_no_timeout
      | apply attribute_value_dq_no_timeout
      | apply attribute_value_sq_no_timeout
      | apply attribute_value_uq_no_timeout
      | apply entity_in_attribute_value_no_timeout
      | apply bogus_comment_no_timeout
      | apply markup_declaration_open_no_timeout
      | apply comment_start_no_timeout
      | apply comment_no_timeout
      | apply comment_dash_no_timeout
      | apply comment_end_no_timeout
      | apply match_doctype_no_timeout
      | apply doctype_no_timeout
      | apply before_doctype_name_no_timeout
      | apply doctype_name_no_timeout
      | apply after_doctype_name_no_timeout
      | apply bogus_doctype_no_timeout
      | apply numbered_entity_no_timeout
      | apply named_entity_no_timeout ].
Qed.

End NamedEntityReturns.

(** ** The doctype flag *)

Lemma emit_inv token t t' token' :
  doctype_inv t ->
  (forall name,
     view_token token (buffer (input t)) = Doctype name true ->
     name = bytes_of_string "HTML") ->
  emit token t = Ok (t', token') ->
  doctype_inv t' /\ context t' = context t /\ input t' = input t
  /\ state t' = state t /\ content_model t' = content_model t.
Proof.
  intros [Hc Hcalls] Htok. unfold emit, hubbub_tokeniser_emit_token.
  destruct (token_handler t) as [h|] eqn:Hh; cbn [mbind result_bind].
  2:{ intros H. injection H as <- <-. repeat split; done. }
  destruct (bool_decide (token_type token = HUBBUB_TOKEN_START_TAG)
            || bool_decide (token_type token = HUBBUB_TOKEN_END_TAG))
    eqn:Hty.
  - destruct (token_data token) as [d|tag|s|s|] eqn:Hd; try discriminate.
    destruct (discard_duplicates _ _ _ _ _) as [[n attrs]| | |];
      cbn [mbind result_bind]; try discriminate.
    intros H. injection H as <- <-. repeat split; try done.
    cbn. apply Forall_app. split; [done|]. apply Forall_singleton.
    intros name. cbn.
    apply orb_prop in Hty as [Hty|Hty]; apply bool_decide_eq_true in Hty;
      rewrite Hty; discriminate.
  - cbn [mbind result_bind]. intros H. injection H as <- <-.
    repeat split; try done.
    cbn. apply Forall_app. split; [done|]. apply Forall_singleton.
    intros name Hv. cbn in Hv. injection Hv as Hv. by apply Htok.
Qed.

Lemma emit_character_inv s t t' :
  doctype_inv t -> emit_character s t = Ok t' -> doctype_inv t'.
Proof.
  intros Hi. unfold emit_character.
  destruct (emit _ t) as [[t1 tok1]| | |] eqn:He; try discriminate.
  cbn. intros H. injection H as <-.
  by eapply emit_inv in He as [? _].
Qed.

Lemma emit_comment_inv s t t' :
  doctype_inv t -> emit_comment s t = Ok t' -> doctype_inv t'.
Proof.
  intros Hi. unfold emit_comment.
  destruct (emit _ t) as [[t1 tok1]| | |] eqn:He; try discriminate.
  cbn. intros H. injection H as <-.
  by eapply emit_inv in He as [? _].
Qed.

Lemma emit_doctype_inv d t t' :
  doctype_inv t ->
  (correct d = true ->
   span_bytes (buffer (input t)) (doctype_name d) = bytes_of_string "HTML") ->
  emit_doctype d t = Ok t' -> doctype_inv t'.
Proof.
  intros Hi Hd. unfold emit_doctype.
  destruct (emit _ t) as [[t1 tok1]| | |] eqn:He; try discriminate.
  cbn. intros H. injection H as <-.
  eapply emit_inv in He as [? _]; [done|done|].
  cbn. intros name Hv. injection Hv as <- Hcorrect. by apply Hd.
Qed.

Lemma emit_current_tag_inv t t' :
  doctype_inv t -> emit_current_tag t = Ok t' -> doctype_inv t'.
Proof.
  intros Hi. unfold emit_current_tag.
  destruct (emit _ t) as [[t1 tok1]| | |] eqn:He; try discriminate.
  cbn [mbind result_bind]. eapply emit_inv in He as [Hi1 _]; [|done|].
  - destruct (token_data tok1); intros H; injection H as <-; exact Hi1.
  - intros name. unfold view_token. cbn.
    destruct (current_tag_type (context t)); discriminate.
Qed.

(** A step that touches neither the flag nor the trace keeps the
    invariant. *)
Lemma doctype_inv_frame t t' :
  correct (current_doctype (context t'))
  = correct (current_doctype (context t)) ->
  calls t' = calls t ->
  doctype_inv t -> doctype_inv t'.
Proof. intros H1 H2 [? ?]. split; congruence. Qed.

Lemma doctype_inv_reset t t' :
  correct (current_doctype (context t')) = false ->
  calls t' = calls t ->
  doctype_inv t -> doctype_inv t'.
Proof. intros H1 H2 [? ?]. split; congruence. Qed.

Ltac frame :=
  match goal with
  | H : doctype_inv ?x |- doctype_inv _ =>
    first
      [ apply (doctype_inv_frame x); [reflexivity | reflexivity | exact H]
      | apply (doctype_inv_reset x); [reflexivity | reflexivity | exact H] ]
  end.

Ltac finish :=
  first
    [ frame
    | match goal with
      | |- doctype_inv ?e =>
        match e with
        | context [if ?b then _ else _] => destruct b; finish
        end
      end ].

Lemma update_last_attribute_inv f t t' :
  doctype_inv t -> update_last_attribute f t = Ok t' -> doctype_inv t'.
Proof.
  intros Hi. unfold update_last_attribute.
  destruct (attributes _ !! _); cbn; [|discriminate].
  intros H. injection H as <-. frame.
Qed.

Lemma extend_attribute_value_inv t t' :
  doctype_inv t -> extend_attribute_value t = Ok t' -> doctype_inv t'.
Proof. unfold extend_attribute_value. apply update_last_attribute_inv. Qed.

Lemma rewind_or_abort_inv n t t' :
  doctype_inv t -> rewind_or_abort n t = Ok t' -> doctype_inv t'.
Proof.
  intros Hi. unfold rewind_or_abort. case_bool_decide; [|discriminate].
  intros Heq. injection Heq as <-. frame.
Qed.

(** Handlers are chains of tests that end in a state built by field
    updates, possibly after an emission.  [keep] walks such a chain. *)
Ltac keep_bind E :=
  lazymatch type of E with
  | emit_character _ _ = Ok _ => apply emit_character_inv in E; [|finish]
  | emit_comment _ _ = Ok _ => apply emit_comment_inv in E; [|finish]
  | emit_current_tag _ = Ok _ => apply emit_current_tag_inv in E; [|finish]
  | update_last_attribute _ _ = Ok _ =>
    apply update_last_attribute_inv in E; [|finish]
  | extend_attribute_value _ = Ok _ =>
    apply extend_attribute_value_inv in E; [|finish]
  | rewind_or_abort _ _ = Ok _ => apply rewind_or_abort_inv in E; [|finish]
  | (if ?b then emit_character _ _ else Ok _) = Ok _ =>
    destruct b;
    [ apply emit_character_inv in E; [|finish]
    | injection E as <- ]
  | _ => idtac
  end.

Ltac keep_with tac :=
  repeat lazymatch goal with
  | |- Ok _ = Ok _ -> _ =>
    let H := fresh in intros H; injection H as <- <-
  | |- Abort = Ok _ -> _ => discriminate
  | |- Undefined = Ok _ -> _ => discriminate
  | |- Timeout = Ok _ -> _ => discriminate
  | |- (if ?b then _ else _) = Ok _ -> _ => destruct b
  | |- (mbind _ ?m) = Ok _ -> _ =>
    let E := fresh "E" in
    destruct m eqn:E; cbn [mbind result_bind]; [keep_bind E|discriminate..]
  | |- (match ?m with _ => _ end) = Ok _ -> _ =>
    let E := fresh "E" in destruct m eqn:E
  end;
  try finish; try tac.

Ltac keep := keep_with idtac.

Lemma emit_tag_to_data_keeps adv : keeps (emit_tag_to_data adv).
Proof. intros t t' c Hi. unfold emit_tag_to_data. keep. Qed.
Lemma emit_comment_to_data_keeps adv : keeps (emit_comment_to_data adv).
Proof. intros t t' c Hi. unfold emit_comment_to_data. keep. Qed.
Lemma extend_attribute_name_keeps : keeps extend_attribute_name.
Proof. intros t t' c Hi. unfold extend_attribute_name. keep. Qed.
Lemma enter_entity_in_attribute_value_keeps :
  keeps enter_entity_in_attribute_value.
Proof. intros t t' c Hi. unfold enter_entity_in_attribute_value. keep. Qed.
Lemma consume_entity_keeps : keeps hubbub_tokeniser_consume_entity.
Proof. intros t t' c Hi. unfold hubbub_tokeniser_consume_entity. keep. Qed.

Lemma emit_doctype_to_data_keeps adv : keeps (emit_doctype_to_data adv).
Proof.
  intros t t' c Hi. unfold emit_doctype_to_data.
  destruct (emit_doctype _ t) as [t1| | |] eqn:E; try discriminate.
  apply emit_doctype_inv in E;
    [|done|destruct Hi as [Hc _]; rewrite Hc; discriminate].
  cbn [mbind result_bind]. keep.
Qed.

Lemma emit_doctype_checked_keeps : keeps emit_doctype_checked.
Proof.
  intros t t' c Hi. unfold emit_doctype_checked.
  destruct (emit_doctype _ t) as [t1| | |] eqn:E; try discriminate.
  apply emit_doctype_inv in E; [|done|].
  - cbn [mbind result_bind]. keep.
  - cbn [correct doctype_name]. intros Hc. apply Z.eqb_eq in Hc.
    unfold hubbub_inputstream_compare_range_ascii in Hc.
    destruct (len (doctype_name (current_doctype (context t))) =? 4) eqn:Hl;
      cbn [negb] in Hc; [|discriminate].
    case_decide as Hd; [|discriminate]. exact Hd.
Qed.

Ltac by_lemma :=
  let H := fresh in
  intros H;
  first
    [ refine (emit_tag_to_data_keeps _ _ _ _ _ H)
    | refine (emit_comment_to_data_keeps _ _ _ _ _ H)
    | refine (extend_attribute_name_keeps _ _ _ _ H)
    | refine (enter_entity_in_attribute_value_keeps _ _ _ _ H)
    | refine (consume_entity_keeps _ _ _ _ H)
    | refine (emit_doctype_to_data_keeps _ _ _ _ _ H)
    | refine (emit_doctype_checked_keeps _ _ _ _ H) ];
  finish.

Ltac keeps_by f := intros t t' c Hi; unfold f; keep_with by_lemma.

Lemma entity_data_keeps : keeps hubbub_tokeniser_handle_entity_data.
Proof. keeps_by hubbub_tokeniser_handle_entity_data. Qed.
Lemma tag_open_keeps : keeps hubbub_tokeniser_handle_tag_open.
Proof. keeps_by hubbub_tokeniser_handle_tag_open. Qed.
Lemma close_tag_open_keeps : keeps hubbub_tokeniser_handle_close_tag_open.
Proof. keeps_by hubbub_tokeniser_handle_close_tag_open. Qed.
Lemma tag_name_keeps : keeps hubbub_tokeniser_handle_tag_name.
Proof. keeps_by hubbub_tokeniser_handle_tag_name. Qed.
Lemma before_attribute_name_keeps :
  keeps hubbub_tokeniser_handle_before_attribute_name.
Proof. keeps_by hubbub_tokeniser_handle_before_attribute_name. Qed.
Lemma attribute_name_keeps : keeps hubbub_tokeniser_handle_attribute_name.
Proof. keeps_by hubbub_tokeniser_handle_attribute_name. Qed.
Lemma after_attribute_name_keeps :
  keeps hubbub_tokeniser_handle_after_attribute_name.
Proof. keeps_by hubbub_tokeniser_handle_after_attribute_name. Qed.
Lemma before_attribute_value_keeps :
  keeps hubbub_tokeniser_handle_before_attribute_value.
Proof. keeps_by hubbub_tokeniser_handle_before_attribute_value. Qed.
Lemma attribute_value_dq_keeps :
  keeps hubbub_tokeniser_handle_attribute_value_dq.
Proof. keeps_by hubbub_tokeniser_handle_attribute_value_dq. Qed.
Lemma attribute_value_sq_keeps :
  keeps hubbub_tokeniser_handle_attribute_value_sq.
Proof. keeps_by hubbub_tokeniser_handle_attribute_value_sq. Qed.
Lemma attribute_value_uq_keeps :
  keeps hubbub_tokeniser_handle_attribute_value_uq.
Proof. keeps_by hubbub_tokeniser_handle_attribute_value_uq. Qed.
Lemma entity_in_attribute_value_keeps :
  keeps hubbub_tokeniser_handle_entity_in_attribute_value.
Proof. keeps_by hubbub_tokeniser_handle_entity_in_attribute_value. Qed.
Lemma markup_declaration_open_keeps :
  keeps hubbub_tokeniser_handle_markup_declaration_open.
Proof. keeps_by hubbub_tokeniser_handle_markup_declaration_open. Qed.
Lemma comment_start_keeps : keeps hubbub_tokeniser_handle_comment_start.
Proof. keeps_by hubbub_tokeniser_handle_comment_start. Qed.
Lemma comment_keeps : keeps hubbub_tokeniser_handle_comment.
Proof. keeps_by hubbub_tokeniser_handle_comment. Qed.
Lemma comment_dash_keeps : keeps hubbub_tokeniser_handle_comment_dash.
Proof.
  intros t t' c Hi.
  unfold hubbub_tokeniser_handle_comment_dash, comment_resume.
  keep_with by_lemma.
Qed.
Lemma comment_end_keeps : keeps hubbub_tokeniser_handle_comment_end.
Proof.
  intros t t' c Hi.
  unfold hubbub_tokeniser_handle_comment_end, comment_resume.
  keep_with by_lemma.
Qed.
Lemma doctype_keeps : keeps hubbub_tokeniser_handle_doctype.
Proof. keeps_by hubbub_tokeniser_handle_doctype. Qed.

Lemma before_doctype_name_keeps :
  keeps hubbub_tokeniser_handle_before_doctype_name.
Proof. keeps_by hubbub_tokeniser_handle_before_doctype_name. Qed.
Lemma doctype_name_keeps : keeps hubbub_tokeniser_handle_doctype_name.
Proof. keeps_by hubbub_tokeniser_handle_doctype_name. Qed.
Lemma after_doctype_name_keeps :
  keeps hubbub_tokeniser_handle_after_doctype_name.
Proof. keeps_by hubbub_tokeniser_handle_after_doctype_name. Qed.
Lemma bogus_doctype_keeps : keeps hubbub_tokeniser_handle_bogus_doctype.
Proof. keeps_by hubbub_tokeniser_handle_bogus_doctype. Qed.

Ltac by_ih IH :=
  let H := fresh in intros H; eapply IH; [|exact H]; finish.

Lemma handle_data_loop_inv fuel : forall t t' c,
  doctype_inv t -> handle_data_loop fuel t = Ok (t', c) -> doctype_inv t'.
Proof.
  induction fuel as [|fuel IH]; intros t t' c Hi; [discriminate|].
  cbn [handle_data_loop]. keep_with ltac:(by_ih IH).
Qed.

Lemma handle_data_keeps : keeps hubbub_tokeniser_handle_data.
Proof.
  intros t t' c Hi. unfold hubbub_tokeniser_handle_data.
  destruct (handle_data_loop _ _) as [[t1 c1]| | |] eqn:E; try discriminate.
  apply handle_data_loop_inv in E; [|finish].
  cbn [mbind result_bind].
  destruct (negb (bool_decide _) && _).
  - destruct (emit _ t1) as [[t2 tok2]| | |] eqn:E2; try discriminate.
    apply emit_inv in E2 as [Hi2 _]; [|done|done].
    cbn [mbind result_bind].
    destruct (c1 =? HUBBUB_INPUTSTREAM_EOF).
    + destruct (emit _ _) as [[t3 tok3]| | |] eqn:E3; try discriminate.
      apply emit_inv in E3 as [Hi3 _]; [| finish |].
      * cbn. intros H. injection H as <- <-. exact Hi3.
      * intros name. unfold view_token. cbn.
        destruct (token_data tok2); discriminate.
    + cbn. intros H. injection H as <- <-. finish.
  - cbn [mbind result_bind].
    destruct (c1 =? HUBBUB_INPUTSTREAM_EOF).
    + destruct (emit _ _) as [[t3 tok3]| | |] eqn:E3; try discriminate.
      apply emit_inv in E3 as [Hi3 _]; [|done|done].
      cbn. intros H. injection H as <- <-. exact Hi3.
    + cbn. intros H. injection H as <- <-. exact E.
Qed.

Lemma bogus_comment_loop_inv fuel : forall t t' c,
  doctype_inv t -> bogus_comment_loop fuel t = Ok (t', c) -> doctype_inv t'.
Proof.
  induction fuel as [|fuel IH]; intros t t' c Hi; [discriminate|].
  cbn [bogus_comment_loop]. keep_with ltac:(by_ih IH).
Qed.

Lemma bogus_comment_keeps : keeps hubbub_tokeniser_handle_bogus_comment.
Proof.
  intros t t' c Hi. unfold hubbub_tokeniser_handle_bogus_comment.
  destruct (bogus_comment_loop _ _) as [[t1 c1]| | |] eqn:E;
    try discriminate.
  apply bogus_comment_loop_inv in E; [|done].
  cbn [mbind result_bind]. keep.
Qed.

Lemma numbered_entity_loop_inv fuel : forall t t' c,
  doctype_inv t -> numbered_entity_loop fuel t = Ok (t', c) ->
  doctype_inv t'.
Proof.
  induction fuel as [|fuel IH]; intros t t' c Hi; [discriminate|].
  cbn [numbered_entity_loop]. keep_with ltac:(by_ih IH).
Qed.

Lemma entity_done_inv t : doctype_inv t -> doctype_inv (entity_done t).
Proof. intros Hi. unfold entity_done. finish. Qed.

Lemma numbered_entity_keeps :
  keeps hubbub_tokeniser_handle_numbered_entity.
Proof.
  intros t t' c Hi. unfold hubbub_tokeniser_handle_numbered_entity.
  destruct (peek t =? HUBBUB_INPUTSTREAM_OOD).
  { intros H. injection H as <- <-. done. }
  destruct (numbered_entity_loop _ _) as [[t1 c1]| | |] eqn:E;
    try discriminate.
  apply numbered_entity_loop_inv in E; [|finish].
  cbn [mbind result_bind].
  destruct (c1 =? HUBBUB_INPUTSTREAM_OOD).
  { intros H. injection H as <- <-. done. }
  intros H. injection H as <- <-. apply entity_done_inv.
  unfold rewind_unchecked. finish.
Qed.

Section NamedEntityInvariant.
Variable entities : list (list Z * Z).

Lemma named_entity_loop_inv fuel : forall t t' c,
  doctype_inv t -> named_entity_loop entities fuel t = Ok (t', c) ->
  doctype_inv t'.
Proof.
  induction fuel as [|fuel IH]; intros t t' c Hi; [discriminate|].
  cbn [named_entity_loop]. keep_with ltac:(by_ih IH).
Qed.

Lemma named_entity_keeps :
  keeps (hubbub_tokeniser_handle_named_entity entities).
Proof.
  intros t t' c Hi. unfold hubbub_tokeniser_handle_named_entity.
  destruct (named_entity_loop _ _ _) as [[t1 c1]| | |] eqn:E;
    try discriminate.
  apply named_entity_loop_inv in E; [|done].
  cbn [mbind result_bind].
  destruct (c1 =? HUBBUB_INPUTSTREAM_OOD).
  { intros H. injection H as <- <-. done. }
  intros H. injection H as <- <-. apply entity_done_inv.
  unfold rewind_unchecked. finish.
Qed.

Lemma match_doctype_keeps : keeps hubbub_tokeniser_handle_match_doctype.
Proof.
  intros t t' c Hi. unfold hubbub_tokeniser_handle_match_doctype.
  unfold match_doctype_next. keep.
  destruct (push_back_all_fields
              (match_doctype_push_back_letters
                 (match_doctype_count (context t))) t)
    as (_ & _ & Hctx & _ & Hcalls).
  apply (doctype_inv_frame t); [|exact Hcalls|exact Hi].
  cbn. rewrite Hctx. reflexivity.
Qed.

Lemma close_tag_match_loop_inv fuel : forall c t r,
  doctype_inv t -> close_tag_match_loop fuel c t = Ok r ->
  doctype_inv match r with Returned t' _ => t' | Left t' _ => t' end.
Proof.
  induction fuel as [|fuel IH]; intros c t r Hi; [discriminate|].
  cbn [close_tag_match_loop].
  destruct (len _ <? len _); [|intros H; injection H as <-; exact Hi].
  destruct (is_sentinel _); [intros H; injection H as <-; exact Hi|].
  match goal with |- context [advance ?x] => set (t1 := advance x) end.
  assert (Hi1 : doctype_inv t1) by (subst t1; finish).
  clearbody t1.
  destruct (_ || _).
  - destruct (rewind_or_abort _ t1) as [t2| | |] eqn:E; try discriminate.
    apply rewind_or_abort_inv in E; [|done]. cbn [mbind result_bind].
    destruct (emit_character _ t2) as [t3| | |] eqn:E2; try discriminate.
    apply emit_character_inv in E2; [|done].
    cbn. intros H. injection H as <-. finish.
  - destruct (_ && _).
    + intros H. injection H as <-. exact Hi1.
    + intros H. eapply IH; [exact Hi1|exact H].
Qed.

Lemma close_tag_match_keeps :
  keeps hubbub_tokeniser_handle_close_tag_match.
Proof.
  intros t t' c Hi. unfold hubbub_tokeniser_handle_close_tag_match.
  destruct (close_tag_match_loop _ _ _) as [r| | |] eqn:E;
    try discriminate.
  apply close_tag_match_loop_inv in E; [|done].
  cbn [mbind result_bind]. destruct r as [t1 cont|t1 c1].
  - intros H. injection H as <- <-. exact E.
  - keep.
Qed.

Lemma step_keeps : keeps (hubbub_tokeniser_step entities).
Proof.
  intros t t' c Hi. unfold hubbub_tokeniser_step.
  destruct (state t); intros H;
    first
      [ exact (handle_data_keeps _ _ _ Hi H)
      | exact (entity_data_keeps _ _ _ Hi H)
      | exact (tag_open_keeps _ _ _ Hi H)
      | exact (close_tag_open_keeps _ _ _ Hi H)
      | exact (close_tag_match_keeps _ _ _ Hi H)
      | exact (tag_name_keeps _ _ _ Hi H)
      | exact (before_attribute_name_keeps _ _ _ Hi H)
      | exact (attribute_name_keeps _ _ _ Hi H)
      | exact (after_attribute_name_keeps _ _ _ Hi H)
      | exact (before_attribute_value_keeps _ _ _ Hi H)
      | exact (attribute_value_dq_keeps _ _ _ Hi H)
      | exact (attribute_value_sq_keeps _ _ _ Hi H)
      | exact (attribute_value_uq_keeps _ _ _ Hi H)
      | exact (entity_in_attribute_value_keeps _ _ _ Hi H)
      | exact (bogus_comment_keeps _ _ _ Hi H)
      | exact (markup_declaration_open_keeps _ _ _ Hi H)
      | exact (comment_start_keeps _ _ _ Hi H)
      | exact (comment_keeps _ _ _ Hi H)
      | exact (comment_dash_keeps _ _ _ Hi H)
      | exact (comment_end_keeps _ _ _ Hi H)
      | exact (match_doctype_keeps _ _ _ Hi H)
      | exact (doctype_keeps _ _ _ Hi H)
      | exact (before_doctype_name_keeps _ _ _ Hi H)
      | exact (doctype_name_keeps _ _ _ Hi H)
      | exact (after_doctype_name_keeps _ _ _ Hi H)
      | exact (bogus_doctype_keeps _ _ _ Hi H)
      | exact (numbered_entity_keeps _ _ _ Hi H)
      | exact (named_entity_keeps _ _ _ Hi H) ].
Qed.

Lemma run_loop_inv fuel : forall t t',
  doctype_inv t -> run_loop entities fuel t = Ok t' -> doctype_inv t'.
Proof.
  induction fuel as [|fuel IH]; intros t t' Hi; [discriminate|].
  cbn [run_loop].
  destruct (hubbub_tokeniser_step entities t) as [[t1 cont]| | |] eqn:E;
    try discriminate.
  apply step_keeps in E; [|done]. cbn [mbind result_bind].
  destruct cont.
  - apply IH. exact E.
  - intros H. injection H as <-. exact E.
Qed.

End NamedEntityInvariant.

Lemma doctype_calls_sound l :
  Forall doctype_call_sound l <-> doctype_tokens_sound (omap view_call l).
Proof.
  unfold doctype_tokens_sound. rewrite Forall_forall. split.
  - intros H name Hin. apply list_elem_of_omap in Hin as (c & Hc & Hv).
    exact (H c Hc name Hv).
  - intros H c Hc name Hv. apply H. apply list_elem_of_omap. eauto.
Qed.

Lemma emit_doctype_emitted d t :
  token_handler t <> None ->
  exists t',
    emit_doctype d t = Ok t'
    /\ emitted t'
       = emitted t
         ++ [Doctype (span_bytes (buffer (input t)) (doctype_name d))
               (correct d)]
    /\ state t' = state t /\ context t' = context t /\ input t' = input t.
Proof.
  intros Hh. unfold emit_doctype, emit, hubbub_tokeniser_emit_token.
  destruct (token_handler t) as [h|]; [|done].
  cbn. eexists. split; [reflexivity|]. split; [|done].
  unfold emitted. cbn. rewrite omap_app. reflexivity.
Qed.

Lemma emit_doctype_checked_emitted t :
  token_handler t <> None ->
  exists t' b,
    emit_doctype_checked t = Ok (t', true)
    /\ emitted t' = emitted t ++ [Doctype (current_doctype_name t) b]
    /\ (b = true <-> doctype_name_is_html t).
Proof.
  intros Hh. unfold emit_doctype_checked.
  match goal with |- context [emit_doctype ?d t] =>
    destruct (emit_doctype_emitted d t Hh) as (t1 & -> & Hem & _)
  end.
  cbn [mbind result_bind]. eexists _, _. split; [reflexivity|].
  split; [exact Hem|].
  cbn [correct doctype_name]. unfold doctype_name_is_html,
    current_doctype_name, hubbub_inputstream_compare_range_ascii, span_bytes.
  destruct (len (doctype_name (current_doctype (context t))) =? 4) eqn:Hl;
    cbn [negb].
  - apply Z.eqb_eq in Hl. case_decide as Hd.
    + split; [done|reflexivity].
    + split; [discriminate|]. intros [_ Hn]. done.
  - apply Z.eqb_neq in Hl. split; [discriminate|]. intros [Hn _]. done.
Qed.

Lemma emit_doctype_to_data_emitted adv t :
  token_handler t <> None ->
  exists t',
    emit_doctype_to_data adv t = Ok (t', true)
    /\ emitted t'
       = emitted t
         ++ [Doctype (current_doctype_name t)
               (correct (current_doctype (context t)))].
Proof.
  intros Hh. unfold emit_doctype_to_data.
  destruct (emit_doctype_emitted (current_doctype (context t)) t Hh)
    as (t1 & -> & Hem & _).
  cbn [mbind result_bind]. eexists. split; [reflexivity|].
  destruct adv; exact Hem.
Qed.

Lemma doctype_name_on_gt t :
  peek t = chr ">" ->
  hubbub_tokeniser_handle_doctype_name t = emit_doctype_checked t.
Proof. unfold hubbub_tokeniser_handle_doctype_name. by intros ->. Qed.

Lemma after_doctype_name_on_gt t :
  peek t = chr ">" ->
  hubbub_tokeniser_handle_after_doctype_name t = emit_doctype_checked t.
Proof. unfold hubbub_tokeniser_handle_after_doctype_name. by intros ->. Qed.

Lemma doctype_name_on_eof t :
  peek t = HUBBUB_INPUTSTREAM_EOF ->
  hubbub_tokeniser_handle_doctype_name t = emit_doctype_to_data false t.
Proof. unfold hubbub_tokeniser_handle_doctype_name. by intros ->. Qed.

Lemma after_doctype_name_on_eof t :
  peek t = HUBBUB_INPUTSTREAM_EOF ->
  hubbub_tokeniser_handle_after_doctype_name t
  = emit_doctype_to_data false t.
Proof. unfold hubbub_tokeniser_handle_after_doctype_name. by intros ->. Qed.

Lemma before_doctype_name_on_gt t :
  peek t = chr ">" ->
  hubbub_tokeniser_handle_before_doctype_name t
  = emit_doctype_to_data true t.
Proof. unfold hubbub_tokeniser_handle_before_doctype_name. by intros ->. Qed.

Lemma before_doctype_name_on_eof t :
  peek t = HUBBUB_INPUTSTREAM_EOF ->
  hubbub_tokeniser_handle_before_doctype_name t
  = emit_doctype_to_data false t.
Proof. unfold hubbub_tokeniser_handle_before_doctype_name. by intros ->. Qed.

Lemma bogus_doctype_on_gt t :
  peek t = chr ">" ->
  hubbub_tokeniser_handle_bogus_doctype t = emit_doctype_to_data true t.
Proof. unfold hubbub_tokeniser_handle_bogus_doctype. by intros ->. Qed.

Lemma bogus_doctype_on_eof t :
  peek t = HUBBUB_INPUTSTREAM_EOF ->
  hubbub_tokeniser_handle_bogus_doctype t = emit_doctype_to_data false t.
Proof. unfold hubbub_tokeniser_handle_bogus_doctype. by intros ->. Qed.

(** C1, amended: a doctype token is flagged correct only if its name
    reads [HTML] in the buffer it is emitted with, the letters of the name
    having been put in upper case in place.  From a tokeniser in which
    the flag of the doctype under construction is unset, as it is in a new
    tokeniser, every call of a state handler returns without exhausting
    the budget of its loops, and after it, as after a whole run, every
    doctype token handed to the handler with the flag set has that name
    and the flag of the doctype under construction is still unset.  The
    doctype name and after doctype name states, on [>], emit the doctype
    with the flag set exactly when the name is the four bytes [HTML].
    Every other place that emits a
    doctype, the before doctype name state on [>] or at the end of the
    input, the doctype name and after doctype name states at the end of
    the input, and the bogus doctype state, emits it with the flag unset
    whatever the name.  [<!doctype html>] gives a doctype named [HTML]
    with the flag set. *)
Theorem doctype_correct_flag :
  (forall entities t,
     correct (current_doctype (context t)) = false ->
     doctype_tokens_sound (emitted t) ->
     hubbub_tokeniser_step entities t <> Timeout
     /\ forall t' cont,
          hubbub_tokeniser_step entities t = Ok (t', cont) ->
          doctype_tokens_sound (emitted t')
          /\ correct (current_doctype (context t')) = false)
  /\ (forall entities fuel t t',
        correct (current_doctype (context t)) = false ->
        doctype_tokens_sound (emitted t) ->
        run_loop entities fuel t = Ok t' ->
        doctype_tokens_sound (emitted t')
        /\ correct (current_doctype (context t')) = false)
  /\ (forall entities t,
        token_handler t <> None ->
        doctype_checked_point t ->
        exists t' b,
          hubbub_tokeniser_step entities t = Ok (t', true)
          /\ emitted t' = emitted t ++ [Doctype (current_doctype_name t) b]
          /\ (b = true <-> doctype_name_is_html t))
  /\ (forall entities t,
        token_handler t <> None ->
        correct (current_doctype (context t)) = false ->
        doctype_unchecked_point t ->
        exists t',
          hubbub_tokeniser_step entities t = Ok (t', true)
          /\ emitted t'
             = emitted t ++ [Doctype (current_doctype_name t) false])
  /\ (forall inp,
        correct (current_doctype (context (hubbub_tokeniser_create inp)))
        = false
        /\ emitted (hubbub_tokeniser_create inp) = [])
  /\ tokens_of_run 100 (tokeniser_on "<!doctype html>" true)
     = Ok [Doctype (bytes_of_string "HTML") true; EndOfFile].
Proof.
  split; [|split; [|split; [|split; [|split]]]].
  - intros entities t Hc Hs. split; [apply step_no_timeout|].
    intros t' cont Hstep.
    destruct (step_keeps entities t t' cont) as [Hc' Hs']; [|done|].
    + split; [done|]. by apply doctype_calls_sound.
    + split; [|done]. by apply doctype_calls_sound.
  - intros entities fuel t t' Hc Hs Hrun.
    destruct (run_loop_inv entities fuel t t') as [Hc' Hs']; [|done|].
    + split; [done|]. by apply doctype_calls_sound.
    + split; [|done]. by apply doctype_calls_sound.
  - intros entities t Hh [[Hst|Hst] Hp]; unfold hubbub_tokeniser_step;
      rewrite Hst.
    + rewrite (doctype_name_on_gt t Hp).
      by apply emit_doctype_checked_emitted.
    + rewrite (after_doctype_name_on_gt t Hp).
      by apply emit_doctype_checked_emitted.
  - intros entities t Hh Hc Hpoint. rewrite <- Hc.
    unfold hubbub_tokeniser_step.
    destruct Hpoint as [[Hst [Hp|Hp]]|[[[Hst|Hst] Hp]|[Hst [Hp|Hp]]]];
      rewrite Hst.
    + rewrite (before_doctype_name_on_gt t Hp).
      by apply emit_doctype_to_data_emitted.
    + rewrite (before_doctype_name_on_eof t Hp).
      by apply emit_doctype_to_data_emitted.
    + rewrite (doctype_name_on_eof t Hp).
      by apply emit_doctype_to_data_emitted.
    + rewrite (after_doctype_name_on_eof t Hp).
      by apply emit_doctype_to_data_emitted.
    + rewrite (bogus_doctype_on_gt t Hp).
      by apply emit_doctype_to_data_emitted.
    + rewrite (bogus_doctype_on_eof t Hp).
      by apply emit_doctype_to_data_emitted.
  - intros inp. split; reflexivity.
  - vm_compute. reflexivity.
Qed.

Lemma doctype_correct_flag_witness :
  (hubbub_tokeniser_step sample_entities
     (doctype_scenario "<!doctype html" ">") <> Timeout
   /\ forall t' cont,
        hubbub_tokeniser_step sample_entities
          (doctype_scenario "<!doctype html" ">") = Ok (t', cont) ->
        doctype_tokens_sound (emitted t')
        /\ correct (current_doctype (context t')) = false)
  /\ (exists t',
     run_loop sample_entities 100 (tokeniser_on "<!DOCTYPE hTmL >" true)
     = Ok t'
     /\ doctype_tokens_sound (emitted t')
     /\ correct (current_doctype (context t')) = false)
  /\ (exists t' b,
        hubbub_tokeniser_step sample_entities
          (doctype_scenario "<!doctype html" ">") = Ok (t', true)
        /\ emitted t' = [Doctype (bytes_of_string "HTML") b]
        /\ (b = true
            <-> doctype_name_is_html (doctype_scenario "<!doctype html" ">")))
  /\ (exists t',
        hubbub_tokeniser_step sample_entities
          (doctype_scenario "<!doctype html x" ">") = Ok (t', true)
        /\ emitted t' = [Doctype (bytes_of_string "HTML") false]).
Proof.
  split; [|split; [|split]].
  - apply (proj1 doctype_correct_flag sample_entities
             (doctype_scenario "<!doctype html" ">"));
      [vm_compute; reflexivity|].
    intros name H. vm_compute in H. inversion H.
  - destruct (run_loop sample_entities 100
                (tokeniser_on "<!DOCTYPE hTmL >" true)) as [t'| | |] eqn:E;
      [|vm_compute in E; discriminate..].
    exists t'. split; [reflexivity|].
    apply (proj1 (proj2 doctype_correct_flag) sample_entities 100%nat
             (tokeniser_on "<!DOCTYPE hTmL >" true) t');
      [reflexivity| |exact E].
    intros name H. inversion H.
  - apply (proj1 (proj2 (proj2 doctype_correct_flag)) sample_entities
             (doctype_scenario "<!doctype html" ">")).
    + vm_compute. discriminate.
    + split; [left|]; vm_compute; reflexivity.
  - apply (proj1 (proj2 (proj2 (proj2 doctype_correct_flag)))
             sample_entities (doctype_scenario "<!doctype html x" ">")).
    + vm_compute. discriminate.
    + vm_compute. reflexivity.
    + right. right. split; [|left]; vm_compute; reflexivity.
Defined.

(** C1, as stated, fails: a doctype named [html] that reaches the bogus
    doctype state, or that the end of the input cuts short, is emitted
    with the flag unset. *)
Lemma doctype_named_html_not_flagged_correct :
  tokens_of_run 100 (tokeniser_on "<!DOCTYPE html x>" true)
  = Ok [Doctype (bytes_of_string "HTML") false; EndOfFile]
  /\ tokens_of_run 100 (tokeniser_on "<!DOCTYPE html" true)
     = Ok [Doctype (bytes_of_string "HTML") false; EndOfFile].
Proof. split; vm_compute; reflexivity. Qed.

(** ** Attributes with different names *)

Lemma same_name_test inp a b :
  negb (len (attr_name a) =? len (attr_name b))
  || negb (hubbub_inputstream_compare_range_cs inp (data_off (attr_name a))
             (data_off (attr_name b)) (len (attr_name a)) =? 0)
  = negb (same_name inp a b).
Proof. unfold same_name. by rewrite negb_andb. Qed.

Lemma inner_distinct inp n attrs i :
  0 <= i < n -> (Z.to_nat n <= length attrs)%nat ->
  distinct_names inp n attrs ->
  forall fuel j,
    0 <= j -> (Z.to_nat (n - j) < fuel)%nat ->
    discard_duplicates_inner fuel inp i j n attrs = Ok (n, attrs).
Proof.
  intros Hi Hlen Hd. induction fuel as [|fuel IH]; intros j Hj Hf;
    [exfalso; lia|].
  cbn [discard_duplicates_inner].
  destruct (j <? n) eqn:Hjn; [|reflexivity].
  apply Z.ltb_lt in Hjn.
  destruct (j =? i) eqn:Hji; [apply IH; lia|].
  apply Z.eqb_neq in Hji.
  destruct (lookup_lt_is_Some_2 attrs (Z.to_nat i)) as [ai Hai]; [lia|].
  destruct (lookup_lt_is_Some_2 attrs (Z.to_nat j)) as [aj Haj]; [lia|].
  rewrite Hai, Haj. cbn [of_option mbind result_bind].
  rewrite same_name_test.
  rewrite (Hd (Z.to_nat i) (Z.to_nat j) ai aj); [|lia|lia|lia|done|done].
  cbn [negb]. apply IH; lia.
Qed.

Lemma discard_duplicates_distinct inp n attrs :
  (Z.to_nat n <= length attrs)%nat ->
  distinct_names inp n attrs ->
  forall fuel i,
    0 <= i -> (Z.to_nat (n - i) < fuel)%nat ->
    discard_duplicates fuel inp i n attrs = Ok (n, attrs).
Proof.
  intros Hlen Hd. induction fuel as [|fuel IH]; intros i Hi Hf;
    [exfalso; lia|].
  cbn [discard_duplicates].
  destruct (i <? n) eqn:Hin; [|reflexivity].
  apply Z.ltb_lt in Hin.
  rewrite (inner_distinct inp n attrs i); [|lia|done|done|lia|lia].
  cbn [mbind result_bind]. apply IH; lia.
Qed.

(** X1: a start or end tag whose attribute names are pairwise different
    reaches the token handler as it is: the scan removes nothing and
    moves nothing. *)
Theorem distinct_attributes_emitted_unchanged t h ty tag_ns0 name n attrs sc :
  token_handler t = Some h ->
  ty = HUBBUB_TOKEN_START_TAG \/ ty = HUBBUB_TOKEN_END_TAG ->
  0 <= n -> (Z.to_nat n <= length attrs)%nat ->
  distinct_names (input t) n attrs ->
  let token := mk_token ty (data_tag (mk_tag tag_ns0 name n attrs sc)) in
  hubbub_tokeniser_emit_token (Some t) (Some token)
  = Ok (Some (add_call (token_call h token (token_pw t) (buffer (input t)))
                t),
        Some token).
Proof.
  intros Hh Hty Hn Hlen Hd token. unfold hubbub_tokeniser_emit_token.
  rewrite Hh. subst token. cbn [token_type token_data].
  replace (bool_decide (ty = HUBBUB_TOKEN_START_TAG)
           || bool_decide (ty = HUBBUB_TOKEN_END_TAG)) with true
    by (destruct Hty as [-> | ->]; reflexivity).
  cbn [n_attributes attributes tag_ns tag_name self_closing].
  rewrite (discard_duplicates_distinct (input t) n attrs Hlen Hd);
    [|lia|lia].
  reflexivity.
Qed.

Lemma distinct_attributes_emitted_unchanged_witness :
  hubbub_tokeniser_emit_token (Some (tokeniser_on "ab" true))
    (Some two_names_token)
  = Ok (Some (add_call
                (token_call 1 two_names_token 0 (bytes_of_string "ab"))
                (tokeniser_on "ab" true)),
        Some two_names_token).
Proof.
  refine (distinct_attributes_emitted_unchanged (tokeniser_on "ab" true)
            1%nat HUBBUB_TOKEN_START_TAG HUBBUB_NS_HTML (mk_string 0 1) 2
            [mk_attribute (mk_string 0 1) (mk_string 0 0);
             mk_attribute (mk_string 1 1) (mk_string 0 0)] false
            _ _ _ _ _).
  - reflexivity.
  - left. reflexivity.
  - lia.
  - cbn. lia.
  - intros i j ai aj Hi Hj Hij Hai Haj.
    destruct i as [|[|i]]; destruct j as [|[|j]];
      cbn in Hi, Hj; try lia; try done;
      cbn in Hai, Haj; injection Hai as <-; injection Haj as <-;
      vm_compute; reflexivity.
Defined.

(** ** The moves of the scan for duplicates *)

Section ScanRounds.

Variable inp : hubbub_inputstream.

Lemma inner_round_own fuel i n attrs :
  i < n ->
  discard_duplicates_inner (S fuel) inp i i n attrs
  = discard_duplicates_inner fuel inp i (i + 1) n attrs
  /\ discard_duplicates_inner_moves (S fuel) inp i i n attrs
     = discard_duplicates_inner_moves fuel inp i (i + 1) n attrs.
Proof.
  intros Hin. cbn [discard_duplicates_inner discard_duplicates_inner_moves].
  replace (i <? n) with true by lia. by rewrite Z.eqb_refl.
Qed.

Lemma inner_round_end fuel i j n attrs :
  n <= j ->
  discard_duplicates_inner (S fuel) inp i j n attrs = Ok (n, attrs)
  /\ discard_duplicates_inner_moves (S fuel) inp i j n attrs = [].
Proof.
  intros Hjn. cbn [discard_duplicates_inner discard_duplicates_inner_moves].
  by replace (j <? n) with false by lia.
Qed.

Lemma inner_round_match fuel i j n attrs ai aj :
  j < n -> j <> i ->
  attrs !! Z.to_nat i = Some ai -> attrs !! Z.to_nat j = Some aj ->
  same_name inp ai aj = true ->
  let k := if i <? j then j else i in
  let move := u32 (n - 1 - k) in
  let attrs' := if 0 <? move
                then memmove_attrs attrs (Z.to_nat k) (Z.to_nat move)
                else attrs in
  discard_duplicates_inner (S fuel) inp i j n attrs
  = discard_duplicates_inner fuel inp i (j + 1) (u32 (n - 1)) attrs'
  /\ discard_duplicates_inner_moves (S fuel) inp i j n attrs
     = (if 0 <? move then [(k, move)] else [])
       ++ discard_duplicates_inner_moves fuel inp i (j + 1) (u32 (n - 1))
            attrs'.
Proof.
  intros Hjn Hji Hai Haj Hsame k move attrs'.
  cbn [discard_duplicates_inner discard_duplicates_inner_moves].
  replace (j <? n) with true by lia.
  replace (j =? i) with false by lia.
  rewrite Hai, Haj. cbn [of_option mbind result_bind].
  rewrite same_name_test, Hsame. done.
Qed.

Lemma inner_round_differ fuel i j n attrs ai aj :
  j < n -> j <> i ->
  attrs !! Z.to_nat i = Some ai -> attrs !! Z.to_nat j = Some aj ->
  same_name inp ai aj = false ->
  discard_duplicates_inner (S fuel) inp i j n attrs
  = discard_duplicates_inner fuel inp i (j + 1) n attrs
  /\ discard_duplicates_inner_moves (S fuel) inp i j n attrs
     = discard_duplicates_inner_moves fuel inp i (j + 1) n attrs.
Proof.
  intros Hjn Hji Hai Haj Hsame.
  cbn [discard_duplicates_inner discard_duplicates_inner_moves].
  replace (j <? n) with true by lia.
  replace (j =? i) with false by lia.
  rewrite Hai, Haj. cbn [of_option mbind result_bind].
  rewrite same_name_test, Hsame. done.
Qed.

End ScanRounds.

Lemma moves_round inp fuel i n attrs n' attrs' :
  i < n ->
  discard_duplicates_inner (S (Z.to_nat n)) inp i 0 n attrs
  = Ok (n', attrs') ->
  discard_duplicates_moves (S fuel) inp i n attrs
  = discard_duplicates_inner_moves (S (Z.to_nat n)) inp i 0 n attrs
    ++ discard_duplicates_moves fuel inp (i + 1) n' attrs'.
Proof.
  intros Hin Hinner. cbn [discard_duplicates_moves].
  replace (i <? n) with true by lia. by rewrite Hinner.
Qed.

Section NineNames.

Variable inp : hubbub_inputstream.

Variables a1 a2 a3 a4 a5 a6 a7 a8 a9 : hubbub_attribute.

Let attrs := [a1; a2; a3; a4; a5; a6; a7; a8; a9].

Hypothesis Hsame :
  forall a b, a ∈ attrs -> b ∈ attrs -> same_name inp a b = true.

Ltac member :=
  repeat first [apply list_elem_of_here | apply list_elem_of_further].

Ltac tidy :=
  match goal with
  | |- discard_duplicates_inner ?f inp ?i ?j ?n ?l = ?r =>
    let j' := eval vm_compute in j in
    let n' := eval vm_compute in n in
    let l' := eval vm_compute in l in
    change (discard_duplicates_inner f inp i j' n' l' = r)
  end.

Ltac matched :=
  match goal with
  | |- discard_duplicates_inner (S ?f) inp ?i ?j ?n ?l = _ =>
    let ai := eval cbn in (default a1 (l !! Z.to_nat i)) in
    let aj := eval cbn in (default a1 (l !! Z.to_nat j)) in
    rewrite (proj1 (inner_round_match inp f i j n l ai aj
                      ltac:(lia) ltac:(lia) eq_refl eq_refl
                      (Hsame ai aj ltac:(member) ltac:(member))));
    tidy
  end.

Ltac own :=
  match goal with
  | |- discard_duplicates_inner (S ?f) inp ?i ?i ?n ?l = _ =>
    rewrite (proj1 (inner_round_own inp f i n l ltac:(lia))); tidy
  end.

Ltac ended :=
  match goal with
  | |- discard_duplicates_inner (S ?f) inp ?i ?j ?n ?l = _ =>
    exact (proj1 (inner_round_end inp f i j n l ltac:(lia)))
  end.

Lemma nine_pass_0 :
  discard_duplicates_inner 10 inp 0 0 9 attrs
  = Ok (5, [a1; a3; a5; a7; a9; a9; a9; a9; a9]).
Proof. subst attrs. own. do 4 matched. ended. Qed.

Lemma nine_pass_1 :
  discard_duplicates_inner 6 inp 1 0 5 [a1; a3; a5; a7; a9; a9; a9; a9; a9]
  = Ok (3, [a1; a5; a9; a9; a9; a9; a9; a9; a9]).
Proof. matched. own. matched. ended. Qed.

Lemma nine_pass_2_moves :
  (2, 4294967295)
  ∈ discard_duplicates_inner_moves 4 inp 2 0 3
      [a1; a5; a9; a9; a9; a9; a9; a9; a9].
Proof.
  rewrite (proj2 (inner_round_match inp 3 2 0 3
                    [a1; a5; a9; a9; a9; a9; a9; a9; a9] a9 a1
                    ltac:(lia) ltac:(lia) eq_refl eq_refl
                    (Hsame a9 a1 ltac:(member) ltac:(member)))).
  apply elem_of_app. right.
  match goal with
  | |- ?x ∈ discard_duplicates_inner_moves ?f inp ?i ?j ?n ?l =>
    let j' := eval vm_compute in j in
    let n' := eval vm_compute in n in
    let l' := eval vm_compute in l in
    change (x ∈ discard_duplicates_inner_moves f inp i j' n' l')
  end.
  rewrite (proj2 (inner_round_match inp 2 2 1 2
                    [a1; a5; a9; a9; a9; a9; a9; a9; a9] a9 a5
                    ltac:(lia) ltac:(lia) eq_refl eq_refl
                    (Hsame a9 a5 ltac:(member) ltac:(member)))).
  apply elem_of_app. left. apply list_elem_of_here.
Qed.

Lemma nine_moves :
  (2, 4294967295) ∈ discard_duplicates_moves 10 inp 0 9 attrs.
Proof.
  rewrite (moves_round inp 9 0 9 attrs _ _ ltac:(lia) nine_pass_0).
  apply elem_of_app. right. change (0 + 1) with 1.
  rewrite (moves_round inp 8 1 5 _ _ _ ltac:(lia) nine_pass_1).
  apply elem_of_app. right. change (1 + 1) with 2.
  cbn [discard_duplicates_moves].
  change (2 <? 3) with true. cbv iota.
  apply elem_of_app. left. exact nine_pass_2_moves.
Qed.

End NineNames.

Lemma move_bytes_wrapped s k :
  0 < s < 2 ^ 32 -> move_bytes s (k, 4294967295) = 2 ^ 32 - s.
Proof.
  intros Hs. unfold move_bytes, u32. cbn [snd].
  replace (4294967295 * s) with ((2 ^ 32 - s) + (s - 1) * 2 ^ 32) by lia.
  rewrite Z.mod_add by lia. apply Z.mod_small. lia.
Qed.

(** X2: with nine attributes of the same name, the scan for duplicates calls
    [memmove] out of the bounds of the array.  The third pass starts from
    a slot that is no longer among the counted ones, so that
    [n_attributes - 1 - i] is negative before it is taken as a 32-bit
    number: the call moves 2^32 - 1 slots in the slot count, which is
    2^32 - sizeof(hubbub_attribute) bytes, from slot 3 to slot 2 of an
    array of nine slots. *)
Theorem nine_equal_names_move_out_of_bounds inp attrs :
  length attrs = 9%nat ->
  (forall a b, a ∈ attrs -> b ∈ attrs -> same_name inp a b = true) ->
  (2, 4294967295) ∈ discard_duplicates_moves 10 inp 0 9 attrs
  /\ ~ Forall (move_in_bounds (length attrs))
         (discard_duplicates_moves 10 inp 0 9 attrs)
  /\ forall sizeof_attribute,
       0 < sizeof_attribute < 2 ^ 28 ->
       9 * sizeof_attribute
       < (2 + 1) * sizeof_attribute
         + move_bytes sizeof_attribute (2, 4294967295).
Proof.
  intros Hlen Hsame.
  destruct attrs as [|a1 [|a2 [|a3 [|a4 [|a5 [|a6 [|a7 [|a8 [|a9 [|]]]]]]]]]];
    try discriminate.
  pose proof (nine_moves inp a1 a2 a3 a4 a5 a6 a7 a8 a9 Hsame) as Hin.
  split; [exact Hin|]. split.
  - intros Hall. rewrite Forall_forall in Hall. apply Hall in Hin.
    unfold move_in_bounds in Hin. cbn in Hin. lia.
  - intros s Hs. rewrite move_bytes_wrapped by lia. lia.
Qed.

Lemma nine_equal_names_move_out_of_bounds_witness :
  (2, 4294967295)
  ∈ discard_duplicates_moves 10 (input nine_names) 0 9
      (attributes (current_tag (context nine_names))).
Proof.
  refine (proj1 (nine_equal_names_move_out_of_bounds (input nine_names)
                   (attributes (current_tag (context nine_names))) _ _)).
  - vm_compute. reflexivity.
  - intros a b Ha Hb.
    let l := eval vm_compute in
               (attributes (current_tag (context nine_names))) in
    change (a ∈ l) in Ha; change (b ∈ l) in Hb.
    repeat (apply elem_of_cons in Ha as [->|Ha]);
      try (by apply elem_of_nil in Ha);
      repeat (apply elem_of_cons in Hb as [->|Hb]);
      try (by apply elem_of_nil in Hb);
      vm_compute; reflexivity.
Defined.

(** ** What the scan for duplicates keeps *)

Lemma memmove_attrs_lookup attrs k move p :
  (k + move < length attrs)%nat ->
  memmove_attrs attrs k move !! p
  = if decide (p < k)%nat then attrs !! p
    else if decide (p < k + move)%nat then attrs !! S p
    else attrs !! p.
Proof.
  intros Hlen. unfold memmove_attrs.
  destruct (decide (p < k)%nat) as [Hpk|Hpk].
  { rewrite lookup_app_l by (rewrite length_take; lia).
    by rewrite lookup_take_lt by lia. }
  rewrite lookup_app_r by (rewrite length_take; lia).
  rewrite length_take, Nat.min_l by lia.
  destruct (decide (p < k + move)%nat) as [Hpm|Hpm].
  - rewrite lookup_app_l by (rewrite length_take, length_drop; lia).
    rewrite lookup_take_lt by lia. rewrite lookup_drop. f_equal. lia.
  - rewrite lookup_app_r by (rewrite length_take, length_drop; lia).
    rewrite length_take, length_drop, Nat.min_l by lia.
    rewrite lookup_drop. f_equal. lia.
Qed.

Lemma memmove_attrs_length attrs k move :
  (k + move < length attrs)%nat ->
  length (memmove_attrs attrs k move) = length attrs.
Proof.
  intros Hlen. unfold memmove_attrs.
  rewrite !length_app, !length_take, !length_drop. lia.
Qed.

Lemma elem_of_take_lookup {A} (l : list A) n x :
  x ∈ take n l <-> exists p, (p < n)%nat /\ l !! p = Some x.
Proof.
  rewrite list_elem_of_lookup. split.
  - intros [p Hp]. exists p. apply lookup_take_Some in Hp. tauto.
  - intros (p & Hp & Hl). exists p. by rewrite lookup_take_lt.
Qed.

Section SameName.

Variable inp : hubbub_inputstream.

Lemma same_name_spec a b :
  same_name inp a b = true
  <-> len (attr_name a) = len (attr_name b)
      /\ range_bytes (buffer inp) (data_off (attr_name a)) (len (attr_name a))
         = range_bytes (buffer inp) (data_off (attr_name b))
             (len (attr_name a)).
Proof.
  unfold same_name, hubbub_inputstream_compare_range_cs.
  rewrite andb_true_iff, Z.eqb_eq. case_decide; split; intros [? ?];
    try done.
Qed.

Lemma same_name_refl a : same_name inp a a = true.
Proof. by apply same_name_spec. Qed.

Lemma same_name_sym a b :
  same_name inp a b = true -> same_name inp b a = true.
Proof.
  rewrite !same_name_spec. intros [Hl Hr]. split; [done|].
  rewrite <- Hl. done.
Qed.

Lemma same_name_trans a b c :
  same_name inp a b = true -> same_name inp b c = true ->
  same_name inp a c = true.
Proof.
  rewrite !same_name_spec. intros [Hl1 Hr1] [Hl2 Hr2].
  split; [congruence|]. rewrite Hr1, Hl1. done.
Qed.

End SameName.

Section ScanKeeps.

Variable inp : hubbub_inputstream.

Variable orig : list hubbub_attribute.

Variable count : Z.

Lemma scan_keeps_remove attrs (n k m : nat) ak am :
  scan_keeps inp orig count attrs (Z.of_nat n) ->
  (m < k < n)%nat -> (n <= length attrs)%nat ->
  attrs !! k = Some ak -> attrs !! m = Some am ->
  same_name inp ak am = true ->
  scan_keeps inp orig count
    (if 0 <? Z.of_nat (n - 1 - k)
     then memmove_attrs attrs k (n - 1 - k) else attrs)
    (Z.of_nat (n - 1)).
Proof.
  intros (Hn & Hne & Hlen & H0 & Hsub & Hrep) Hk Hnl Hak Ham Hsame.
  set (attrs' := if 0 <? Z.of_nat (n - 1 - k)
                 then memmove_attrs attrs k (n - 1 - k) else attrs).
  assert (Hlook : forall p, (p < n - 1)%nat ->
            attrs' !! p = if decide (p < k)%nat then attrs !! p
                          else attrs !! S p).
  { intros p Hp. subst attrs'. destruct (0 <? Z.of_nat (n - 1 - k)) eqn:Hm.
    - rewrite memmove_attrs_lookup by lia.
      destruct (decide (p < k)%nat); [done|].
      destruct (decide (p < k + (n - 1 - k))%nat); [done|lia].
    - apply Z.ltb_ge in Hm. destruct (decide (p < k)%nat); [done|lia]. }
  unfold scan_keeps. rewrite !Nat2Z.id in *.
  split; [lia|]. split; [lia|]. split.
  { subst attrs'. destruct (0 <? _); [|done].
    rewrite memmove_attrs_length by lia. done. }
  split.
  { rewrite Hlook by lia. destruct (decide (0 < k)%nat); [done|lia]. }
  split.
  - intros a Ha. apply elem_of_take_lookup in Ha as (p & Hp & Hl).
    rewrite Hlook in Hl by lia. apply Hsub. apply elem_of_take_lookup.
    revert Hl. destruct (decide (p < k)%nat); intros Hl;
      [exists p|exists (S p)]; (split; [lia|done]).
  - intros a Ha. destruct (Hrep a Ha) as (b & Hb & Hab).
    apply elem_of_take_lookup in Hb as (q & Hq & Hl).
    destruct (decide (q = k)) as [->|Hqk].
    + exists am. split.
      * apply elem_of_take_lookup. exists m. split; [lia|].
        rewrite Hlook by lia. destruct (decide (m < k)%nat); [done|lia].
      * rewrite Hak in Hl. injection Hl as <-.
        by eapply same_name_trans.
    + exists b. split; [|done]. apply elem_of_take_lookup.
      destruct (decide (q < k)%nat).
      * exists q. split; [lia|]. rewrite Hlook by lia.
        destruct (decide (q < k)%nat); [done|lia].
      * exists (q - 1)%nat. split; [lia|]. rewrite Hlook by lia.
        destruct (decide (q - 1 < k)%nat); [lia|].
        replace (S (q - 1)) with q by lia. done.
Qed.

Lemma inner_keeps i : forall fuel j n attrs,
  0 <= i -> (Z.to_nat i < length attrs)%nat -> 0 <= j ->
  (Z.to_nat n <= length attrs)%nat -> Z.of_nat (length attrs) < 2 ^ 32 ->
  (Z.to_nat (n - j) < fuel)%nat ->
  Forall (move_in_bounds (length attrs))
    (discard_duplicates_inner_moves fuel inp i j n attrs) ->
  scan_keeps inp orig count attrs n ->
  exists n' attrs',
    discard_duplicates_inner fuel inp i j n attrs = Ok (n', attrs')
    /\ n' <= n /\ scan_keeps inp orig count attrs' n'.
Proof.
  induction fuel as [|fuel IH];
    intros j n attrs Hi Hil Hj Hnl Hsize Hf Hmoves Hkeeps; [exfalso; lia|].
  destruct (Z.lt_ge_cases j n) as [Hjn|Hjn].
  2:{ rewrite (proj1 (inner_round_end inp fuel i j n attrs Hjn)).
      exists n, attrs. split; [done|]. split; [lia|done]. }
  destruct (decide (j = i)) as [->|Hji].
  { rewrite (proj1 (inner_round_own inp fuel i n attrs Hjn)).
    rewrite (proj2 (inner_round_own inp fuel i n attrs Hjn)) in Hmoves.
    apply IH; try done; lia. }
  destruct (lookup_lt_is_Some_2 attrs (Z.to_nat i)) as [ai Hai]; [lia|].
  destruct (lookup_lt_is_Some_2 attrs (Z.to_nat j)) as [aj Haj]; [lia|].
  destruct (same_name inp ai aj) eqn:Hsame.
  2:{ destruct (inner_round_differ inp fuel i j n attrs ai aj)
        as [Hr Hm]; try done.
      rewrite Hr. rewrite Hm in Hmoves. apply IH; try done; lia. }
  destruct (inner_round_match inp fuel i j n attrs ai aj) as [Hr Hm];
    try done.
  rewrite Hr. rewrite Hm in Hmoves. clear Hr Hm.
  apply Forall_app in Hmoves as [Hmove Hmoves].
  set (k := if i <? j then j else i) in *.
  assert (Hkn : k < n).
  { destruct (Z.lt_ge_cases i n) as [Hin|Hin].
    { subst k. destruct (i <? j); lia. }
    exfalso. assert (Hk : k = i) by (subst k; destruct (i <? j) eqn:E; lia).
    rewrite Hk in Hmove.
    assert (Hu : u32 (n - 1 - i) = 2 ^ 32 + (n - 1 - i)).
    { unfold u32. symmetry. apply Z.mod_unique_pos with (q := -1); lia. }
    rewrite Hu in Hmove.
    replace (0 <? 2 ^ 32 + (n - 1 - i)) with true in Hmove by lia.
    apply (proj1 (Forall_singleton _ _)) in Hmove.
    unfold move_in_bounds in Hmove.
    cbn in Hmove. lia. }
  assert (Hu : u32 (n - 1 - k) = n - 1 - k).
  { unfold u32. apply Z.mod_small. subst k. destruct (i <? j); lia. }
  assert (Hu1 : u32 (n - 1) = n - 1).
  { unfold u32. apply Z.mod_small. lia. }
  rewrite Hu, Hu1 in *.
  assert (Hk0 : 0 <= k) by (subst k; destruct (i <? j); lia).
  set (m := if i <? j then i else j).
  assert (Hm : 0 <= m < k) by (subst m k; destruct (i <? j) eqn:E; lia).
  assert (Hstep : scan_keeps inp orig count
            (if 0 <? n - 1 - k
             then memmove_attrs attrs (Z.to_nat k) (Z.to_nat (n - 1 - k))
             else attrs) (n - 1)).
  { pose proof (scan_keeps_remove attrs (Z.to_nat n) (Z.to_nat k)
                  (Z.to_nat m)
                  (if i <? j then aj else ai) (if i <? j then ai else aj))
      as Hrm.
    rewrite Z2Nat.id in Hrm by lia.
    replace (Z.of_nat (Z.to_nat n - 1 - Z.to_nat k)) with (n - 1 - k)
      in Hrm by lia.
    replace (Z.to_nat n - 1 - Z.to_nat k)%nat with (Z.to_nat (n - 1 - k))
      in Hrm by lia.
    replace (Z.of_nat (Z.to_nat n - 1)) with (n - 1) in Hrm by lia.
    apply Hrm; try done; try lia.
    - subst k. by destruct (i <? j).
    - subst m. by destruct (i <? j).
    - destruct (i <? j); [by apply same_name_sym|done]. }
  match goal with
  | |- context [discard_duplicates_inner fuel inp i (j + 1) (n - 1) ?l] =>
    destruct (IH (j + 1) (n - 1) l) as (n' & attrs' & Heq & Hle & Hk');
      try done; try lia
  end.
  - destruct (0 <? n - 1 - k) eqn:E; [|done].
    rewrite memmove_attrs_length; lia.
  - destruct (0 <? n - 1 - k) eqn:E; [|lia].
    rewrite memmove_attrs_length; lia.
  - destruct (0 <? n - 1 - k) eqn:E; [|done].
    rewrite memmove_attrs_length; lia.
  - destruct (0 <? n - 1 - k) eqn:E; [|done].
    rewrite memmove_attrs_length by lia. done.
  - exists n', attrs'. split; [done|]. split; [lia|done].
Qed.

End ScanKeeps.

Lemma discard_duplicates_keeps inp orig count : forall fuel i n attrs,
  0 <= i -> (Z.to_nat n <= length attrs)%nat ->
  Z.of_nat (length attrs) < 2 ^ 32 ->
  (Z.to_nat (n - i) < fuel)%nat ->
  Forall (move_in_bounds (length attrs))
    (discard_duplicates_moves fuel inp i n attrs) ->
  scan_keeps inp orig count attrs n ->
  exists n' attrs',
    discard_duplicates fuel inp i n attrs = Ok (n', attrs')
    /\ scan_keeps inp orig count attrs' n'.
Proof.
  induction fuel as [|fuel IH];
    intros i n attrs Hi Hnl Hsize Hf Hmoves Hkeeps; [exfalso; lia|].
  cbn [discard_duplicates discard_duplicates_moves] in *.
  destruct (i <? n) eqn:Hin; [|by exists n, attrs].
  apply Z.ltb_lt in Hin.
  apply Forall_app in Hmoves as [Hinner Hrest].
  destruct (inner_keeps inp orig count i (S (Z.to_nat n)) 0 n attrs)
    as (n1 & attrs1 & Heq & Hle & Hk1); try done; try lia.
  rewrite Heq in *. cbn [mbind result_bind].
  assert (Hlen1 : length attrs1 = length attrs).
  { destruct Hk1 as (_ & _ & H1 & _), Hkeeps as (_ & _ & H2 & _).
    congruence. }
  assert (0 <= n1) by (destruct Hk1 as (? & _); lia).
  apply IH.
  - lia.
  - rewrite Hlen1. lia.
  - rewrite Hlen1. done.
  - lia.
  - rewrite Hlen1. done.
  - done.
Qed.



(** ** What every handler keeps *)

(** A property of the tokeniser that depends neither on the state, nor on
    the stream, nor on the context, and that an emission keeps, is kept by
    every state handler; the one exception is the content model, which
    the close tag match state resets. *)
Section Invariants.

Variable Inv : hubbub_tokeniser -> Prop.

Hypothesis Inv_emit : forall token x x' token',
  Inv x -> emit token x = Ok (x', token') -> Inv x'.

Hypothesis Inv_state : forall s x, Inv x -> Inv (set_state s x).

Hypothesis Inv_input : forall i x, Inv x -> Inv (set_input i x).

Hypothesis Inv_context : forall c x, Inv x -> Inv (set_context c x).

Lemma Inv_push_back_all cs : forall x, Inv x -> Inv (push_back_all cs x).
Proof.
  induction cs as [|c cs IH]; intros x Hx; [done|].
  change (push_back_all (c :: cs) x) with (push_back_all cs (push_back c x)).
  apply IH. by apply Inv_input.
Qed.

Ltac stable_step :=
  first
    [ assumption
    | apply Inv_state | apply Inv_input | apply Inv_context
    | apply Inv_push_back_all
    | progress unfold advance, lowercase, uppercase, push_back,
        rewind_unchecked, set_current_tag_type, set_current_tag,
        set_current_comment, set_current_doctype, set_current_chars,
        set_prev_state, set_close_tag_match_tag, set_match_doctype_count,
        set_match_entity, start_tag_token, extend_tag_name, new_attribute,
        extend_comment, comment_resume, start_doctype_name,
        extend_doctype_name, match_doctype_next, entity_done
    | progress cbv zeta
    | match goal with
      | |- Inv (if ?b then _ else _) => destruct b
      end ].

Ltac stable :=
  lazymatch goal with
  | |- Inv _ => repeat stable_step
  end.

Lemma Inv_emit_character s x x' :
  Inv x -> emit_character s x = Ok x' -> Inv x'.
Proof.
  intros Hx. unfold emit_character.
  destruct (emit _ x) as [[x1 tok1]| | |] eqn:E; try discriminate.
  cbn. intros Heq. injection Heq as <-. by eapply Inv_emit.
Qed.

Lemma Inv_emit_comment s x x' :
  Inv x -> emit_comment s x = Ok x' -> Inv x'.
Proof.
  intros Hx. unfold emit_comment.
  destruct (emit _ x) as [[x1 tok1]| | |] eqn:E; try discriminate.
  cbn. intros Heq. injection Heq as <-. by eapply Inv_emit.
Qed.

Lemma Inv_emit_doctype d x x' :
  Inv x -> emit_doctype d x = Ok x' -> Inv x'.
Proof.
  intros Hx. unfold emit_doctype.
  destruct (emit _ x) as [[x1 tok1]| | |] eqn:E; try discriminate.
  cbn. intros Heq. injection Heq as <-. by eapply Inv_emit.
Qed.

Lemma Inv_emit_current_tag x x' :
  Inv x -> emit_current_tag x = Ok x' -> Inv x'.
Proof.
  intros Hx. unfold emit_current_tag.
  destruct (emit _ x) as [[x1 tok1]| | |] eqn:E; try discriminate.
  cbn [mbind result_bind]. eapply Inv_emit in E; [|done].
  destruct (token_data tok1); intros Heq; injection Heq as <-; stable.
Qed.

Lemma Inv_update_last_attribute f x x' :
  Inv x -> update_last_attribute f x = Ok x' -> Inv x'.
Proof.
  intros Hx. unfold update_last_attribute.
  destruct (attributes _ !! _); cbn; [|discriminate].
  intros Heq. injection Heq as <-. stable.
Qed.

Lemma Inv_rewind_or_abort n x x' :
  Inv x -> rewind_or_abort n x = Ok x' -> Inv x'.
Proof.
  intros Hx. unfold rewind_or_abort. case_bool_decide; [|discriminate].
  intros Heq. injection Heq as <-. stable.
Qed.

Ltac bound E :=
  lazymatch type of E with
  | emit_character _ _ = Ok _ => apply Inv_emit_character in E; [|stable]
  | emit_comment _ _ = Ok _ => apply Inv_emit_comment in E; [|stable]
  | emit_doctype _ _ = Ok _ => apply Inv_emit_doctype in E; [|stable]
  | emit_current_tag _ = Ok _ => apply Inv_emit_current_tag in E; [|stable]
  | emit _ _ = Ok _ => apply Inv_emit in E; [|stable]
  | update_last_attribute _ _ = Ok _ =>
    apply Inv_update_last_attribute in E; [|stable]
  | extend_attribute_value _ = Ok _ =>
    apply Inv_update_last_attribute in E; [|stable]
  | rewind_or_abort _ _ = Ok _ => apply Inv_rewind_or_abort in E; [|stable]
  | (if ?b then emit_character _ _ else Ok _) = Ok _ =>
    destruct b;
    [ apply Inv_emit_character in E; [|stable]
    | injection E as <- ]
  | _ => idtac
  end.

Ltac walk_core :=
  repeat lazymatch goal with
  | |- Ok _ = Ok _ -> _ =>
    let H := fresh in intros H; injection H as <- <-
  | |- Abort = Ok _ -> _ => discriminate
  | |- Undefined = Ok _ -> _ => discriminate
  | |- Timeout = Ok _ -> _ => discriminate
  | |- (if ?b then _ else _) = Ok _ -> _ => destruct b
  | |- (mbind _ ?m) = Ok _ -> _ =>
    let E := fresh "E" in
    destruct m as [[? ?]| | |] eqn:E || destruct m eqn:E;
    cbn [mbind result_bind]; [bound E|discriminate..]
  | |- (match ?m with _ => _ end) = Ok _ -> _ =>
    let E := fresh "E" in destruct m eqn:E
  end.

Ltac walk := walk_core; try stable.

Ltac again IH :=
  let H := fresh in intros H; eapply IH; [|exact H]; stable.

Ltac walk_loop IH := walk_core; try stable; try again IH.

Lemma emit_tag_to_data_invariant adv : invariant Inv (emit_tag_to_data adv).
Proof. intros t t' c Hi. unfold emit_tag_to_data. walk. Qed.

Lemma emit_comment_to_data_invariant adv :
  invariant Inv (emit_comment_to_data adv).
Proof. intros t t' c Hi. unfold emit_comment_to_data. walk. Qed.

Lemma emit_doctype_to_data_invariant adv :
  invariant Inv (emit_doctype_to_data adv).
Proof. intros t t' c Hi. unfold emit_doctype_to_data. walk. Qed.

Lemma emit_doctype_checked_invariant : invariant Inv emit_doctype_checked.
Proof. intros t t' c Hi. unfold emit_doctype_checked. walk. Qed.

Lemma extend_attribute_name_invariant : invariant Inv extend_attribute_name.
Proof. intros t t' c Hi. unfold extend_attribute_name. walk. Qed.

Lemma enter_entity_in_attribute_value_invariant :
  invariant Inv enter_entity_in_attribute_value.
Proof.
  intros t t' c Hi. unfold enter_entity_in_attribute_value. walk.
Qed.

Lemma consume_entity_invariant : invariant Inv hubbub_tokeniser_consume_entity.
Proof.
  intros t t' c Hi. unfold hubbub_tokeniser_consume_entity. walk.
Qed.

Ltac block :=
  let H := fresh in
  intros H;
  first
    [ refine (emit_tag_to_data_invariant _ _ _ _ _ H)
    | refine (emit_comment_to_data_invariant _ _ _ _ _ H)
    | refine (emit_doctype_to_data_invariant _ _ _ _ _ H)
    | refine (emit_doctype_checked_invariant _ _ _ _ H)
    | refine (extend_attribute_name_invariant _ _ _ _ H)
    | refine (enter_entity_in_attribute_value_invariant _ _ _ _ H)
    | refine (consume_entity_invariant _ _ _ _ H) ];
  stable.

Ltac handler f :=
  intros t t' c Hi; unfold f; walk_core; try stable; try block.

Lemma entity_data_invariant : invariant Inv hubbub_tokeniser_handle_entity_data.
Proof. handler hubbub_tokeniser_handle_entity_data. Qed.

Lemma tag_open_invariant : invariant Inv hubbub_tokeniser_handle_tag_open.
Proof. handler hubbub_tokeniser_handle_tag_open. Qed.

Lemma close_tag_open_invariant :
  invariant Inv hubbub_tokeniser_handle_close_tag_open.
Proof. handler hubbub_tokeniser_handle_close_tag_open. Qed.

Lemma tag_name_invariant : invariant Inv hubbub_tokeniser_handle_tag_name.
Proof. handler hubbub_tokeniser_handle_tag_name. Qed.

Lemma before_attribute_name_invariant :
  invariant Inv hubbub_tokeniser_handle_before_attribute_name.
Proof. handler hubbub_tokeniser_handle_before_attribute_name. Qed.

Lemma attribute_name_invariant :
  invariant Inv hubbub_tokeniser_handle_attribute_name.
Proof. handler hubbub_tokeniser_handle_attribute_name. Qed.

Lemma after_attribute_name_invariant :
  invariant Inv hubbub_tokeniser_handle_after_attribute_name.
Proof. handler hubbub_tokeniser_handle_after_attribute_name. Qed.

Lemma before_attribute_value_invariant :
  invariant Inv hubbub_tokeniser_handle_before_attribute_value.
Proof. handler hubbub_tokeniser_handle_before_attribute_value. Qed.

Lemma attribute_value_dq_invariant :
  invariant Inv hubbub_tokeniser_handle_attribute_value_dq.
Proof. handler hubbub_tokeniser_handle_attribute_value_dq. Qed.

Lemma attribute_value_sq_invariant :
  invariant Inv hubbub_tokeniser_handle_attribute_value_sq.
Proof. handler hubbub_tokeniser_handle_attribute_value_sq. Qed.

Lemma attribute_value_uq_invariant :
  invariant Inv hubbub_tokeniser_handle_attribute_value_uq.
Proof. handler hubbub_tokeniser_handle_attribute_value_uq. Qed.

Lemma entity_in_attribute_value_invariant :
  invariant Inv hubbub_tokeniser_handle_entity_in_attribute_value.
Proof. handler hubbub_tokeniser_handle_entity_in_attribute_value. Qed.

Lemma markup_declaration_open_invariant :
  invariant Inv hubbub_tokeniser_handle_markup_declaration_open.
Proof. handler hubbub_tokeniser_handle_markup_declaration_open. Qed.

Lemma comment_start_invariant :
  invariant Inv hubbub_tokeniser_handle_comment_start.
Proof. handler hubbub_tokeniser_handle_comment_start. Qed.

Lemma comment_invariant : invariant Inv hubbub_tokeniser_handle_comment.
Proof. handler hubbub_tokeniser_handle_comment. Qed.

Lemma comment_dash_invariant :
  invariant Inv hubbub_tokeniser_handle_comment_dash.
Proof. handler hubbub_tokeniser_handle_comment_dash. Qed.

Lemma comment_end_invariant : invariant Inv hubbub_tokeniser_handle_comment_end.
Proof. handler hubbub_tokeniser_handle_comment_end. Qed.

Lemma match_doctype_invariant :
  invariant Inv hubbub_tokeniser_handle_match_doctype.
Proof. handler hubbub_tokeniser_handle_match_doctype. Qed.

Lemma doctype_invariant : invariant Inv hubbub_tokeniser_handle_doctype.
Proof. handler hubbub_tokeniser_handle_doctype. Qed.

Lemma before_doctype_name_invariant :
  invariant Inv hubbub_tokeniser_handle_before_doctype_name.
Proof. handler hubbub_tokeniser_handle_before_doctype_name. Qed.

Lemma doctype_name_invariant :
  invariant Inv hubbub_tokeniser_handle_doctype_name.
Proof. handler hubbub_tokeniser_handle_doctype_name. Qed.

Lemma after_doctype_name_invariant :
  invariant Inv hubbub_tokeniser_handle_after_doctype_name.
Proof. handler hubbub_tokeniser_handle_after_doctype_name. Qed.

Lemma bogus_doctype_invariant :
  invariant Inv hubbub_tokeniser_handle_bogus_doctype.
Proof. handler hubbub_tokeniser_handle_bogus_doctype. Qed.

Lemma handle_data_loop_invariant fuel : forall t t' c,
  Inv t -> handle_data_loop fuel t = Ok (t', c) -> Inv t'.
Proof.
  induction fuel as [|fuel IH]; intros t t' c Hi; [discriminate|].
  cbn [handle_data_loop]. walk_loop IH.
Qed.

Lemma handle_data_invariant : invariant Inv hubbub_tokeniser_handle_data.
Proof.
  intros t t' c Hi. unfold hubbub_tokeniser_handle_data.
  destruct (handle_data_loop _ _) as [[t1 c1]| | |] eqn:E; try discriminate.
  apply handle_data_loop_invariant in E; [|stable].
  cbn [mbind result_bind].
  destruct (negb (bool_decide _) && _).
  - destruct (emit _ t1) as [[t2 tok2]| | |] eqn:E2; try discriminate.
    apply Inv_emit in E2; [|done]. cbn [mbind result_bind].
    destruct (c1 =? HUBBUB_INPUTSTREAM_EOF).
    + destruct (emit _ _) as [[t3 tok3]| | |] eqn:E3; try discriminate.
      apply Inv_emit in E3; [|stable].
      cbn. intros H. by injection H as <- <-.
    + cbn. intros H. injection H as <- <-. stable.
  - cbn [mbind result_bind].
    destruct (c1 =? HUBBUB_INPUTSTREAM_EOF).
    + destruct (emit _ _) as [[t3 tok3]| | |] eqn:E3; try discriminate.
      apply Inv_emit in E3; [|done].
      cbn. intros H. by injection H as <- <-.
    + cbn. intros H. by injection H as <- <-.
Qed.

Lemma bogus_comment_loop_invariant fuel : forall t t' c,
  Inv t -> bogus_comment_loop fuel t = Ok (t', c) -> Inv t'.
Proof.
  induction fuel as [|fuel IH]; intros t t' c Hi; [discriminate|].
  cbn [bogus_comment_loop]. walk_loop IH.
Qed.

Lemma bogus_comment_invariant :
  invariant Inv hubbub_tokeniser_handle_bogus_comment.
Proof.
  intros t t' c Hi. unfold hubbub_tokeniser_handle_bogus_comment.
  destruct (bogus_comment_loop _ _) as [[t1 c1]| | |] eqn:E;
    try discriminate.
  apply bogus_comment_loop_invariant in E; [|done].
  cbn [mbind result_bind]. walk.
Qed.

Lemma numbered_entity_loop_invariant fuel : forall t t' c,
  Inv t -> numbered_entity_loop fuel t = Ok (t', c) -> Inv t'.
Proof.
  induction fuel as [|fuel IH]; intros t t' c Hi; [discriminate|].
  cbn [numbered_entity_loop]. walk_loop IH.
Qed.

Lemma numbered_entity_invariant :
  invariant Inv hubbub_tokeniser_handle_numbered_entity.
Proof.
  intros t t' c Hi. unfold hubbub_tokeniser_handle_numbered_entity.
  destruct (peek t =? HUBBUB_INPUTSTREAM_OOD).
  { intros H. by injection H as <- <-. }
  destruct (numbered_entity_loop _ _) as [[t1 c1]| | |] eqn:E;
    try discriminate.
  apply numbered_entity_loop_invariant in E; [|stable].
  cbn [mbind result_bind]. walk.
Qed.

Section NamedEntities.

Variable entities : list (list Z * Z).

Lemma named_entity_loop_invariant fuel : forall t t' c,
  Inv t -> named_entity_loop entities fuel t = Ok (t', c) -> Inv t'.
Proof.
  induction fuel as [|fuel IH]; intros t t' c Hi; [discriminate|].
  cbn [named_entity_loop]. walk_loop IH.
Qed.

Lemma named_entity_invariant :
  invariant Inv (hubbub_tokeniser_handle_named_entity entities).
Proof.
  intros t t' c Hi. unfold hubbub_tokeniser_handle_named_entity.
  destruct (named_entity_loop _ _ _) as [[t1 c1]| | |] eqn:E;
    try discriminate.
  apply named_entity_loop_invariant in E; [|done].
  cbn [mbind result_bind]. walk.
Qed.

Lemma close_tag_match_loop_invariant fuel : forall c t r,
  Inv t -> close_tag_match_loop fuel c t = Ok r ->
  Inv match r with Returned t' _ => t' | Left t' _ => t' end.
Proof.
  induction fuel as [|fuel IH]; intros c t r Hi; [discriminate|].
  cbn [close_tag_match_loop].
  destruct (len _ <? len _); [|intros H; injection H as <-; exact Hi].
  destruct (is_sentinel _); [intros H; injection H as <-; exact Hi|].
  match goal with |- context [advance ?x] => set (t1 := advance x) end.
  assert (Hi1 : Inv t1) by (subst t1; stable).
  clearbody t1.
  destruct (_ || _).
  - destruct (rewind_or_abort _ t1) as [t2| | |] eqn:E; try discriminate.
    apply Inv_rewind_or_abort in E; [|done]. cbn [mbind result_bind].
    destruct (emit_character _ t2) as [t3| | |] eqn:E2; try discriminate.
    apply Inv_emit_character in E2; [|done].
    cbn. intros H. injection H as <-. stable.
  - destruct (_ && _).
    + intros H. injection H as <-. exact Hi1.
    + intros H. eapply IH; [exact Hi1|exact H].
Qed.

(** The close tag match state keeps the property as well, except where it
    has matched the close tag and sets the content model. *)
Lemma close_tag_match_invariant t t' c :
  Inv t -> hubbub_tokeniser_handle_close_tag_match t = Ok (t', c) ->
  Inv t'
  \/ exists x,
       Inv x
       /\ t' = set_state HUBBUB_TOKENISER_STATE_CLOSE_TAG_OPEN
                 (set_content_model HUBBUB_CONTENT_MODEL_PCDATA x).
Proof.
  intros Hi. unfold hubbub_tokeniser_handle_close_tag_match.
  destruct (close_tag_match_loop _ _ _) as [r| | |] eqn:E;
    try discriminate.
  apply close_tag_match_loop_invariant in E; [|done].
  cbn [mbind result_bind]. destruct r as [t1 cont|t1 c1].
  { intros H. injection H as <- <-. by left. }
  destruct (c1 =? HUBBUB_INPUTSTREAM_OOD).
  { intros H. injection H as <- <-. by left. }
  destruct (c1 =? HUBBUB_INPUTSTREAM_EOF).
  { intros H. left. revert H. walk. }
  cbv zeta. destruct (peek t1 =? HUBBUB_INPUTSTREAM_OOD).
  { intros H. injection H as <- <-. by left. }
  destruct (rewind_or_abort _ t1) as [t2| | |] eqn:E2; try discriminate.
  apply Inv_rewind_or_abort in E2; [|done]. cbn [mbind result_bind].
  match goal with |- (if ?b then _ else _) = _ -> _ => destruct b end.
  - intros H. left. revert H. walk.
  - intros H. injection H as <- <-. right. by exists t2.
Qed.

Lemma step_invariant t t' c :
  Inv t -> hubbub_tokeniser_step entities t = Ok (t', c) ->
  Inv t'
  \/ (state t = HUBBUB_TOKENISER_STATE_CLOSE_TAG_MATCH
      /\ exists x,
           Inv x
           /\ t' = set_state HUBBUB_TOKENISER_STATE_CLOSE_TAG_OPEN
                     (set_content_model HUBBUB_CONTENT_MODEL_PCDATA x)).
Proof.
  intros Hi. unfold hubbub_tokeniser_step.
  destruct (state t) eqn:Hst; intros H;
    try (left;
         first
           [ exact (handle_data_invariant _ _ _ Hi H)
           | exact (entity_data_invariant _ _ _ Hi H)
           | exact (tag_open_invariant _ _ _ Hi H)
           | exact (close_tag_open_invariant _ _ _ Hi H)
           | exact (tag_name_invariant _ _ _ Hi H)
           | exact (before_attribute_name_invariant _ _ _ Hi H)
           | exact (attribute_name_invariant _ _ _ Hi H)
           | exact (after_attribute_name_invariant _ _ _ Hi H)
           | exact (before_attribute_value_invariant _ _ _ Hi H)
           | exact (attribute_value_dq_invariant _ _ _ Hi H)
           | exact (attribute_value_sq_invariant _ _ _ Hi H)
           | exact (attribute_value_uq_invariant _ _ _ Hi H)
           | exact (entity_in_attribute_value_invariant _ _ _ Hi H)
           | exact (bogus_comment_invariant _ _ _ Hi H)
           | exact (markup_declaration_open_invariant _ _ _ Hi H)
           | exact (comment_start_invariant _ _ _ Hi H)
           | exact (comment_invariant _ _ _ Hi H)
           | exact (comment_dash_invariant _ _ _ Hi H)
           | exact (comment_end_invariant _ _ _ Hi H)
           | exact (match_doctype_invariant _ _ _ Hi H)
           | exact (doctype_invariant _ _ _ Hi H)
           | exact (before_doctype_name_invariant _ _ _ Hi H)
           | exact (doctype_name_invariant _ _ _ Hi H)
           | exact (after_doctype_name_invariant _ _ _ Hi H)
           | exact (bogus_doctype_invariant _ _ _ Hi H)
           | exact (numbered_entity_invariant _ _ _ Hi H)
           | exact (named_entity_invariant _ _ _ Hi H) ]; fail).
  destruct (close_tag_match_invariant t t' c Hi H) as [?|?]; [by left|].
  right. done.
Qed.

(** With the content model out of the picture, a whole run keeps the
    property. *)
Hypothesis Inv_content_model :
  forall x, Inv x -> Inv (set_content_model HUBBUB_CONTENT_MODEL_PCDATA x).

Lemma run_loop_invariant fuel : forall t t',
  Inv t -> run_loop entities fuel t = Ok t' -> Inv t'.
Proof.
  induction fuel as [|fuel IH]; intros t t' Hi; [discriminate|].
  cbn [run_loop].
  destruct (hubbub_tokeniser_step entities t) as [[t1 cont]| | |] eqn:E;
    try discriminate.
  apply step_invariant in E as [E|(_ & x & Hx & ->)]; [| |done].
  - cbn [mbind result_bind]. destruct cont; [by apply IH|].
    intros H. by injection H as <-.
  - cbn [mbind result_bind].
    assert (Hx' : Inv (set_state HUBBUB_TOKENISER_STATE_CLOSE_TAG_OPEN
                         (set_content_model HUBBUB_CONTENT_MODEL_PCDATA x)))
      by (by apply Inv_state, Inv_content_model).
    destruct cont; [by apply IH|]. intros H. by injection H as <-.
Qed.

End NamedEntities.

End Invariants.

(** ** The content model and the end of data *)

Lemma content_model_emit token x x' token' :
  emit token x = Ok (x', token') -> content_model x' = content_model x.
Proof.
  unfold emit, hubbub_tokeniser_emit_token.
  destruct (token_handler x) as [h|]; cbn [mbind result_bind].
  2:{ intros H. by injection H as <- <-. }
  destruct (bool_decide (token_type token = HUBBUB_TOKEN_START_TAG)
            || bool_decide (token_type token = HUBBUB_TOKEN_END_TAG)).
  - destruct (token_data token) as [d|tag|s|s|]; try discriminate.
    destruct (discard_duplicates _ _ _ _ _) as [[n attrs]| | |];
      cbn [mbind result_bind]; try discriminate.
    intros H. by injection H as <- <-.
  - cbn [mbind result_bind]. intros H. by injection H as <- <-.
Qed.

(** X5: as long as no code of the client runs, the tokeniser changes
    the content model in one place only.  For a handler call, and for a
    run, that hands no token to the token handler, with no buffer handler
    registered: the close tag match state, when it has matched the close
    tag, sets the content model to PCDATA and goes to the close tag open
    state, and no other handler call changes it; after the run the
    content model is what it was or PCDATA. *)
Theorem content_model_reset_only entities :
  (forall t t' cont,
     hubbub_tokeniser_step entities t = Ok (t', cont) ->
     buffer_handler t = None ->
     calls t' = calls t ->
     content_model t' = content_model t
     \/ (state t = HUBBUB_TOKENISER_STATE_CLOSE_TAG_MATCH
         /\ state t' = HUBBUB_TOKENISER_STATE_CLOSE_TAG_OPEN
         /\ content_model t' = HUBBUB_CONTENT_MODEL_PCDATA))
  /\ (forall fuel t t',
        run_loop entities fuel t = Ok t' ->
        buffer_handler t = None ->
        calls t' = calls t ->
        content_model t' = content_model t
        \/ content_model t' = HUBBUB_CONTENT_MODEL_PCDATA).
Proof.
  split.
  - intros t t' cont Hstep _ _.
    destruct (step_invariant (fun x => content_model x = content_model t))
      with entities t t' cont as [H|(Hst & x & Hx & ->)]; try done.
    + intros token x x' token' Hx He.
      by rewrite (content_model_emit _ _ _ _ He).
    + by left.
    + right. done.
  - intros fuel t t' Hrun _ _.
    apply (run_loop_invariant
             (fun x => content_model x = content_model t
                       \/ content_model x = HUBBUB_CONTENT_MODEL_PCDATA))
      with entities fuel t; try done.
    + intros token x x' token' Hx He.
      by rewrite (content_model_emit _ _ _ _ He).
    + intros x _. by right.
    + by left.
Qed.

(** X6: when the stream is out of data, the handler of every state stops the
    run and consumes nothing: the tokeniser is left as it was, but for
    the pending characters that the data state clears, and the run
    returns at once.  The close tag open state does so in PCDATA, and
    the two entity states while an entity is being consumed. *)
Theorem out_of_data_pauses entities t :
  peek t = HUBBUB_INPUTSTREAM_OOD ->
  (state t = HUBBUB_TOKENISER_STATE_CLOSE_TAG_OPEN ->
   content_model t = HUBBUB_CONTENT_MODEL_PCDATA) ->
  (state t = HUBBUB_TOKENISER_STATE_ENTITY_DATA
   \/ state t = HUBBUB_TOKENISER_STATE_ENTITY_IN_ATTRIBUTE_VALUE ->
   complete (match_entity (context t)) = false
   /\ done_setup (match_entity (context t)) = true) ->
  hubbub_tokeniser_step entities t = Ok (paused t, false)
  /\ forall fuel, run_loop entities (S fuel) t = Ok (paused t).
Proof.
  intros Hp Hcto Hent.
  assert (Hstep : hubbub_tokeniser_step entities t = Ok (paused t, false)).
  { unfold hubbub_tokeniser_step, paused.
    destruct (state t) eqn:Hst; cbn [bool_decide decide_rel];
      try (rewrite bool_decide_eq_false_2 by discriminate).
    all: try (unfold hubbub_tokeniser_handle_tag_open,
      hubbub_tokeniser_handle_tag_name,
      hubbub_tokeniser_handle_before_attribute_name,
      hubbub_tokeniser_handle_attribute_name,
      hubbub_tokeniser_handle_after_attribute_name,
      hubbub_tokeniser_handle_before_attribute_value,
      hubbub_tokeniser_handle_attribute_value_dq,
      hubbub_tokeniser_handle_attribute_value_sq,
      hubbub_tokeniser_handle_attribute_value_uq,
      hubbub_tokeniser_handle_markup_declaration_open,
      hubbub_tokeniser_handle_comment_start,
      hubbub_tokeniser_handle_comment,
      hubbub_tokeniser_handle_comment_dash,
      hubbub_tokeniser_handle_comment_end,
      hubbub_tokeniser_handle_match_doctype,
      hubbub_tokeniser_handle_doctype,
      hubbub_tokeniser_handle_before_doctype_name,
      hubbub_tokeniser_handle_doctype_name,
      hubbub_tokeniser_handle_after_doctype_name,
      hubbub_tokeniser_handle_bogus_doctype,
      hubbub_tokeniser_handle_numbered_entity;
      rewrite Hp; reflexivity).
    - (* data *)
      unfold hubbub_tokeniser_handle_data. cbn [handle_data_loop].
      change (peek (set_current_chars zero_string t)) with (peek t).
      rewrite Hp. change (is_sentinel HUBBUB_INPUTSTREAM_OOD) with true.
      cbv iota. cbn [mbind result_bind].
      match goal with
      | |- context [negb (bool_decide ?P) && ?b] =>
        replace (negb (bool_decide P) && b) with false
          by (symmetry; apply andb_false_r)
      end.
      reflexivity.
    - (* entity data *)
      destruct Hent as [Hc Hd]; [by left|].
      unfold hubbub_tokeniser_handle_entity_data,
        hubbub_tokeniser_consume_entity.
      rewrite Hc, Hd. cbn [negb]. rewrite Hp. reflexivity.
    - (* close tag open *)
      unfold hubbub_tokeniser_handle_close_tag_open.
      rewrite (Hcto eq_refl), Hp. reflexivity.
    - (* close tag match *)
      unfold hubbub_tokeniser_handle_close_tag_match.
      cbn [close_tag_match_loop]. rewrite Hp.
      destruct (len _ <? len _); cbn; rewrite ?Hp; reflexivity.
    - (* entity in attribute value *)
      destruct Hent as [Hc Hd]; [by right|].
      unfold hubbub_tokeniser_handle_entity_in_attribute_value,
        hubbub_tokeniser_consume_entity.
      rewrite Hc, Hd. cbn [negb]. rewrite Hp. reflexivity.
    - (* bogus comment *)
      unfold hubbub_tokeniser_handle_bogus_comment.
      cbn [bogus_comment_loop]. rewrite Hp. reflexivity.
    - (* named entity *)
      unfold hubbub_tokeniser_handle_named_entity.
      cbn [named_entity_loop]. rewrite Hp. reflexivity. }
  split; [done|]. intros fuel. cbn [run_loop]. rewrite Hstep. reflexivity.
Qed.

(** X7: in the tag open state with data at hand and in the close tag open
    state, when the content model is PLAINTEXT, neither branch of the
    handler applies: it changes nothing and asks to go on, so the loop of
    [hubbub_tokeniser_run] calls it again for ever and the run never
    returns. *)
Theorem plaintext_tag_open_never_returns entities t :
  content_model t = HUBBUB_CONTENT_MODEL_PLAINTEXT ->
  state t = HUBBUB_TOKENISER_STATE_CLOSE_TAG_OPEN
  \/ (state t = HUBBUB_TOKENISER_STATE_TAG_OPEN
      /\ peek t <> HUBBUB_INPUTSTREAM_OOD) ->
  hubbub_tokeniser_step entities t = Ok (t, true)
  /\ forall fuel, run_loop entities fuel t = Timeout.
Proof.
  intros Hcm Hst.
  assert (Hstep : hubbub_tokeniser_step entities t = Ok (t, true)).
  { unfold hubbub_tokeniser_step.
    destruct Hst as [-> | [-> Hp]].
    - unfold hubbub_tokeniser_handle_close_tag_open. by rewrite Hcm.
    - unfold hubbub_tokeniser_handle_tag_open. rewrite Hcm.
      apply Z.eqb_neq in Hp. by rewrite Hp. }
  split; [done|]. intros fuel.
  induction fuel as [|fuel IH]; [done|].
  cbn [run_loop]. rewrite Hstep. exact IH.
Qed.

Lemma content_model_reset_only_witness :
  content_model script_close_supplied = HUBBUB_CONTENT_MODEL_CDATA
  /\ run_loop sample_entities 100 script_close_supplied
     = Ok script_close_paused
  /\ calls script_close_paused = calls script_close_supplied
  /\ content_model script_close_paused = HUBBUB_CONTENT_MODEL_PCDATA.
Proof.
  split; [vm_compute; reflexivity|].
  split; [vm_compute; reflexivity|].
  split; [vm_compute; reflexivity|].
  destruct (proj2 (content_model_reset_only sample_entities) 100%nat
              script_close_supplied script_close_paused
              ltac:(vm_compute; reflexivity)
              ltac:(vm_compute; reflexivity)
              ltac:(vm_compute; reflexivity)) as [H|H]; [|exact H].
  vm_compute in H. discriminate.
Defined.

Lemma out_of_data_pauses_witness :
  hubbub_tokeniser_step sample_entities (paused_on "<p a")
  = Ok (paused (paused_on "<p a"), false).
Proof.
  refine (proj1 (out_of_data_pauses sample_entities (paused_on "<p a")
                   _ _ _)).
  - vm_compute. reflexivity.
  - intros H. vm_compute in H. discriminate.
  - intros [H|H]; vm_compute in H; discriminate.
Defined.

Lemma plaintext_tag_open_never_returns_witness :
  run_loop sample_entities 1000 plaintext_after_close_tag_open = Timeout.
Proof.
  refine (proj2 (plaintext_tag_open_never_returns sample_entities
                   plaintext_after_close_tag_open _ _) 1000%nat).
  - vm_compute. reflexivity.
  - left. vm_compute. reflexivity.
Defined.

(** ** The slot of the last attribute *)

Lemma tokeniser_wf_view t t' :
  state t' = state t -> wf_view t' = wf_view t ->
  tokeniser_wf t -> tokeniser_wf t'.
Proof.
  unfold tokeniser_wf, wf_view, last_attribute. cbv zeta.
  intros -> H. injection H as -> -> -> -> ->. done.
Qed.

Lemma emit_view token t t' token' :
  emit token t = Ok (t', token') ->
  state t' = state t /\ context t' = context t.
Proof.
  unfold emit, hubbub_tokeniser_emit_token.
  destruct (token_handler t) as [h|]; cbn [mbind result_bind].
  2:{ intros H. by injection H as <- <-. }
  destruct (bool_decide (token_type token = HUBBUB_TOKEN_START_TAG)
            || bool_decide (token_type token = HUBBUB_TOKEN_END_TAG)).
  - destruct (token_data token) as [d|tag|s|s|]; try discriminate.
    destruct (discard_duplicates _ _ _ _ _) as [[n attrs]| | |];
      cbn [mbind result_bind]; try discriminate.
    intros H. by injection H as <- <-.
  - cbn [mbind result_bind]. intros H. by injection H as <- <-.
Qed.

Lemma emit_character_view s t t' :
  emit_character s t = Ok t' ->
  state t' = state t /\ context t' = context t.
Proof.
  unfold emit_character.
  destruct (emit _ t) as [[t1 tok1]| | |] eqn:E; try discriminate.
  cbn. intros H. injection H as <-. by eapply emit_view.
Qed.

Lemma emit_comment_view s t t' :
  emit_comment s t = Ok t' ->
  state t' = state t /\ context t' = context t.
Proof.
  unfold emit_comment.
  destruct (emit _ t) as [[t1 tok1]| | |] eqn:E; try discriminate.
  cbn. intros H. injection H as <-. by eapply emit_view.
Qed.

Lemma emit_doctype_view d t t' :
  emit_doctype d t = Ok t' ->
  state t' = state t /\ context t' = context t.
Proof.
  unfold emit_doctype.
  destruct (emit _ t) as [[t1 tok1]| | |] eqn:E; try discriminate.
  cbn. intros H. injection H as <-. by eapply emit_view.
Qed.

(** The emission of the current tag leaves everything in place but the
    slots of the attribute array, which the scan may have moved. *)
Lemma emit_current_tag_view t t' :
  emit_current_tag t = Ok t' ->
  state t' = state t
  /\ n_attributes (current_tag (context t'))
     = n_attributes (current_tag (context t))
  /\ prev_state (context t') = prev_state (context t)
  /\ match_entity (context t') = match_entity (context t).
Proof.
  unfold emit_current_tag.
  destruct (emit _ t) as [[t1 tok1]| | |] eqn:E; try discriminate.
  apply emit_view in E as [Hs Hc]. cbn [mbind result_bind].
  destruct (token_data tok1); intros H; injection H as <-; cbn;
    rewrite ?Hc; done.
Qed.

Lemma update_last_attribute_view f t t' :
  update_last_attribute f t = Ok t' ->
  state t' = state t
  /\ n_attributes (current_tag (context t'))
     = n_attributes (current_tag (context t))
  /\ prev_state (context t') = prev_state (context t)
  /\ match_entity (context t') = match_entity (context t)
  /\ is_Some (last_attribute t').
Proof.
  unfold update_last_attribute, last_attribute.
  destruct (attributes _ !! _) as [a|] eqn:E; cbn; [|discriminate].
  intros Heq. injection Heq as <-. cbn. split_and!; try done.
  apply lookup_lt_is_Some_2. rewrite length_insert.
  by eapply lookup_lt_Some.
Qed.

Lemma update_last_attribute_defined f t :
  is_Some (last_attribute t) -> exists t', update_last_attribute f t = Ok t'.
Proof.
  unfold update_last_attribute, last_attribute. intros [a ->]. cbn. eauto.
Qed.

Lemma rewind_or_abort_view n t t' :
  rewind_or_abort n t = Ok t' ->
  state t' = state t /\ context t' = context t.
Proof.
  unfold rewind_or_abort. case_bool_decide; [|discriminate].
  intros Heq. by injection Heq as <-.
Qed.

Lemma push_back_all_view cs : forall t,
  state (push_back_all cs t) = state t
  /\ context (push_back_all cs t) = context t.
Proof.
  induction cs as [|c cs IH]; intros t; [done|].
  change (push_back_all (c :: cs) t) with (push_back_all cs (push_back c t)).
  by destruct (IH (push_back c t)) as [-> ->].
Qed.

(** A new attribute has its slot, as long as the count does not wrap
    around. *)
Lemma new_attribute_view t :
  0 <= n_attributes (current_tag (context t)) < 2 ^ 32 - 1 ->
  state (new_attribute t) = HUBBUB_TOKENISER_STATE_ATTRIBUTE_NAME
  /\ 0 <= n_attributes (current_tag (context (new_attribute t))) < 2 ^ 32
  /\ prev_state (context (new_attribute t)) = prev_state (context t)
  /\ match_entity (context (new_attribute t)) = match_entity (context t)
  /\ is_Some (last_attribute (new_attribute t)).
Proof.
  intros Hn. unfold new_attribute, last_attribute. cbn.
  assert (u32 (n_attributes (current_tag (context t)) + 1)
          = n_attributes (current_tag (context t)) + 1) as ->
    by (apply Z.mod_small; lia).
  split_and!; try done; try lia.
  apply lookup_lt_is_Some_2. rewrite length_insert, length_resize.
  replace (n_attributes (current_tag (context t)) + 1 - 1)
    with (n_attributes (current_tag (context t))) by lia.
  unfold u32. rewrite Z.mod_small by lia. lia.
Qed.

Ltac setters :=
  unfold advance, lowercase, uppercase, push_back,
    rewind_unchecked, set_current_tag_type, set_current_tag,
    set_current_comment, set_current_doctype, set_current_chars,
    set_prev_state, set_close_tag_match_tag, set_match_doctype_count,
    set_match_entity, start_tag_token, extend_tag_name,
    extend_comment, comment_resume, start_doctype_name,
    extend_doctype_name, match_doctype_next, entity_done,
    me_set_str, me_set_base, me_set_codepoint, me_set_had_data,
    me_set_complete, me_set_done_setup, me_set_search_context,
    me_set_prev_len, entity_str_extend in *.

Ltac fields :=
  cbn [state context current_tag prev_state match_entity done_setup
       complete return_state n_attributes attributes set_state set_input
       set_context set_content_model fst snd] in *.

Ltac cases :=
  repeat match goal with
  | |- context [if ?b then _ else _] => destruct b eqn:?
  | H : context [if ?b then _ else _] |- _ => destruct b eqn:?
  end.

Ltac facts E :=
  lazymatch type of E with
  | emit_character _ _ = Ok _ => apply emit_character_view in E as [? ?]
  | emit_comment _ _ = Ok _ => apply emit_comment_view in E as [? ?]
  | emit_doctype _ _ = Ok _ => apply emit_doctype_view in E as [? ?]
  | emit_current_tag _ = Ok _ =>
    apply emit_current_tag_view in E as (? & ? & ? & ?)
  | emit _ _ = Ok _ => apply emit_view in E as [? ?]
  | update_last_attribute _ _ = Ok _ =>
    apply update_last_attribute_view in E as (? & ? & ? & ? & ?)
  | extend_attribute_value _ = Ok _ =>
    apply update_last_attribute_view in E as (? & ? & ? & ? & ?)
  | rewind_or_abort _ _ = Ok _ => apply rewind_or_abort_view in E as [? ?]
  | (if ?b then emit_character _ _ else Ok _) = Ok _ =>
    destruct b;
    [ apply emit_character_view in E as [? ?]
    | injection E as <- ]
  | _ => idtac
  end.

Ltac trace :=
  repeat lazymatch goal with
  | |- Ok _ = Ok _ -> _ =>
    let H := fresh in
    intros H; first [injection H as <- <- | injection H as <-]
  | |- Abort = Ok _ -> _ => discriminate
  | |- Undefined = Ok _ -> _ => discriminate
  | |- Timeout = Ok _ -> _ => discriminate
  | |- (if ?b then _ else _) = Ok _ -> _ => destruct b eqn:?
  | |- (mbind _ (Ok _)) = Ok _ -> _ => cbn [mbind result_bind]
  | |- (mbind _ (if ?b then _ else _)) = Ok _ -> _ => destruct b eqn:?
  | |- (mbind _ (mbind _ ?m)) = Ok _ -> _ =>
    let E := fresh "E" in
    lazymatch type of m with
    | result (_ * _) => destruct m as [[? ?]| | |] eqn:E
    | _ => destruct m as [?| | |] eqn:E
    end;
    cbn [mbind result_bind]; [facts E|discriminate..]
  | |- (mbind _ ?m) = Ok _ -> _ =>
    let E := fresh "E" in
    lazymatch type of m with
    | result (_ * _) => destruct m as [[? ?]| | |] eqn:E
    | _ => destruct m as [?| | |] eqn:E
    end;
    cbn [mbind result_bind]; [facts E|discriminate..]
  | |- (match ?m with _ => _ end) = Ok _ -> _ =>
    let E := fresh "E" in destruct m eqn:E
  end.

Ltac blocks :=
  unfold emit_tag_to_data, emit_comment_to_data, emit_doctype_to_data,
    emit_doctype_checked, extend_attribute_name,
    enter_entity_in_attribute_value, hubbub_tokeniser_consume_entity.

Ltac framed :=
  unfold loop_frame, kept, wf_view in *; setters; cases; fields;
  repeat match goal with
  | H : _ /\ _ |- _ => destruct H
  | H : (_, _) = (_, _) |- _ => injection H as ? ? ? ? ?
  end;
  repeat match goal with
  | H : state _ = _ |- _ => rewrite H in *; clear H
  | H : @eq hubbub_tokeniser_context _ _ |- _ => rewrite H in *; clear H
  end;
  fields; (split; first [congruence|tauto]).

Ltac round IH :=
  let H := fresh in
  intros H; apply IH in H; framed.

Lemma handle_data_loop_frame fuel : forall t t' c,
  handle_data_loop fuel t = Ok (t', c) -> loop_frame t t'.
Proof.
  induction fuel as [|fuel IH]; intros t t' c; [discriminate|].
  cbn [handle_data_loop]. cbv zeta. trace; try (framed; fail); round IH.
Qed.

Lemma bogus_comment_loop_frame fuel : forall t t' c,
  bogus_comment_loop fuel t = Ok (t', c) -> kept t t'.
Proof.
  induction fuel as [|fuel IH]; intros t t' c; [discriminate|].
  cbn [bogus_comment_loop]. cbv zeta. trace; try (framed; fail); round IH.
Qed.

Lemma numbered_entity_loop_frame fuel : forall t t' c,
  numbered_entity_loop fuel t = Ok (t', c) -> kept t t'.
Proof.
  induction fuel as [|fuel IH]; intros t t' c; [discriminate|].
  cbn [numbered_entity_loop]. cbv zeta.
  trace; try (framed; fail); round IH.
Qed.

Lemma close_tag_match_loop_frame fuel : forall c t r,
  close_tag_match_loop fuel c t = Ok r ->
  match r with
  | Returned t' _ => loop_frame t t'
  | Left t' _ => loop_frame t t'
  end.
Proof.
  induction fuel as [|fuel IH]; intros c t r; [discriminate|].
  cbn [close_tag_match_loop]. cbv zeta. trace; try (framed; fail).
  intros H. apply IH in H. destruct r; framed.
Qed.

Lemma named_entity_loop_frame entities fuel : forall t t' c,
  named_entity_loop entities fuel t = Ok (t', c) -> kept t t'.
Proof.
  induction fuel as [|fuel IH]; intros t t' c; [discriminate|].
  cbn [named_entity_loop]. cbv zeta.
  trace; try (framed; fail); round IH.
Qed.

Ltac loops :=
  repeat match goal with
  | E : handle_data_loop _ _ = Ok _ |- _ =>
    apply handle_data_loop_frame in E
  | E : bogus_comment_loop _ _ = Ok _ |- _ =>
    apply bogus_comment_loop_frame in E
  | E : numbered_entity_loop _ _ = Ok _ |- _ =>
    apply numbered_entity_loop_frame in E
  | E : named_entity_loop _ _ _ = Ok _ |- _ =>
    apply named_entity_loop_frame in E
  | E : close_tag_match_loop _ _ _ = Ok _ |- _ =>
    apply close_tag_match_loop_frame in E
  end.

Ltac fresh_attribute :=
  try match goal with
  | |- context [new_attribute ?x] =>
    let H := fresh in
    assert (H : 0 <= n_attributes (current_tag (context x)) < 2 ^ 32 - 1)
      by (unfold tokeniser_wf in *; setters; fields; lia);
    destruct (new_attribute_view x H) as (? & ? & ? & ? & ?); clear H
  end.

Ltac pushed_back :=
  try match goal with
  | |- context [push_back_all ?cs ?x] =>
    destruct (push_back_all_view cs x) as [? ?]
  end.

Ltac settle :=
  loops; fresh_attribute; pushed_back;
  unfold tokeniser_wf, last_attribute, loop_frame, kept, wf_view in *;
  setters; setters; cases; fields;
  repeat match goal with
  | H : _ /\ _ |- _ => destruct H
  | H : (_, _) = (_, _) |- _ => injection H as ? ? ? ? ?
  | H : _ \/ _ |- _ => destruct H
  end;
  repeat match goal with
  | H : @eq hubbub_tag _ _ |- _ => rewrite H in *; clear H
  | H : @eq bool (done_setup _) _ |- _ => rewrite H in *; clear H
  | H : @eq bool (complete _) _ |- _ => rewrite H in *; clear H
  | H : return_state _ = _ |- _ => rewrite H in *; clear H
  end;
  repeat match goal with
  | H : state _ = _ |- _ => rewrite H in *; clear H
  | H : @eq hubbub_tokeniser_context _ _ |- _ => rewrite H in *; clear H
  | H : n_attributes _ = _ |- _ => rewrite H in *; clear H
  | H : prev_state _ = _ |- _ => rewrite H in *; clear H
  | H : match_entity _ = _ |- _ => rewrite H in *; clear H
  end;
  fields; cbn [attribute_state attribute_value_state] in *;
  repeat match goal with
  | H : _ /\ _ |- _ => destruct H
  | H : _ \/ _ |- _ => destruct H
  end;
  repeat match goal with
  | H : return_state _ = _ |- _ => rewrite H in *; clear H
  end;
  cbn [attribute_state attribute_value_state] in *;
  rewrite ?negb_true_iff, ?negb_false_iff in *;
  try match goal with
  | H : attribute_value_state ?s = true |- _ =>
    destruct s; try discriminate H; clear H
  end;
  split_and?; try done; try congruence; try lia; try tauto;
  try (destruct (done_setup _) eqn:?; intuition congruence).

Ltac handlers :=
  unfold hubbub_tokeniser_handle_data, hubbub_tokeniser_handle_entity_data,
    hubbub_tokeniser_handle_tag_open, hubbub_tokeniser_handle_close_tag_open,
    hubbub_tokeniser_handle_close_tag_match,
    hubbub_tokeniser_handle_tag_name,
    hubbub_tokeniser_handle_before_attribute_name,
    hubbub_tokeniser_handle_attribute_name,
    hubbub_tokeniser_handle_after_attribute_name,
    hubbub_tokeniser_handle_before_attribute_value,
    hubbub_tokeniser_handle_attribute_value_dq,
    hubbub_tokeniser_handle_attribute_value_sq,
    hubbub_tokeniser_handle_attribute_value_uq,
    hubbub_tokeniser_handle_entity_in_attribute_value,
    hubbub_tokeniser_handle_bogus_comment,
    hubbub_tokeniser_handle_markup_declaration_open,
    hubbub_tokeniser_handle_comment_start, hubbub_tokeniser_handle_comment,
    hubbub_tokeniser_handle_comment_dash, hubbub_tokeniser_handle_comment_end,
    hubbub_tokeniser_handle_match_doctype, hubbub_tokeniser_handle_doctype,
    hubbub_tokeniser_handle_before_doctype_name,
    hubbub_tokeniser_handle_doctype_name,
    hubbub_tokeniser_handle_after_doctype_name,
    hubbub_tokeniser_handle_bogus_doctype,
    hubbub_tokeniser_handle_numbered_entity,
    hubbub_tokeniser_handle_named_entity.

Lemma same_view t x :
  state x = state t -> wf_view x = wf_view t ->
  tokeniser_wf t -> tokeniser_wf x.
Proof. apply tokeniser_wf_view. Qed.

(** The end of the entity states: back to the state that asked. *)
Lemma entity_done_wf t x :
  wf_view x = wf_view t -> tokeniser_wf t ->
  state t = HUBBUB_TOKENISER_STATE_NUMBERED_ENTITY
  \/ state t = HUBBUB_TOKENISER_STATE_NAMED_ENTITY ->
  tokeniser_wf (entity_done x).
Proof.
  intros Hv Hwf Hst. settle.
Qed.

Ltac viewed :=
  unfold loop_frame, kept, wf_view in *; setters; setters;
  repeat match goal with
  | |- context [if ?b then _ else _] => destruct b
  end;
  fields;
  repeat match goal with
  | H : _ /\ _ |- _ => destruct H
  end;
  try done; try congruence.

Lemma kept_wf t x : kept t x -> tokeniser_wf t -> tokeniser_wf x.
Proof. intros [? ?]. by apply tokeniser_wf_view. Qed.

Lemma kept_trans t x y : kept t x -> kept x y -> kept t y.
Proof. unfold kept. intros [-> ->] [-> ->]. done. Qed.

Lemma numbered_entity_wf t t' c :
  tokeniser_wf t -> state t = HUBBUB_TOKENISER_STATE_NUMBERED_ENTITY ->
  hubbub_tokeniser_handle_numbered_entity t = Ok (t', c) ->
  tokeniser_wf t'.
Proof.
  intros Hwf Hst. unfold hubbub_tokeniser_handle_numbered_entity.
  cbv zeta.
  destruct (peek t =? HUBBUB_INPUTSTREAM_OOD).
  { intros H. by injection H as <- <-. }
  match goal with
  | |- mbind _ (numbered_entity_loop _ ?x) = _ -> _ =>
    set (y := x) in *;
    assert (Hy : kept t y) by (subst y; split; viewed);
    clearbody y
  end.
  destruct (numbered_entity_loop _ y) as [[h z]| | |] eqn:E;
    try discriminate.
  cbn [mbind result_bind]. apply numbered_entity_loop_frame in E.
  pose proof (kept_trans _ _ _ Hy E) as Hh. clear Hy E.
  destruct (z =? HUBBUB_INPUTSTREAM_OOD); intros H; injection H as <- <-.
  - by eapply kept_wf.
  - apply (entity_done_wf t); [|done|by left].
    destruct Hh as [_ <-]. viewed.
Qed.

Lemma named_entity_wf entities t t' c :
  tokeniser_wf t -> state t = HUBBUB_TOKENISER_STATE_NAMED_ENTITY ->
  hubbub_tokeniser_handle_named_entity entities t = Ok (t', c) ->
  tokeniser_wf t'.
Proof.
  intros Hwf Hst. unfold hubbub_tokeniser_handle_named_entity.
  cbv zeta.
  destruct (named_entity_loop _ _ t) as [[h z]| | |] eqn:E;
    try discriminate.
  cbn [mbind result_bind]. apply named_entity_loop_frame in E.
  destruct (z =? HUBBUB_INPUTSTREAM_OOD); intros H; injection H as <- <-.
  - by eapply kept_wf.
  - apply (entity_done_wf t); [|done|by right].
    destruct E as [_ <-]. viewed.
Qed.

Lemma step_wf entities t t' c :
  tokeniser_wf t -> n_attributes (current_tag (context t)) < 2 ^ 32 - 1 ->
  hubbub_tokeniser_step entities t = Ok (t', c) ->
  tokeniser_wf t'.
Proof.
  intros Hwf Hn. unfold hubbub_tokeniser_step.
  destruct (state t) eqn:Hst;
    try exact (numbered_entity_wf _ _ _ Hwf Hst);
    try exact (named_entity_wf _ _ _ _ Hwf Hst);
    handlers; blocks; cbv zeta; trace.
  all: settle.
Qed.

(** X8: every write to [ctag->attributes[ctag->n_attributes - 1]] hits a slot
    of the array.  A new tokeniser is well formed; a handler keeps a well
    formed tokeniser well formed, as long as the tag has fewer than
    2^32 - 1 attributes, so that the count does not wrap around; setting
    an option keeps it too; and in a well formed tokeniser that is in an
    attribute state, or in the state of an entity in an attribute value,
    the assignment to the last attribute is defined.  The array is taken
    to grow when a new attribute asks for it. *)
Theorem attribute_writes_in_bounds entities :
  (forall inp, tokeniser_wf (hubbub_tokeniser_create inp))
  /\ (forall t t' c,
        tokeniser_wf t ->
        n_attributes (current_tag (context t)) < 2 ^ 32 - 1 ->
        hubbub_tokeniser_step entities t = Ok (t', c) ->
        tokeniser_wf t')
  /\ (forall t type params e t',
        tokeniser_wf t ->
        hubbub_tokeniser_setopt (Some t) type params = Ok (e, Some t') ->
        tokeniser_wf t')
  /\ (forall t f,
        tokeniser_wf t -> has_last_attribute (state t) = true ->
        exists t', update_last_attribute f t = Ok t').
Proof.
  split_and!.
  - intros inp. unfold tokeniser_wf. cbn. split_and!; done.
  - apply step_wf.
  - intros t type params e t' Hwf. unfold hubbub_tokeniser_setopt.
    destruct params as [p|]; [|intros H; by injection H as <- <-].
    destruct type; cbn [mbind result_bind].
    all: repeat match goal with
         | |- context [match ?x with _ => _ end] =>
           lazymatch x with
           | Ok _ => fail
           | _ => destruct x eqn:?
           end
         end; cbn [mbind result_bind]; try discriminate.
    all: intros H; injection H as <- <-; try done.
    all: revert Hwf; apply tokeniser_wf_view; done.
  - intros t f Hwf Hs. apply update_last_attribute_defined.
    unfold has_last_attribute in Hs. unfold tokeniser_wf in Hwf.
    destruct Hwf as (_ & _ & Hwf).
    destruct (state t); cbn in Hs; try discriminate; tauto.
Qed.

Lemma attribute_writes_in_bounds_witness :
  tokeniser_wf (paused_on "<p a")
  /\ exists t',
       update_last_attribute (fun a => a) (paused_on "<p a") = Ok t'.
Proof.
  assert (H : tokeniser_wf (paused_on "<p a")).
  { assert (E : hubbub_tokeniser_step sample_entities
                  (supply "a" false (paused_on "<p "))
                = Ok (paused_on "<p a", true)) by (vm_compute; reflexivity).
    refine (proj1 (proj2 (attribute_writes_in_bounds sample_entities))
              _ _ _ _ _ E).
    - let v := eval vm_compute in (supply "a" false (paused_on "<p ")) in
      change (tokeniser_wf v).
      unfold tokeniser_wf.
      cbn [state context current_tag match_entity done_setup complete
           n_attributes attribute_state].
      split_and!; try done; lia.
    - vm_compute. reflexivity. }
  split; [exact H|].
  apply (proj2 (proj2 (proj2 (attribute_writes_in_bounds sample_entities)))).
  - exact H.
  - vm_compute. reflexivity.
Defined.

(** ** The length of a character token *)

Lemma advance_by_buffer k : forall s,
  buffer (advance_by k s) = buffer s.
Proof.
  induction k as [|k IH]; intros s; [done|].
  cbn [advance_by]. rewrite IH. unfold hubbub_inputstream_advance.
  by destruct (stream_current s) as [[? ?]|].
Qed.

Lemma handle_data_loop_text cm k : forall fuel t,
  content_model t = cm ->
  text_then_end cm k (input t) ->
  0 <= len (current_chars (context t)) ->
  (remaining t < fuel)%nat ->
  handle_data_loop fuel t
  = Ok (set_input (advance_by k (input t))
          (set_current_chars
             (accumulated (current_chars (context t))
                (Z.of_nat (cursor (input t))) k) t),
        hubbub_inputstream_peek (advance_by k (input t))).
Proof.
  induction k as [|k IH]; intros fuel t Hcm [Htext Hend] Hlen Hfuel.
  - destruct fuel as [|fuel]; [lia|]. cbn [handle_data_loop advance_by] in *.
    unfold peek. rewrite Hend. cbn [accumulated].
    by destruct t as [? ? [? ? ?] ? ? [? ? ? ? ? ? ? ? ?] ? ? ? ? ? ? ?].
  - destruct fuel as [|fuel]; [lia|]. cbn [handle_data_loop].
    pose proof (Htext 0%nat ltac:(lia)) as H0. cbn [advance_by] in H0.
    unfold data_text in H0. rewrite Hcm.
    apply andb_true_iff in H0 as [H0 H3].
    apply andb_true_iff in H0 as [H1 H2].
    apply negb_true_iff in H1, H2, H3.
    unfold peek. rewrite H1, H2, H3.
    set (cc := current_chars (context t)) in *.
    set (t1 := advance
                 (set_current_chars
                    (mk_string (if len cc =? 0
                                then Z.of_nat (cursor (input t))
                                else data_off cc)
                       (len cc + 1)) t)).
    match goal with
    | |- handle_data_loop fuel ?x = _ => replace x with t1
    end.
    2:{ subst t1 cc. unfold cur_pos, hubbub_inputstream_cur_pos, add_len.
        destruct (len (current_chars (context t)) =? 0) eqn:Hz;
          cbn; [|done].
        reflexivity. }
    rewrite IH.
    + subst t1 cc.
      destruct t as [? ? [? ? ?] ? ? [? ? ? ? cc ? ? ? ?] ? ? ? ? ? ? ?].
      cbn in *. unfold set_input, set_current_chars, set_context. cbn.
      assert (Hne : (len cc + 1 =? 0) = false) by (apply Z.eqb_neq; lia).
      do 3 f_equal. f_equal.
      destruct k as [|k]; cbn [accumulated len data_off].
      * f_equal; lia.
      * rewrite Hne. f_equal; lia.
    + done.
    + split.
      * intros i Hi. apply (Htext (S i)). lia.
      * exact Hend.
    + subst t1 cc. cbn. lia.
    + assert (Hr : (remaining t1 < remaining t)%nat)
        by (apply advance_remaining; [done|exact H1]).
      lia.
Qed.

(** A token that is no tag goes to the token handler as it is. *)
Lemma emit_plain token t h :
  token_handler t = Some h ->
  token_type token <> HUBBUB_TOKEN_START_TAG ->
  token_type token <> HUBBUB_TOKEN_END_TAG ->
  emit token t
  = Ok (add_call (token_call h token (token_pw t) (buffer (input t))) t,
        token).
Proof.
  intros Hh H1 H2. unfold emit, hubbub_tokeniser_emit_token. rewrite Hh.
  rewrite (bool_decide_eq_false_2 _ H1), (bool_decide_eq_false_2 _ H2).
  reflexivity.
Qed.

Lemma accumulated_zero pos k :
  (0 < k)%nat -> accumulated zero_string pos k = mk_string pos (Z.of_nat k).
Proof. destruct k; [lia|]. intros _. reflexivity. Qed.

(** X9: the length of a character token of the data state is a number of code
    points, not of bytes.  With [k] code points of text before the end of
    the data at hand, the data state hands the token handler one character
    token, whose span starts at the cursor and has length [k], however
    many bytes the [k] code points take; the stream is [k] code points
    further, an end of document token follows when the data ends there,
    and the run returns. *)
Theorem data_text_counts_code_points t h k :
  state t = HUBBUB_TOKENISER_STATE_DATA ->
  token_handler t = Some h ->
  (0 < k)%nat ->
  text_then_end (content_model t) k (input t) ->
  let span := mk_string (Z.of_nat (cursor (input t))) (Z.of_nat k) in
  let last := hubbub_inputstream_peek (advance_by k (input t)) in
  exists t',
    hubbub_tokeniser_handle_data t = Ok (t', false)
    /\ (forall entities fuel, run_loop entities (S fuel) t = Ok t')
    /\ input t' = advance_by k (input t)
    /\ state t' = HUBBUB_TOKENISER_STATE_DATA
    /\ calls t'
       = calls t
         ++ token_call h
              (mk_token HUBBUB_TOKEN_CHARACTER (data_character span))
              (token_pw t) (buffer (input t))
         :: (if last =? HUBBUB_INPUTSTREAM_EOF
             then [token_call h
                     (mk_token HUBBUB_TOKEN_EOF (data_character span))
                     (token_pw t) (buffer (input t))]
             else []).
Proof.
  intros Hst Hh Hk Htext span last.
  cut (exists t',
         hubbub_tokeniser_handle_data t = Ok (t', false)
         /\ input t' = advance_by k (input t)
         /\ state t' = HUBBUB_TOKENISER_STATE_DATA
         /\ calls t'
            = calls t
              ++ token_call h
                   (mk_token HUBBUB_TOKEN_CHARACTER (data_character span))
                   (token_pw t) (buffer (input t))
              :: (if last =? HUBBUB_INPUTSTREAM_EOF
                  then [token_call h
                          (mk_token HUBBUB_TOKEN_EOF (data_character span))
                          (token_pw t) (buffer (input t))]
                  else [])).
  { intros (t' & Hdata & Hrest). exists t'. split; [done|].
    split; [|done]. intros entities fuel. cbn [run_loop].
    unfold hubbub_tokeniser_step. rewrite Hst, Hdata. reflexivity. }
  unfold hubbub_tokeniser_handle_data. cbv zeta.
  rewrite (handle_data_loop_text (content_model t) k); try done;
    try (cbn; lia); try (unfold remaining; cbn; lia).
  cbn [mbind result_bind].
  change (current_chars (context (set_current_chars zero_string t)))
    with zero_string.
  change (input (set_current_chars zero_string t)) with (input t).
  rewrite accumulated_zero by done. fold span. fold last.
  set (tk := set_input (advance_by k (input t))
               (set_current_chars span (set_current_chars zero_string t))).
  assert (Hs : state tk = HUBBUB_TOKENISER_STATE_DATA) by exact Hst.
  assert (Hc : current_chars (context tk) = span) by reflexivity.
  assert (Hb : buffer (input tk) = buffer (input t))
    by apply advance_by_buffer.
  rewrite Hs, Hc.
  rewrite (bool_decide_eq_false_2
             (_ = HUBBUB_TOKENISER_STATE_TAG_OPEN)) by done.
  cbn [negb andb span len].
  replace (0 <? Z.of_nat k) with true by (symmetry; apply Z.ltb_lt; lia).
  cbn [negb andb].
  rewrite (emit_plain _ tk h) by done. cbn [mbind result_bind token_data].
  rewrite Hb. change (token_pw tk) with (token_pw t).
  pose proof (proj2 Htext) as Hend. fold last in Hend.
  destruct (last =? HUBBUB_INPUTSTREAM_EOF) eqn:Heof.
  - rewrite (emit_plain _ _ h) by done. cbn [mbind result_bind fst].
    eexists. split; [reflexivity|]. split_and!; try done.
    cbn. rewrite advance_by_buffer, <- app_assoc. done.
  - unfold is_sentinel in Hend. rewrite Heof in Hend. cbn in Hend.
    rewrite Hend. cbn [negb andb mbind result_bind].
    eexists. split; [reflexivity|]. done.
Qed.

Lemma data_text_counts_code_points_witness :
  exists t',
    hubbub_tokeniser_handle_data accented_text = Ok (t', false)
    /\ cursor (input t') = 3%nat
    /\ calls t'
       = [token_call 1
            (mk_token HUBBUB_TOKEN_CHARACTER (data_character (mk_string 0 2)))
            0 [104; 0xC3; 0xA9]].
Proof.
  destruct (data_text_counts_code_points accented_text 1 2)
    as (t' & H & _ & Hi & _ & Hc).
  - reflexivity.
  - reflexivity.
  - lia.
  - split; [|reflexivity].
    intros i Hi. destruct i as [|[|i]]; [reflexivity|reflexivity|lia].
  - exists t'. split; [exact H|]. rewrite Hi, Hc. split; reflexivity.
Defined.

(** ** The stack of open elements *)

Lemma nodes_down_step stack hi lo e :
  lo < hi -> 0 <= lo -> stack !! Z.to_nat hi = Some e ->
  nodes_down stack hi lo = Treebuilder.node e :: nodes_down stack (hi - 1) lo.
Proof.
  intros Hlt Hlo He. unfold nodes_down.
  replace (Z.to_nat (hi - lo)) with (S (Z.to_nat (hi - 1 - lo))) by lia.
  assert (Hd : drop (S (Z.to_nat lo)) stack !! Z.to_nat (hi - 1 - lo)
               = Some e).
  { rewrite lookup_drop. rewrite <- He. f_equal. lia. }
  rewrite (take_S_r _ _ _ Hd), reverse_app. reflexivity.
Qed.

Lemma nodes_down_same stack k : nodes_down stack k k = [].
Proof. unfold nodes_down. by rewrite Z.sub_diag. Qed.

Lemma foreign_break_out_loop_pops k : forall d fuel tb,
  topmost_html tb k ->
  Treebuilder.current_node tb = k + Z.of_nat d ->
  (d < fuel)%nat ->
  Treebuilder.foreign_break_out_loop fuel tb
  = Ok (Treebuilder.mk_treebuilder (Treebuilder.mode tb)
          (Treebuilder.second_mode tb) (Treebuilder.element_stack tb) k
          (Treebuilder.unref_calls tb
           ++ nodes_down (Treebuilder.element_stack tb)
                (Treebuilder.current_node tb) k)).
Proof.
  induction d as [|d IH]; intros fuel tb (Hk & (e & He & Hns) & Habove)
    Hcur Hfuel; (destruct fuel as [|fuel]; [lia|]);
    cbn [Treebuilder.foreign_break_out_loop]; unfold Treebuilder.stack_top.
  - replace (Treebuilder.current_node tb) with k by lia.
    rewrite He. cbn. rewrite Hns. cbn.
    rewrite nodes_down_same, app_nil_r.
    destruct tb; cbn in *. f_equal. f_equal. lia.
  - destruct (Habove (Treebuilder.current_node tb)) as (e' & He' & Hns');
      [lia|].
    rewrite He'. cbn [of_option mbind result_bind].
    rewrite (bool_decide_eq_false_2 _ Hns'). cbn [negb].
    unfold Treebuilder.element_stack_pop, Treebuilder.stack_top.
    rewrite He'. cbn [of_option mbind result_bind].
    replace (0 <? Treebuilder.current_node tb) with true
      by (symmetry; apply Z.ltb_lt; lia).
    cbn [mbind result_bind].
    rewrite IH.
    + cbn. f_equal. f_equal.
      rewrite (nodes_down_step _ (Treebuilder.current_node tb) k e');
        [|lia|lia|done].
      by rewrite <- app_assoc.
    + unfold topmost_html. cbn. split; [lia|]. split; [by exists e|].
      intros j Hj. apply Habove. lia.
    + cbn. lia.
    + lia.
Qed.

(** X10: [foreign_break_out] pops the entries above the topmost entry in the
    HTML namespace, and only them: the current node becomes that entry,
    the nodes of the popped entries are released from the top down, and
    the mode becomes the secondary mode. *)
Theorem foreign_break_out_pops_foreign_entries tb k :
  topmost_html tb k ->
  Treebuilder.foreign_break_out tb
  = Ok (Treebuilder.mk_treebuilder (Treebuilder.second_mode tb)
          (Treebuilder.second_mode tb) (Treebuilder.element_stack tb) k
          (Treebuilder.unref_calls tb
           ++ nodes_down (Treebuilder.element_stack tb)
                (Treebuilder.current_node tb) k)).
Proof.
  intros Hk. unfold Treebuilder.foreign_break_out.
  rewrite (foreign_break_out_loop_pops k
             (Z.to_nat (Treebuilder.current_node tb - k))); try done.
  - destruct Hk as [Hk _]. lia.
  - destruct Hk as [Hk _]. lia.
Qed.

Lemma foreign_break_out_pops_foreign_entries_witness :
  Treebuilder.foreign_break_out svg_treebuilder
  = Ok (Treebuilder.mk_treebuilder Treebuilder.IN_BODY Treebuilder.IN_BODY
          (Treebuilder.element_stack svg_treebuilder) 1 [4; 3]).
Proof.
  refine (foreign_break_out_pops_foreign_entries svg_treebuilder 1 _).
  split; [cbn; lia|]. split; [eexists; split; reflexivity|].
  intros j Hj. cbn in Hj.
  assert (Hc : j = 2 \/ j = 3) by lia.
  destruct Hc as [-> | ->]; eexists; (split; [reflexivity|done]).
Defined.

Lemma scope_scan_spec ise stack : forall d fuel n,
  n = Z.of_nat d -> (d < fuel)%nat -> (d < length stack)%nat ->
  exists b,
    Treebuilder.scope_scan ise fuel stack n = Ok b
    /\ (b = true <-> exists k, foreign_in_scope ise stack n k).
Proof.
  induction d as [|d IH]; intros fuel n Hn Hfuel Hlen;
    (destruct fuel as [|fuel]; [lia|]); cbn [Treebuilder.scope_scan].
  - subst n. cbn. exists false. split; [done|]. split; [done|].
    intros (k & Hk & _). lia.
  - replace (0 <? n) with true by (symmetry; apply Z.ltb_lt; lia).
    destruct (lookup_lt_is_Some_2 stack (Z.to_nat n)) as [e He]; [lia|].
    rewrite He. cbn [of_option mbind result_bind].
    fold (scope_barrier ise e).
    destruct (scope_barrier ise e) eqn:Hb.
    { exists false. split; [done|]. split; [done|].
      intros (k & Hk & _ & Hall).
      rewrite (Hall n e) in Hb; [done|lia|done]. }
    destruct (bool_decide (Treebuilder.ns e = HUBBUB_NS_HTML)) eqn:Hns;
      cbn [negb].
    + apply bool_decide_eq_true in Hns.
      destruct (IH fuel (n - 1)) as (b & Hscan & Hiff); [lia|lia|lia|].
      exists b. split; [done|]. rewrite Hiff. split.
      * intros (k & Hk & Hk2 & Hall). exists k. split; [lia|].
        split; [done|]. intros j e' Hj He'.
        destruct (decide (j = n)) as [->|Hne].
        -- by simplify_eq.
        -- apply (Hall j); [lia|done].
      * intros (k & Hk & (e' & He' & Hns') & Hall).
        assert (k <> n) by (intros ->; simplify_eq).
        exists k. split; [lia|]. split; [by exists e'|].
        intros j e'' Hj. apply Hall. lia.
    + apply bool_decide_eq_false in Hns.
      exists true. split; [done|]. split; [|done]. intros _.
      exists n. split; [lia|]. split; [by exists e|].
      intros j e' Hj He'. assert (j = n) as -> by lia. by simplify_eq.
Qed.

(** X11: [element_in_scope_in_non_html_ns] returns true exactly when an entry
    above the bottom of the stack is outside the HTML namespace and no
    table or scoping element sits at it or between it and the current
    node.  The bottom entry is never looked at, and a foreign entry that
    is itself a scoping element does not count. *)
Theorem element_in_scope_in_non_html_ns_spec ise tb :
  0 <= Treebuilder.current_node tb ->
  (Z.to_nat (Treebuilder.current_node tb)
   < length (Treebuilder.element_stack tb))%nat ->
  exists b,
    Treebuilder.element_in_scope_in_non_html_ns ise tb = Ok b
    /\ (b = true
        <-> exists k,
              foreign_in_scope ise (Treebuilder.element_stack tb)
                (Treebuilder.current_node tb) k).
Proof.
  intros Hn Hlen. unfold Treebuilder.element_in_scope_in_non_html_ns.
  apply (scope_scan_spec ise _ (Z.to_nat (Treebuilder.current_node tb)));
    lia.
Qed.

Lemma element_in_scope_in_non_html_ns_spec_witness :
  exists b,
    Treebuilder.element_in_scope_in_non_html_ns (fun _ => false)
      svg_treebuilder = Ok b
    /\ (b = true
        <-> exists k,
              foreign_in_scope (fun _ => false)
                (Treebuilder.element_stack svg_treebuilder)
                (Treebuilder.current_node svg_treebuilder) k).
Proof.
  refine (element_in_scope_in_non_html_ns_spec (fun _ => false)
            svg_treebuilder _ _).
  - cbn. lia.
  - cbn. lia.
Defined.

(** ** Closing a caption *)

Lemma caption_pop_loop_pops k : forall d fuel otype tb,
  otype <> Element.CAPTION ->
  topmost_caption tb k ->
  Treebuilder.current_node tb = k + Z.of_nat d ->
  (S d < fuel)%nat ->
  caption_pop_loop fuel otype tb = Ok (popped_through tb k).
Proof.
  induction d as [|d IH];
    intros fuel otype tb Ho (Hk & (e & He & Hty) & Habove) Hcur Hfuel;
    (destruct fuel as [|fuel]; [lia|]); cbn [caption_pop_loop];
    rewrite (bool_decide_eq_false_2 _ Ho); cbn [negb];
    unfold Treebuilder.element_stack_pop, Treebuilder.stack_top.
  - replace (Treebuilder.current_node tb) with k by lia.
    rewrite He. cbn [of_option mbind result_bind].
    replace (0 <? k) with true by (symmetry; apply Z.ltb_lt; lia).
    cbn [mbind result_bind].
    destruct fuel as [|fuel]; [lia|]. cbn [caption_pop_loop].
    rewrite Hty. cbn. unfold popped_through. f_equal. f_equal.
    replace (Treebuilder.current_node tb) with k by lia.
    rewrite (nodes_down_step _ k (k - 1) e); [|lia|lia|done].
    by rewrite nodes_down_same.
  - destruct (Habove (Treebuilder.current_node tb)) as (e' & He' & Hty');
      [lia|].
    rewrite He'. cbn [of_option mbind result_bind].
    replace (0 <? Treebuilder.current_node tb) with true
      by (symmetry; apply Z.ltb_lt; lia).
    cbn [mbind result_bind].
    rewrite IH.
    + unfold popped_through. cbn. f_equal. f_equal.
      rewrite (nodes_down_step _ (Treebuilder.current_node tb) (k - 1) e');
        [|lia|lia|done].
      by rewrite <- app_assoc.
    + done.
    + unfold topmost_caption. cbn. split; [lia|]. split; [by exists e|].
      intros j Hj. apply Habove. lia.
    + cbn. lia.
    + lia.
Qed.

(** X12: "In caption" never asks for the token to be processed again.  For the
    start tags of the table structure and for the end tags of a caption
    and of a table, it closes the caption: after the implied end tags, it
    pops the entries of the stack down to and including the topmost
    caption, releases their nodes from the top down, clears the list of
    active formatting elements up to the marker and switches to "in
    table"; the token itself is then dropped. *)
Theorem in_caption_closes_caption etfn hib ciet cafl :
  (forall tb token tb' reprocess,
     handle_in_caption etfn hib ciet cafl tb token = Ok (tb', reprocess) ->
     reprocess = false)
  /\ (forall tb token tb1 k tb3,
        closes_caption etfn token = true ->
        ciet tb Element.UNKNOWN = Ok tb1 ->
        topmost_caption tb1 k ->
        cafl (popped_through tb1 k) = Ok tb3 ->
        handle_in_caption etfn hib ciet cafl tb token
        = Ok (Treebuilder.set_mode Treebuilder.IN_TABLE tb3, false)).
Proof.
  split.
  - intros tb token tb' reprocess. unfold handle_in_caption.
    destruct (in_caption_switch _ _ _ _) as [[tb1 handled]| | |];
      try discriminate.
    cbn [mbind result_bind].
    match goal with
    | |- mbind _ ?m = _ -> _ => destruct m; try discriminate
    end.
    cbn. intros H. by injection H as _ <-.
  - intros tb token tb1 k tb3 Hc H1 Hk H3. unfold handle_in_caption.
    assert (Hsw : in_caption_switch etfn hib tb token = Ok (tb, true)).
    { unfold in_caption_switch, closes_caption in *.
      destruct (token_type token); try discriminate;
        destruct (token_data token) as [?|tag|?|?|]; try discriminate.
      - by rewrite Hc.
      - apply bool_decide_eq_true in Hc.
        apply elem_of_cons in Hc as [Hc|Hc].
        + by rewrite Hc.
        + apply elem_of_cons in Hc as [Hc|Hc]; [by rewrite Hc|].
          by apply elem_of_nil in Hc. }
    rewrite Hsw. cbn [mbind result_bind orb]. rewrite H1.
    cbn [mbind result_bind].
    rewrite (caption_pop_loop_pops k
               (Z.to_nat (Treebuilder.current_node tb1 - k)));
      try done; try (destruct Hk as [Hk _]; lia).
    cbn [mbind result_bind]. rewrite H3. reflexivity.
Qed.

Lemma in_caption_closes_caption_witness :
  handle_in_caption (fun _ => Element.TD) (fun tb _ => Ok tb)
    (fun tb _ => Ok tb) (fun tb => Ok tb) caption_treebuilder td_start_tag
  = Ok (Treebuilder.mk_treebuilder Treebuilder.IN_TABLE Treebuilder.IN_BODY
          (Treebuilder.element_stack caption_treebuilder) 2 [5; 4],
        false).
Proof.
  refine (proj2 (in_caption_closes_caption (fun _ => Element.TD)
                   (fun tb _ => Ok tb) (fun tb _ => Ok tb)
                   (fun tb => Ok tb))
            caption_treebuilder td_start_tag caption_treebuilder 3
            (popped_through caption_treebuilder 3) _ _ _ _).
  - reflexivity.
  - reflexivity.
  - split; [cbn; lia|]. split; [eexists; split; reflexivity|].
    intros j Hj. cbn in Hj. assert (j = 4) as -> by lia.
    eexists; (split; [reflexivity|done]).
  - reflexivity.
Defined.

(** ** The length of a bogus comment *)

Lemma cur_pos_advance s :
  (hubbub_inputstream_cur_pos s).2
  = Z.of_nat (cursor (hubbub_inputstream_advance s)) - Z.of_nat (cursor s)
  /\ (hubbub_inputstream_cur_pos s).1 = Z.of_nat (cursor s).
Proof.
  unfold hubbub_inputstream_cur_pos, hubbub_inputstream_advance.
  destruct (stream_current s) as [[c n]|]; cbn; lia.
Qed.

Lemma advance_cursor_text s :
  is_sentinel (hubbub_inputstream_peek s) = false ->
  (cursor s < cursor (hubbub_inputstream_advance s))%nat.
Proof.
  unfold hubbub_inputstream_peek, hubbub_inputstream_advance.
  destruct (stream_current s) as [[c n]|] eqn:Hc.
  - intros _. apply utf8_decode_length in Hc. cbn. lia.
  - destruct (had_eof s); discriminate.
Qed.

Lemma advance_by_cursor k : forall s,
  (cursor s <= cursor (advance_by k s))%nat.
Proof.
  induction k as [|k IH]; intros s; [done|]. cbn [advance_by].
  etrans; [|apply IH]. unfold hubbub_inputstream_advance.
  destruct (stream_current s) as [[c n]|]; cbn; lia.
Qed.

Lemma bogus_comment_loop_text k : forall fuel t,
  (forall i, (i < k)%nat ->
     comment_text (hubbub_inputstream_peek (advance_by i (input t))) = true) ->
  comment_text (hubbub_inputstream_peek (advance_by k (input t))) = false ->
  0 <= len (current_comment (context t)) ->
  (remaining t < fuel)%nat ->
  bogus_comment_loop fuel t
  = Ok (set_input
          (past_gt (hubbub_inputstream_peek (advance_by k (input t)))
             (advance_by k (input t)))
          (set_current_comment
             (extended (current_comment (context t))
                (Z.of_nat (cursor (input t)))
                (Z.of_nat (cursor (advance_by k (input t)))) k) t),
        hubbub_inputstream_peek (advance_by k (input t))).
Proof.
  induction k as [|k IH]; intros fuel t Htext Hend Hlen Hfuel;
    (destruct fuel as [|fuel]; [lia|]); cbn [bogus_comment_loop advance_by].
  - cbn [advance_by] in Hend. unfold comment_text in Hend. unfold peek.
    unfold past_gt. cbn [extended].
    destruct (is_sentinel (hubbub_inputstream_peek (input t))) eqn:Hs.
    + destruct (hubbub_inputstream_peek (input t) =? chr ">") eqn:Hgt.
      * apply Z.eqb_eq in Hgt. rewrite Hgt in Hs. discriminate.
      * by destruct t as [? ? [? ? ?] ? ? [? ? ? ? ? ? ? ? ?] ? ? ? ? ? ? ?].
    + cbn in Hend. apply negb_false_iff in Hend. rewrite Hend.
      unfold advance.
      by destruct t as [? ? [? ? ?] ? ? [? ? ? ? ? ? ? ? ?] ? ? ? ? ? ? ?].
  - pose proof (Htext 0%nat ltac:(lia)) as H0. cbn [advance_by] in H0.
    unfold comment_text in H0. apply andb_true_iff in H0 as [H1 H2].
    apply negb_true_iff in H1, H2. unfold peek. rewrite H1, H2.
    destruct (cur_pos_advance (input t)) as [Hl Hp].
    pose proof (advance_cursor_text _ H1) as Hadv.
    pose proof (advance_by_cursor k (hubbub_inputstream_advance (input t)))
      as Hmono.
    set (cc := current_comment (context t)) in *.
    set (t1 := advance
                 (set_current_comment
                    (mk_string (if len cc =? 0
                                then Z.of_nat (cursor (input t))
                                else data_off cc)
                       (len cc
                        + (Z.of_nat
                             (cursor (hubbub_inputstream_advance (input t)))
                           - Z.of_nat (cursor (input t))))) t)).
    replace (advance (extend_comment t)) with t1.
    2:{ subst t1 cc. unfold extend_comment, cur_pos, add_len.
        rewrite Hl, Hp.
        by destruct (len (current_comment (context t)) =? 0). }
    rewrite IH.
    + subst t1 cc.
      destruct t as [? ? inp ? ? [? ? cc ? ? ? ? ? ?] ? ? ? ? ? ? ?].
      cbn in *. unfold set_input, set_current_comment, set_context. cbn.
      do 3 f_equal. f_equal.
      destruct k as [|k]; cbn [extended len data_off advance_by].
      * done.
      * replace (len cc + _ =? 0) with false
          by (symmetry; apply Z.eqb_neq; lia).
        f_equal; lia.
    + intros i Hi. apply (Htext (S i)). lia.
    + exact Hend.
    + subst t1 cc. cbn. lia.
    + assert (Hr : (remaining t1 < remaining t)%nat)
        by (apply advance_remaining; [done|exact H1]).
      lia.
Qed.

(** X13: the length of a bogus comment counts bytes.  With [k] code points
    before a [>] or the end of the document, the bogus comment state
    hands the token handler one comment token: the comment it had,
    extended by the bytes that the [k] code points take.  It consumes the
    [>] and goes to the data state. *)
Theorem bogus_comment_spans_bytes t h k :
  token_handler t = Some h ->
  0 <= len (current_comment (context t)) ->
  (forall i, (i < k)%nat ->
     comment_text (hubbub_inputstream_peek (advance_by i (input t))) = true) ->
  let last := hubbub_inputstream_peek (advance_by k (input t)) in
  last = chr ">" \/ last = HUBBUB_INPUTSTREAM_EOF ->
  let span := extended (current_comment (context t))
                (Z.of_nat (cursor (input t)))
                (Z.of_nat (cursor (advance_by k (input t)))) k in
  exists t',
    hubbub_tokeniser_handle_bogus_comment t = Ok (t', true)
    /\ state t' = HUBBUB_TOKENISER_STATE_DATA
    /\ input t' = past_gt last (advance_by k (input t))
    /\ calls t'
       = calls t
         ++ [token_call h
               (mk_token HUBBUB_TOKEN_COMMENT (data_comment span))
               (token_pw t) (buffer (input t))].
Proof.
  intros Hh Hlen Htext last Hlast span.
  unfold hubbub_tokeniser_handle_bogus_comment.
  rewrite (bogus_comment_loop_text k); try done; try lia.
  2:{ fold last. unfold comment_text.
      destruct Hlast as [-> | ->]; reflexivity. }
  cbn [mbind result_bind]. fold last. fold span.
  replace (last =? HUBBUB_INPUTSTREAM_OOD) with false
    by (destruct Hlast as [-> | ->]; reflexivity).
  unfold emit_comment.
  rewrite (emit_plain _ _ h) by done. cbn [mbind result_bind fst].
  eexists. split; [reflexivity|]. split_and!; try done.
  cbn. do 3 f_equal. unfold past_gt.
  destruct (last =? chr ">"); [|apply advance_by_buffer].
  unfold hubbub_inputstream_advance.
  destruct (stream_current _) as [[? ?]|]; apply advance_by_buffer.
Qed.

Lemma bogus_comment_spans_bytes_witness :
  exists t',
    hubbub_tokeniser_handle_bogus_comment accented_comment = Ok (t', true)
    /\ cursor (input t') = 6%nat
    /\ calls t'
       = [token_call 1
            (mk_token HUBBUB_TOKEN_COMMENT (data_comment (mk_string 2 3)))
            0 [60; 63; 0xC3; 0xA9; 33; 62]].
Proof.
  destruct (bogus_comment_spans_bytes accented_comment 1 2)
    as (t' & H & _ & Hi & Hc).
  - reflexivity.
  - cbn. lia.
  - intros i Hi. destruct i as [|[|i]]; [reflexivity|reflexivity|lia].
  - left. reflexivity.
  - exists t'. split; [exact H|]. rewrite Hi, Hc. split; reflexivity.
Defined.

(** ** The name of a start tag *)

Section Stream.

Variables (pre rest : list Z) (c : Z) (eof : bool).

Hypothesis Hc : 0 <= c < 0x80.

Let s := mk_stream (pre ++ c :: rest) (length pre) eof.

Lemma stream_current_letter : stream_current s = Some (c, 1%nat).
Proof.
  unfold stream_current, s. cbn [buffer cursor].
  rewrite drop_app_length. unfold utf8_decode.
  replace ((0 <=? c) && (c <? 128)) with true; [done|].
  symmetry. apply andb_true_iff. split; [apply Z.leb_le|apply Z.ltb_lt]; lia.
Qed.

Lemma peek_letter : hubbub_inputstream_peek s = c.
Proof. unfold hubbub_inputstream_peek. by rewrite stream_current_letter. Qed.

Lemma cur_pos_letter :
  hubbub_inputstream_cur_pos s = (Z.of_nat (length pre), 1).
Proof. unfold hubbub_inputstream_cur_pos. by rewrite stream_current_letter. Qed.

Lemma advance_letter :
  hubbub_inputstream_advance s
  = mk_stream (pre ++ c :: rest) (length pre + 1) eof.
Proof.
  unfold hubbub_inputstream_advance. by rewrite stream_current_letter.
Qed.

Lemma lowercase_letter :
  hubbub_inputstream_lowercase s
  = mk_stream (pre ++ ascii_fold c :: rest) (length pre) eof.
Proof.
  unfold hubbub_inputstream_lowercase, map_at, s. cbn [buffer cursor had_eof].
  rewrite list_lookup_middle by done.
  f_equal. rewrite insert_app_r_alt by lia.
  by rewrite Nat.sub_diag.
Qed.

End Stream.

Lemma is_letter_range c :
  is_letter c = true -> 65 <= c <= 90 \/ 97 <= c <= 122.
Proof.
  unfold is_letter, is_upper, is_lower.
  change (chr "A") with 65. change (chr "Z") with 90.
  change (chr "a") with 97. change (chr "z") with 122. intros H.
  apply orb_true_iff in H as [H|H]; apply andb_true_iff in H as [H1 H2];
    apply Z.leb_le in H1, H2; lia.
Qed.

Lemma is_letter_ascii c : is_letter c = true -> 0 <= c < 0x80.
Proof. intros H. apply is_letter_range in H. lia. Qed.

Section TagName.

Variable entities : list (list Z * Z).

Lemma tag_name_letter t pre c rest :
  state t = HUBBUB_TOKENISER_STATE_TAG_NAME ->
  buffer (input t) = pre ++ c :: rest ->
  cursor (input t) = length pre ->
  is_letter c = true ->
  hubbub_tokeniser_step entities t
  = Ok (named t (pre ++ ascii_fold c :: rest) (length pre + 1) 1, true).
Proof.
  intros Hst Hbuf Hcur Hc.
  pose proof (is_letter_ascii c Hc) as Hr.
  unfold hubbub_tokeniser_step. rewrite Hst.
  unfold hubbub_tokeniser_handle_tag_name. cbv zeta.
  assert (Hin : input t = mk_stream (pre ++ c :: rest) (length pre)
                            (had_eof (input t))).
  { destruct (input t); cbn in *. by subst. }
  unfold peek. rewrite Hin, peek_letter by done.
  pose proof (is_letter_range c Hc) as Hl.
  replace (c =? HUBBUB_INPUTSTREAM_OOD) with false
    by (symmetry; apply Z.eqb_neq; unfold HUBBUB_INPUTSTREAM_OOD; lia).
  replace (is_space c) with false
    by (symmetry; unfold is_space;
        repeat (apply orb_false_iff; split); apply Z.eqb_neq; lia).
  replace (c =? chr ">") with false
    by (symmetry; apply Z.eqb_neq; change (chr ">") with 62; lia).
  unfold named, extend_tag_name, lowercase, advance, cur_pos.
  destruct (is_upper c) eqn:Hup.
  - assert (Hf : 0 <= ascii_fold c < 0x80).
    { unfold ascii_fold. rewrite Hup. unfold is_upper in Hup.
      change (chr "A") with 65 in Hup. change (chr "Z") with 90 in Hup.
      apply andb_true_iff in Hup as [H1 H2]. apply Z.leb_le in H1, H2.
      lia. }
    cbn [input set_input set_current_tag set_context context].
    rewrite Hin, lowercase_letter, cur_pos_letter, advance_letter;
      done.
  - replace ((c =? chr "<") || (c =? HUBBUB_INPUTSTREAM_EOF)) with false
      by (symmetry; apply orb_false_iff;
          split; apply Z.eqb_neq; [change (chr "<") with 60|
            unfold HUBBUB_INPUTSTREAM_EOF]; lia).
    replace (c =? chr "/") with false
      by (symmetry; apply Z.eqb_neq; change (chr "/") with 47; lia).
    cbn [input set_input set_current_tag set_context context].
    rewrite Hin, cur_pos_letter, advance_letter; try done.
    unfold ascii_fold. rewrite Hup.
    by destruct t as [? ? [? ? ?] ? ? [? ? ? ? ? ? ? ? ?] ? ? ? ? ? ? ?].
Qed.

Lemma named_named t b1 c1 e1 b2 c2 e2 :
  named (named t b1 c1 e1) b2 c2 e2 = named t b2 c2 (e1 + e2).
Proof.
  destruct t as [? ? [? ? ?] ? ? [? [? [? ?] ? ? ?] ? ? ? ? ? ? ?]
                   ? ? ? ? ? ? ?].
  unfold named, add_len, set_input, set_current_tag, set_context. cbn.
  by rewrite Z.add_assoc.
Qed.

Lemma named_same t :
  named t (buffer (input t)) (cursor (input t)) 0 = t.
Proof.
  destruct t as [? ? [? ? ?] ? ? [? [? [? ?] ? ? ?] ? ? ? ? ? ? ?]
                   ? ? ? ? ? ? ?].
  unfold named, add_len, set_input, set_current_tag, set_context. cbn.
  by rewrite Z.add_0_r.
Qed.

Lemma tag_name_letters rest : forall name pre t fuel,
  state t = HUBBUB_TOKENISER_STATE_TAG_NAME ->
  buffer (input t) = pre ++ name ++ rest ->
  cursor (input t) = length pre ->
  Forall (fun c => is_letter c = true) name ->
  run_loop entities (length name + fuel) t
  = run_loop entities fuel
      (named t (pre ++ map ascii_fold name ++ rest)
         (length pre + length name) (Z.of_nat (length name))).
Proof.
  induction name as [|c name IH]; intros pre t fuel Hst Hbuf Hcur Hall.
  - cbn [length map app Nat.add Z.of_nat]. rewrite Nat.add_0_r.
    cbn [app] in Hbuf. rewrite <- Hbuf, <- Hcur. by rewrite named_same.
  - apply Forall_cons in Hall as [Hc Hall].
    cbn [length Nat.add run_loop].
    rewrite (tag_name_letter t pre c (name ++ rest)) by done.
    cbn [mbind result_bind].
    rewrite (IH (pre ++ [ascii_fold c])).
    + rewrite named_named. f_equal. f_equal.
      * cbn [map]. by rewrite <- app_assoc.
      * rewrite length_app. cbn. lia.
      * lia.
    + done.
    + cbn. by rewrite <- app_assoc.
    + cbn. rewrite length_app. cbn. lia.
    + done.
Qed.

Lemma input_eq t pre c rest :
  buffer (input t) = pre ++ c :: rest -> cursor (input t) = length pre ->
  input t = mk_stream (pre ++ c :: rest) (length pre) (had_eof (input t)).
Proof. destruct (input t); cbn. by intros -> ->. Qed.

(** The data state in front of a [<]. *)
Lemma data_lt t pre rest :
  state t = HUBBUB_TOKENISER_STATE_DATA ->
  content_model t = HUBBUB_CONTENT_MODEL_PCDATA ->
  buffer (input t) = pre ++ chr "<" :: rest ->
  cursor (input t) = length pre ->
  exists t1,
    hubbub_tokeniser_step entities t = Ok (t1, true)
    /\ state t1 = HUBBUB_TOKENISER_STATE_TAG_OPEN
    /\ content_model t1 = HUBBUB_CONTENT_MODEL_PCDATA
    /\ input t1 = mk_stream (pre ++ chr "<" :: rest) (length pre + 1)
                    (had_eof (input t))
    /\ token_handler t1 = token_handler t /\ token_pw t1 = token_pw t
    /\ calls t1 = calls t.
Proof.
  intros Hst Hcm Hbuf Hcur.
  pose proof (input_eq t pre _ rest Hbuf Hcur) as Hin.
  assert (Hr : 0 <= chr "<" < 0x80) by (change (chr "<") with 60; lia).
  unfold hubbub_tokeniser_step. rewrite Hst.
  unfold hubbub_tokeniser_handle_data. cbv zeta.
  cbn [handle_data_loop]. unfold peek.
  cbn [input set_current_chars set_context content_model context
       current_chars len zero_string].
  rewrite Hin, peek_letter, Hcm by done.
  change (is_sentinel (chr "<")) with false.
  change (chr "<" =? chr "&") with false.
  change (chr "<" =? chr "<") with true.
  cbn [andb orb negb bool_decide decide_rel]. cbv iota.
  rewrite (bool_decide_eq_false_2
             (_ = HUBBUB_CONTENT_MODEL_PLAINTEXT)) by done.
  cbn [negb]. change (0 <? 0) with false. cbv iota.
  cbn [mbind result_bind].
  unfold cur_pos, advance.
  cbn [input set_input set_state set_current_chars set_context state
       context current_chars].
  rewrite Hin, cur_pos_letter, advance_letter by done.
  rewrite (bool_decide_eq_true_2
             (HUBBUB_TOKENISER_STATE_TAG_OPEN
              = HUBBUB_TOKENISER_STATE_TAG_OPEN)) by done.
  cbn [negb andb mbind result_bind].
  change (chr "<" =? HUBBUB_INPUTSTREAM_EOF) with false.
  change (chr "<" =? HUBBUB_INPUTSTREAM_OOD) with false.
  cbn [negb andb mbind result_bind].
  eexists. split; [reflexivity|]. cbn. done.
Qed.

(** The tag open state in front of a letter. *)
Lemma tag_open_letter t pre c rest :
  state t = HUBBUB_TOKENISER_STATE_TAG_OPEN ->
  content_model t = HUBBUB_CONTENT_MODEL_PCDATA ->
  buffer (input t) = pre ++ c :: rest ->
  cursor (input t) = length pre ->
  is_letter c = true ->
  exists t1,
    hubbub_tokeniser_step entities t = Ok (t1, true)
    /\ state t1 = HUBBUB_TOKENISER_STATE_TAG_NAME
    /\ input t1 = mk_stream (pre ++ ascii_fold c :: rest) (length pre + 1)
                    (had_eof (input t))
    /\ tag_name (current_tag (context t1))
       = mk_string (Z.of_nat (length pre)) 1
    /\ n_attributes (current_tag (context t1)) = 0
    /\ current_tag_type (context t1) = HUBBUB_TOKEN_START_TAG
    /\ token_handler t1 = token_handler t /\ token_pw t1 = token_pw t
    /\ calls t1 = calls t.
Proof.
  intros Hst Hcm Hbuf Hcur Hc.
  pose proof (input_eq t pre _ rest Hbuf Hcur) as Hin.
  pose proof (is_letter_ascii c Hc) as Hr.
  pose proof (is_letter_range c Hc) as Hl.
  unfold hubbub_tokeniser_step. rewrite Hst.
  unfold hubbub_tokeniser_handle_tag_open. cbv zeta.
  unfold peek. rewrite Hin, peek_letter, Hcm by done.
  replace (c =? HUBBUB_INPUTSTREAM_OOD) with false
    by (symmetry; apply Z.eqb_neq; unfold HUBBUB_INPUTSTREAM_OOD; lia).
  cbn [bool_decide decide_rel orb].
  rewrite (bool_decide_eq_false_2 (_ = HUBBUB_CONTENT_MODEL_RCDATA)),
    (bool_decide_eq_false_2 (_ = HUBBUB_CONTENT_MODEL_CDATA)),
    (bool_decide_eq_true_2 (_ = HUBBUB_CONTENT_MODEL_PCDATA)) by done.
  cbn [orb].
  replace (c =? chr "!") with false
    by (symmetry; apply Z.eqb_neq; change (chr "!") with 33; lia).
  replace (c =? chr "/") with false
    by (symmetry; apply Z.eqb_neq; change (chr "/") with 47; lia).
  unfold start_tag_token, lowercase, advance, cur_pos.
  destruct (is_upper c) eqn:Hup.
  - assert (Hf : 0 <= ascii_fold c < 0x80).
    { unfold ascii_fold. rewrite Hup. unfold is_upper in Hup.
      change (chr "A") with 65 in Hup. change (chr "Z") with 90 in Hup.
      apply andb_true_iff in Hup as [H1 H2]. apply Z.leb_le in H1, H2.
      lia. }
    eexists. split; [reflexivity|].
    cbn [input set_input set_current_tag set_current_tag_type set_context
         set_state context state current_tag tag_name n_attributes
         current_tag_type token_handler token_pw calls].
    rewrite Hin, lowercase_letter, cur_pos_letter, advance_letter by done.
    done.
  - assert (Hlow : is_lower c = true)
      by (unfold is_letter in Hc; by rewrite Hup in Hc).
    rewrite Hlow.
    eexists. split; [reflexivity|].
    cbn [input set_input set_current_tag set_current_tag_type set_context
         set_state context state current_tag tag_name n_attributes
         current_tag_type token_handler token_pw calls].
    rewrite Hin, cur_pos_letter, advance_letter by done.
    unfold ascii_fold. rewrite Hup. done.
Qed.

(** The tag name state in front of a [>], for a tag without attributes. *)
Lemma tag_name_gt t h pre rest :
  state t = HUBBUB_TOKENISER_STATE_TAG_NAME ->
  buffer (input t) = pre ++ chr ">" :: rest ->
  cursor (input t) = length pre ->
  token_handler t = Some h ->
  n_attributes (current_tag (context t)) = 0 ->
  exists t1,
    hubbub_tokeniser_step entities t = Ok (t1, true)
    /\ state t1 = HUBBUB_TOKENISER_STATE_DATA
    /\ input t1 = mk_stream (pre ++ chr ">" :: rest) (length pre + 1)
                    (had_eof (input t))
    /\ token_handler t1 = Some h /\ token_pw t1 = token_pw t
    /\ calls t1
       = calls t
         ++ [token_call h
               (mk_token (current_tag_type (context t))
                  (data_tag (current_tag (context t))))
               (token_pw t) (buffer (input t))].
Proof.
  intros Hst Hbuf Hcur Hh Hn.
  pose proof (input_eq t pre _ rest Hbuf Hcur) as Hin.
  assert (Hr : 0 <= chr ">" < 0x80) by (change (chr ">") with 62; lia).
  unfold hubbub_tokeniser_step. rewrite Hst.
  unfold hubbub_tokeniser_handle_tag_name. cbv zeta.
  unfold peek. rewrite Hin, peek_letter by done.
  change (chr ">" =? HUBBUB_INPUTSTREAM_OOD) with false.
  change (is_space (chr ">")) with false.
  change (chr ">" =? chr ">") with true. cbv iota.
  unfold emit_tag_to_data, emit_current_tag, emit,
    hubbub_tokeniser_emit_token.
  rewrite Hh. cbn [token_type token_data].
  destruct (bool_decide (current_tag_type (context t)
                         = HUBBUB_TOKEN_START_TAG)
            || bool_decide (current_tag_type (context t)
                            = HUBBUB_TOKEN_END_TAG)).
  - rewrite Hn. cbn [Z.to_nat discard_duplicates].
    change (0 <? 0) with false. cbv iota.
    cbn [mbind result_bind token_data]. unfold advance.
    eexists. split; [reflexivity|].
    cbn [input set_input set_current_tag set_context set_state add_call
         context state token_handler token_pw calls].
    rewrite Hin, advance_letter by done. cbn [buffer].
    rewrite <- Hbuf. split_and!; try done.
    destruct (current_tag (context t)); cbn in *. by subst.
  - cbn [mbind result_bind token_data]. unfold advance.
    eexists. split; [reflexivity|].
    cbn [input set_input set_current_tag set_context set_state add_call
         context state token_handler token_pw calls].
    rewrite Hin, advance_letter by done. cbn [buffer].
    rewrite <- Hbuf. done.
Qed.

(** The data state at the end of the document. *)
Lemma data_eof t h :
  state t = HUBBUB_TOKENISER_STATE_DATA ->
  cursor (input t) = length (buffer (input t)) ->
  had_eof (input t) = true ->
  token_handler t = Some h ->
  exists t1,
    hubbub_tokeniser_step entities t = Ok (t1, false)
    /\ input t1 = input t
    /\ calls t1
       = calls t
         ++ [token_call h (mk_token HUBBUB_TOKEN_EOF data_none)
               (token_pw t) (buffer (input t))].
Proof.
  intros Hst Hcur Heof Hh.
  assert (Hp : hubbub_inputstream_peek (input t) = HUBBUB_INPUTSTREAM_EOF).
  { unfold hubbub_inputstream_peek, stream_current.
    rewrite Hcur, drop_all, Heof. reflexivity. }
  unfold hubbub_tokeniser_step. rewrite Hst.
  unfold hubbub_tokeniser_handle_data. cbv zeta.
  cbn [handle_data_loop]. unfold peek.
  cbn [input set_current_chars set_context]. rewrite Hp.
  change (is_sentinel HUBBUB_INPUTSTREAM_EOF) with true. cbv iota.
  cbn [mbind result_bind state set_current_chars set_context context
       current_chars zero_string len].
  change (0 <? 0) with false. rewrite andb_false_r.
  cbn [mbind result_bind].
  change (HUBBUB_INPUTSTREAM_EOF =? HUBBUB_INPUTSTREAM_EOF) with true.
  cbv iota. rewrite (emit_plain _ _ h) by done.
  cbn [mbind result_bind fst negb andb].
  eexists. split; [reflexivity|]. done.
Qed.

End TagName.

(** X14: the name of a start tag is reported in lower case.  For the document
    [<name>], with a name of ASCII letters, the run makes one handler
    call per byte and one for the end of the document, no more and no
    less: it returns with that many rounds of the loop and does not with
    one round less.  It lowers the upper-case letters of the name in the
    buffer, and the token handler receives a start tag with the
    lower-cased name and no attribute, then the end of the document. *)
Theorem start_tag_name_lower_cased entities h pw name :
  name <> [] ->
  Forall (fun c => is_letter c = true) name ->
  exists t',
    run_loop entities (length name + 3)
      (set_token_handler (Some h) pw
         (hubbub_tokeniser_create
            (mk_stream (start_tag_document name) 0 true)))
    = Ok t'
    /\ run_loop entities (length name + 2)
         (set_token_handler (Some h) pw
            (hubbub_tokeniser_create
               (mk_stream (start_tag_document name) 0 true)))
       = Timeout
    /\ buffer (input t') = start_tag_document (map ascii_fold name)
    /\ emitted t' = [StartTag (map ascii_fold name) []; EndOfFile].
Proof.
  intros Hne Hall. destruct name as [|c name]; [done|].
  apply Forall_cons in Hall as [Hc Hall].
  set (t := set_token_handler _ _ _).
  replace (length (c :: name) + 3)%nat with (S (S (length name + 2)))
    by (cbn; lia).
  replace (length (c :: name) + 2)%nat with (S (S (length name + 1)))
    by (cbn; lia).
  (* the data state reads the [<] *)
  destruct (data_lt entities t [] (c :: name ++ [chr ">"]))
    as (t1 & E1 & Hs1 & Hm1 & Hi1 & Hh1 & Hp1 & Hc1); try done.
  cbn [run_loop]. rewrite E1. cbn [mbind result_bind].
  (* the tag open state reads the first letter *)
  destruct (tag_open_letter entities t1 [chr "<"] c (name ++ [chr ">"]))
    as (t2 & E2 & Hs2 & Hi2 & Hn2 & Ha2 & Hy2 & Hh2 & Hp2 & Hc2);
    try done; try (by rewrite Hi1).
  rewrite E2. cbn [mbind result_bind].
  (* the tag name state reads the other letters *)
  rewrite (tag_name_letters entities [chr ">"] name
             [chr "<"; ascii_fold c] t2 2); try done;
    try (by rewrite Hi2).
  rewrite (tag_name_letters entities [chr ">"] name
             [chr "<"; ascii_fold c] t2 1); try done;
    try (by rewrite Hi2).
  set (t3 := named t2 _ _ _).
  (* and the [>] *)
  assert (H3s : state t3 = HUBBUB_TOKENISER_STATE_TAG_NAME) by exact Hs2.
  assert (H3b : buffer (input t3)
                = (chr "<" :: ascii_fold c :: map ascii_fold name)
                  ++ [chr ">"]) by reflexivity.
  assert (H3c : cursor (input t3)
                = length (chr "<" :: ascii_fold c :: map ascii_fold name))
    by (subst t3; cbn; rewrite length_map; lia).
  assert (H3h : token_handler t3 = Some h)
    by (subst t3; cbn; by rewrite Hh2, Hh1).
  assert (H3n : n_attributes (current_tag (context t3)) = 0) by exact Ha2.
  destruct (tag_name_gt entities t3 h
              (chr "<" :: ascii_fold c :: map ascii_fold name) []
              H3s H3b H3c H3h H3n)
    as (t4 & E4 & Hs4 & Hi4 & Hh4 & Hp4 & Hc4).
  cbn [run_loop]. rewrite E4. cbn [mbind result_bind].
  (* the data state meets the end of the document *)
  destruct (data_eof entities t4 h) as (t5 & E5 & Hi5 & Hc5); try done.
  { rewrite Hi4. cbn. rewrite length_app. cbn. lia. }
  { rewrite Hi4. cbn. by rewrite Hi2, Hi1. }
  rewrite E5. cbn [mbind result_bind].
  exists t5. split; [reflexivity|]. split; [reflexivity|]. split.
  - rewrite Hi5, Hi4. reflexivity.
  - assert (H3k : calls t3 = [])
      by (subst t3; cbn; by rewrite Hc2, Hc1).
    assert (H3m : tag_name (current_tag (context t3))
                  = mk_string 1 (1 + Z.of_nat (length name)))
      by (subst t3; cbn; by rewrite Hn2).
    assert (H3y : current_tag_type (context t3) = HUBBUB_TOKEN_START_TAG)
      by exact Hy2.
    unfold emitted. rewrite Hc5, Hc4, H3k, H3b.
    cbn [app omap list_omap view_call]. unfold view_token.
    cbn [token_type token_data]. rewrite H3y. f_equal. f_equal.
    + unfold span_bytes, range_bytes. rewrite H3m. cbn [data_off len].
      replace (Z.to_nat (1 + Z.of_nat (length name)))
        with (length (ascii_fold c :: map ascii_fold name))
        by (cbn; rewrite length_map; lia).
      change (Z.to_nat 1) with 1%nat. cbn [drop app].
      change (ascii_fold c :: map ascii_fold name ++ [chr ">"])
        with ((ascii_fold c :: map ascii_fold name) ++ [chr ">"]).
      by rewrite take_app_length.
    + unfold attribute_views. by rewrite H3n.
Qed.

Lemma start_tag_name_lower_cased_witness :
  exists t',
    run_loop sample_entities 6
      (set_token_handler (Some 1%nat) 0
         (hubbub_tokeniser_create
            (mk_stream (start_tag_document (bytes_of_string "Div")) 0
               true)))
    = Ok t'
    /\ run_loop sample_entities 5
         (set_token_handler (Some 1%nat) 0
            (hubbub_tokeniser_create
               (mk_stream (start_tag_document (bytes_of_string "Div")) 0
                  true)))
       = Timeout
    /\ buffer (input t') = bytes_of_string "<div>"
    /\ emitted t' = [StartTag (bytes_of_string "div") []; EndOfFile].
Proof.
  refine (start_tag_name_lower_cased sample_entities 1 0
            (bytes_of_string "Div") _ _).
  - discriminate.
  - repeat constructor.
Defined.
